(* ===== verification/_CoqProject ===== *)
-Q . S2P
Prelude.v
Messages.v
Order.v
LevelBitmap.v
Pool.v
PriceLevel.v
OrderHandle.v
OrderBook.v
BookSpec.v
BookInv.v
BookMatch.v
BookRefine.v
BookLaws.v
BookAbs.v
BookProps.v
BookSession.v
Spsc.v
SpscWeak.v
Sink.v
Codec.v
Session.v
Shard.v
ShardWork.v
ShardInv.v
ReportTypes.v
ShardProps.v
ShardTokens.v
ShardDrain.v
Market.v
ShardMarket.v
ShardRouter.v
Findings.v
Util.v
Harness.v
BenchLatency.v
BenchBreakdown.v
BenchScaling.v
BenchScalingRun.v
BenchGateway.v
Kernel.v
Gateway.v
GatewayInv.v
GatewayProps.v
Exchange.v
System.v
SystemMarket.v
Clients.v
GatewayFindings.v
UringGateway.v
UringInv.v
UringProps.v
UringSystem.v
UringMarket.v
BenchServer.v
BenchLoad.v
BenchClient.v
