(* ===== verification/Prelude.v ===== *)
(** * Lite-Exchange: a verified model of the exchange engine

    This library models the header-only C++ engine under [src/include/lx] and
    the benchmarks that drive it under [src/bench], and proves what makes them
    correct.  This first file holds the documentation of
    the whole development and the vocabulary all its files share.

    ** The program and its parts

    A gateway thread owns the client sockets.  It receives bytes, cuts them
    into frames, stamps each request with the session of its connection and
    pushes it into the inbound ring of one shard: new orders by symbol,
    cancels by the shard number in their token.  Each shard is a thread with
    two rings, a set of order books (one per symbol it hosts) and one arena of
    order slots that its books share.  It pops a request, matches or cancels,
    and pushes acknowledgements, rejections and fills into its outbound ring,
    from which the gateway sends them to the sessions they are stamped with.

    ** Which file models what

    - [Messages] ([proto/messages.hpp]): enumerations, structs, their byte
      layout as a [Codec], the two message unions.
    - [Codec] ([proto/codec.hpp]): [tryDecode].
    - [Order], [LevelBitmap], [Pool], [PriceLevel] ([book/order.hpp],
      [level_bitmap.hpp], [pool.hpp], [price_level.hpp]): the parts of a book.
    - [OrderHandle], [OrderBook] ([book/order_book.hpp]): tokens; construction,
      [add_order] with [match], [cancel_order], best prices.  The arena is
      borrowed from the shard, so it is passed in and out.
    - [BookSpec]: the reference book, each side one list in price-time
      priority.  [BookInv]: the representation invariant ([book_rel]).
      [BookMatch], [BookRefine]: the loops and operations implement the
      reference.  [BookLaws]: laws of the reference.  [BookAbs]: the
      abstraction function, so that [book_wf] needs no reference book.
      [BookProps], [BookSession]: the guarantees of a book and of its handles.
    - [Spsc] ([queue/spsc.hpp]): the ring, run alone and interleaved.
      [SpscWeak]: its loads and stores with their memory orders on a machine
      where a load may return an old value.
    - [Sink]: the queue interface [Session::consume] is written against; the
      ring, the router and the rings of the gateway are its instances.
    - [Session] ([net/session.hpp]): receive buffer and parser.
    - [Shard] ([engine/shard.hpp]); [ShardWork]: [tick] as the work on a request
      and the pushes of its reports, and the thread of a shard that goes
      through them one by one; [ShardInv], [ShardProps]: its invariant and
      guarantees; [ReportTypes]: the types of its reports.  [ShardTokens]: a
      shard over its whole life, with the cancel tokens its clients hold.
      [ShardDrain]: schedules under which it serves all it was sent.
      [Market]: what a shard promises over its life, a machine of reference
      books that takes one request after the other, and the laws of its runs.
      [ShardMarket]: a shard implements it, with the cancel tokens for tags.
      [ShardRouter] ([engine/shard_router.hpp, shard_set.hpp]).
    - [Kernel]: the socket calls as an interface with laws, and a simulated
      kernel.  [Gateway], [GatewayInv], [GatewayProps] ([net/gateway.hpp]).
    - [UringGateway], [UringInv], [UringProps] ([net/uring_gateway.hpp]), with
      liburing as an interface with laws and a simulated ring.
    - [Exchange]: one order through gateway, shard and back.  [System]: the
      gateway and its shards as one transition system.  [SystemMarket]: it
      implements one market per shard.  [Clients]: what is written to the
      sockets is what these markets report.  [UringSystem], [UringMarket]: the
      same for the io_uring gateway and its shard, up to the reports drained.
    - [Util] ([util/huge_page.hpp], [cache.hpp], [affinity.hpp], [tsc.hpp]).
    - [Harness]: a shard as the benchmarks see it, and progress of closed
      loops.  [BenchLatency], [BenchBreakdown] ([bench/latency.cc],
      [latency_breakdown.cc]): the threads of a benchmark as a transition
      system.  [BenchScaling], [BenchScalingRun] ([shard_scaling.cc]): its load
      and one shard under it, then its threads with their shutdown.  [BenchGateway] ([bench/gateway_latency.cc],
      [gateway_throughput.cc]): the loads of the gateway benchmarks.
      [BenchServer]: the gateway's and the shard's threads of these programs,
      over a server that [System] with [SystemMarket] is one of and
      [UringSystem] with [UringMarket] another.  [BenchLoad]
      ([gateway_throughput.cc]), [BenchClient] ([gateway_latency.cc],
      [gateway_latency_uring.cc]): their clients beside these threads.
    - [Findings], [GatewayFindings]: runs in which the code does less than it
      says.

    Definitions keep the names of the source; fields end in [_] where the C++
    members do.  Template parameters ([MAX_ORDERS], [LADDER_SIZE], ring depth,
    [ShardConfig], number of shards) are parameters of the definitions.

    ** How it is modelled

    A [w]-bit integer is a [Z] with its wrap-around written out; signed 64-bit
    overflow is an error.  Arrays are lists, and every access outside them is
    an error, as are failed assertions and division by zero ([res], [err]
    below): a theorem that an operation returns [Ok] says that it has no
    undefined behaviour.  A busy wait that only another thread can end is
    [Spin].  Loops that are not structural run on fuel; the theorems show that
    the fuel is never used up: [2 + LADDER_SIZE] rounds of the outer matching
    loop (each empties a level or ends), [max_fills + 1] of the inner one, one
    round per word in a bitmap scan, 513 frames in a receive buffer of 4096
    bytes, [queue_depth + 1] pops of a ring, [len + 1] sends of a frame, and
    for the loops of the gateway that end with the kernel's input any number
    above that input.

    Threads: the ring is shown correct under every interleaving of the loads
    and stores of its two threads, first with sequentially consistent memory,
    then with the release and acquire orders of the code on a view machine
    ([SpscWeak] says which).  Above that an access to a ring is atomic.  A
    turn of a shard's thread is the work on one request or one attempt to push
    a report, so that a thread may wait in the middle of its reports;
    [ShardTokens], [ShardDrain] and [ShardMarket] interleave turns with single
    pushes and pops of whoever is at the other end of the rings; [System],
    [UringSystem] and [BenchScalingRun] with polls of the gateway, what clients
    do and the loops of a driver.  A poll of a gateway is one step, and so are a [tick] and a round
    of a driver's loop in [BenchLatency] and [BenchGateway]: there a [tick] that
    has to wait for room is a step that is not taken yet, which happens only on
    a full outbound ring.

    ** What the theorems show

    - Book: [add_order] and [cancel_order] terminate without undefined
      behaviour and implement the reference book; price-time priority,
      conservation of quantity, limit prices, an uncrossed book, immediate or
      cancel, best prices; handles are safe over every session of fewer than
      [2^32] operations.
    - Parts: the bitmap scans equal a linear walk, a level is a FIFO, the
      arena hands out a slot once, tokens are unambiguous, the wire format
      round-trips, the ring is a bounded FIFO also when its counters wrap, and
      its memory orders are enough and all needed.
    - Shard: construction, the reports of every kind of request, and that no
      sequence of requests with unforged tokens and prices that do not
      overflow brings it down, however full its rings are; [tick] equals the
      turns of the thread; every report is well typed; a shard whose
      reports are taken serves everything it was sent; and over its whole life
      it implements a market ([shard_refines]): the reports that come out are
      those of reference books that took the requests in their order, none lost,
      repeated, reordered or made up.
    - Session, router, gateways: the parser is exact over every queue,
      requests reach the shard they belong to in order, reports reach their
      client and nobody else, the tables of the gateway stay consistent, no
      descriptor leaks, and the io_uring gateway keeps account of every
      request and buffer it shares with the kernel.
    - Exchange: on an idle exchange an order is served end to end, and no
      interleaving of polls and turns with clients that hold to their tokens
      and prices that do not overflow brings the exchange down, over epoll or
      over io_uring.  Every run of it with such clients is a run of one market
      per shard ([exchange_refines], [uring_exchange_refines]), a client's socket
      carries the frames of these markets' reports for its session and nothing
      else ([clients_see_markets]), and nobody is told of more trades than they
      asked for ([no_overfill]).
    - Benchmarks: under every interleaving of their threads they exercise the
      engine as they say (every sell rests and is filled by its buy, every order
      of the gateway streams rests, arenas stay at a steady state), measure the
      intervals they name, never deadlock on full rings, and end.  For the
      programs around the gateways this holds whatever [connect], [send] and
      [recv] return to the clients; that every order was acknowledged within its
      interval holds when no [recv] failed.
    - Findings: forged tokens, aliased and off-tick prices, the fill limit,
      orders dropped in silence, bytes lost by a full receive buffer, a frame
      that is not retried, reports out of order, a rate computed from fewer
      orders than were sent, from orders that were never matched or without any
      connection, a benchmark that ends in
      [std::terminate] when it cannot connect.

    ** What is not modelled

    Of the benchmarks the histogram library, floating-point rates, thread
    pinning and printing; the tests and the build.  Between the clients' sockets
    of [BenchLoad] and [BenchClient] and those of the gateway there is no model
    of the network: that orders arrive whole and at most once ([arrives]) and that
    no more bytes come back than the gateway has drained ([input_ok]) are
    assumptions of their steps; that the gateway then drains only acknowledgements
    of these orders is proved.  The destructors that run at the end of [main] are
    in [Gateway] and [UringGateway].

    [get_sqe] of the io_uring gateway tries until there is a free entry; the model
    tries twice, and [UringInv.get_sqe_calm] asks of liburing that a submit frees
    an entry.  That holds where the kernel consumes the entries of a submit at
    once; with a kernel thread that polls the queue ([sqpoll]) liburing does not
    promise it, so there the theorems are about runs in which that thread keeps
    up.  The flags [running_], [go] and [ready] of the programs
    are read and written atomically.  The bytes of an outbound message beyond the
    member it was written through are never sent, so they are not part of the
    model. *)

From stdpp Require Export base list numbers option sorting sets.
From Stdlib Require Export ZArith Lia.

#[export] Set Default Goal Selector "!".
Open Scope Z_scope.

(** ** Machine integers

    A [w]-bit unsigned integer of the code is a [Z] kept in [0, 2^w); the
    conversions below are C++'s modular conversions. *)

Definition wrapU (w z : Z) : Z := z mod 2 ^ w.
Definition wrapS (w z : Z) : Z := (z + 2 ^ (w - 1)) mod 2 ^ w - 2 ^ (w - 1).

Abbreviation u8 := (wrapU 8).
Abbreviation u16 := (wrapU 16).
Abbreviation u32 := (wrapU 32).
Abbreviation u64 := (wrapU 64).
Abbreviation i32 := (wrapS 32).
Abbreviation i64 := (wrapS 64).

Definition UINT32_MAX : Z := 4294967295.
Definition UINT16_MAX : Z := 65535.
Definition INT64_MIN : Z := -9223372036854775808.
Definition INT64_MAX : Z := 9223372036854775807.

Definition is_u (w z : Z) : Prop := 0 <= z < 2 ^ w.
Definition is_i64 (z : Z) : Prop := INT64_MIN <= z <= INT64_MAX.

(** ** Results

    Every operation of the model returns a [res]: either its value or the way
    in which the C++ execution stops being defined.  [Spin] is a busy wait
    that only another thread can end, [OutOfFuel] the model's own bound on a
    loop, which the theorems show is never reached. *)

Inductive err : Type :=
| OutOfBounds
| SignedOverflow
| DivByZero
| AssertFail
| Spin
| OutOfFuel.

Inductive res (A : Type) : Type :=
| Ok (a : A)
| Err (e : err).
Arguments Ok {A} a.
Arguments Err {A} e.

#[export] Instance err_eq_dec : EqDecision err.
Proof. solve_decision. Defined.

#[export] Instance res_ret : MRet res := fun A a => Ok a.
#[export] Instance res_bind : MBind res := fun A B f m =>
  match m with Ok a => f a | Err e => Err e end.
#[export] Instance res_fmap : FMap res := fun A B f m =>
  match m with Ok a => Ok (f a) | Err e => Err e end.

(** C++ [assert]. *)
Definition assert_ (b : bool) : res unit := if b then Ok tt else Err AssertFail.

(** Signed 64-bit arithmetic is undefined on overflow; division truncates. *)
Definition i64_checked (z : Z) : res Z :=
  if (INT64_MIN <=? z) && (z <=? INT64_MAX) then Ok z else Err SignedOverflow.
Definition i64_sub (a b : Z) : res Z := i64_checked (a - b).
Definition i64_add (a b : Z) : res Z := i64_checked (a + b).
Definition i64_mul (a b : Z) : res Z := i64_checked (a * b).
Definition i64_div (a b : Z) : res Z :=
  if b =? 0 then Err DivByZero else i64_checked (Z.quot a b).

(** ** Arrays

    A C array is a list indexed by [Z]; reading or writing outside it is
    undefined behaviour. *)

Definition zlen {A} (l : list A) : Z := Z.of_nat (length l).

Definition in_range {A} (l : list A) (i : Z) : bool := (0 <=? i) && (i <? zlen l).

#[export] Instance list_lookupZ {A} : Lookup Z A (list A) := fun i l =>
  if in_range l i then l !! Z.to_nat i else None.
#[export] Instance list_insertZ {A} : Insert Z A (list A) := fun i x l =>
  if in_range l i then <[Z.to_nat i := x]> l else l.

Definition aget {A} (l : list A) (i : Z) : res A :=
  match l !! i with Some x => Ok x | None => Err OutOfBounds end.
Definition aset {A} (l : list A) (i : Z) (x : A) : res (list A) :=
  match l !! i with Some _ => Ok (<[i := x]> l) | None => Err OutOfBounds end.

(** [memcpy(dst + off, src, n)], and the [n] bytes at [buf + off]. *)
Definition bytes_at (buf : list Z) (off n : Z) : res (list Z) :=
  if (0 <=? off) && (0 <=? n) && (off + n <=? zlen buf)
  then Ok (take (Z.to_nat n) (drop (Z.to_nat off) buf)) else Err OutOfBounds.
Definition memcpy (dst : list Z) (off : Z) (src : list Z) (n : Z) : res (list Z) :=
  src ← bytes_at src 0 n;
  if (0 <=? off) && (off + n <=? zlen dst)
  then Ok (take (Z.to_nat off) dst ++ src ++ drop (Z.to_nat (off + n)) dst) else Err OutOfBounds.

(** ** Lemmas on machine integers *)

Create HintDb lx discriminated.
Create Rewrite HintDb lx.

Lemma wrapU_small w z : 0 <= z < 2 ^ w -> wrapU w z = z.
Proof. apply Z.mod_small. Qed.

Lemma wrapU_bound w z : 0 <= w -> 0 <= wrapU w z < 2 ^ w.
Proof. intros. apply Z.mod_pos_bound. lia. Qed.

Lemma wrapU_add_l w a b : wrapU w (wrapU w a + b) = wrapU w (a + b).
Proof. apply Zplus_mod_idemp_l. Qed.

Lemma wrapU_sub_l w a b : wrapU w (wrapU w a - b) = wrapU w (a - b).
Proof. apply Zminus_mod_idemp_l. Qed.

Lemma wrapU_sub_r w a b : wrapU w (a - wrapU w b) = wrapU w (a - b).
Proof. apply Zminus_mod_idemp_r. Qed.

Lemma wrapU_idemp w a : wrapU w (wrapU w a) = wrapU w a.
Proof. apply Zmod_mod. Qed.

Lemma wrapS_small w z : 0 < w -> - 2 ^ (w - 1) <= z < 2 ^ (w - 1) -> wrapS w z = z.
Proof.
  intros Hw Hz. unfold wrapS.
  assert (2 ^ w = 2 * 2 ^ (w - 1)) as ->
    by (rewrite <- Z.pow_succ_r by lia; f_equal; lia).
  rewrite Z.mod_small; lia.
Qed.

(** Packing a low field next to a shifted one. *)
Lemma lor_low a b w : 0 <= w -> 0 <= b < 2 ^ w -> Z.lor (a * 2 ^ w) b = a * 2 ^ w + b.
Proof.
  intros Hw Hb. rewrite <- Z.add_lor_land. assert (Z.land (a * 2 ^ w) b = 0) as ->; [|lia].
  apply Z.bits_inj'. intros i Hi. rewrite Z.land_spec, Z.bits_0. destruct (Z.ltb_spec i w).
  - by rewrite Z.mul_pow2_bits_low.
  - rewrite andb_comm, <- (Z.mod_small b (2 ^ w)) by done. by rewrite Z.mod_pow2_bits_high by lia.
Qed.

Lemma i64_checked_Ok z : is_i64 z -> i64_checked z = Ok z.
Proof.
  unfold is_i64, i64_checked. intros [H1 H2].
  apply Z.leb_le in H1, H2. by rewrite H1, H2.
Qed.

(** ** Lemmas on arrays *)

Section arrays.
Context {A : Type}.
Implicit Types (l : list A) (x y : A) (i j : Z).

Lemma in_range_spec l i : in_range l i = true <-> 0 <= i < zlen l.
Proof. unfold in_range. rewrite andb_true_iff, Z.leb_le, Z.ltb_lt. done. Qed.

Lemma in_range_false l i : in_range l i = false <-> ~ (0 <= i < zlen l).
Proof. rewrite <- in_range_spec. by destruct (in_range l i). Qed.

Lemma lookupZ_nat l i : 0 <= i -> l !! i = l !! Z.to_nat i.
Proof.
  intros. unfold lookup at 1, list_lookupZ. destruct (in_range l i) eqn:E; [done|].
  apply in_range_false in E. unfold zlen in E.
  symmetry. apply lookup_ge_None. lia.
Qed.

Lemma insertZ_nat l i x : 0 <= i -> <[i := x]> l = <[Z.to_nat i := x]> l.
Proof.
  intros. unfold insert at 1, list_insertZ. destruct (in_range l i) eqn:E; [done|].
  apply in_range_false in E. unfold zlen in E.
  symmetry. apply list_insert_ge. lia.
Qed.

Lemma insertZ_neg l i x : i < 0 -> <[i := x]> l = l.
Proof.
  intros. unfold insert, list_insertZ. by rewrite (proj2 (in_range_false l i)) by lia.
Qed.

Lemma lookupZ_of_nat l (n : nat) : l !! Z.of_nat n = l !! n.
Proof. rewrite lookupZ_nat by lia. by rewrite Nat2Z.id. Qed.

Lemma lookupZ_neg l i : i < 0 -> l !! i = None.
Proof.
  intros. unfold lookup, list_lookupZ. by rewrite (proj2 (in_range_false l i)) by lia.
Qed.

Lemma lookupZ_range l i x : l !! i = Some x -> 0 <= i < zlen l.
Proof.
  destruct (Z.ltb_spec i 0).
  - by rewrite lookupZ_neg.
  - rewrite lookupZ_nat by lia. intros ?%lookup_lt_Some. unfold zlen. lia.
Qed.

Lemma lookupZ_is_Some l i : 0 <= i < zlen l -> is_Some (l !! i).
Proof.
  unfold zlen. intros. rewrite lookupZ_nat by lia. apply lookup_lt_is_Some. lia.
Qed.

Lemma elem_of_lookupZ l i x : l !! i = Some x -> x ∈ l.
Proof.
  intros H. pose proof (lookupZ_range _ _ _ H). rewrite lookupZ_nat in H by lia. by eapply list_elem_of_lookup_2.
Qed.

Lemma lookupZ_None l i : ~ (0 <= i < zlen l) -> l !! i = None.
Proof.
  intros H. destruct (l !! i) eqn:E; [|done]. by apply lookupZ_range in E.
Qed.

Lemma zlen_insertZ l i x : zlen (<[i := x]> l) = zlen l.
Proof.
  unfold zlen, insert, list_insertZ. destruct (in_range l i); [|done].
  by rewrite length_insert.
Qed.

Lemma lookupZ_insertZ_eq l i x : 0 <= i < zlen l -> <[i := x]> l !! i = Some x.
Proof.
  unfold zlen. intros. rewrite lookupZ_nat, insertZ_nat by lia.
  apply list_lookup_insert_eq. lia.
Qed.

Lemma lookupZ_insertZ_ne l i j x : i <> j -> <[i := x]> l !! j = l !! j.
Proof.
  intros. destruct (Z.ltb_spec j 0); [by rewrite !lookupZ_neg|].
  destruct (Z.ltb_spec i 0); [by rewrite insertZ_neg|].
  rewrite !lookupZ_nat, insertZ_nat by lia. apply list_lookup_insert_ne. lia.
Qed.

Lemma lookupZ_insertZ l i j x :
  0 <= i < zlen l -> <[i := x]> l !! j = if decide (i = j) then Some x else l !! j.
Proof.
  intros. case_decide; subst; [by apply lookupZ_insertZ_eq|by apply lookupZ_insertZ_ne].
Qed.

Lemma insertZ_id l i x : l !! i = Some x -> <[i := x]> l = l.
Proof.
  intros H. pose proof (lookupZ_range _ _ _ H). rewrite lookupZ_nat in H by lia.
  rewrite insertZ_nat by lia. by apply list_insert_id.
Qed.

Lemma insertZ_insertZ l i x y : <[i := x]> (<[i := y]> l) = <[i := x]> l.
Proof.
  destruct (Z.ltb_spec i 0); [by rewrite !insertZ_neg|].
  rewrite !insertZ_nat by lia. apply list_insert_insert_eq.
Qed.

Lemma aget_Ok l i x : l !! i = Some x -> aget l i = Ok x.
Proof. unfold aget. by intros ->. Qed.

Lemma aset_Ok l i x : 0 <= i < zlen l -> aset l i x = Ok (<[i := x]> l).
Proof. intros [y Hy]%lookupZ_is_Some. unfold aset. by rewrite Hy. Qed.

Lemma aset_Some l i x y : l !! i = Some y -> aset l i x = Ok (<[i := x]> l).
Proof. unfold aset. by intros ->. Qed.

Lemma listZ_eq l k :
  zlen l = zlen k -> (forall i, 0 <= i < zlen l -> l !! i = k !! i) -> l = k.
Proof.
  unfold zlen. intros Hl Hi. apply list_eq. intros n.
  destruct (decide (n < length l)%nat).
  - rewrite <- !lookupZ_of_nat. apply Hi. lia.
  - rewrite !lookup_ge_None_2; [done|lia|lia].
Qed.

End arrays.

Lemma lookupZ_replicate {A} (x : A) n i :
  0 <= i < Z.of_nat n -> replicate n x !! i = Some x.
Proof. intros. rewrite lookupZ_nat by lia. apply lookup_replicate_2. lia. Qed.

Lemma zlen_replicate {A} (x : A) n : zlen (replicate n x) = Z.of_nat n.
Proof. unfold zlen. by rewrite length_replicate. Qed.

Lemma zlen_nil {A} : zlen (@nil A) = 0.
Proof. done. Qed.

Lemma zlen_cons {A} (x : A) l : zlen (x :: l) = 1 + zlen l.
Proof. unfold zlen. simpl. lia. Qed.

Lemma zlen_app {A} (l k : list A) : zlen (l ++ k) = zlen l + zlen k.
Proof. unfold zlen. rewrite length_app. lia. Qed.

Lemma zlen_nonneg {A} (l : list A) : 0 <= zlen l.
Proof. unfold zlen. lia. Qed.

Lemma Forall_insertZ {A} (P : A -> Prop) (l : list A) i x : Forall P l -> P x -> Forall P (<[i := x]> l).
Proof. intros Hl Hx. unfold insert, list_insertZ. case_match; [|done]. by apply Forall_insert. Qed.

Lemma nil_of_zlen {A} (l : list A) : zlen l <= 0 -> l = [].
Proof. destruct l; [done|]. unfold zlen. simpl. lia. Qed.

(** A part that is as long as the whole. *)
Lemma sublist_full {A} (l1 l2 : list A) : l1 `sublist_of` l2 -> (length l2 <= length l1)%nat -> l1 = l2.
Proof.
  induction 1 as [|x l1 l2 _ IH|x l1 l2 Hs _]; intros HL; simpl in *; [done|f_equal; apply IH; lia|].
  apply sublist_length in Hs. lia.
Qed.

Lemma zlen_fmap {A B} (f : A -> B) (l : list A) : zlen (f <$> l) = zlen l.
Proof. unfold zlen. by rewrite length_fmap. Qed.

Lemma lookupZ_fmap {A B} (f : A -> B) (l : list A) (i : Z) : (f <$> l) !! i = f <$> (l !! i).
Proof.
  destruct (decide (0 <= i)).
  - rewrite !lookupZ_nat by done. apply list_lookup_fmap.
  - by rewrite !lookupZ_neg by lia.
Qed.

Lemma omap_seqZ {A} (l : list A) : omap (fun i => l !! i) (seqZ 0 (zlen l)) = l.
Proof.
  assert (Hk : forall k, omap (fun i => l !! (i - k)) (seqZ k (zlen l)) = l).
  { induction l as [|x l IH]; intros k; [done|]. rewrite zlen_cons, seqZ_cons by (pose proof (zlen_nonneg l); lia).
    cbn [omap list_omap]. replace (k - k) with 0 by lia. cbn. f_equal.
    replace (Z.pred (1 + zlen l)) with (zlen l) by lia. rewrite <- (IH (Z.succ k)) at 2.
    apply list_omap_ext, Forall_Forall2_diag, Forall_seqZ. intros i Hi. rewrite !lookupZ_nat by lia.
    replace (Z.to_nat (i - k)) with (S (Z.to_nat (i - Z.succ k))) by lia. done. }
  rewrite <- (Hk 0) at 2. apply list_omap_ext, Forall_Forall2_diag, Forall_true. intros i. by rewrite Z.sub_0_r.
Qed.

Lemma lookupZ_app_l {A} (l k : list A) i : i < zlen l -> (l ++ k) !! i = l !! i.
Proof.
  intros Hi. destruct (Z.lt_ge_cases i 0) as [Hn|Hn].
  - destruct ((l ++ k) !! i) eqn:E1; [apply lookupZ_range in E1; lia|].
    destruct (l !! i) eqn:E2; [apply lookupZ_range in E2; lia|done].
  - rewrite !lookupZ_nat by lia. apply lookup_app_l. unfold zlen in Hi. lia.
Qed.

Lemma lookupZ_app_r {A} (l k : list A) i : zlen l <= i -> (l ++ k) !! i = k !! (i - zlen l).
Proof.
  intros Hi. pose proof (zlen_nonneg l). rewrite !lookupZ_nat by lia.
  rewrite lookup_app_r by (unfold zlen in Hi; lia). f_equal. unfold zlen. lia.
Qed.

Lemma bytes_at_Ok buf off n : 0 <= off -> 0 <= n -> off + n <= zlen buf ->
  bytes_at buf off n = Ok (take (Z.to_nat n) (drop (Z.to_nat off) buf)).
Proof.
  intros. unfold bytes_at. rewrite (proj2 (Z.leb_le 0 off)), (proj2 (Z.leb_le 0 n)) by done.
  by rewrite (proj2 (Z.leb_le (off + n) _)).
Qed.

Lemma memcpy_Ok dst off src n : 0 <= off -> 0 <= n <= zlen src -> off + n <= zlen dst ->
  memcpy dst off src n =
    Ok (take (Z.to_nat off) dst ++ take (Z.to_nat n) src ++ drop (Z.to_nat (off + n)) dst).
Proof.
  intros. unfold memcpy. rewrite bytes_at_Ok by lia. simpl. rewrite drop_0.
  rewrite (proj2 (Z.leb_le 0 off)) by done. by rewrite (proj2 (Z.leb_le (off + n) _)).
Qed.

Lemma zlen_take {A} (l : list A) n : 0 <= n <= zlen l -> zlen (take (Z.to_nat n) l) = n.
Proof. unfold zlen. rewrite length_take. lia. Qed.

Lemma zlen_drop {A} (l : list A) n : 0 <= n <= zlen l -> zlen (drop (Z.to_nat n) l) = zlen l - n.
Proof. unfold zlen. rewrite length_drop. lia. Qed.

Lemma filter_all {A} (P : A -> Prop) `{!forall x, Decision (P x)} (l : list A) : Forall P l -> filter P l = l.
Proof. induction 1 as [|x l Hx _ IH]; [done|]. by rewrite filter_cons_True, IH. Qed.

Lemma lookupZ_middle {A} (l1 : list A) x l2 : (l1 ++ x :: l2) !! zlen l1 = Some x.
Proof. unfold zlen. rewrite lookupZ_of_nat. by apply list_lookup_middle. Qed.

Lemma lookupZ_split {A} (l : list A) i x : l !! i = Some x ->
  exists l1 l2, l = l1 ++ x :: l2 /\ zlen l1 = i /\ forall y, <[i := y]> l = l1 ++ y :: l2.
Proof.
  intros H. pose proof (lookupZ_range _ _ _ H) as R. rewrite lookupZ_nat in H by lia.
  exists (take (Z.to_nat i) l), (drop (S (Z.to_nat i)) l).
  split; [by rewrite take_drop_middle|]. split; [apply zlen_take; lia|]. intros y.
  rewrite insertZ_nat by lia. apply insert_take_drop. unfold zlen in R. lia.
Qed.

(** What is at another place of a list than [x]. *)
Lemma lookupZ_elsewhere {A} (l1 : list A) x l2 j y : j <> zlen l1 -> (l1 ++ x :: l2) !! j = Some y -> y ∈ l1 ++ l2.
Proof.
  intros Hj Hy. apply elem_of_app. destruct (Z.lt_ge_cases j (zlen l1)).
  - left. rewrite lookupZ_app_l in Hy by done. by eapply elem_of_lookupZ.
  - right. rewrite lookupZ_app_r in Hy by done. pose proof (lookupZ_range _ _ _ Hy).
    rewrite lookupZ_nat in Hy by lia. destruct (Z.to_nat (j - zlen l1)) as [|m] eqn:Em; [lia|]. by eapply list_elem_of_lookup_2.
Qed.

#[export] Hint Rewrite @zlen_insertZ @zlen_replicate @zlen_nil @zlen_cons @zlen_app : lx.
#[export] Hint Resolve lookupZ_range lookupZ_is_Some aget_Ok aset_Ok : lx.

(** ** Tactics *)

(** Destruct the boolean conditions of the code into arithmetic facts. *)
Ltac bool_cases :=
  repeat match goal with
  | |- context [Z.eqb ?a ?b] => destruct (Z.eqb_spec a b)
  | |- context [Z.ltb ?a ?b] => destruct (Z.ltb_spec a b)
  | |- context [Z.leb ?a ?b] => destruct (Z.leb_spec a b)
  end.

(** Run an array access whose index is known to be in range. *)
Ltac arr :=
  repeat first
    [ rewrite aget_Ok by eassumption
    | rewrite aset_Ok by (autorewrite with lx in *; lia) ]; simpl.

(** ** Sums *)

Definition sumZ (l : list Z) : Z := foldr Z.add 0 l.

Lemma sum_insert {A} (f : A -> Z) (l : list A) i x y : l !! i = Some x ->
  sumZ (f <$> <[i := y]> l) = sumZ (f <$> l) - f x + f y.
Proof.
  intros Hi. destruct (lookupZ_split _ _ _ Hi) as (l1 & l2 & E & _ & Hins). rewrite Hins, E, !fmap_app, !fmap_cons.
  unfold sumZ. rewrite !foldr_app. cbn [foldr]. assert (Hacc : forall k z, foldr Z.add z (f <$> k) = foldr Z.add 0 (f <$> k) + z).
  { induction k as [|a k IH]; intros z; cbn; [lia|]. rewrite IH. lia. }
  rewrite (Hacc l1 (f y + _)), (Hacc l1 (f x + _)). lia.
Qed.

Lemma sum_const {A} (f : A -> Z) (l : list A) n : (forall i x, l !! (i : Z) = Some x -> f x = n) -> sumZ (f <$> l) = zlen l * n.
Proof.
  intros H. assert (HF : Forall (fun x => f x = n) l).
  { apply Forall_forall. intros x [i Hi]%list_elem_of_lookup. apply (H (Z.of_nat i)). by rewrite lookupZ_of_nat. }
  clear H. unfold sumZ. induction HF as [|x l Hx _ IH]; [done|]. rewrite fmap_cons, zlen_cons. cbn [foldr]. rewrite IH, Hx. lia.
Qed.

Lemma sum_nonneg {A} (f : A -> Z) (l : list A) : (forall i x, l !! i = Some x -> 0 <= f x) -> 0 <= sumZ (f <$> l).
Proof.
  intros H. unfold sumZ. assert (HF : Forall (fun x => 0 <= f x) l).
  { apply Forall_forall. intros x [i Hi]%list_elem_of_lookup. apply (H (Z.of_nat i)). by rewrite lookupZ_of_nat. }
  induction HF as [|x l Hx HF IH]; cbn; [lia|]. rewrite Forall_forall in HF. assert (0 <= foldr Z.add 0 (f <$> l)); [|lia].
  apply IH. intros i y Hi. apply HF. by eapply elem_of_lookupZ.
Qed.

Lemma sum_le {A} (f : A -> Z) (l : list A) n : Forall (fun x => f x <= n) l -> sumZ (f <$> l) <= zlen l * n.
Proof. unfold sumZ. induction 1 as [|x l Hx _ IH]; [done|]. rewrite fmap_cons, zlen_cons. cbn [foldr]. lia. Qed.

Lemma sum_full {A} (f : A -> Z) (l : list A) n : Forall (fun x => f x <= n) l -> zlen l * n <= sumZ (f <$> l) -> Forall (fun x => f x = n) l.
Proof.
  induction 1 as [|x l Hx HF IH]; [constructor|]. pose proof (sum_le f l n HF). rewrite fmap_cons, zlen_cons.
  unfold sumZ in *. cbn [foldr]. intros Hs. constructor; [lia|]. apply IH. lia.
Qed.

Lemma sum_app {A} (f : A -> Z) (l k : list A) : sumZ (f <$> l ++ k) = sumZ (f <$> l) + sumZ (f <$> k).
Proof. unfold sumZ. induction l as [|x l IH]; cbn; lia. Qed.

Lemma sum_cons {A} (f : A -> Z) x (l : list A) : sumZ (f <$> x :: l) = f x + sumZ (f <$> l).
Proof. done. Qed.

Lemma sum_mono {A} (f g : A -> Z) (l : list A) : Forall (fun x => f x <= g x) l -> sumZ (f <$> l) <= sumZ (g <$> l).
Proof. unfold sumZ. induction 1 as [|x l Hx _ IH]; cbn; lia. Qed.

Lemma sum_pos {A} (f : A -> Z) (l : list A) : Forall (fun x => 0 <= f x) l -> 0 <= sumZ (f <$> l).
Proof. unfold sumZ. induction 1 as [|x l Hx _ IH]; cbn; lia. Qed.

