(* ===== verification/Messages.v ===== *)
(** * Wire messages ([include/lx/proto/messages.hpp])

    The POD structs of the binary protocol, their enumerations (a C++ [enum
    class] with a fixed underlying type can hold every value of that type, so
    each enumeration has a [_raw] constructor for the other values) and their
    memory layout.  The layout is little-endian with the fields in
    declaration order and no padding, which is what the [static_assert]s of
    the header check; a layout is a [Codec], built from field codecs by
    pairing and by isomorphism, so that one pair of laws gives every round
    trip. *)

From S2P Require Import Prelude.

(** ** Enumerations *)

Inductive MsgType : Type :=
| LOGON
| NEW_ORDER
| CANCEL_ORDER
| ACK
| REJECT
| FILL
| MsgType_raw (b : Z).

Inductive Side : Type :=
| BUY
| SELL
| Side_raw (b : Z).

Inductive TimeInForce : Type :=
| GTC
| IOC
| TimeInForce_raw (b : Z).

Inductive RejectReason : Type :=
| UNKNOWN_SYMBOL
| INVALID_PRICE
| INVALID_QTY
| UNKNOWN_ORDER
| RejectReason_raw (b : Z).

#[export] Instance MsgType_eq_dec : EqDecision MsgType.
Proof. solve_decision. Defined.
#[export] Instance Side_eq_dec : EqDecision Side.
Proof. solve_decision. Defined.
#[export] Instance TimeInForce_eq_dec : EqDecision TimeInForce.
Proof. solve_decision. Defined.
#[export] Instance RejectReason_eq_dec : EqDecision RejectReason.
Proof. solve_decision. Defined.

Definition MsgType_to_u8 (t : MsgType) : Z :=
  match t with
  | LOGON => 0x01 | NEW_ORDER => 0x02 | CANCEL_ORDER => 0x03
  | ACK => 0x81 | REJECT => 0x82 | FILL => 0x83 | MsgType_raw b => b
  end.

Definition MsgType_of_u8 (b : Z) : MsgType :=
  if b =? 0x01 then LOGON else if b =? 0x02 then NEW_ORDER
  else if b =? 0x03 then CANCEL_ORDER else if b =? 0x81 then ACK
  else if b =? 0x82 then REJECT else if b =? 0x83 then FILL
  else MsgType_raw b.

Definition Side_to_u8 (s : Side) : Z :=
  match s with BUY => 0 | SELL => 1 | Side_raw b => b end.

Definition Side_of_u8 (b : Z) : Side :=
  if b =? 0 then BUY else if b =? 1 then SELL else Side_raw b.

Definition TimeInForce_to_u8 (t : TimeInForce) : Z :=
  match t with GTC => 0 | IOC => 1 | TimeInForce_raw b => b end.

Definition TimeInForce_of_u8 (b : Z) : TimeInForce :=
  if b =? 0 then GTC else if b =? 1 then IOC else TimeInForce_raw b.

Definition RejectReason_to_u8 (r : RejectReason) : Z :=
  match r with
  | UNKNOWN_SYMBOL => 0 | INVALID_PRICE => 1 | INVALID_QTY => 2
  | UNKNOWN_ORDER => 3 | RejectReason_raw b => b
  end.

Definition RejectReason_of_u8 (b : Z) : RejectReason :=
  if b =? 0 then UNKNOWN_SYMBOL else if b =? 1 then INVALID_PRICE
  else if b =? 2 then INVALID_QTY else if b =? 3 then UNKNOWN_ORDER
  else RejectReason_raw b.

(** ** Structs *)

Record Header : Type := mkHeader {
  hdr_len : Z;         (* uint16_t *)
  hdr_type : MsgType;
  hdr_flags : Z;       (* uint8_t *)
  hdr_session_id : Z   (* uint32_t *)
}.

Record Logon : Type := mkLogon {
  lg_hdr : Header;
  lg_padding : Z       (* uint64_t *)
}.

Record NewOrder : Type := mkNewOrder {
  no_hdr : Header;
  no_order_id : Z;     (* uint64_t *)
  no_price : Z;        (* int64_t *)
  no_qty : Z;          (* uint32_t *)
  no_symbol_id : Z;    (* uint16_t *)
  no_side : Side;
  no_tif : TimeInForce
}.

Record CancelOrder : Type := mkCancelOrder {
  co_hdr : Header;
  co_order_token : Z   (* uint64_t *)
}.

Record Ack : Type := mkAck {
  ack_hdr : Header;
  ack_order_id : Z;    (* uint64_t *)
  ack_order_token : Z  (* uint64_t *)
}.

Record Reject : Type := mkReject {
  rej_hdr : Header;
  rej_order_id : Z;    (* uint64_t *)
  rej_reason : RejectReason;
  rej_padding : Z      (* uint8_t[7], read as one 56-bit little-endian value *)
}.

Record Fill : Type := mkFill {
  fill_hdr : Header;
  fill_aggressor_id : Z; (* uint64_t *)
  fill_resting_id : Z;   (* uint64_t *)
  fill_price : Z;        (* int64_t *)
  fill_qty : Z;          (* uint32_t *)
  fill_padding : Z       (* uint32_t *)
}.

#[export] Instance Header_eq_dec : EqDecision Header.
Proof. solve_decision. Defined.
#[export] Instance Fill_eq_dec : EqDecision Fill.
Proof. solve_decision. Defined.
#[export] Instance Ack_eq_dec : EqDecision Ack.
Proof. solve_decision. Defined.
#[export] Instance Reject_eq_dec : EqDecision Reject.
Proof. solve_decision. Defined.
#[export] Instance NewOrder_eq_dec : EqDecision NewOrder.
Proof. solve_decision. Defined.

Definition set_session (h : Header) (sid : Z) : Header :=
  mkHeader (hdr_len h) (hdr_type h) (hdr_flags h) sid.

(** ** Memory layout *)

Record Codec (A : Type) : Type := mkCodec {
  csize : nat;
  cenc : A -> list Z;
  cdec : list Z -> A;
  cok : A -> Prop
}.
Arguments mkCodec {A}.
Arguments csize {A}.
Arguments cenc {A}.
Arguments cdec {A}.
Arguments cok {A}.

Fixpoint le_enc (n : nat) (z : Z) : list Z :=
  match n with O => [] | S n => z mod 256 :: le_enc n (z / 256) end.

Fixpoint le_dec (l : list Z) : Z :=
  match l with [] => 0 | b :: l => b + 256 * le_dec l end.

(** An unsigned integer of [n] bytes, and a two's complement one. *)
Definition c_u (n : nat) : Codec Z :=
  mkCodec n (le_enc n) (fun l => le_dec (take n l)) (is_u (8 * Z.of_nat n)).

Definition c_i64 : Codec Z :=
  mkCodec 8 (le_enc 8) (fun l => i64 (le_dec (take 8 l))) is_i64.

Definition c_pair {A B} (c : Codec A) (d : Codec B) : Codec (A * B) :=
  mkCodec (csize c + csize d)
    (fun p => cenc c p.1 ++ cenc d p.2)
    (fun l => (cdec c l, cdec d (drop (csize c) l)))
    (fun p => cok c p.1 /\ cok d p.2).

Definition c_iso {A B} (f : A -> B) (g : B -> A) (c : Codec A) : Codec B :=
  mkCodec (csize c) (fun b => cenc c (g b)) (fun l => f (cdec c l))
    (fun b => cok c (g b) /\ f (g b) = b).

Infix "*c*" := c_pair (at level 35, right associativity).

Definition c_MsgType : Codec MsgType := c_iso MsgType_of_u8 MsgType_to_u8 (c_u 1).
Definition c_Side : Codec Side := c_iso Side_of_u8 Side_to_u8 (c_u 1).
Definition c_TimeInForce : Codec TimeInForce :=
  c_iso TimeInForce_of_u8 TimeInForce_to_u8 (c_u 1).
Definition c_RejectReason : Codec RejectReason :=
  c_iso RejectReason_of_u8 RejectReason_to_u8 (c_u 1).

Definition c_Header : Codec Header :=
  c_iso (fun '(l, (t, (f, s))) => mkHeader l t f s)
        (fun h => (hdr_len h, (hdr_type h, (hdr_flags h, hdr_session_id h))))
        (c_u 2 *c* c_MsgType *c* c_u 1 *c* c_u 4).

Definition c_Logon : Codec Logon :=
  c_iso (fun '(h, p) => mkLogon h p) (fun m => (lg_hdr m, lg_padding m))
        (c_Header *c* c_u 8).

Definition c_NewOrder : Codec NewOrder :=
  c_iso (fun '(h, (i, (p, (q, (s, (d, t)))))) => mkNewOrder h i p q s d t)
        (fun m => (no_hdr m, (no_order_id m, (no_price m, (no_qty m,
                  (no_symbol_id m, (no_side m, no_tif m)))))))
        (c_Header *c* c_u 8 *c* c_i64 *c* c_u 4 *c* c_u 2 *c* c_Side *c* c_TimeInForce).

Definition c_CancelOrder : Codec CancelOrder :=
  c_iso (fun '(h, t) => mkCancelOrder h t) (fun m => (co_hdr m, co_order_token m))
        (c_Header *c* c_u 8).

Definition c_Ack : Codec Ack :=
  c_iso (fun '(h, (i, t)) => mkAck h i t)
        (fun m => (ack_hdr m, (ack_order_id m, ack_order_token m)))
        (c_Header *c* c_u 8 *c* c_u 8).

Definition c_Reject : Codec Reject :=
  c_iso (fun '(h, (i, (r, p))) => mkReject h i r p)
        (fun m => (rej_hdr m, (rej_order_id m, (rej_reason m, rej_padding m))))
        (c_Header *c* c_u 8 *c* c_RejectReason *c* c_u 7).

Definition c_Fill : Codec Fill :=
  c_iso (fun '(h, (a, (r, (p, (q, d))))) => mkFill h a r p q d)
        (fun m => (fill_hdr m, (fill_aggressor_id m, (fill_resting_id m,
                  (fill_price m, (fill_qty m, fill_padding m))))))
        (c_Header *c* c_u 8 *c* c_u 8 *c* c_i64 *c* c_u 4 *c* c_u 4).

Definition sizeof_Header : Z := Z.of_nat (csize c_Header).
Definition sizeof_NewOrder : Z := Z.of_nat (csize c_NewOrder).
Definition sizeof_CancelOrder : Z := Z.of_nat (csize c_CancelOrder).
Definition sizeof_Ack : Z := Z.of_nat (csize c_Ack).
Definition sizeof_Reject : Z := Z.of_nat (csize c_Reject).
Definition sizeof_Fill : Z := Z.of_nat (csize c_Fill).

(** ** The unions

    [InboundMsg] is read through [hdr] first and then through the member the
    type selects, whichever member was written: it is its 32 bytes, with one
    view per member.  [OutboundMsg] is written through one member and read
    back through [hdr] and as raw bytes. *)

Record InboundMsg : Type := mkInbound { in_raw : list Z }.

Definition in_hdr (m : InboundMsg) : Header := cdec c_Header (in_raw m).
Definition in_new_order (m : InboundMsg) : NewOrder := cdec c_NewOrder (in_raw m).
Definition in_cancel (m : InboundMsg) : CancelOrder := cdec c_CancelOrder (in_raw m).

(** [InboundMsg msg{}; memcpy(&msg.member, src, n)] for [n] bytes of [src]. *)
Definition in_memcpy (src : list Z) (n : nat) : InboundMsg :=
  mkInbound (take n src ++ replicate (csize c_NewOrder - n) 0).

(** [msg.hdr.session_id = sid] *)
Definition in_set_session (m : InboundMsg) (sid : Z) : InboundMsg :=
  mkInbound (cenc c_Header (set_session (in_hdr m) sid) ++ drop (csize c_Header) (in_raw m)).

Inductive OutboundMsg : Type :=
| out_ack (a : Ack)
| out_reject (r : Reject)
| out_fill (f : Fill).

#[export] Instance OutboundMsg_eq_dec : EqDecision OutboundMsg.
Proof. solve_decision. Defined.

Definition out_hdr (m : OutboundMsg) : Header :=
  match m with
  | out_ack a => ack_hdr a | out_reject r => rej_hdr r | out_fill f => fill_hdr f
  end.

Definition out_enc (m : OutboundMsg) : list Z :=
  match m with
  | out_ack a => cenc c_Ack a | out_reject r => cenc c_Reject r
  | out_fill f => cenc c_Fill f
  end.

(** ** Laws of a layout *)

Definition is_byte (b : Z) : Prop := 0 <= b < 256.

(** The 32 bytes of an inbound message. *)
Definition in_formed (m : InboundMsg) : Prop :=
  length (in_raw m) = csize c_NewOrder /\ Forall is_byte (in_raw m).

(** A report whose length field says how many bytes it has. *)
Definition out_wf (m : OutboundMsg) : Prop := hdr_len (out_hdr m) = zlen (out_enc m).

Class CodecLaws {A} (c : Codec A) : Prop := {
  length_enc : forall a, length (cenc c a) = csize c;
  bytes_enc : forall a, Forall is_byte (cenc c a);
  dec_app : forall l k, length l = csize c -> cdec c (l ++ k) = cdec c l;
  dec_enc : forall a, cok c a -> cdec c (cenc c a) = a;
  dec_ok : forall l, (csize c <= length l)%nat -> Forall is_byte l -> cok c (cdec c l);
  enc_dec : forall l, length l = csize c -> Forall is_byte l -> cenc c (cdec c l) = l
}.

Lemma length_le_enc n z : length (le_enc n z) = n.
Proof. revert z. induction n; intros; simpl; auto. Qed.

Lemma bytes_le_enc n z : Forall is_byte (le_enc n z).
Proof.
  revert z. induction n; intros; simpl; constructor; auto.
  apply Z.mod_pos_bound. lia.
Qed.

Lemma le_dec_enc n z : le_dec (le_enc n z) = z mod 2 ^ (8 * Z.of_nat n).
Proof.
  revert z. induction n as [|n IH]; intros z; simpl.
  - by rewrite Z.mod_1_r.
  - rewrite IH. replace (8 * Z.of_nat (S n)) with (8 + 8 * Z.of_nat n) by lia.
    rewrite Z.pow_add_r by lia. change (2 ^ 8) with 256.
    rewrite Z.rem_mul_r by lia. lia.
Qed.

Lemma le_enc_dec l : Forall is_byte l -> le_enc (length l) (le_dec l) = l.
Proof.
  induction 1 as [|b l Hb _ IH]; simpl; [done|].
  unfold is_byte in Hb. rewrite (Z.mul_comm 256 (le_dec l)).
  rewrite Z.mod_add, Z.mod_small, Z.div_add, Z.div_small by lia.
  rewrite Z.add_0_l. congruence.
Qed.

Lemma le_dec_bound l : Forall is_byte l -> 0 <= le_dec l < 2 ^ (8 * zlen l).
Proof.
  induction 1 as [|b l Hb _ IH]; simpl; [done|].
  rewrite zlen_cons, Z.mul_add_distr_l, Z.pow_add_r by (pose proof (zlen_nonneg l); lia).
  change (2 ^ (8 * 1)) with 256. unfold is_byte in Hb. lia.
Qed.

Lemma i64_mod z : i64 (z mod 2 ^ 64) = i64 z.
Proof. unfold wrapS. by rewrite Zplus_mod_idemp_l. Qed.

Lemma i64_range z : is_i64 (i64 z).
Proof.
  unfold is_i64, wrapS, INT64_MIN, INT64_MAX.
  pose proof (Z.mod_pos_bound (z + 2 ^ (64 - 1)) (2 ^ 64) ltac:(lia)).
  change (2 ^ (64 - 1)) with 9223372036854775808 in *.
  change (2 ^ 64) with 18446744073709551616 in *. lia.
Qed.

Lemma i64_eq_mod z : i64 z mod 2 ^ 64 = z mod 2 ^ 64.
Proof.
  unfold wrapS. rewrite Zminus_mod_idemp_l. f_equal. lia.
Qed.

Lemma i64_id z : is_i64 z -> i64 z = z.
Proof.
  unfold is_i64, INT64_MIN, INT64_MAX. intros. apply wrapS_small; [lia|].
  change (2 ^ (64 - 1)) with 9223372036854775808. lia.
Qed.

Lemma le_enc_mod n z : le_enc n (z mod 2 ^ (8 * Z.of_nat n)) = le_enc n z.
Proof.
  rewrite <- le_dec_enc.
  transitivity (le_enc (length (le_enc n z)) (le_dec (le_enc n z))).
  - by rewrite length_le_enc.
  - apply le_enc_dec, bytes_le_enc.
Qed.

#[export] Instance c_u_laws n : CodecLaws (c_u n).
Proof.
  split; simpl.
  - intros. apply length_le_enc.
  - intros. apply bytes_le_enc.
  - intros l k Hl. by rewrite !take_app_le, !take_ge by lia.
  - intros a Ha. rewrite take_ge by (by rewrite length_le_enc).
    rewrite le_dec_enc. by apply Z.mod_small.
  - intros l Hl Hb. unfold is_u.
    pose proof (le_dec_bound (take n l) (Forall_take _ _ _ Hb)) as H.
    unfold zlen in H. rewrite length_take_le in H by done. exact H.
  - intros l Hl Hb. rewrite take_ge by lia. rewrite <- Hl. by apply le_enc_dec.
Qed.

#[export] Instance c_i64_laws : CodecLaws c_i64.
Proof.
  split; cbn [csize cenc cdec cok c_i64].
  - intros. apply length_le_enc.
  - intros. apply bytes_le_enc.
  - intros l k Hl. by rewrite !take_app_le, !take_ge by lia.
  - intros a Ha. rewrite take_ge by (by rewrite length_le_enc).
    rewrite le_dec_enc. change (8 * Z.of_nat 8) with 64.
    rewrite i64_mod. by apply i64_id.
  - intros. apply i64_range.
  - intros l Hl Hb. rewrite take_ge by lia.
    rewrite <- (le_enc_mod 8). change (8 * Z.of_nat 8) with 64.
    rewrite i64_eq_mod. change 64 with (8 * Z.of_nat 8). rewrite le_enc_mod.
    rewrite <- Hl. by apply le_enc_dec.
Qed.

Lemma dec_prefix {A} (c : Codec A) `{!CodecLaws c} l :
  (csize c <= length l)%nat -> cdec c (take (csize c) l) = cdec c l.
Proof.
  intros Hl. rewrite <- (take_drop (csize c) l) at 2.
  by rewrite dec_app by (rewrite length_take; lia).
Qed.

#[export] Instance c_pair_laws {A B} (c : Codec A) (d : Codec B) :
  CodecLaws c -> CodecLaws d -> CodecLaws (c *c* d).
Proof.
  intros Hc Hd. split; simpl.
  - intros a. by rewrite length_app, !length_enc.
  - intros a. apply Forall_app_2; apply bytes_enc.
  - intros l k Hl. f_equal.
    + rewrite <- (dec_prefix c (l ++ k)) by (rewrite length_app; lia).
      rewrite take_app_le by lia. by rewrite (dec_prefix c) by lia.
    + rewrite drop_app_le by lia. rewrite (dec_app (c := d)); [done|rewrite length_drop; lia].
  - intros [a b] [Ha Hb]. simpl in *.
    rewrite dec_app, dec_enc by (try apply length_enc; done).
    rewrite drop_app_length' by (by rewrite length_enc). by rewrite dec_enc.
  - intros l Hl Hb. split; apply dec_ok.
    + lia.
    + done.
    + rewrite length_drop. lia.
    + by apply Forall_drop.
  - intros l Hl Hb. rewrite <- (dec_prefix c) by lia.
    rewrite !enc_dec.
    + apply take_drop.
    + rewrite length_drop. lia.
    + by apply Forall_drop.
    + rewrite length_take. lia.
    + by apply Forall_take.
Qed.

Lemma c_iso_laws {A B} (f : A -> B) (g : B -> A) (c : Codec A) :
  CodecLaws c -> (forall a, cok c a -> g (f a) = a) -> CodecLaws (c_iso f g c).
Proof.
  intros Hc Hgf. split; simpl.
  - intros. apply length_enc.
  - intros. apply bytes_enc.
  - intros. by rewrite dec_app.
  - intros b [Hb Hfg]. by rewrite dec_enc.
  - intros l Hl Hb. pose proof (dec_ok l Hl Hb) as H. rewrite (Hgf _ H). done.
  - intros l Hl Hb. rewrite Hgf by (apply dec_ok; auto with lia). by apply enc_dec.
Qed.

Ltac enum_laws := apply c_iso_laws; [apply _|];
  intros a _; match goal with |- _ (?f _) = _ => unfold f end; bool_cases; simpl; congruence.

#[export] Instance c_MsgType_laws : CodecLaws c_MsgType.
Proof. enum_laws. Qed.
#[export] Instance c_Side_laws : CodecLaws c_Side.
Proof. enum_laws. Qed.
#[export] Instance c_TimeInForce_laws : CodecLaws c_TimeInForce.
Proof. enum_laws. Qed.
#[export] Instance c_RejectReason_laws : CodecLaws c_RejectReason.
Proof. enum_laws. Qed.

Ltac struct_laws := apply c_iso_laws; [apply _|]; intros; by repeat case_match.

#[export] Instance c_Header_laws : CodecLaws c_Header.
Proof. struct_laws. Qed.
#[export] Instance c_Logon_laws : CodecLaws c_Logon.
Proof. struct_laws. Qed.
#[export] Instance c_NewOrder_laws : CodecLaws c_NewOrder.
Proof. struct_laws. Qed.
#[export] Instance c_CancelOrder_laws : CodecLaws c_CancelOrder.
Proof. struct_laws. Qed.
#[export] Instance c_Ack_laws : CodecLaws c_Ack.
Proof. struct_laws. Qed.
#[export] Instance c_Reject_laws : CodecLaws c_Reject.
Proof. struct_laws. Qed.
#[export] Instance c_Fill_laws : CodecLaws c_Fill.
Proof. struct_laws. Qed.

(** ** Stamping the session *)

Definition with_session (o : NewOrder) (sid : Z) : NewOrder :=
  mkNewOrder (set_session (no_hdr o) sid) (no_order_id o) (no_price o) (no_qty o)
    (no_symbol_id o) (no_side o) (no_tif o).

Definition cancel_with_session (c : CancelOrder) (sid : Z) : CancelOrder :=
  mkCancelOrder (set_session (co_hdr c) sid) (co_order_token c).

Section stamp.
Context (m : InboundMsg) (sid : Z).
Context (Hlen : (csize c_Header <= length (in_raw m))%nat) (Hb : Forall is_byte (in_raw m)) (Hsid : is_u 32 sid).

Lemma set_session_ok : cok c_Header (set_session (in_hdr m) sid).
Proof.
  destruct (dec_ok (c := c_Header) (in_raw m) Hlen Hb) as [(H1 & H2 & H3 & _) _].
  split; [|done]. exact (conj H1 (conj H2 (conj H3 Hsid))).
Qed.

Lemma stamp_hdr : cdec c_Header (in_raw (in_set_session m sid)) = set_session (in_hdr m) sid.
Proof.
  unfold in_set_session. cbn [in_raw]. rewrite (dec_app (c := c_Header)) by (by rewrite length_enc).
  apply (dec_enc (c := c_Header)), set_session_ok.
Qed.

Lemma stamp_tail : drop (csize c_Header) (in_raw (in_set_session m sid)) = drop (csize c_Header) (in_raw m).
Proof. unfold in_set_session. cbn [in_raw]. apply drop_app_length'. by rewrite length_enc. Qed.

Lemma in_hdr_stamp : in_hdr (in_set_session m sid) = set_session (in_hdr m) sid.
Proof. apply stamp_hdr. Qed.

Lemma in_new_order_stamp : in_new_order (in_set_session m sid) = with_session (in_new_order m) sid.
Proof.
  assert (E : forall l, cdec c_NewOrder l =
    (fun '(i, (p, (q, (s, (d, t))))) => mkNewOrder (cdec c_Header l) i p q s d t)
      (cdec (c_u 8 *c* c_i64 *c* c_u 4 *c* c_u 2 *c* c_Side *c* c_TimeInForce) (drop (csize c_Header) l)))
    by done.
  unfold in_new_order. rewrite !E, stamp_hdr, stamp_tail. by destruct (cdec _ _) as (?&?&?&?&?&?).
Qed.

Lemma in_cancel_stamp : in_cancel (in_set_session m sid) = cancel_with_session (in_cancel m) sid.
Proof.
  assert (E : forall l, cdec c_CancelOrder l =
    mkCancelOrder (cdec c_Header l) (cdec (c_u 8) (drop (csize c_Header) l))) by done.
  unfold in_cancel. by rewrite !E, stamp_hdr, stamp_tail.
Qed.

End stamp.

(** ** Guarantees *)

(** C29: The wire layout loses nothing: every message of the protocol is decoded
    from its encoding (when its fields have their widths), every byte string of
    a message's size is the encoding of what it decodes to, and the sizes are
    those the header's static assertions check. *)
Theorem wire_round_trip :
  (forall m, cok c_Logon m -> cdec c_Logon (cenc c_Logon m) = m) /\
  (forall m, cok c_NewOrder m -> cdec c_NewOrder (cenc c_NewOrder m) = m) /\
  (forall m, cok c_CancelOrder m -> cdec c_CancelOrder (cenc c_CancelOrder m) = m) /\
  (forall m, cok c_Ack m -> cdec c_Ack (cenc c_Ack m) = m) /\
  (forall m, cok c_Reject m -> cdec c_Reject (cenc c_Reject m) = m) /\
  (forall m, cok c_Fill m -> cdec c_Fill (cenc c_Fill m) = m) /\
  (forall l, length l = 32%nat -> Forall is_byte l ->
     cenc c_NewOrder (cdec c_NewOrder l) = l /\ cok c_NewOrder (cdec c_NewOrder l)) /\
  (forall l, length l = 16%nat -> Forall is_byte l ->
     cenc c_CancelOrder (cdec c_CancelOrder l) = l /\ cok c_CancelOrder (cdec c_CancelOrder l)) /\
  map Z.of_nat [csize c_Header; csize c_Logon; csize c_NewOrder; csize c_CancelOrder;
                csize c_Ack; csize c_Reject; csize c_Fill] = [8; 16; 32; 16; 24; 24; 40].
Proof.
  do 6 (split; [intros m; apply dec_enc|]). split; [|split; [|done]].
  - intros l Hl Hb. split; [by apply (enc_dec (c := c_NewOrder))|by apply (dec_ok (c := c_NewOrder)); [rewrite Hl|]].
  - intros l Hl Hb. split; [by apply (enc_dec (c := c_CancelOrder))|by apply (dec_ok (c := c_CancelOrder)); [rewrite Hl|]].
Qed.

Lemma wire_round_trip_witness :
  let m := mkCancelOrder (mkHeader 16 CANCEL_ORDER 0 7) 81985529216486895 in
  cenc c_CancelOrder m = [16; 0; 3; 0; 7; 0; 0; 0; 239; 205; 171; 137; 103; 69; 35; 1] /\
  cdec c_CancelOrder (cenc c_CancelOrder m) = m.
Proof.
  intros m. split; [reflexivity|]. pose proof wire_round_trip as H.
  destruct H as (_ & _ & H & _). apply H. vm_compute. repeat split; discriminate.
Defined.
