(* ===== verification/Order.v ===== *)
(** * The resting order record ([include/lx/book/order.hpp]) *)

From S2P Require Import Prelude Messages.

Definition NULL_IDX : Z := UINT32_MAX.

Record Order : Type := mkOrder {
  o_order_id : Z;    (* uint64_t *)
  o_price : Z;       (* int64_t *)
  o_qty : Z;         (* uint32_t *)
  o_next_idx : Z;    (* uint32_t *)
  o_prev_idx : Z;    (* uint32_t *)
  o_symbol : Z;      (* uint16_t *)
  o_side : Side;
  o_tif : TimeInForce
}.

#[export] Instance Order_eq_dec : EqDecision Order.
Proof. solve_decision. Defined.

(** The arena is anonymous [mmap] memory, so an [Order] never written is all
    zero bytes. *)
Definition zero_order : Order := mkOrder 0 0 0 0 0 0 BUY GTC.

Definition set_qty (o : Order) (q : Z) : Order :=
  mkOrder (o_order_id o) (o_price o) q (o_next_idx o) (o_prev_idx o)
    (o_symbol o) (o_side o) (o_tif o).
Definition set_next (o : Order) (i : Z) : Order :=
  mkOrder (o_order_id o) (o_price o) (o_qty o) i (o_prev_idx o)
    (o_symbol o) (o_side o) (o_tif o).
Definition set_prev (o : Order) (i : Z) : Order :=
  mkOrder (o_order_id o) (o_price o) (o_qty o) (o_next_idx o) i
    (o_symbol o) (o_side o) (o_tif o).
