(* ===== verification/LevelBitmap.v ===== *)
(** * Occupancy bitmap ([include/lx/book/level_bitmap.hpp])

    [LevelBitmap<N>] keeps one bit per price level in 64-bit words, and finds
    the next occupied level with a count-trailing/leading-zeros instruction.
    The state is the word array; [N] is the template parameter.  [bm_bit] is
    the abstraction (the set of occupied levels) and [bm_wf] the invariant
    that words are 64-bit and no bit at or above [N] is set. *)

From S2P Require Import Prelude Messages Order.

Module LevelBitmap.

Definition NUM_WORDS (N : Z) : Z := (N + 63) / 64.

Definition bm_init (N : Z) : list Z := replicate (Z.to_nat (NUM_WORDS N)) 0.

(** [1ULL << (idx & 63)] *)
Definition bit_of (idx : Z) : Z := u64 (Z.shiftl 1 (Z.land idx 63)).

(** [~x] on [uint64_t] *)
Definition not64 (x : Z) : Z := u64 (Z.lnot x).

Definition set (words : list Z) (idx : Z) : res (list Z) :=
  w ← aget words (Z.shiftr idx 6);
  aset words (Z.shiftr idx 6) (Z.lor w (bit_of idx)).

Definition clear (words : list Z) (idx : Z) : res (list Z) :=
  w ← aget words (Z.shiftr idx 6);
  aset words (Z.shiftr idx 6) (Z.land w (not64 (bit_of idx))).

Definition test (words : list Z) (idx : Z) : res bool :=
  w ← aget words (Z.shiftr idx 6);
  Ok (negb (Z.land w (bit_of idx) =? 0)).

Fixpoint pos_ctz (p : positive) : Z :=
  match p with xO q => 1 + pos_ctz q | _ => 0 end.

(** [__builtin_ctzll] and [__builtin_clzll], defined on a non-zero word. *)
Definition ctzll (x : Z) : Z := match x with Zpos p => pos_ctz p | _ => 0 end.
Definition clzll (x : Z) : Z := 63 - Z.log2 x.

Fixpoint next_up_loop (fuel : nat) (N : Z) (words : list Z) (w bits : Z) : res Z :=
  match fuel with
  | O => Err OutOfFuel
  | S fuel =>
      if negb (bits =? 0) then Ok (u32 (u32 (Z.shiftl w 6) + ctzll bits))
      else
        let w := u32 (w + 1) in
        if NUM_WORDS N <=? w then Ok NULL_IDX
        else bits ← aget words w; next_up_loop fuel N words w bits
  end.

Definition next_up (N : Z) (words : list Z) (from : Z) : res Z :=
  if N <=? from then Ok NULL_IDX
  else
    let w := Z.shiftr from 6 in
    x ← aget words w;
    next_up_loop (Z.to_nat (NUM_WORDS N)) N words w
      (Z.land x (u64 (Z.shiftl (not64 0) (Z.land from 63)))).

Fixpoint next_down_loop (fuel : nat) (words : list Z) (w bits : Z) : res Z :=
  match fuel with
  | O => Err OutOfFuel
  | S fuel =>
      if negb (bits =? 0) then Ok (u32 (u32 (Z.shiftl w 6) + u32 (63 - clzll bits)))
      else if w =? 0 then Ok NULL_IDX
      else
        let w := u32 (w - 1) in
        bits ← aget words w; next_down_loop fuel words w bits
  end.

Definition next_down (N : Z) (words : list Z) (from : Z) : res Z :=
  if N <=? from then Ok NULL_IDX
  else
    let w := Z.shiftr from 6 in
    x ← aget words w;
    next_down_loop (Z.to_nat (NUM_WORDS N)) words w
      (Z.land x (Z.shiftr (not64 0) (63 - Z.land from 63))).

(** ** Abstraction and invariant *)

Definition bm_bit (words : list Z) (i : Z) : bool :=
  match words !! (i / 64) with Some x => Z.testbit x (i mod 64) | None => false end.

Record bm_wf (N : Z) (words : list Z) : Prop := {
  bm_len : zlen words = NUM_WORDS N;
  bm_word : forall i x, words !! i = Some x -> is_u 64 x;
  bm_high : forall i, N <= i -> bm_bit words i = false
}.

(** The linear scans of the price ladder that the bit scans replace. *)
Fixpoint scan_up (fuel : nat) (occ : Z -> bool) (N i : Z) : Z :=
  match fuel with
  | O => NULL_IDX
  | S fuel =>
      if N <=? i then NULL_IDX
      else if occ i then i else scan_up fuel occ N (i + 1)
  end.

Fixpoint scan_down (fuel : nat) (occ : Z -> bool) (i : Z) : Z :=
  match fuel with
  | O => NULL_IDX
  | S fuel =>
      if i <? 0 then NULL_IDX
      else if occ i then i else scan_down fuel occ (i - 1)
  end.

(** ** Bit-level lemmas *)

Lemma land63 i : Z.land i 63 = i mod 64.
Proof. change 63 with (Z.ones 6). by rewrite Z.land_ones by lia. Qed.

Lemma shiftr6 i : Z.shiftr i 6 = i / 64.
Proof. by rewrite Z.shiftr_div_pow2 by lia. Qed.

Lemma bit_of_spec i : bit_of i = 2 ^ (i mod 64).
Proof.
  unfold bit_of. rewrite land63, Z.shiftl_1_l.
  apply wrapU_small. pose proof (Z.mod_pos_bound i 64 ltac:(lia)). split; [lia|].
  apply Z.pow_lt_mono_r; lia.
Qed.

Lemma is_u64_testbit x : is_u 64 x <-> 0 <= x /\ forall i, 64 <= i -> Z.testbit x i = false.
Proof.
  unfold is_u. split.
  - intros [? ?]. split; [done|]. intros i Hi.
    destruct (Z.eq_dec x 0) as [->|]; [apply Z.bits_0|].
    apply Z.bits_above_log2; [done|]. apply Z.log2_lt_pow2; [lia|].
    apply Z.lt_le_trans with (2 ^ 64); [done|]. apply Z.pow_le_mono_r; lia.
  - intros [? H]. split; [done|].
    destruct (Z.eq_dec x 0) as [->|]; [done|].
    apply Z.log2_lt_pow2; [lia|]. destruct (Z.lt_ge_cases (Z.log2 x) 64); [done|].
    specialize (H (Z.log2 x) ltac:(lia)). rewrite Z.bit_log2 in H by lia. done.
Qed.

Lemma not64_testbit x i : 0 <= i < 64 -> Z.testbit (not64 x) i = negb (Z.testbit x i).
Proof. intros. unfold not64, wrapU. rewrite Z.mod_pow2_bits_low, Z.lnot_spec by lia. done. Qed.

Lemma is_u64_land x y : is_u 64 x -> 0 <= y -> is_u 64 (Z.land x y).
Proof.
  rewrite !is_u64_testbit. intros [? H] ?. split; [apply Z.land_nonneg; lia|].
  intros. rewrite Z.land_spec, H by done. done.
Qed.

Lemma is_u64_lor x y : is_u 64 x -> is_u 64 y -> is_u 64 (Z.lor x y).
Proof.
  rewrite !is_u64_testbit. intros [? H] [? K]. split; [by apply Z.lor_nonneg|].
  intros. by rewrite Z.lor_spec, H, K.
Qed.

Lemma is_u64_wrap x : is_u 64 (u64 x).
Proof. apply wrapU_bound. lia. Qed.

Lemma pos_ctz_spec p :
  0 <= pos_ctz p /\ Z.testbit (Zpos p) (pos_ctz p) = true /\
  forall i, i < pos_ctz p -> Z.testbit (Zpos p) i = false.
Proof.
  induction p as [p _|p IH|]; simpl.
  - split; [done|]. split; [done|]. intros i Hi. by apply Z.testbit_neg_r.
  - destruct IH as (H0 & H1 & H2).
    change (Zpos p~0) with (2 * Zpos p). split; [lia|]. split.
    + replace (1 + pos_ctz p) with (Z.succ (pos_ctz p)) by lia.
      by rewrite Z.testbit_even_succ.
    + intros i Hi. destruct (Z.lt_trichotomy i 0) as [?|[->|?]].
      * by apply Z.testbit_neg_r.
      * apply Z.testbit_even_0.
      * replace i with (Z.succ (i - 1)) by lia. rewrite Z.testbit_even_succ by lia.
        apply H2. lia.
  - split; [done|]. split; [done|]. intros i Hi. by apply Z.testbit_neg_r.
Qed.

Lemma ctzll_spec x : is_u 64 x -> x <> 0 ->
  0 <= ctzll x < 64 /\ Z.testbit x (ctzll x) = true /\
  forall i, i < ctzll x -> Z.testbit x i = false.
Proof.
  intros Hx Hnz. destruct x as [|p|p]; [done| |by destruct Hx].
  destruct (pos_ctz_spec p) as (H0 & H1 & H2). simpl ctzll.
  split; [|done]. split; [done|].
  destruct (Z.lt_ge_cases (pos_ctz p) 64); [done|].
  apply is_u64_testbit in Hx as [_ Hx]. rewrite Hx in H1 by done. done.
Qed.

Lemma log2_spec64 x : is_u 64 x -> x <> 0 ->
  0 <= Z.log2 x < 64 /\ Z.testbit x (Z.log2 x) = true /\
  forall i, Z.log2 x < i -> Z.testbit x i = false.
Proof.
  intros [? ?] ?. split; [|split].
  - split; [apply Z.log2_nonneg|]. apply Z.log2_lt_pow2; lia.
  - apply Z.bit_log2. lia.
  - intros. apply Z.bits_above_log2; lia.
Qed.

Lemma testbit_all_false x : is_u 64 x -> (forall i, 0 <= i < 64 -> Z.testbit x i = false) -> x = 0.
Proof.
  intros Hx H. apply Z.bits_inj'. intros i Hi. rewrite Z.bits_0.
  destruct (Z.lt_ge_cases i 64); [by apply H|].
  apply is_u64_testbit in Hx as [_ Hx]. by apply Hx.
Qed.

(** ** Set, clear and test *)

Section updates.
Context (N : Z) (words : list Z) (Hwf : bm_wf N words).

Lemma word_of idx : 0 <= idx < N -> exists x, words !! (idx / 64) = Some x /\ is_u 64 x.
Proof.
  intros H. destruct (lookupZ_is_Some words (idx / 64)) as [x Hx].
  { rewrite (bm_len _ _ Hwf). unfold NUM_WORDS.
    pose proof (Z.div_mod idx 64 ltac:(lia)).
    pose proof (Z.mod_pos_bound idx 64 ltac:(lia)).
    pose proof (Z.div_mod (N + 63) 64 ltac:(lia)).
    pose proof (Z.mod_pos_bound (N + 63) 64 ltac:(lia)). lia. }
  exists x. split; [done|]. by eapply (bm_word _ _ Hwf).
Qed.

Lemma same_word i j : i / 64 = j / 64 -> i mod 64 = j mod 64 -> i = j.
Proof.
  intros H1 H2. rewrite (Z.div_mod i 64), (Z.div_mod j 64) by lia. congruence.
Qed.

(** Replacing the word of [idx] by one that differs from it at most in the bit of [idx]. *)
Lemma bm_update idx x y (v : bool) :
  0 <= idx < N -> words !! (idx / 64) = Some x -> is_u 64 y ->
  (forall i, 0 <= i < 64 -> Z.testbit y i = if i =? idx mod 64 then v else Z.testbit x i) ->
  let words' := <[idx / 64 := y]> words in
  bm_wf N words' /\
  forall j, bm_bit words' j = if j =? idx then v else bm_bit words j.
Proof.
  intros Hidx Hx Hy Hbits words'.
  pose proof (lookupZ_range _ _ _ Hx) as Hr.
  assert (Hbit : forall j, bm_bit words' j = if j =? idx then v else bm_bit words j).
  { intros j. unfold bm_bit, words'. rewrite lookupZ_insertZ by done. case_decide as E.
    - rewrite <- E, Hx, Hbits by (apply Z.mod_pos_bound; lia).
      destruct (Z.eqb_spec (j mod 64) (idx mod 64)) as [Em|Em], (Z.eqb_spec j idx); try done.
      + exfalso. by apply n, same_word.
      + by subst.
    - destruct (Z.eqb_spec j idx); [by subst|done]. }
  split; [split|exact Hbit].
  - unfold words'. rewrite zlen_insertZ. apply Hwf.
  - intros i z. unfold words'. rewrite lookupZ_insertZ by done.
    case_decide; [by intros [= <-]|]. apply (bm_word _ _ Hwf).
  - intros i Hi. rewrite Hbit. destruct (Z.eqb_spec i idx); [lia|]. by apply (bm_high _ _ Hwf).
Qed.

Lemma set_spec idx : 0 <= idx < N ->
  exists words', set words idx = Ok words' /\ bm_wf N words' /\
    forall j, bm_bit words' j = if j =? idx then true else bm_bit words j.
Proof.
  intros H. destruct (word_of idx H) as (x & Hx & Hu).
  unfold set. rewrite shiftr6, (aget_Ok _ _ _ Hx). simpl.
  rewrite (aset_Some _ _ _ _ Hx). eexists. split; [done|].
  eapply bm_update; [done..| |].
  - apply is_u64_lor; [done|]. apply is_u64_wrap.
  - intros i Hi. rewrite Z.lor_spec, bit_of_spec, Z.pow2_bits_eqb by (apply Z.mod_pos_bound; lia).
    rewrite Z.eqb_sym. destruct (i =? idx mod 64); [apply orb_true_r|apply orb_false_r].
Qed.

Lemma clear_spec idx : 0 <= idx < N ->
  exists words', clear words idx = Ok words' /\ bm_wf N words' /\
    forall j, bm_bit words' j = if j =? idx then false else bm_bit words j.
Proof.
  intros H. destruct (word_of idx H) as (x & Hx & Hu).
  unfold clear. rewrite shiftr6, (aget_Ok _ _ _ Hx). simpl.
  rewrite (aset_Some _ _ _ _ Hx). eexists. split; [done|].
  eapply bm_update; [done..| |].
  - apply is_u64_land; [done|]. apply wrapU_bound. lia.
  - intros i Hi. rewrite Z.land_spec, not64_testbit, bit_of_spec, Z.pow2_bits_eqb
      by (try apply Z.mod_pos_bound; lia).
    rewrite Z.eqb_sym. destruct (i =? idx mod 64); [apply andb_false_r|apply andb_true_r].
Qed.

Lemma test_spec idx : 0 <= idx < N -> test words idx = Ok (bm_bit words idx).
Proof.
  intros H. destruct (word_of idx H) as (x & Hx & Hu).
  unfold test, bm_bit. rewrite shiftr6, (aget_Ok _ _ _ Hx), Hx. simpl. f_equal.
  rewrite bit_of_spec. set (k := idx mod 64).
  assert (0 <= k) by (unfold k; apply Z.mod_pos_bound; lia).
  destruct (Z.eqb_spec (Z.land x (2 ^ k)) 0) as [E|E]; simpl.
  - assert (Z.testbit (Z.land x (2 ^ k)) k = false) as T by (rewrite E; apply Z.bits_0).
    rewrite Z.land_spec, Z.pow2_bits_true, andb_true_r in T by done. done.
  - destruct (Z.testbit x k) eqn:T; [done|]. exfalso. apply E, Z.bits_inj'. intros i Hi.
    rewrite Z.land_spec, Z.bits_0, Z.pow2_bits_eqb by done.
    destruct (Z.eqb_spec k i) as [<-|]; [by rewrite T|apply andb_false_r].
Qed.

End updates.

Lemma bm_init_wf N : 0 < N -> bm_wf N (bm_init N) /\ forall i, bm_bit (bm_init N) i = false.
Proof.
  intros HN.
  assert (Hbit : forall i, bm_bit (bm_init N) i = false).
  { intros i. unfold bm_bit, bm_init. destruct (replicate _ _ !! _) as [x|] eqn:E; [|done].
    pose proof (lookupZ_range _ _ _ E) as Hr. rewrite zlen_replicate in Hr.
    rewrite lookupZ_replicate in E by done. injection E as <-. apply Z.bits_0. }
  split; [split|]; auto.
  - unfold bm_init. rewrite zlen_replicate, Z2Nat.id; [done|].
    unfold NUM_WORDS. apply Z.div_pos; lia.
  - intros i x E. pose proof (lookupZ_range _ _ _ E) as Hr. unfold bm_init in *.
    rewrite zlen_replicate in Hr. rewrite lookupZ_replicate in E by done.
    injection E as <-. done.
Qed.

(** ** Scanning *)

(** [r] is the first occupied level at or above (at or below) [from]. *)
Definition first_up (N : Z) (occ : Z -> bool) (from r : Z) : Prop :=
  (r = NULL_IDX /\ forall j, from <= j -> occ j = false) \/
  (from <= r < N /\ occ r = true /\ forall j, from <= j < r -> occ j = false).

Definition first_down (N : Z) (occ : Z -> bool) (from r : Z) : Prop :=
  (r = NULL_IDX /\ forall j, 0 <= j <= from -> occ j = false) \/
  (0 <= r <= from /\ r < N /\ occ r = true /\ forall j, r < j <= from -> occ j = false).

Section scans.
Context (N : Z) (words : list Z) (Hwf : bm_wf N words) (HN : 0 < N < 2 ^ 32).

Lemma NUM_WORDS_bound : 0 <= NUM_WORDS N <= 2 ^ 26 /\ N <= 64 * NUM_WORDS N.
Proof.
  unfold NUM_WORDS. pose proof (Z.div_mod (N + 63) 64 ltac:(lia)).
  pose proof (Z.mod_pos_bound (N + 63) 64 ltac:(lia)). lia.
Qed.

Lemma bm_bit_word w i x : words !! w = Some x -> 0 <= i < 64 ->
  bm_bit words (64 * w + i) = Z.testbit x i.
Proof.
  intros Hx Hi. unfold bm_bit. rewrite (Z.mul_comm 64 w).
  rewrite Z.div_add_l, Z.div_small, Z.add_0_r by lia.
  rewrite Hx. by rewrite Z.add_comm, Z.mod_add, Z.mod_small by lia.
Qed.

Lemma bm_bit_out j : 64 * NUM_WORDS N <= j -> bm_bit words j = false.
Proof. intros. apply (bm_high _ _ Hwf). pose proof NUM_WORDS_bound. lia. Qed.

Lemma in_word w j : 64 * w <= j < 64 * (w + 1) -> exists i, j = 64 * w + i /\ 0 <= i < 64.
Proof. intros. exists (j - 64 * w). lia. Qed.

Lemma bm_bit_lt j : bm_bit words j = true -> j < N.
Proof.
  intros H. destruct (Z.lt_ge_cases j N); [done|].
  by rewrite (bm_high _ _ Hwf) in H.
Qed.

Lemma scan_result w k : 0 <= w < NUM_WORDS N -> 0 <= k < 64 ->
  u32 (u32 (Z.shiftl w 6) + k) = 64 * w + k.
Proof.
  intros. pose proof NUM_WORDS_bound. rewrite Z.shiftl_mul_pow2 by lia.
  rewrite (wrapU_small 32 (w * 2 ^ 6)) by lia. rewrite wrapU_small; lia.
Qed.

Lemma next_up_loop_spec from fuel w bits :
  0 <= w < NUM_WORDS N -> is_u 64 bits -> from < 64 * (w + 1) ->
  (forall i, 0 <= i < 64 ->
     Z.testbit bits i = bm_bit words (64 * w + i) && (from <=? 64 * w + i)) ->
  (forall j, from <= j < 64 * w -> bm_bit words j = false) ->
  NUM_WORDS N - w <= Z.of_nat fuel ->
  exists r, next_up_loop fuel N words w bits = Ok r /\ first_up N (bm_bit words) from r.
Proof.
  revert w bits. induction fuel as [|fuel IH]; intros w bits Hw Hu Hfrom Hbits Hlow Hfuel; [lia|].
  simpl. destruct (Z.eqb_spec bits 0) as [->|Hnz]; simpl.
  - assert (Hlow' : forall j, from <= j < 64 * (w + 1) -> bm_bit words j = false).
    { intros j Hj. destruct (Z.lt_ge_cases j (64 * w)); [apply Hlow; lia|].
      destruct (in_word w j) as (i & -> & Hi); [lia|].
      specialize (Hbits i Hi). rewrite Z.bits_0 in Hbits.
      rewrite (proj2 (Z.leb_le _ _)), andb_true_r in Hbits by lia. done. }
    pose proof NUM_WORDS_bound. rewrite wrapU_small by lia.
    destruct (Z.leb_spec (NUM_WORDS N) (w + 1)).
    + exists NULL_IDX. split; [done|]. left. split; [done|]. intros j Hj.
      destruct (Z.lt_ge_cases j (64 * (w + 1))); [apply Hlow'; lia|].
      apply bm_bit_out. lia.
    + destruct (lookupZ_is_Some words (w + 1)) as [x Hx].
      { rewrite (bm_len _ _ Hwf). lia. }
      rewrite (aget_Ok _ _ _ Hx). simpl. apply IH; try lia.
      * by eapply (bm_word _ _ Hwf).
      * intros i Hi. rewrite (bm_bit_word _ _ _ Hx) by done.
        rewrite (proj2 (Z.leb_le _ _)) by lia. by rewrite andb_true_r.
      * intros j Hj. apply Hlow'. lia.
  - destruct (ctzll_spec bits Hu Hnz) as (Hk & Ht & Hbelow).
    rewrite scan_result by done. eexists. split; [done|]. right.
    rewrite Hbits in Ht by done. apply andb_true_iff in Ht as [Ht1 Ht2%Z.leb_le].
    split; [|split].
    + split; [done|]. by apply bm_bit_lt.
    + done.
    + intros j Hj. destruct (Z.lt_ge_cases j (64 * w)); [apply Hlow; lia|].
      destruct (in_word w j) as (i & -> & Hi); [lia|].
      specialize (Hbelow i ltac:(lia)). rewrite Hbits in Hbelow by done.
      rewrite (proj2 (Z.leb_le _ _)), andb_true_r in Hbelow by lia. done.
Qed.

Lemma next_up_spec from : 0 <= from ->
  exists r, next_up N words from = Ok r /\ first_up N (bm_bit words) from r.
Proof.
  intros Hf. unfold next_up. destruct (Z.leb_spec N from).
  - exists NULL_IDX. split; [done|]. left. split; [done|]. intros.
    apply (bm_high _ _ Hwf). lia.
  - rewrite shiftr6, land63. destruct (word_of N words Hwf from) as (x & Hx & Hu); [lia|].
    rewrite (aget_Ok _ _ _ Hx). simpl.
    pose proof (lookupZ_range _ _ _ Hx) as Hr. rewrite (bm_len _ _ Hwf) in Hr.
    pose proof (Z.div_mod from 64 ltac:(lia)) as Hd.
    pose proof (Z.mod_pos_bound from 64 ltac:(lia)) as Hm.
    apply next_up_loop_spec; try lia.
    + apply is_u64_land; [done|]. apply wrapU_bound. lia.
    + intros i Hi. rewrite (bm_bit_word _ _ _ Hx), Z.land_spec by done. f_equal.
      unfold wrapU. rewrite Z.mod_pow2_bits_low by lia.
      rewrite Z.shiftl_spec by lia. destruct (Z.leb_spec from (64 * (from / 64) + i)).
      * rewrite not64_testbit by lia. by rewrite Z.bits_0.
      * apply Z.testbit_neg_r. lia.
Qed.

Lemma next_down_loop_spec from fuel w bits :
  0 <= w < NUM_WORDS N -> is_u 64 bits -> 64 * w <= from ->
  (forall i, 0 <= i < 64 ->
     Z.testbit bits i = bm_bit words (64 * w + i) && (64 * w + i <=? from)) ->
  (forall j, 64 * (w + 1) <= j <= from -> bm_bit words j = false) ->
  w + 1 <= Z.of_nat fuel ->
  exists r, next_down_loop fuel words w bits = Ok r /\ first_down N (bm_bit words) from r.
Proof.
  revert w bits. induction fuel as [|fuel IH]; intros w bits Hw Hu Hfrom Hbits Hhigh Hfuel; [lia|].
  simpl. destruct (Z.eqb_spec bits 0) as [->|Hnz]; simpl.
  - assert (Hhigh' : forall j, 64 * w <= j <= from -> bm_bit words j = false).
    { intros j Hj. destruct (Z.lt_ge_cases j (64 * (w + 1))); [|apply Hhigh; lia].
      destruct (in_word w j) as (i & -> & Hi); [lia|].
      specialize (Hbits i Hi). rewrite Z.bits_0 in Hbits.
      rewrite (proj2 (Z.leb_le _ _)), andb_true_r in Hbits by lia. done. }
    pose proof NUM_WORDS_bound.
    destruct (Z.eqb_spec w 0) as [->|].
    + exists NULL_IDX. split; [done|]. left. split; [done|]. intros j Hj. apply Hhigh'. lia.
    + rewrite wrapU_small by lia. destruct (lookupZ_is_Some words (w - 1)) as [x Hx].
      { rewrite (bm_len _ _ Hwf). lia. }
      rewrite (aget_Ok _ _ _ Hx). simpl. apply IH; try lia.
      * by eapply (bm_word _ _ Hwf).
      * intros i Hi. rewrite (bm_bit_word _ _ _ Hx) by done.
        rewrite (proj2 (Z.leb_le _ _)) by lia. by rewrite andb_true_r.
      * intros j Hj. apply Hhigh'. lia.
  - destruct (log2_spec64 bits Hu Hnz) as (Hk & Ht & Habove).
    unfold clzll. replace (63 - (63 - Z.log2 bits)) with (Z.log2 bits) by lia.
    rewrite (wrapU_small 32 (Z.log2 bits)) by lia.
    rewrite scan_result by done. eexists. split; [done|]. right.
    rewrite Hbits in Ht by done. apply andb_true_iff in Ht as [Ht1 Ht2%Z.leb_le].
    split; [lia|]. split; [by apply bm_bit_lt|]. split; [done|].
    intros j Hj. destruct (Z.lt_ge_cases j (64 * (w + 1))); [|apply Hhigh; lia].
    destruct (in_word w j) as (i & -> & Hi); [lia|].
    specialize (Habove i ltac:(lia)). rewrite Hbits in Habove by done.
    rewrite (proj2 (Z.leb_le _ _)), andb_true_r in Habove by lia. done.
Qed.

Lemma next_down_spec from : 0 <= from < N ->
  exists r, next_down N words from = Ok r /\ first_down N (bm_bit words) from r.
Proof.
  intros Hf. unfold next_down. rewrite (proj2 (Z.leb_gt _ _)) by lia.
  rewrite shiftr6, land63. destruct (word_of N words Hwf from) as (x & Hx & Hu); [lia|].
  rewrite (aget_Ok _ _ _ Hx). simpl.
  pose proof (lookupZ_range _ _ _ Hx) as Hr. rewrite (bm_len _ _ Hwf) in Hr.
  pose proof (Z.div_mod from 64 ltac:(lia)) as Hd.
  pose proof (Z.mod_pos_bound from 64 ltac:(lia)) as Hm.
  apply next_down_loop_spec; try lia.
  - apply is_u64_land; [done|]. apply Z.shiftr_nonneg. apply wrapU_bound. lia.
  - intros i Hi. rewrite (bm_bit_word _ _ _ Hx), Z.land_spec by done. f_equal.
    rewrite Z.shiftr_spec by lia. destruct (Z.leb_spec (64 * (from / 64) + i) from).
    + rewrite not64_testbit by lia. by rewrite Z.bits_0.
    + apply (proj1 (is_u64_testbit _)); [apply is_u64_wrap|lia].
Qed.

End scans.

(** ** The linear scans find the same level *)

Lemma scan_up_first N occ fuel i :
  N - i <= Z.of_nat fuel -> (forall j, N <= j -> occ j = false) ->
  first_up N occ i (scan_up fuel occ N i).
Proof.
  revert i. induction fuel as [|fuel IH]; intros i Hfuel Hhigh; simpl.
  - left. split; [done|]. intros. apply Hhigh. lia.
  - destruct (Z.leb_spec N i).
    + left. split; [done|]. intros. apply Hhigh. lia.
    + destruct (occ i) eqn:E; [right; split; [lia|]; split; [done|]; lia|].
      destruct (IH (i + 1) ltac:(lia) Hhigh) as [(-> & H1)|(H1 & H2 & H3)]; [left|right].
      * split; [done|]. intros j Hj. destruct (Z.eq_dec j i) as [->|]; [done|]. apply H1. lia.
      * split; [lia|]. split; [done|]. intros j Hj.
        destruct (Z.eq_dec j i) as [->|]; [done|]. apply H3. lia.
Qed.

Lemma scan_down_first N occ fuel i :
  i < N -> i + 1 <= Z.of_nat fuel -> first_down N occ i (scan_down fuel occ i).
Proof.
  revert i. induction fuel as [|fuel IH]; intros i Hi Hfuel; simpl.
  - left. split; [done|]. lia.
  - destruct (Z.ltb_spec i 0).
    + left. split; [done|]. lia.
    + destruct (occ i) eqn:E; [right; split; [lia|]; split; [done|]; split; [done|]; lia|].
      destruct (IH (i - 1) ltac:(lia) ltac:(lia)) as [(-> & H1)|(H1 & H2 & H3 & H4)]; [left|right].
      * split; [done|]. intros j Hj. destruct (Z.eq_dec j i) as [->|]; [done|]. apply H1. lia.
      * split; [lia|]. split; [lia|]. split; [done|]. intros j Hj.
        destruct (Z.eq_dec j i) as [->|]; [done|]. apply H4. lia.
Qed.

Lemma first_up_unique N occ i r r' :
  N <= NULL_IDX -> 0 <= i -> first_up N occ i r -> first_up N occ i r' -> r = r'.
Proof.
  intros HN Hi [(-> & H1)|(H1 & H2 & H3)] [(-> & K1)|(K1 & K2 & K3)]; try done.
  - rewrite H1 in K2 by lia. done.
  - rewrite K1 in H2 by lia. done.
  - destruct (Z.lt_trichotomy r r') as [L|[L|L]]; [|done|].
    + rewrite K3 in H2 by lia. done.
    + rewrite H3 in K2 by lia. done.
Qed.

Lemma first_down_unique N occ i r r' :
  first_down N occ i r -> first_down N occ i r' -> r = r'.
Proof.
  intros [(-> & H1)|(H1 & H2 & H3 & H4)] [(-> & K1)|(K1 & K2 & K3 & K4)]; try done.
  - rewrite H1 in K3 by lia. done.
  - rewrite K1 in H3 by lia. done.
  - destruct (Z.lt_trichotomy r r') as [L|[L|L]]; [|done|].
    + rewrite H4 in K3 by lia. done.
    + rewrite K4 in H3 by lia. done.
Qed.

(** ** Guarantees *)

(** C30: The word-wise bit scans find exactly what a linear walk along the ladder
    would: the first occupied level at or above (at or below) the start, or
    [NULL_IDX]; they stay inside the word array and terminate within one round
    per word, for every ladder size. *)
Theorem bitmap_scans N words from :
  bm_wf N words -> 0 < N < 2 ^ 32 -> 0 <= from ->
  next_up N words from = Ok (scan_up (Z.to_nat N) (bm_bit words) N from) /\
  next_down N words from =
    Ok (if N <=? from then NULL_IDX else scan_down (Z.to_nat N) (bm_bit words) from).
Proof.
  intros Hwf HN Hf. split.
  - destruct (next_up_spec N words Hwf HN from Hf) as (r & -> & Hr). f_equal.
    apply (first_up_unique N (bm_bit words) from); [unfold NULL_IDX, UINT32_MAX; lia|done|done|].
    apply scan_up_first; [lia|]. apply (bm_high _ _ Hwf).
  - destruct (Z.leb_spec N from) as [Hle|Hlt].
    + unfold next_down. by rewrite (proj2 (Z.leb_le _ _)).
    + destruct (next_down_spec N words Hwf HN from) as (r & -> & Hr); [lia|]. f_equal.
      apply (first_down_unique N (bm_bit words) from); [done|]. apply scan_down_first; lia.
Qed.

(** The bitmap is a set of levels: on every well-formed bitmap, setting,
    clearing and testing a level of the ladder are in bounds, change (read)
    exactly that level's bit and keep the bitmap well formed; a fresh bitmap
    is empty. *)
Theorem bitmap_is_a_set N words idx :
  bm_wf N words -> 0 < N -> 0 <= idx < N ->
  (exists w, set words idx = Ok w /\ bm_wf N w /\
     forall j, bm_bit w j = if j =? idx then true else bm_bit words j) /\
  (exists w, clear words idx = Ok w /\ bm_wf N w /\
     forall j, bm_bit w j = if j =? idx then false else bm_bit words j) /\
  test words idx = Ok (bm_bit words idx) /\ (forall j, bm_bit (bm_init N) j = false).
Proof.
  intros Hwf HN Hi. split; [by apply set_spec|]. split; [by apply clear_spec|].
  split; [by apply (test_spec N)|]. by apply bm_init_wf.
Qed.

(** Levels 3 and 70 of a ladder of 100. *)
Definition demo_bitmap : list Z := [8; 64].

Lemma demo_bitmap_wf : bm_wf 100 demo_bitmap.
Proof.
  destruct (bm_init_wf 100 ltac:(lia)) as [H0 _].
  destruct (set_spec 100 (bm_init 100) H0 3 ltac:(lia)) as (w & E & Hw & _).
  destruct (set_spec 100 w Hw 70 ltac:(lia)) as (w' & E' & Hw' & _).
  vm_compute in E. injection E as <-. vm_compute in E'. by injection E' as <-.
Qed.

Lemma bitmap_scans_witness : next_up 100 demo_bitmap 4 = Ok 70 /\ next_down 100 demo_bitmap 69 = Ok 3.
Proof.
  split.
  - exact (proj1 (bitmap_scans 100 demo_bitmap 4 demo_bitmap_wf ltac:(lia) ltac:(lia))).
  - exact (proj2 (bitmap_scans 100 demo_bitmap 69 demo_bitmap_wf ltac:(lia) ltac:(lia))).
Defined.

Lemma bitmap_is_a_set_witness : test demo_bitmap 70 = Ok true.
Proof.
  exact (proj1 (proj2 (proj2 (bitmap_is_a_set 100 demo_bitmap 70 demo_bitmap_wf ltac:(lia) ltac:(lia))))).
Defined.

End LevelBitmap.
