(* ===== verification/Pool.v ===== *)
(** * Index-based arena ([include/lx/book/pool.hpp])

    [Pool<T, N>] hands out slot indices of one fixed array from a stack of
    free indices, and counts in [gen] how often each slot was recycled.  Its
    invariant [pool_wf] is relative to the list of the slots that are in use:
    the stack and the slots in use partition [0, N). *)

From S2P Require Import Prelude.

Module Pool.

Record Storage (T : Type) : Type := mkStorage {
  slots : list T;
  free_list : list Z;
  gen_ : list Z
}.
Arguments mkStorage {T}.
Arguments slots {T}.
Arguments free_list {T}.
Arguments gen_ {T}.

Record Pool (T : Type) : Type := mkPool {
  arena_ : Storage T;
  free_top_ : Z
}.
Arguments mkPool {T}.
Arguments arena_ {T}.
Arguments free_top_ {T}.

Definition INVALID_IDX : Z := UINT32_MAX.

Section ops.
Context {T : Type}.
Implicit Types p : Pool T.

(** The constructor: fresh pages are zero, so every slot is [zero] and every
    generation 0. *)
Definition pool_init (N : Z) (zero : T) : Pool T :=
  mkPool (mkStorage (replicate (Z.to_nat N) zero) (seqZ 0 N) (replicate (Z.to_nat N) 0)) N.

Definition alloc (p : Pool T) : res (Z * Pool T) :=
  if free_top_ p =? 0 then Ok (INVALID_IDX, p)
  else
    let top := u32 (free_top_ p - 1) in
    idx ← aget (free_list (arena_ p)) top;
    Ok (idx, mkPool (arena_ p) top).

Definition free (N : Z) (p : Pool T) (idx : Z) : res (Pool T) :=
  _ ← assert_ (idx <? N);
  let st := arena_ p in
  g ← aget (gen_ st) idx;
  gen' ← aset (gen_ st) idx (u32 (g + 1));
  fl' ← aset (free_list st) (free_top_ p) idx;
  Ok (mkPool (mkStorage (slots st) fl' gen') (u32 (free_top_ p + 1))).

(** [operator[]]: read, and write through the returned reference. *)
Definition at_ (N : Z) (p : Pool T) (idx : Z) : res T :=
  _ ← assert_ (idx <? N);
  aget (slots (arena_ p)) idx.

Definition put (N : Z) (p : Pool T) (idx : Z) (x : T) : res (Pool T) :=
  _ ← assert_ (idx <? N);
  s ← aset (slots (arena_ p)) idx x;
  Ok (mkPool (mkStorage s (free_list (arena_ p)) (gen_ (arena_ p))) (free_top_ p)).

(** [data()] is the bare slot array; [with_data] writes it back after a call
    that was given the pointer. *)
Definition data (p : Pool T) : list T := slots (arena_ p).
Definition with_data (p : Pool T) (s : list T) : Pool T :=
  mkPool (mkStorage s (free_list (arena_ p)) (gen_ (arena_ p))) (free_top_ p).

Definition gen (p : Pool T) (idx : Z) : res Z := aget (gen_ (arena_ p)) idx.
Definition capacity (N : Z) (p : Pool T) : Z := N.
Definition free_count (p : Pool T) : Z := free_top_ p.

(** ** Invariant *)

Definition free_stack (p : Pool T) : list Z :=
  take (Z.to_nat (free_top_ p)) (free_list (arena_ p)).

Record pool_wf (N : Z) (p : Pool T) (live : list Z) : Prop := {
  wf_slots : zlen (slots (arena_ p)) = N;
  wf_free_list : zlen (free_list (arena_ p)) = N;
  wf_gen_len : zlen (gen_ (arena_ p)) = N;
  wf_top : 0 <= free_top_ p <= N;
  wf_gen : forall i g, gen_ (arena_ p) !! i = Some g -> is_u 32 g;
  wf_part : free_stack p ++ live ≡ₚ seqZ 0 N
}.

End ops.

(** ** Lemmas *)

Lemma take_insertZ_snoc {A} (l : list A) (n : Z) x :
  0 <= n < zlen l -> take (Z.to_nat (n + 1)) (<[n := x]> l) = take (Z.to_nat n) l ++ [x].
Proof.
  unfold zlen. intros H. replace (Z.to_nat (n + 1)) with (S (Z.to_nat n)) by lia.
  rewrite (take_S_r _ _ x).
  - rewrite insertZ_nat by lia. by rewrite take_insert_ge by lia.
  - rewrite <- lookupZ_nat by lia. apply lookupZ_insertZ_eq. done.
Qed.

Lemma take_Z_snoc {A} (l : list A) (n : Z) x :
  0 < n -> l !! (n - 1) = Some x -> take (Z.to_nat n) l = take (Z.to_nat (n - 1)) l ++ [x].
Proof.
  intros H Hx. replace (Z.to_nat n) with (S (Z.to_nat (n - 1))) by lia.
  apply take_S_r. rewrite <- lookupZ_nat by lia. done.
Qed.

Section facts.
Context {T : Type} (N : Z) (HN : 0 <= N < UINT32_MAX).
Implicit Types (p : Pool T) (live : list Z).

Lemma wf_NoDup p live : pool_wf N p live -> NoDup (free_stack p ++ live).
Proof. intros H. rewrite (wf_part _ _ _ H). apply NoDup_seqZ. Qed.

Lemma wf_live_NoDup p live : pool_wf N p live -> NoDup live.
Proof. intros H%wf_NoDup. by apply NoDup_app in H as (_ & _ & ?). Qed.

Lemma wf_in_range p live s : pool_wf N p live -> (s ∈ free_stack p ++ live <-> 0 <= s < N).
Proof. intros H. rewrite (wf_part _ _ _ H), elem_of_seqZ. lia. Qed.

Lemma wf_live_range p live s : pool_wf N p live -> s ∈ live -> 0 <= s < N.
Proof. intros H Hs. apply (wf_in_range p live); [done|]. apply elem_of_app. by right. Qed.

Lemma wf_free_count p live : pool_wf N p live -> free_top_ p + zlen live = N.
Proof.
  intros H. pose proof (Permutation_length (wf_part _ _ _ H)) as L.
  rewrite length_app, length_seqZ in L. unfold free_stack in L.
  pose proof (wf_top _ _ _ H). pose proof (wf_free_list _ _ _ H).
  unfold zlen in *. rewrite length_take_le in L by lia. lia.
Qed.

Lemma pool_wf_perm p live live' : live ≡ₚ live' -> pool_wf N p live -> pool_wf N p live'.
Proof. intros E []. split; try done. by rewrite <- E. Qed.

Lemma pool_init_wf (zero : T) : pool_wf N (pool_init N zero) [].
Proof.
  split; simpl.
  - rewrite zlen_replicate. lia.
  - unfold zlen. rewrite length_seqZ. lia.
  - rewrite zlen_replicate. lia.
  - lia.
  - intros i g E. pose proof (lookupZ_range _ _ _ E) as Hr. rewrite zlen_replicate in Hr.
    rewrite lookupZ_replicate in E by done. injection E as <-. done.
  - rewrite app_nil_r. unfold free_stack. simpl. rewrite take_ge; [done|].
    rewrite length_seqZ. lia.
Qed.

Lemma alloc_full p live : pool_wf N p live -> zlen live = N -> alloc p = Ok (INVALID_IDX, p).
Proof.
  intros H L. pose proof (wf_free_count _ _ H). unfold alloc.
  by rewrite (proj2 (Z.eqb_eq _ _)) by lia.
Qed.

Lemma alloc_spec p live :
  pool_wf N p live -> zlen live < N ->
  exists s p', alloc p = Ok (s, p') /\ 0 <= s < N /\ (s ∉ live) /\ s ∈ free_stack p /\
    arena_ p' = arena_ p /\ free_stack p = free_stack p' ++ [s] /\ pool_wf N p' (s :: live).
Proof.
  intros H L. pose proof (wf_free_count _ _ H) as C. unfold alloc.
  destruct (Z.eqb_spec (free_top_ p) 0); [lia|].
  pose proof (wf_top _ _ _ H). unfold UINT32_MAX in HN.
  rewrite wrapU_small by lia.
  destruct (lookupZ_is_Some (free_list (arena_ p)) (free_top_ p - 1)) as [s Hs].
  { rewrite (wf_free_list _ _ _ H). lia. }
  rewrite (aget_Ok _ _ _ Hs). simpl.
  assert (E : free_stack p = free_stack (mkPool (arena_ p) (free_top_ p - 1)) ++ [s]).
  { unfold free_stack. simpl. apply take_Z_snoc; [lia|done]. }
  pose proof (wf_NoDup _ _ H) as ND. rewrite E in ND.
  exists s, (mkPool (arena_ p) (free_top_ p - 1)). split; [done|].
  split; [|split; [|split; [|split; [done|split; [done|]]]]].
  - apply (wf_in_range p live); [done|]. rewrite E, !elem_of_app, list_elem_of_singleton. auto.
  - rewrite <- app_assoc in ND. apply NoDup_app in ND as (_ & _ & ND).
    apply NoDup_cons in ND as [? _]. done.
  - rewrite E, elem_of_app, list_elem_of_singleton. auto.
  - destruct H. split; try done; simpl; try lia.
    rewrite <- wf_part0, E. by rewrite <- app_assoc.
Qed.

Lemma free_spec p live s :
  pool_wf N p (s :: live) ->
  exists p' g, free N p s = Ok p' /\ pool_wf N p' live /\
    slots (arena_ p') = slots (arena_ p) /\
    free_stack p' = free_stack p ++ [s] /\
    gen_ (arena_ p) !! s = Some g /\
    gen_ (arena_ p') = <[s := u32 (g + 1)]> (gen_ (arena_ p)).
Proof.
  intros H. pose proof (wf_live_range _ _ s H ltac:(constructor)) as Hs.
  pose proof (wf_free_count _ _ H) as C. rewrite zlen_cons in C.
  pose proof (zlen_nonneg live). pose proof (wf_top _ _ _ H).
  destruct (lookupZ_is_Some (gen_ (arena_ p)) s) as [g Hg].
  { rewrite (wf_gen_len _ _ _ H). done. }
  unfold free. rewrite (proj2 (Z.ltb_lt _ _)) by lia. simpl.
  rewrite (aget_Ok _ _ _ Hg). simpl. rewrite (aset_Some _ _ _ _ Hg). simpl.
  rewrite aset_Ok by (rewrite (wf_free_list _ _ _ H); lia). simpl.
  unfold UINT32_MAX in HN. rewrite (wrapU_small 32 (free_top_ p + 1)) by lia.
  assert (E : free_stack (mkPool (mkStorage (slots (arena_ p))
      (<[free_top_ p := s]> (free_list (arena_ p)))
      (<[s := u32 (g + 1)]> (gen_ (arena_ p)))) (free_top_ p + 1)) = free_stack p ++ [s]).
  { unfold free_stack. simpl. apply take_insertZ_snoc. rewrite (wf_free_list _ _ _ H). lia. }
  eexists _, g. split; [done|]. split; [|done].
  destruct H. split; simpl; rewrite ?zlen_insertZ; try done.
  - lia.
  - intros i g'. rewrite lookupZ_insertZ by lia.
    case_decide; [intros [= <-]; apply wrapU_bound; lia|]. apply wf_gen0.
  - rewrite E. rewrite <- wf_part0. by rewrite <- app_assoc.
Qed.

Lemma at_spec p live s : pool_wf N p live -> s ∈ live ->
  exists x, at_ N p s = Ok x /\ slots (arena_ p) !! s = Some x.
Proof.
  intros H Hs. pose proof (wf_live_range _ _ _ H Hs).
  destruct (lookupZ_is_Some (slots (arena_ p)) s) as [x Hx]; [rewrite (wf_slots _ _ _ H); done|].
  exists x. unfold at_. rewrite (proj2 (Z.ltb_lt _ _)) by lia. simpl.
  by rewrite (aget_Ok _ _ _ Hx).
Qed.

Lemma at_Ok p s x : s < N -> slots (arena_ p) !! s = Some x -> at_ N p s = Ok x.
Proof.
  intros H Hx. unfold at_. rewrite (proj2 (Z.ltb_lt _ _)) by lia. simpl. by apply aget_Ok.
Qed.

Lemma put_Ok p s x : 0 <= s < N -> zlen (slots (arena_ p)) = N ->
  put N p s x = Ok (with_data p (<[s := x]> (data p))).
Proof.
  intros H L. unfold put. rewrite (proj2 (Z.ltb_lt _ _)) by lia. simpl.
  by rewrite aset_Ok by lia.
Qed.

Lemma with_data_wf p live s :
  zlen s = N -> pool_wf N p live -> pool_wf N (with_data p s) live.
Proof. intros ? []. by split. Qed.

End facts.

#[export] Hint Resolve pool_init_wf with_data_wf : lx.

(** ** Guarantees *)

(** C32: The arena hands out each slot at most once: from every well-formed
    pool, [alloc] returns a slot that is not in use and takes it off the stack,
    or [INVALID_IDX] without any effect exactly when every slot is in use;
    giving a slot back bumps its generation and no other, keeps all contents,
    and makes it the next one to be handed out. *)
Theorem pool_alloc_free {T} N (p : Pool T) live :
  0 <= N < UINT32_MAX -> pool_wf N p live ->
  (exists s p', alloc p = Ok (s, p') /\
     if bool_decide (zlen live = N) then s = INVALID_IDX /\ p' = p
     else (s ∉ live) /\ 0 <= s < N /\ pool_wf N p' (s :: live) /\ arena_ p' = arena_ p) /\
  (forall s live', live ≡ₚ s :: live' ->
     exists p' g, free N p s = Ok p' /\ pool_wf N p' live' /\ data p' = data p /\
       gen_ (arena_ p) !! s = Some g /\ gen_ (arena_ p') = <[s := u32 (g + 1)]> (gen_ (arena_ p)) /\
       exists p'', alloc p' = Ok (s, p'')).
Proof.
  intros HN Hwf. split.
  - destruct (decide (zlen live = N)) as [E|E].
    + exists INVALID_IDX, p. rewrite bool_decide_true by done. split; [by eapply alloc_full|done].
    + assert (zlen live < N).
      { pose proof (wf_free_count N p live Hwf). pose proof (wf_top _ _ _ Hwf). lia. }
      destruct (alloc_spec N HN p live Hwf) as (s & p' & -> & ? & ? & _ & ? & _ & ?); [done|].
      exists s, p'. by rewrite bool_decide_false.
  - intros s live' Hp. apply (pool_wf_perm N p _ _ Hp) in Hwf.
    destruct (free_spec N HN p live' s Hwf) as (p' & g & -> & Hwf' & ? & Hst & ? & ?).
    exists p', g. do 5 (split; [done|]).
    assert (zlen live' < N).
    { pose proof (wf_free_count N p _ Hwf) as C. pose proof (wf_top _ _ _ Hwf). rewrite zlen_cons in C. lia. }
    destruct (alloc_spec N HN p' live' Hwf') as (t & p'' & -> & _ & _ & _ & _ & Hst' & _); [done|].
    rewrite Hst in Hst'. apply app_inj_tail in Hst' as [_ ->]. by exists p''.
Qed.

Lemma pool_alloc_free_witness :
  exists s p', alloc (pool_init 4 tt) = Ok (s, p') /\ 0 <= s < 4.
Proof.
  destruct (proj1 (pool_alloc_free 4 (pool_init 4 tt) [] ltac:(vm_compute; done) (pool_init_wf 4 ltac:(vm_compute; done) tt)))
    as (s & p' & H & H'). exists s, p'. split; [exact H|]. apply H'.
Defined.

End Pool.
