(* ===== verification/PriceLevel.v ===== *)
(** * Intrusive FIFO of one price level ([include/lx/book/price_level.hpp])

    A level is the head and tail of a doubly linked list threaded through the
    arena's slots by index, with two running aggregates.  [seg] is the
    segment predicate of that list, [level_repr] relates a level and the slot
    array to the queue of resting orders it stands for, and each operation is
    shown to implement the queue operation. *)

From S2P Require Import Prelude Messages Order.

Module PriceLevel.

Record PriceLevel : Type := mkLevel {
  head_idx : Z;      (* uint32_t *)
  tail_idx : Z;      (* uint32_t *)
  order_count : Z;   (* uint32_t *)
  total_qty : Z      (* uint32_t *)
}.

Definition level_init : PriceLevel := mkLevel NULL_IDX NULL_IDX 0 0.

Definition empty (lv : PriceLevel) : bool := head_idx lv =? NULL_IDX.

Definition set_head (lv : PriceLevel) (i : Z) : PriceLevel :=
  mkLevel i (tail_idx lv) (order_count lv) (total_qty lv).
Definition set_tail (lv : PriceLevel) (i : Z) : PriceLevel :=
  mkLevel (head_idx lv) i (order_count lv) (total_qty lv).
Definition set_count (lv : PriceLevel) (n : Z) : PriceLevel :=
  mkLevel (head_idx lv) (tail_idx lv) n (total_qty lv).
Definition set_total (lv : PriceLevel) (n : Z) : PriceLevel :=
  mkLevel (head_idx lv) (tail_idx lv) (order_count lv) n.

(** [base[i].next_idx = v] and [base[i].prev_idx = v] *)
Definition link_next (base : list Order) (i v : Z) : res (list Order) :=
  o ← aget base i; aset base i (set_next o v).
Definition link_prev (base : list Order) (i v : Z) : res (list Order) :=
  o ← aget base i; aset base i (set_prev o v).

Definition push_back (lv : PriceLevel) (idx : Z) (base : list Order) :
    res (PriceLevel * list Order) :=
  base ← link_prev base idx (tail_idx lv);
  base ← link_next base idx NULL_IDX;
  '(lv, base) ←
    (if negb (tail_idx lv =? NULL_IDX) then
       base ← link_next base (tail_idx lv) idx; Ok (lv, base)
     else Ok (set_head lv idx, base));
  let lv := set_tail lv idx in
  let lv := set_count lv (u32 (order_count lv + 1)) in
  o ← aget base idx;
  Ok (set_total lv (u32 (total_qty lv + o_qty o)), base).

Definition pop_front (lv : PriceLevel) (base : list Order) :
    res (Z * PriceLevel * list Order) :=
  if head_idx lv =? NULL_IDX then Ok (NULL_IDX, lv, base)
  else
    let idx := head_idx lv in
    o ← aget base idx;
    let lv := set_head lv (o_next_idx o) in
    '(lv, base) ←
      (if negb (head_idx lv =? NULL_IDX) then
         base ← link_prev base (head_idx lv) NULL_IDX; Ok (lv, base)
       else Ok (set_tail lv NULL_IDX, base));
    let lv := set_count lv (u32 (order_count lv - 1)) in
    o ← aget base idx;
    Ok (idx, set_total lv (u32 (total_qty lv - o_qty o)), base).

Definition remove (lv : PriceLevel) (idx : Z) (base : list Order) :
    res (PriceLevel * list Order) :=
  o ← aget base idx;
  '(lv, base) ←
    (if negb (o_prev_idx o =? NULL_IDX) then
       base ← link_next base (o_prev_idx o) (o_next_idx o); Ok (lv, base)
     else Ok (set_head lv (o_next_idx o), base));
  o ← aget base idx;
  '(lv, base) ←
    (if negb (o_next_idx o =? NULL_IDX) then
       base ← link_prev base (o_next_idx o) (o_prev_idx o); Ok (lv, base)
     else Ok (set_tail lv (o_prev_idx o), base));
  let lv := set_count lv (u32 (order_count lv - 1)) in
  o ← aget base idx;
  Ok (set_total lv (u32 (total_qty lv - o_qty o)), base).

(** ** Abstraction *)

(** A resting order: what the book knows of it besides its links. *)
Record Resting : Type := mkResting {
  r_slot : Z;
  r_id : Z;
  r_price : Z;
  r_qty : Z;
  r_symbol : Z;
  r_side : Side;
  r_tif : TimeInForce;
  r_session : Z
}.

#[global] Instance Resting_eq_dec : EqDecision Resting.
Proof. solve_decision. Defined.

Definition node (r : Resting) (prev next : Z) : Order :=
  mkOrder (r_id r) (r_price r) (r_qty r) next prev (r_symbol r) (r_side r) (r_tif r).

Definition with_qty (r : Resting) (q : Z) : Resting :=
  mkResting (r_slot r) (r_id r) (r_price r) q (r_symbol r) (r_side r) (r_tif r) (r_session r).

(** The list segment from [hd] (whose predecessor is [prev]) to [last] (whose
    successor is [next]). *)
Fixpoint seg (base : list Order) (prev hd : Z) (rs : list Resting) (last next : Z) : Prop :=
  match rs with
  | [] => hd = next /\ last = prev
  | r :: rs =>
      hd = r_slot r /\
      exists nx, base !! r_slot r = Some (node r prev nx) /\
                 seg base (r_slot r) nx rs last next
  end.

Definition slots_of (rs : list Resting) : list Z := r_slot <$> rs.
Definition sum_qty (rs : list Resting) : Z := foldr (fun r n => r_qty r + n) 0 rs.

Record level_repr (base : list Order) (lv : PriceLevel) (rs : list Resting) : Prop := {
  lr_seg : seg base NULL_IDX (head_idx lv) rs (tail_idx lv) NULL_IDX;
  lr_count : order_count lv = u32 (zlen rs);
  lr_total : total_qty lv = u32 (sum_qty rs)
}.

(** ** Segments *)

Lemma slots_of_app l k : slots_of (l ++ k) = slots_of l ++ slots_of k.
Proof. apply fmap_app. Qed.

Lemma sum_qty_app l k : sum_qty (l ++ k) = sum_qty l + sum_qty k.
Proof. induction l; simpl; lia. Qed.

Lemma seg_app base p h l k la n :
  seg base p h (l ++ k) la n <->
  exists m h', seg base p h l m h' /\ seg base m h' k la n.
Proof.
  revert p h. induction l as [|r l IH]; intros p h; simpl.
  - split; [intros H; by exists p, h|]. intros (m & h' & [-> ->] & H). done.
  - split.
    + intros (-> & nx & Hb & H). apply IH in H as (m & h' & H1 & H2). eauto 10.
    + intros (m & h' & (-> & nx & Hb & H1) & H2). split; [done|]. exists nx.
      split; [done|]. apply IH. eauto.
Qed.

Lemma seg_frame base base' p h l la n :
  (forall s, s ∈ slots_of l -> base' !! s = base !! s) ->
  seg base p h l la n -> seg base' p h l la n.
Proof.
  revert p h. induction l as [|r l IH]; intros p h Hf; simpl; [done|].
  intros (-> & nx & Hb & H). split; [done|]. exists nx. split.
  - rewrite Hf; [done|]. constructor.
  - apply IH; [|done]. intros s Hs. apply Hf. by constructor.
Qed.

Lemma seg_snoc base p h l r la n :
  seg base p h (l ++ [r]) la n <->
  la = r_slot r /\ exists m, seg base p h l m (r_slot r) /\ base !! r_slot r = Some (node r m n).
Proof.
  rewrite seg_app. simpl. split.
  - intros (m & h' & H & -> & nx & Hb & -> & ->). eauto.
  - intros (-> & m & H & Hb). exists m, (r_slot r). eauto 10.
Qed.

(** Rewriting the link out of the last node, or into the first one. *)
Lemma seg_set_next base p h l r la n n' :
  NoDup (slots_of (l ++ [r])) ->
  seg base p h (l ++ [r]) la n ->
  exists o, base !! la = Some o /\ seg (<[la := set_next o n']> base) p h (l ++ [r]) la n'.
Proof.
  intros ND H. apply seg_snoc in H as (-> & m & H & Hb).
  eexists. split; [done|]. apply seg_snoc. split; [done|]. exists m. split.
  - eapply seg_frame; [|done]. intros s Hs. apply lookupZ_insertZ_ne. intros <-.
    rewrite slots_of_app in ND. apply NoDup_app in ND as (_ & ND & _).
    apply (ND _ Hs). constructor.
  - rewrite lookupZ_insertZ_eq; [done|]. by apply lookupZ_range in Hb.
Qed.

Lemma seg_set_prev base p p' h r l la n :
  NoDup (slots_of (r :: l)) ->
  seg base p h (r :: l) la n ->
  exists o, base !! h = Some o /\ seg (<[h := set_prev o p']> base) p' h (r :: l) la n.
Proof.
  intros ND (-> & nx & Hb & H). eexists. split; [done|]. simpl. split; [done|].
  exists nx. split.
  - rewrite lookupZ_insertZ_eq; [done|]. by eapply lookupZ_range.
  - eapply seg_frame; [|done]. intros s Hs. apply lookupZ_insertZ_ne. intros <-.
    by apply NoDup_cons in ND as [? _].
Qed.

Lemma seg_head_null base h l la :
  Forall (fun s => s <> NULL_IDX) (slots_of l) ->
  seg base NULL_IDX h l la NULL_IDX -> h = NULL_IDX -> l = [].
Proof.
  destruct l as [|r l]; [done|]. intros HF (-> & _) E.
  apply Forall_cons in HF as [? _]. done.
Qed.

Lemma seg_last_null base h l la n :
  Forall (fun s => s <> NULL_IDX) (slots_of l) ->
  seg base NULL_IDX h l la n -> la = NULL_IDX -> l = [].
Proof.
  destruct l as [|r l _] using rev_ind; [done|]. intros HF H ->.
  apply seg_snoc in H as (E & _). rewrite slots_of_app in HF.
  apply Forall_app in HF as [_ HF]. apply Forall_cons in HF as [? _]. by subst.
Qed.

(** ** The operations implement the queue operations *)

Definition valid_slots (rs : list Resting) : Prop :=
  Forall (fun s => s <> NULL_IDX) (slots_of rs) /\ NoDup (slots_of rs).

Lemma valid_slots_app l k : valid_slots (l ++ k) -> valid_slots l /\ valid_slots k.
Proof.
  unfold valid_slots. rewrite slots_of_app. intros [HF ND].
  apply Forall_app in HF as [? ?]. apply NoDup_app in ND as (? & _ & ?). done.
Qed.

Lemma level_init_repr base : level_repr base level_init [].
Proof. by split. Qed.

Lemma level_repr_frame base base' lv rs :
  (forall s, s ∈ slots_of rs -> base' !! s = base !! s) ->
  level_repr base lv rs -> level_repr base' lv rs.
Proof. intros Hf []. split; try done. by eapply seg_frame. Qed.

Lemma empty_spec base lv rs :
  valid_slots rs -> level_repr base lv rs -> empty lv = bool_decide (rs = []).
Proof.
  intros [HF _] [H _ _]. unfold empty. destruct (Z.eqb_spec (head_idx lv) NULL_IDX).
  - rewrite bool_decide_true; [done|]. by eapply seg_head_null.
  - rewrite bool_decide_false; [done|]. intros ->. by destruct H.
Qed.

Lemma push_back_spec base lv rs r p n :
  valid_slots (rs ++ [r]) -> level_repr base lv rs ->
  base !! r_slot r = Some (node r p n) ->
  exists lv' base', push_back lv (r_slot r) base = Ok (lv', base') /\
    level_repr base' lv' (rs ++ [r]) /\ zlen base' = zlen base /\
    forall s, s ∉ slots_of (rs ++ [r]) -> base' !! s = base !! s.
Proof.
  intros Hv [Hseg Hc Ht] Hb. set (i := r_slot r) in *.
  destruct (valid_slots_app _ _ Hv) as [[HF ND] _].
  assert (Hi : i ∉ slots_of rs).
  { destruct Hv as [_ NDi]. rewrite slots_of_app in NDi.
    apply NoDup_app in NDi as (_ & NDi & _). intros Hin. apply (NDi _ Hin). constructor. }
  pose proof (lookupZ_range _ _ _ Hb) as Hr.
  unfold push_back, link_prev, link_next.
  rewrite (aget_Ok _ _ _ Hb). simpl. rewrite aset_Ok by done. simpl.
  rewrite (aget_Ok _ i (node r (tail_idx lv) n)) by (by rewrite lookupZ_insertZ_eq). simpl.
  rewrite aset_Ok by (by rewrite zlen_insertZ). simpl. rewrite insertZ_insertZ.
  set (base1 := <[i := _]> base).
  assert (Hb1 : base1 !! i = Some (node r (tail_idx lv) NULL_IDX)) by (by apply lookupZ_insertZ_eq).
  assert (Hf1 : forall s, s ∈ slots_of rs -> base1 !! s = base !! s).
  { intros s Hs. apply lookupZ_insertZ_ne. congruence. }
  assert (Hseg1 : seg base1 NULL_IDX (head_idx lv) rs (tail_idx lv) NULL_IDX).
  { eapply seg_frame; [|done]. done. }
  assert (Hl1 : zlen base1 = zlen base) by apply zlen_insertZ.
  assert (Hsum : sum_qty (rs ++ [r]) = sum_qty rs + r_qty r) by (rewrite sum_qty_app; simpl; lia).
  destruct rs as [|r0 rs _] using rev_ind.
  - destruct Hseg1 as [Hh Htl]. rewrite Htl. simpl.
    rewrite Htl in Hb1. rewrite (aget_Ok _ _ _ Hb1). simpl.
    eexists _, _. split; [done|]. split; [split|].
    + simpl. split; [done|]. exists NULL_IDX. done.
    + simpl. rewrite Hc. reflexivity.
    + simpl. rewrite Ht. simpl. rewrite wrapU_add_l. f_equal. lia.
    + split; [done|]. intros s Hs. apply lookupZ_insertZ_ne. intros <-. apply Hs. constructor.
  - destruct (seg_set_next _ _ _ _ _ _ _ i ND Hseg1) as (o & Ho & Hseg2).
    assert (Htl : tail_idx lv = r_slot r0) by (by apply seg_snoc in Hseg1 as [? _]).
    assert (Hr0 : r_slot r0 ∈ slots_of (rs ++ [r0])).
    { rewrite slots_of_app. apply elem_of_app. right. constructor. }
    assert (Hne : tail_idx lv <> NULL_IDX).
    { rewrite Htl. rewrite Forall_forall in HF. by apply HF. }
    assert (Hti : tail_idx lv <> i) by (rewrite Htl; congruence).
    rewrite (proj2 (Z.eqb_neq _ _)) by done. simpl.
    rewrite (aget_Ok _ _ _ Ho). simpl. rewrite (aset_Some _ _ _ _ Ho). simpl.
    rewrite (aget_Ok _ i (node r (tail_idx lv) NULL_IDX)) by (by rewrite lookupZ_insertZ_ne). simpl.
    eexists _, _. split; [done|]. split; [split|].
    + simpl. apply seg_snoc. split; [done|]. exists (tail_idx lv).
      split; [done|]. by rewrite lookupZ_insertZ_ne.
    + simpl. rewrite Hc, wrapU_add_l, (zlen_app _ [r]). f_equal.
    + simpl. rewrite Ht, Hsum. apply wrapU_add_l.
    + split; [by rewrite zlen_insertZ|]. intros s Hs.
      rewrite slots_of_app, not_elem_of_app in Hs. destruct Hs as [Hs1 Hs2].
      rewrite lookupZ_insertZ_ne by congruence. apply lookupZ_insertZ_ne. intros <-.
      apply Hs2. constructor.
Qed.

Lemma pop_front_spec base lv r rs :
  valid_slots (r :: rs) -> level_repr base lv (r :: rs) ->
  exists lv' base', pop_front lv base = Ok (r_slot r, lv', base') /\
    level_repr base' lv' rs /\ zlen base' = zlen base /\
    forall s, s ∉ slots_of rs -> base' !! s = base !! s.
Proof.
  intros [HF ND] [Hseg Hc Ht]. destruct Hseg as (Hh & nx & Hb & Hseg).
  unfold slots_of in HF, ND. rewrite fmap_cons in HF, ND.
  apply Forall_cons in HF as [Hne HF]. apply NoDup_cons in ND as [Hni ND].
  unfold pop_front. rewrite Hh, (proj2 (Z.eqb_neq _ _)) by done.
  rewrite (aget_Ok _ _ _ Hb). simpl.
  assert (Ecount : u32 (order_count lv - 1) = u32 (zlen rs)).
  { rewrite Hc, wrapU_sub_l, zlen_cons. f_equal. lia. }
  assert (Etotal : u32 (total_qty lv - r_qty r) = u32 (sum_qty rs)).
  { rewrite Ht, wrapU_sub_l. f_equal. simpl. lia. }
  destruct rs as [|r1 rs].
  - destruct Hseg as [-> Hla]. simpl. rewrite (aget_Ok _ _ _ Hb). simpl.
    eexists _, _. split; [done|]. split; [split; simpl|]; done.
  - destruct (seg_set_prev _ _ NULL_IDX _ _ _ _ _ ND Hseg) as (o & Ho & Hseg').
    assert (nx = r_slot r1) as -> by (by destruct Hseg).
    assert (r_slot r1 <> NULL_IDX) by (by apply Forall_cons in HF as [? _]).
    rewrite (proj2 (Z.eqb_neq _ _)) by done. simpl. unfold link_prev.
    rewrite (aget_Ok _ _ _ Ho). simpl. rewrite (aset_Some _ _ _ _ Ho). simpl.
    rewrite (aget_Ok _ _ (node r NULL_IDX (r_slot r1))).
    2:{ rewrite lookupZ_insertZ_ne; [done|]. intros E. apply Hni. rewrite <- E. constructor. }
    simpl. eexists _, _. split; [done|]. split; [split; simpl; done|].
    split; [by rewrite zlen_insertZ|]. intros s Hs. apply lookupZ_insertZ_ne.
    intros <-. apply Hs. constructor.
Qed.

(** Reducing the quantity of the order at the head, as a partial fill does. *)
Lemma fill_head_repr base base' lv r rs q nx p :
  r_slot r ∉ slots_of rs -> level_repr base lv (r :: rs) ->
  base !! r_slot r = Some (node r p nx) ->
  base' !! r_slot r = Some (node (with_qty r q) p nx) ->
  (forall s, s ∈ slots_of rs -> base' !! s = base !! s) ->
  level_repr base' (set_total lv (u32 (total_qty lv - (r_qty r - q)))) (with_qty r q :: rs).
Proof.
  intros Hr [(Hh & nx' & Hb' & Hseg) Hc Ht] Hb Hb2 Hf.
  rewrite Hb in Hb'. injection Hb' as -> ->. split; simpl.
  - split; [done|]. exists nx'. split; [done|]. by eapply seg_frame.
  - done.
  - rewrite Ht, wrapU_sub_l. f_equal. simpl. lia.
Qed.

(** The two unlinking halves of [remove]: the predecessor (or the head) and
    the successor (or the tail). *)
Lemma unlink_left_spec base hd l1 m s0 nx :
  valid_slots l1 -> seg base NULL_IDX hd l1 m s0 ->
  exists base' hd',
    (forall lv, head_idx lv = hd ->
      (if negb (m =? NULL_IDX) then base ← link_next base m nx; Ok (lv, base)
       else Ok (set_head lv nx, base)) = Ok (set_head lv hd', base')) /\
    seg base' NULL_IDX hd' l1 m nx /\ zlen base' = zlen base /\
    forall s, s ∉ slots_of l1 -> base' !! s = base !! s.
Proof.
  intros [HF ND] H. destruct l1 as [|r l1 _] using rev_ind.
  - destruct H as [_ ->]. simpl. exists base, nx. split; [done|]. done.
  - destruct (seg_set_next _ _ _ _ _ _ _ nx ND H) as (o & Ho & H').
    assert (Hm : m <> NULL_IDX).
    { intros ->.
      pose proof (seg_last_null _ _ _ _ _ HF H eq_refl) as E. by apply app_nil in E as [_ ?]. }
    rewrite (proj2 (Z.eqb_neq _ _)) by done. simpl. unfold link_next.
    rewrite (aget_Ok _ _ _ Ho). simpl. rewrite (aset_Some _ _ _ _ Ho). simpl.
    exists (<[m := set_next o nx]> base), hd. split.
    + intros lv <-. by destruct lv.
    + split; [done|]. split; [apply zlen_insertZ|]. intros s Hs. apply lookupZ_insertZ_ne.
      intros <-. apply Hs. apply seg_snoc in H as (-> & _). rewrite slots_of_app, elem_of_app.
      right. constructor.
Qed.

Lemma unlink_right_spec base s0 nx l2 m la :
  valid_slots l2 -> seg base s0 nx l2 la NULL_IDX -> (l2 = [] -> la = s0) ->
  exists base' la',
    (forall lv, tail_idx lv = la ->
      (if negb (nx =? NULL_IDX) then base ← link_prev base nx m; Ok (lv, base)
       else Ok (set_tail lv m, base)) = Ok (set_tail lv la', base')) /\
    seg base' m nx l2 la' NULL_IDX /\ zlen base' = zlen base /\
    forall s, s ∉ slots_of l2 -> base' !! s = base !! s.
Proof.
  intros [HF ND] H Hla. destruct l2 as [|r l2].
  - destruct H as [-> _]. simpl. exists base, m. done.
  - destruct (seg_set_prev _ _ m _ _ _ _ _ ND H) as (o & Ho & H').
    assert (nx = r_slot r) as E by (by destruct H).
    assert (Hn : nx <> NULL_IDX) by (rewrite E; by apply Forall_cons in HF as [? _]).
    rewrite (proj2 (Z.eqb_neq _ _)) by done. simpl. unfold link_prev.
    rewrite (aget_Ok _ _ _ Ho). simpl. rewrite (aset_Some _ _ _ _ Ho). simpl.
    exists (<[nx := set_prev o m]> base), la. split.
    + intros lv <-. by destruct lv.
    + split; [done|]. split; [apply zlen_insertZ|]. intros s Hs. apply lookupZ_insertZ_ne.
      intros <-. apply Hs. rewrite E. constructor.
Qed.

Lemma remove_spec base lv l1 r l2 :
  valid_slots (l1 ++ r :: l2) -> level_repr base lv (l1 ++ r :: l2) ->
  exists lv' base', remove lv (r_slot r) base = Ok (lv', base') /\
    level_repr base' lv' (l1 ++ l2) /\ zlen base' = zlen base /\
    forall s, s ∉ slots_of (l1 ++ l2) -> base' !! s = base !! s.
Proof.
  intros Hv [Hseg Hc Ht].
  apply seg_app in Hseg as (m & h' & H1 & -> & nx & Hb & H2).
  destruct (valid_slots_app _ _ Hv) as [Hv1 Hv2].
  destruct (valid_slots_app [r] l2 Hv2) as [_ Hv2'].
  assert (D : forall s, s ∈ slots_of l1 -> s ∉ slots_of (r :: l2)).
  { destruct Hv as [_ ND]. rewrite slots_of_app in ND. by apply NoDup_app in ND as (_ & ? & _). }
  assert (Dr : r_slot r ∉ slots_of l2).
  { destruct Hv2 as [_ ND]. by apply NoDup_cons in ND as [? _]. }
  unfold remove. rewrite (aget_Ok _ _ _ Hb). simpl.
  destruct (unlink_left_spec base (head_idx lv) l1 m (r_slot r) nx Hv1 H1)
    as (base1 & hd' & Hrun1 & Hs1 & Hlen1 & Hf1).
  rewrite (Hrun1 lv eq_refl). simpl.
  assert (Hb1 : base1 !! r_slot r = Some (node r m nx)).
  { rewrite Hf1; [done|]. intros Hin. apply (D _ Hin). constructor. }
  rewrite (aget_Ok _ _ _ Hb1). simpl.
  assert (H2' : seg base1 (r_slot r) nx l2 (tail_idx lv) NULL_IDX).
  { eapply seg_frame; [|done]. intros s Hs. apply Hf1. intros Hin. apply (D _ Hin). by constructor. }
  destruct (unlink_right_spec base1 (r_slot r) nx l2 m (tail_idx lv) Hv2' H2')
    as (base2 & la' & Hrun2 & Hs2 & Hlen2 & Hf2).
  { intros ->. by destruct H2'. }
  rewrite (Hrun2 (set_head lv hd') eq_refl). simpl.
  rewrite (aget_Ok _ _ (node r m nx)) by (by rewrite Hf2).
  simpl. eexists _, _. split; [done|]. split; [split; simpl|].
  - apply seg_app. exists m, nx. split; [|done]. eapply seg_frame; [|done].
    intros s Hs. apply Hf2. intros Hin. apply (D _ Hs). by constructor.
  - rewrite Hc, wrapU_sub_l, !zlen_app, zlen_cons. f_equal. lia.
  - rewrite Ht, wrapU_sub_l, !sum_qty_app. simpl. f_equal. lia.
  - split; [lia|]. intros s Hs. rewrite slots_of_app, not_elem_of_app in Hs.
    destruct Hs. by rewrite Hf2, Hf1.
Qed.

(** ** Guarantees *)

(** C31: A level is a FIFO queue of its orders: threaded through the slot array
    it represents a queue; appending puts an order at its end, popping takes
    the one at its front, removing takes out any one and keeps the others in
    order; count and total quantity (modulo [2^32]) follow; all accesses are in
    bounds and slots outside the queue are untouched by each of the three. *)
Theorem level_is_fifo base lv rs :
  level_repr base lv rs -> valid_slots rs ->
  (forall r p n, valid_slots (rs ++ [r]) -> base !! r_slot r = Some (node r p n) ->
     exists lv' base', push_back lv (r_slot r) base = Ok (lv', base') /\
       level_repr base' lv' (rs ++ [r]) /\
       forall s, s ∉ slots_of (rs ++ [r]) -> base' !! s = base !! s) /\
  (match rs with
   | [] => pop_front lv base = Ok (NULL_IDX, lv, base)
   | r :: rs' => exists lv' base', pop_front lv base = Ok (r_slot r, lv', base') /\ level_repr base' lv' rs' /\
       forall s, s ∉ slots_of rs' -> base' !! s = base !! s
   end) /\
  (forall l1 r l2, rs = l1 ++ r :: l2 ->
     exists lv' base', remove lv (r_slot r) base = Ok (lv', base') /\ level_repr base' lv' (l1 ++ l2) /\
       forall s, s ∉ slots_of (l1 ++ l2) -> base' !! s = base !! s).
Proof.
  intros Hrep Hv. split; [|split].
  - intros r p n Hv' Hb. destruct (push_back_spec base lv rs r p n Hv' Hrep Hb) as (lv' & base' & ? & ? & _ & ?).
    by exists lv', base'.
  - destruct rs as [|r rs'].
    + pose proof (empty_spec _ _ _ Hv Hrep) as E. unfold empty in E. unfold pop_front. by rewrite E.
    + destruct (pop_front_spec base lv r rs' Hv Hrep) as (lv' & base' & ? & ? & _ & ?). by exists lv', base'.
  - intros l1 r l2 ->. destruct (remove_spec base lv l1 r l2 Hv Hrep) as (lv' & base' & ? & ? & _ & ?).
    by exists lv', base'.
Qed.

(** Two orders queued at a level, in slots 2 and 0. *)
Definition level_r1 : Resting := mkResting 2 1 1050 10 0 SELL GTC 71.
Definition level_r2 : Resting := mkResting 0 2 1050 5 0 SELL GTC 72.
Definition demo_slots : list Order := [node level_r2 2 NULL_IDX; zero_order; node level_r1 NULL_IDX 0].
Definition demo_level : PriceLevel := mkLevel 2 0 2 15.

Lemma level_is_fifo_witness :
  exists lv' base', remove demo_level 2 demo_slots = Ok (lv', base') /\ level_repr base' lv' [level_r2].
Proof.
  assert (Hrep : level_repr demo_slots demo_level [level_r1; level_r2]).
  { split; [|done|done]. split; [done|]. exists 0. split; [done|]. split; [done|]. exists NULL_IDX. by split. }
  assert (Hv : valid_slots [level_r1; level_r2]).
  { split; [repeat constructor; by vm_compute|]. apply NoDup_cons. split; [|apply NoDup_singleton].
    by intros E%list_elem_of_singleton. }
  destruct (proj2 (proj2 (level_is_fifo demo_slots demo_level [level_r1; level_r2] Hrep Hv)) [] level_r1 [level_r2] eq_refl)
    as (lv' & base' & H & H' & _).
  exists lv', base'. split; [exact H|exact H'].
Defined.

End PriceLevel.
