(* ===== verification/OrderHandle.v ===== *)
(** * Cancel tokens ([OrderHandle] of [include/lx/book/order_book.hpp])

    A handle is a slot and the generation it was issued at; a token packs it
    with the shard id as [63:56] shard | [55:24] gen | [23:0] slot. *)

From S2P Require Import Prelude.

Module OrderHandle.

Record OrderHandle : Type := mkHandle {
  h_slot : Z;   (* uint32_t *)
  h_gen : Z     (* uint32_t *)
}.

#[global] Instance OrderHandle_eq_dec : EqDecision OrderHandle.
Proof. solve_decision. Defined.

Definition INVALID : Z := UINT32_MAX.

(** [OrderHandle{}] *)
Definition no_handle : OrderHandle := mkHandle INVALID 0.

Definition valid (h : OrderHandle) : bool := negb (h_slot h =? INVALID).

Definition to_token (h : OrderHandle) (shard : Z) : Z :=
  Z.lor (Z.lor (u64 (Z.shiftl shard 56)) (u64 (Z.shiftl (h_gen h) 24)))
        (Z.land (h_slot h) 0xFFFFFF).

Definition from_token (token : Z) : OrderHandle :=
  mkHandle (u32 (Z.land token 0xFFFFFF)) (u32 (Z.land (Z.shiftr token 24) 0xFFFFFFFF)).

Definition token_shard (token : Z) : Z := u8 (Z.shiftr token 56).

(** ** The token as arithmetic *)

Lemma lor_shiftl_add a b n : 0 <= n -> 0 <= b < 2 ^ n ->
  Z.lor (Z.shiftl a n) b = a * 2 ^ n + b.
Proof. intros. rewrite Z.shiftl_mul_pow2 by lia. by apply lor_low. Qed.

Lemma to_token_eq h shard :
  is_u 24 (h_slot h) -> is_u 32 (h_gen h) -> is_u 8 shard ->
  to_token h shard = shard * 2 ^ 56 + h_gen h * 2 ^ 24 + h_slot h.
Proof.
  unfold is_u. intros Hs Hg Hsh. unfold to_token.
  rewrite !wrapU_small by (rewrite Z.shiftl_mul_pow2 by lia; lia).
  change 0xFFFFFF with (Z.ones 24). rewrite Z.land_ones, Z.mod_small by lia.
  replace (Z.shiftl shard 56) with (Z.shiftl (Z.shiftl shard 32) 24)
    by (rewrite Z.shiftl_shiftl by lia; done).
  rewrite <- Z.shiftl_lor. rewrite (lor_shiftl_add _ (h_slot h)) by lia.
  rewrite lor_shiftl_add by lia. lia.
Qed.

Lemma to_token_u64 h shard :
  is_u 24 (h_slot h) -> is_u 32 (h_gen h) -> is_u 8 shard -> is_u 64 (to_token h shard).
Proof. intros. rewrite to_token_eq by done. unfold is_u in *. lia. Qed.

Lemma from_token_eq t : from_token t = mkHandle (t mod 2 ^ 24) (t / 2 ^ 24 mod 2 ^ 32).
Proof.
  unfold from_token. change 0xFFFFFF with (Z.ones 24). change 0xFFFFFFFF with (Z.ones 32).
  rewrite !Z.land_ones, Z.shiftr_div_pow2 by lia. f_equal; apply wrapU_small.
  - pose proof (Z.mod_pos_bound t (2 ^ 24) ltac:(lia)). lia.
  - apply Z.mod_pos_bound. lia.
Qed.

Lemma token_round_trip h shard :
  is_u 24 (h_slot h) -> is_u 32 (h_gen h) -> is_u 8 shard ->
  from_token (to_token h shard) = h /\ token_shard (to_token h shard) = shard.
Proof.
  intros Hs Hg Hsh. rewrite to_token_eq by done. unfold is_u in *. split.
  - rewrite from_token_eq. destruct h as [s g]. simpl in *.
    replace (shard * 2 ^ 56 + g * 2 ^ 24 + s) with (s + (shard * 2 ^ 32 + g) * 2 ^ 24) by lia.
    rewrite Z.mod_add, Z.div_add, (Z.mod_small s), (Z.div_small s) by lia.
    f_equal. rewrite Z.add_0_l, Z.add_comm, Z.mod_add, Z.mod_small by lia. done.
  - unfold token_shard. rewrite Z.shiftr_div_pow2 by lia.
    replace (shard * 2 ^ 56 + h_gen h * 2 ^ 24 + h_slot h)
      with ((h_gen h * 2 ^ 24 + h_slot h) + shard * 2 ^ 56) by lia.
    rewrite Z.div_add, Z.div_small, Z.add_0_l by lia. apply wrapU_small. lia.
Qed.

(** ** Guarantees *)

(** Tokens are unambiguous: a token unpacks to the slot, generation and
    shard it was packed from, so two different handles, or the same handle of
    two shards, never share a token, as long as slots fit into 24 bits. *)
Theorem token_unambiguous h shard h' shard' :
  is_u 24 (h_slot h) -> is_u 32 (h_gen h) -> is_u 8 shard ->
  is_u 24 (h_slot h') -> is_u 32 (h_gen h') -> is_u 8 shard' ->
  is_u 64 (to_token h shard) /\ from_token (to_token h shard) = h /\
  (to_token h shard = to_token h' shard' <-> h = h' /\ shard = shard').
Proof.
  intros H1 H2 H3 K1 K2 K3. destruct (token_round_trip h shard H1 H2 H3) as [E1 E2].
  destruct (token_round_trip h' shard' K1 K2 K3) as [F1 F2].
  split; [by apply to_token_u64|]. split; [done|]. split.
  - intros E. split; [by rewrite <- E1, <- F1, E|by rewrite <- E2, <- F2, E].
  - by intros [-> ->].
Qed.

Lemma token_unambiguous_witness : from_token (to_token (mkHandle 77 (2 ^ 32 - 1)) 255) = mkHandle 77 (2 ^ 32 - 1).
Proof.
  refine (proj1 (proj2 (token_unambiguous (mkHandle 77 (2 ^ 32 - 1)) 255 (mkHandle 0 0) 0 _ _ _ _ _ _)));
    by vm_compute.
Defined.

End OrderHandle.
