(* ===== verification/OrderBook.v ===== *)
(** * The order book ([include/lx/book/order_book.hpp])

    [OrderBook<MAX_ORDERS, LADDER_SIZE>]: a flat price ladder per side, an
    occupancy bitmap per side and the index of the best level of each side.
    The arena (slots and session table) is borrowed from the shard, so every
    operation takes it and returns it.

    This file holds the operations; [BookSpec] states what they should do,
    [BookInv] the representation invariant and [BookRefine] that they do it. *)

From S2P Require Import Prelude Messages Order LevelBitmap Pool PriceLevel OrderHandle.

Module OrderBook.
Import PriceLevel OrderHandle.

Record OrderBook : Type := mkBook {
  base_price_ : Z;                (* int64_t *)
  tick_size_ : Z;                 (* int64_t *)
  best_bid_idx_ : Z;              (* uint32_t *)
  best_ask_idx_ : Z;              (* uint32_t *)
  bid_levels_ : list PriceLevel;
  ask_levels_ : list PriceLevel;
  bid_occ_ : list Z;
  ask_occ_ : list Z
}.

(** What the book borrows: [pool_] and [order_session_]. *)
Record Arena : Type := mkArena {
  pool_ : Pool.Pool Order;
  order_session_ : list Z
}.

(** The members of one side, which [match] binds by reference. *)
Record SideState : Type := mkSide {
  best : Z;
  levels : list PriceLevel;
  occ : list Z
}.

(** [side_of true] is the bid side and [side_of false] the ask side. *)
Definition side_of (bid : bool) (bk : OrderBook) : SideState :=
  if bid then mkSide (best_bid_idx_ bk) (bid_levels_ bk) (bid_occ_ bk)
  else mkSide (best_ask_idx_ bk) (ask_levels_ bk) (ask_occ_ bk).

Definition put_side (bid : bool) (bk : OrderBook) (s : SideState) : OrderBook :=
  if bid then
    mkBook (base_price_ bk) (tick_size_ bk) (best s) (best_ask_idx_ bk)
      (levels s) (ask_levels_ bk) (occ s) (ask_occ_ bk)
  else
    mkBook (base_price_ bk) (tick_size_ bk) (best_bid_idx_ bk) (best s)
      (bid_levels_ bk) (levels s) (bid_occ_ bk) (occ s).

Section operations.
Context (MAX_ORDERS LADDER_SIZE : Z).

Definition book_init (base_price tick_size : Z) : OrderBook :=
  mkBook base_price tick_size NULL_IDX NULL_IDX
    (replicate (Z.to_nat LADDER_SIZE) level_init)
    (replicate (Z.to_nat LADDER_SIZE) level_init)
    (LevelBitmap.bm_init LADDER_SIZE) (LevelBitmap.bm_init LADDER_SIZE).

Definition price_to_idx (bk : OrderBook) (price : Z) : res Z :=
  d ← i64_sub price (base_price_ bk);
  q ← i64_div d (tick_size_ bk);
  Ok (i32 q).

(** [find_best<BUY>] scans the bids down, [find_best<SELL>] the asks up. *)
Definition find_best (bid : bool) (occ : list Z) (from : Z) : res Z :=
  if bid then LevelBitmap.next_down LADDER_SIZE occ from
  else LevelBitmap.next_up LADDER_SIZE occ from.

Definition make_fill (aggressor resting : Order) (session fill_qty : Z) : Fill :=
  mkFill (mkHeader sizeof_Fill FILL 0 session) (o_order_id aggressor)
    (o_order_id resting) (o_price resting) fill_qty 0.

(** One pass of the inner loop of [match] on the level [lvls[b]]: a fill
    between the aggressor in slot [aslot] and the order at the head. *)
Definition fill_head (aslot b : Z) (lvls : list PriceLevel) (p : Pool.Pool Order)
    (sess : list Z) (fills : list Fill) : res (list PriceLevel * Pool.Pool Order * list Fill) :=
  level ← aget lvls b;
  aggressor ← aget (Pool.data p) aslot;
  let rslot := head_idx level in
  resting ← Pool.at_ MAX_ORDERS p rslot;
  let fill_qty := Z.min (o_qty aggressor) (o_qty resting) in
  sid ← aget sess rslot;
  let fills := fills ++ [make_fill aggressor resting sid fill_qty] in
  let level := set_total level (u32 (total_qty level - fill_qty)) in
  base ← aset (Pool.data p) aslot (set_qty aggressor (u32 (o_qty aggressor - fill_qty)));
  resting ← aget base rslot;
  base ← aset base rslot (set_qty resting (u32 (o_qty resting - fill_qty)));
  resting ← aget base rslot;
  if o_qty resting =? 0 then
    '(_, level, base) ← pop_front level base;
    lvls ← aset lvls b level;
    p ← Pool.free MAX_ORDERS (Pool.with_data p base) rslot;
    Ok (lvls, p, fills)
  else
    lvls ← aset lvls b level;
    Ok (lvls, Pool.with_data p base, fills).

(** The inner loop; the boolean says that [match] returned because the
    caller's fill array is full. *)
Fixpoint match_level (fuel : nat) (max_fills aslot b : Z) (lvls : list PriceLevel)
    (p : Pool.Pool Order) (sess : list Z) (fills : list Fill) :
    res (bool * list PriceLevel * Pool.Pool Order * list Fill) :=
  match fuel with
  | O => Err OutOfFuel
  | S fuel =>
      aggressor ← aget (Pool.data p) aslot;
      level ← aget lvls b;
      if (0 <? o_qty aggressor) && negb (empty level) then
        _ ← Pool.at_ MAX_ORDERS p (head_idx level);
        if max_fills <=? zlen fills then Ok (true, lvls, p, fills)
        else
          '(lvls, p, fills) ← fill_head aslot b lvls p sess fills;
          match_level fuel max_fills aslot b lvls p sess fills
      else Ok (false, lvls, p, fills)
  end.

(** The outer loop.  [bid] is the side being consumed: bids for a selling
    aggressor, asks for a buying one. *)
Fixpoint match_loop (fuel : nat) (bid : bool) (max_fills aslot agg_idx : Z) (s : SideState)
    (p : Pool.Pool Order) (sess : list Z) (fills : list Fill) :
    res (SideState * Pool.Pool Order * list Fill) :=
  match fuel with
  | O => Err OutOfFuel
  | S fuel =>
      aggressor ← aget (Pool.data p) aslot;
      if (0 <? o_qty aggressor) && negb (best s =? NULL_IDX) then
        if (if bid then best s <? agg_idx else agg_idx <? best s) then Ok (s, p, fills)
        else
          '(full, lvls, p, fills) ←
            match_level (S (Z.to_nat max_fills)) max_fills aslot (best s) (levels s) p sess fills;
          if (full : bool) then Ok (mkSide (best s) lvls (occ s), p, fills)
          else
            level ← aget lvls (best s);
            s ←
              (if empty level then
                 o ← LevelBitmap.clear (occ s) (best s);
                 b ← (if bid then
                        if 0 <? best s then find_best true o (u32 (best s - 1)) else Ok NULL_IDX
                      else find_best false o (u32 (best s + 1)));
                 Ok (mkSide b lvls o)
               else Ok (mkSide (best s) lvls (occ s)));
            match_loop fuel bid max_fills aslot agg_idx s p sess fills
      else Ok (s, p, fills)
  end.

Definition match_ (bid : bool) (max_fills aslot agg_idx : Z) (s : SideState)
    (p : Pool.Pool Order) (sess : list Z) (fills : list Fill) :
    res (SideState * Pool.Pool Order * list Fill) :=
  match_loop (2 + Z.to_nat LADDER_SIZE) bid max_fills aslot agg_idx s p sess fills.

(** [push_back] onto the own side, occupancy bit and best index. *)
Definition rest (bid : bool) (uidx slot : Z) (s : SideState) (p : Pool.Pool Order) :
    res (SideState * Pool.Pool Order) :=
  level ← aget (levels s) uidx;
  '(level, base) ← push_back level slot (Pool.data p);
  lvls ← aset (levels s) uidx level;
  o ← LevelBitmap.set (occ s) uidx;
  let b :=
    if (best s =? NULL_IDX) || (if bid then best s <? uidx else uidx <? best s)
    then uidx else best s in
  Ok (mkSide b lvls o, Pool.with_data p base).

Definition add_order (bk : OrderBook) (ar : Arena) (msg : NewOrder) (fills : list Fill)
    (max_fills : Z) : res (OrderHandle * list Fill * OrderBook * Arena) :=
  idx ← price_to_idx bk (no_price msg);
  let uidx := u32 idx in
  if (idx <? 0) || (LADDER_SIZE <=? uidx) then Ok (no_handle, fills, bk, ar)
  else
    '(slot, p) ← Pool.alloc (pool_ ar);
    if slot =? Pool.INVALID_IDX then Ok (no_handle, fills, bk, mkArena p (order_session_ ar))
    else
      p ← Pool.put MAX_ORDERS p slot
            (mkOrder (no_order_id msg) (no_price msg) (no_qty msg) NULL_IDX NULL_IDX
               (no_symbol_id msg) (no_side msg) (no_tif msg));
      sess ← aset (order_session_ ar) slot (hdr_session_id (no_hdr msg));
      let buy := bool_decide (no_side msg = BUY) in
      '(opp, p, fills) ← match_ (negb buy) max_fills slot uidx (side_of (negb buy) bk) p sess [];
      let bk := put_side (negb buy) bk opp in
      o ← aget (Pool.data p) slot;
      if (0 <? o_qty o) && negb (bool_decide (no_tif msg = IOC)) then
        '(own, p) ← rest buy uidx slot (side_of buy bk) p;
        g ← Pool.gen p slot;
        Ok (mkHandle slot g, fills, put_side buy bk own, mkArena p sess)
      else
        p ← Pool.free MAX_ORDERS p slot;
        Ok (no_handle, fills, bk, mkArena p sess).

(** The level update shared by the two branches of [cancel_order]. *)
Definition unrest (bid : bool) (uidx slot : Z) (s : SideState) (p : Pool.Pool Order) :
    res (SideState * Pool.Pool Order) :=
  level ← aget (levels s) uidx;
  '(level, base) ← remove level slot (Pool.data p);
  lvls ← aset (levels s) uidx level;
  s ←
    (if empty level then
       o ← LevelBitmap.clear (occ s) uidx;
       b ← (if best s =? uidx then
              find_best bid o (if bid then (if 0 <? uidx then u32 (uidx - 1) else NULL_IDX)
                               else u32 (uidx + 1))
            else Ok (best s));
       Ok (mkSide b lvls o)
     else Ok (mkSide (best s) lvls (occ s)));
  Ok (s, Pool.with_data p base).

Definition cancel_order (bk : OrderBook) (ar : Arena) (h : OrderHandle) :
    res (bool * OrderBook * Arena) :=
  if MAX_ORDERS <=? h_slot h then Ok (false, bk, ar)
  else
    g ← Pool.gen (pool_ ar) (h_slot h);
    if negb (g =? h_gen h) then Ok (false, bk, ar)
    else
      o ← Pool.at_ MAX_ORDERS (pool_ ar) (h_slot h);
      idx ← price_to_idx bk (o_price o);
      let uidx := u32 idx in
      let bid := bool_decide (o_side o = BUY) in
      '(s, p) ← unrest bid uidx (h_slot h) (side_of bid bk) (pool_ ar);
      p ← Pool.free MAX_ORDERS p (h_slot h);
      Ok (true, put_side bid bk s, mkArena p (order_session_ ar)).

Definition cancel_by_token (bk : OrderBook) (ar : Arena) (token : Z) :
    res (bool * OrderBook * Arena) :=
  cancel_order bk ar (from_token token).

Definition best_bid_price (bk : OrderBook) : res Z :=
  if best_bid_idx_ bk =? NULL_IDX then Ok INT64_MIN
  else d ← i64_mul (best_bid_idx_ bk) (tick_size_ bk); i64_add (base_price_ bk) d.

Definition best_ask_price (bk : OrderBook) : res Z :=
  if best_ask_idx_ bk =? NULL_IDX then Ok INT64_MAX
  else d ← i64_mul (best_ask_idx_ bk) (tick_size_ bk); i64_add (base_price_ bk) d.

Definition arena_init : Arena :=
  mkArena (Pool.pool_init MAX_ORDERS zero_order) (replicate (Z.to_nat MAX_ORDERS) 0).

End operations.

Arguments find_best : simpl never.

End OrderBook.
