(* ===== verification/BookSpec.v ===== *)
(** * What an order book promises

    The reference order book keeps each side as one list of resting orders
    in price-time priority: best price first, and first come first served at
    a price.  Prices are compared through their ladder index [ix].  There are
    no slots to link, no bitmap and no best index: matching eats the list from
    its head, a new order is inserted behind every order that is at least as
    good, and a cancel filters its order out. *)

From S2P Require Import Prelude Messages Order PriceLevel.

Module BookSpec.
Import PriceLevel.

(** The two sides, as lists in priority order. *)
Record ABook : Type := mkABook {
  bids : list Resting;
  asks : list Resting
}.

Definition aside (bid : bool) (ab : ABook) : list Resting := if bid then bids ab else asks ab.
Definition aput (bid : bool) (ab : ABook) (l : list Resting) : ABook :=
  if bid then mkABook l (asks ab) else mkABook (bids ab) l.

(** The fill report the book addresses to the owner of the resting order. *)
Definition spec_fill (agg_id : Z) (r : Resting) (q : Z) : Fill :=
  mkFill (mkHeader sizeof_Fill FILL 0 (r_session r)) agg_id (r_id r) (r_price r) q 0.

(** On side [bid], level [i] is at least as good as level [j]; strictly better. *)
Definition at_least (bid : bool) (i j : Z) : bool := if bid then j <=? i else i <=? j.
Definition better (bid : bool) (i j : Z) : Prop := if bid then j < i else i < j.

Section spec.
(** The ladder index of a price. *)
Context (ix : Z -> Z).

Definition r_ix (r : Resting) : Z := ix (r_price r).

(** An order resting on side [bid] at level [i] trades with an aggressor at [agg_idx]. *)
Definition crosses (bid : bool) (i agg_idx : Z) : bool := at_least bid i agg_idx.

(** Consume side [bid] from its best order for at most [budget] fills; the
    fills, the unfilled quantity and what is left of the side. *)
Fixpoint spec_match (bid : bool) (agg_id agg_idx budget qty : Z) (l : list Resting) :
    list Fill * Z * list Resting :=
  match l with
  | [] => ([], qty, [])
  | r :: l' =>
      if (0 <? qty) && crosses bid (r_ix r) agg_idx && (0 <? budget) then
        let q := Z.min qty (r_qty r) in
        if r_qty r - q =? 0 then
          let '(fs, qty', l'') := spec_match bid agg_id agg_idx (budget - 1) (qty - q) l' in
          (spec_fill agg_id r q :: fs, qty', l'')
        else ([spec_fill agg_id r q], qty - q, with_qty r (r_qty r - q) :: l')
      else ([], qty, l)
  end.

Fixpoint spec_insert (bid : bool) (r : Resting) (l : list Resting) : list Resting :=
  match l with
  | [] => [r]
  | x :: l' => if at_least bid (r_ix x) (r_ix r) then x :: spec_insert bid r l' else r :: l
  end.

Definition spec_cancel (slot : Z) (l : list Resting) : list Resting :=
  filter (fun r => r_slot r <> slot) l.

Definition resting_of (msg : NewOrder) (slot qty : Z) : Resting :=
  mkResting slot (no_order_id msg) (no_price msg) qty (no_symbol_id msg)
    (no_side msg) (no_tif msg) (hdr_session_id (no_hdr msg)).

(** A new order that found room in the arena at [slot]: whether it rests, the
    fills and the book after it. *)
Definition spec_add (ab : ABook) (msg : NewOrder) (slot max_fills : Z) : bool * list Fill * ABook :=
  let buy := bool_decide (no_side msg = BUY) in
  let '(fs, q, opp) :=
    spec_match (negb buy) (no_order_id msg) (ix (no_price msg)) max_fills (no_qty msg)
      (aside (negb buy) ab) in
  let ab := aput (negb buy) ab opp in
  if (0 <? q) && negb (bool_decide (no_tif msg = IOC)) then
    (true, fs, aput buy ab (spec_insert buy (resting_of msg slot q) (aside buy ab)))
  else (false, fs, ab).

(** ** Priority order *)

Definition prio (bid : bool) (x y : Resting) : Prop := at_least bid (r_ix x) (r_ix y) = true.

Definition side_sorted (bid : bool) (l : list Resting) : Prop := StronglySorted (prio bid) l.

(** Every order is at a level of the ladder that its price determines. *)
Definition on_levels (rss : list (list Resting)) : Prop :=
  forall i q r, rss !! i = Some q -> r ∈ q -> r_ix r = i.

End spec.

(** The side that a ladder of queues stands for. *)
Definition flat (bid : bool) (rss : list (list Resting)) : list Resting :=
  concat (if bid then reverse rss else rss).

(** ** Ladders and sides *)

Lemma at_least_refl bid i : at_least bid i i = true.
Proof. destruct bid; simpl; lia. Qed.

Lemma at_least_trans bid i j k :
  at_least bid i j = true -> at_least bid j k = true -> at_least bid i k = true.
Proof. destruct bid; simpl; lia. Qed.

Lemma better_at_least bid i j : better bid i j -> at_least bid i j = true.
Proof. destruct bid; simpl; lia. Qed.

Lemma better_not_at_least bid i j : better bid i j <-> at_least bid j i = false.
Proof. destruct bid; simpl; lia. Qed.

Lemma spec_insert_split ix bid r l k :
  Forall (fun x => at_least bid (r_ix ix x) (r_ix ix r) = true) l ->
  Forall (fun x => at_least bid (r_ix ix x) (r_ix ix r) = false) k ->
  spec_insert ix bid r (l ++ k) = l ++ r :: k.
Proof.
  induction 1 as [|x l Hx _ IH]; intros Hk; simpl.
  - destruct Hk as [|y k Hy _]; simpl; [done|]. by rewrite Hy.
  - rewrite Hx. f_equal. by apply IH.
Qed.

Lemma elem_of_concat_lookup {A} (x : A) (ll : list (list A)) :
  x ∈ concat ll <-> exists n l, ll !! (n : nat) = Some l /\ x ∈ l.
Proof.
  rewrite list_elem_of_In, in_concat. split.
  - intros (l & Hl & Hx). apply list_elem_of_In, list_elem_of_lookup in Hl as [n Hn].
    exists n, l. by rewrite list_elem_of_In.
  - intros (n & l & Hn & Hx). exists l. rewrite <- !list_elem_of_In.
    split; [|done]. by eapply list_elem_of_lookup_2.
Qed.

(** A ladder splits at level [i] into the better levels, the level and the worse ones. *)
Lemma flat_split bid rss i q :
  rss !! i = Some q ->
  exists l k,
    (forall q', flat bid (<[i := q']> rss) = l ++ q' ++ k) /\
    (forall r, r ∈ l -> exists j qj, better bid j i /\ rss !! j = Some qj /\ r ∈ qj) /\
    (forall r, r ∈ k -> exists j qj, better bid i j /\ rss !! j = Some qj /\ r ∈ qj).
Proof.
  intros Hi. pose proof (lookupZ_range _ _ _ Hi) as Hr. rewrite lookupZ_nat in Hi by lia.
  unfold zlen in Hr. set (n := Z.to_nat i) in *.
  assert (Hins : forall q', <[i := q']> rss = take n rss ++ q' :: drop (S n) rss).
  { intros q'. rewrite insertZ_nat by lia. apply insert_take_drop. lia. }
  assert (Htake : forall r, r ∈ concat (take n rss) ->
            exists j qj, j < i /\ rss !! j = Some qj /\ r ∈ qj).
  { intros r (m & qj & Hm & Hx)%elem_of_concat_lookup.
    apply lookup_take_Some in Hm as [Hm Hlt]. exists (Z.of_nat m), qj.
    rewrite lookupZ_of_nat. unfold n in Hlt. split; [lia|done]. }
  assert (Hdrop : forall r, r ∈ concat (drop (S n) rss) ->
            exists j qj, i < j /\ rss !! j = Some qj /\ r ∈ qj).
  { intros r (m & qj & Hm & Hx)%elem_of_concat_lookup. rewrite lookup_drop in Hm.
    exists (Z.of_nat (S n + m)), qj. rewrite lookupZ_of_nat. split; [lia|done]. }
  destruct bid; unfold flat.
  - exists (concat (reverse (drop (S n) rss))), (concat (reverse (take n rss))). split; [|split].
    + intros q'. rewrite Hins, reverse_app, reverse_cons, !concat_app. simpl.
      by rewrite app_nil_r, <- app_assoc.
    + intros r Hx. apply Hdrop. revert Hx. rewrite !list_elem_of_In, !in_concat.
      intros (y & Hy & Hx). exists y. split; [|done].
      rewrite <- list_elem_of_In, elem_of_reverse, list_elem_of_In in Hy. done.
    + intros r Hx. apply Htake. revert Hx. rewrite !list_elem_of_In, !in_concat.
      intros (y & Hy & Hx). exists y. split; [|done].
      rewrite <- list_elem_of_In, elem_of_reverse, list_elem_of_In in Hy. done.
  - exists (concat (take n rss)), (concat (drop (S n) rss)). split; [|done].
    intros q'. by rewrite Hins, concat_app.
Qed.

Lemma elem_of_flat bid rss r :
  r ∈ flat bid rss <-> exists i q, rss !! i = Some q /\ r ∈ q.
Proof.
  assert (E : r ∈ flat bid rss <-> r ∈ concat rss).
  { destruct bid; [|done]. unfold flat. rewrite !list_elem_of_In, !in_concat.
    split; intros (y & Hy & Hx); exists y; (split; [|done]);
      rewrite <- list_elem_of_In, elem_of_reverse, list_elem_of_In in *; done. }
  rewrite E, elem_of_concat_lookup. split.
  - intros (n & l & Hn & Hx). exists (Z.of_nat n), l. by rewrite lookupZ_of_nat.
  - intros (i & l & Hi & Hx). pose proof (lookupZ_range _ _ _ Hi).
    rewrite lookupZ_nat in Hi by lia. eauto.
Qed.

Lemma flat_empty bid rss :
  (forall i q, rss !! i = Some q -> q = []) -> flat bid rss = [].
Proof.
  intros H. destruct (flat bid rss) as [|r l] eqn:E; [done|]. exfalso.
  assert (Hr : r ∈ flat bid rss) by (rewrite E; constructor).
  apply elem_of_flat in Hr as (i & q & Hi & Hx). rewrite (H _ _ Hi) in Hx.
  by apply not_elem_of_nil in Hx.
Qed.

(** With every better level empty, the level's queue is the front of the side. *)
Lemma flat_best bid rss b q :
  rss !! b = Some q ->
  (forall j qj, better bid j b -> rss !! j = Some qj -> qj = []) ->
  exists k, forall q', flat bid (<[b := q']> rss) = q' ++ k.
Proof.
  intros Hb Hempty. destruct (flat_split bid rss b q Hb) as (l & k & Heq & Hl & _).
  exists k. intros q'. rewrite Heq. destruct l as [|r l]; [done|].
  destruct (Hl r ltac:(constructor)) as (j & qj & Hj & Hq & Hr).
  rewrite (Hempty _ _ Hj Hq) in Hr. by apply not_elem_of_nil in Hr.
Qed.

(** Queueing an order at the back of its level is inserting it in priority order. *)
Lemma flat_insert ix bid rss i q r :
  on_levels ix rss -> rss !! i = Some q -> r_ix ix r = i ->
  flat bid (<[i := q ++ [r]]> rss) = spec_insert ix bid r (flat bid rss).
Proof.
  intros Hon Hi Hr. destruct (flat_split bid rss i q Hi) as (l & k & Heq & Hl & Hk).
  rewrite <- (insertZ_id _ _ _ Hi) at 2. rewrite !Heq, (app_assoc l q k).
  rewrite (app_assoc l), (app_assoc l q), <- app_assoc. simpl. symmetry.
  apply spec_insert_split.
  - apply Forall_app. split; apply Forall_forall; intros x Hx.
    + destruct (Hl _ Hx) as (j & qj & Hj & Hq & Hx'). rewrite (Hon _ _ _ Hq Hx'), Hr.
      by apply better_at_least.
    + rewrite (Hon _ _ _ Hi Hx), Hr. apply at_least_refl.
  - apply Forall_forall. intros x Hx.
    destruct (Hk _ Hx) as (j & qj & Hj & Hq & Hx'). rewrite (Hon _ _ _ Hq Hx'), Hr.
    by apply better_not_at_least.
Qed.

Lemma spec_insert_perm ix bid r l : spec_insert ix bid r l ≡ₚ r :: l.
Proof.
  induction l as [|y l IH]; simpl; [done|]. destruct (at_least _ _ _); [|done].
  rewrite IH. apply Permutation_swap.
Qed.

Lemma spec_cancel_app slot l k : spec_cancel slot (l ++ k) = spec_cancel slot l ++ spec_cancel slot k.
Proof. apply filter_app. Qed.

Lemma spec_cancel_notin slot l : slot ∉ slots_of l -> spec_cancel slot l = l.
Proof.
  induction l as [|r l IH]; [done|]. intros H. apply not_elem_of_cons in H as [? ?].
  unfold spec_cancel. rewrite filter_cons_True by done. f_equal. by apply IH.
Qed.

Lemma spec_cancel_perm r l : NoDup (slots_of l) -> r ∈ l -> l ≡ₚ r :: spec_cancel (r_slot r) l.
Proof.
  intros ND (l1 & l2 & ->)%list_elem_of_split. rewrite slots_of_app in ND. simpl in ND.
  apply NoDup_app in ND as (_ & D & [N2 _]%NoDup_cons).
  rewrite spec_cancel_app, spec_cancel_notin by (intros Hin; apply (D _ Hin); constructor).
  unfold spec_cancel. rewrite filter_cons_False by tauto. fold (spec_cancel (r_slot r) l2).
  rewrite spec_cancel_notin by done. symmetry. apply Permutation_middle.
Qed.

Lemma elem_of_spec_cancel slot l x : x ∈ spec_cancel slot l -> x ∈ l.
Proof. unfold spec_cancel. rewrite list_elem_of_filter. tauto. Qed.

(** Unlinking an order from its level is filtering it out of the side. *)
Lemma flat_cancel bid rss i l1 r l2 :
  rss !! i = Some (l1 ++ r :: l2) -> NoDup (slots_of (flat bid rss)) ->
  flat bid (<[i := l1 ++ l2]> rss) = spec_cancel (r_slot r) (flat bid rss).
Proof.
  intros Hi ND. destruct (flat_split bid rss i _ Hi) as (l & k & Heq & _ & _).
  rewrite <- (insertZ_id _ _ _ Hi) in ND |- * at 2. rewrite Heq in ND. rewrite !Heq.
  assert (E : l ++ (l1 ++ r :: l2) ++ k = (l ++ l1) ++ [r] ++ (l2 ++ k))
    by (by rewrite <- !app_assoc).
  replace (l ++ (l1 ++ l2) ++ k) with ((l ++ l1) ++ (l2 ++ k)) by (by rewrite <- !app_assoc).
  rewrite E in ND |- *. rewrite (slots_of_app (l ++ l1)), (slots_of_app [r]) in ND.
  apply NoDup_app in ND as (_ & D & ND). apply NoDup_cons in ND as [N2 _].
  assert (N1 : r_slot r ∉ slots_of (l ++ l1)) by (intros Hin; apply (D _ Hin); constructor).
  rewrite (spec_cancel_app _ (l ++ l1)), (spec_cancel_app _ [r]).
  rewrite (spec_cancel_notin _ (l ++ l1)), (spec_cancel_notin _ (l2 ++ k)) by done.
  unfold spec_cancel. rewrite filter_cons_False by tauto. done.
Qed.

End BookSpec.
