(* ===== verification/BookInv.v ===== *)
(** * The representation invariant of the order book

    [side_wf] relates one side of the book to its ladder of queues: every
    level represents its queue, the occupancy bit of a level says whether its
    queue is empty, and the best index is the first non-empty level in
    priority order.  [book_rel] relates a book and its arena to a reference
    book of [BookSpec]; the slots that are in use are those of the two sides
    and those of a frame [F] (the other books that share the arena). *)

From S2P Require Import Prelude Messages Order LevelBitmap Pool PriceLevel OrderHandle OrderBook BookSpec.

Module BookInv.
Import LevelBitmap PriceLevel OrderHandle OrderBook BookSpec.

(** The ladder index [price_to_idx] computes when its arithmetic is defined. *)
Definition ladder_idx (base tick price : Z) : Z := i32 (Z.quot (price - base) tick).

Section invariant.
Context (MAX_ORDERS LADDER_SIZE : Z) (ix : Z -> Z).

Definition order_ok (bid : bool) (sess : list Z) (r : Resting) : Prop :=
  0 < r_qty r < 2 ^ 32 /\ bool_decide (r_side r = BUY) = bid /\
  sess !! r_slot r = Some (r_session r).

Record levels_wf (bid : bool) (base : list Order) (sess : list Z)
    (lvls : list PriceLevel) (rss : list (list Resting)) : Prop := {
  lw_len : zlen lvls = LADDER_SIZE;
  lw_len_rss : zlen rss = LADDER_SIZE;
  lw_repr : forall i lv q, lvls !! i = Some lv -> rss !! i = Some q -> level_repr base lv q;
  lw_on : on_levels ix rss;
  lw_ord : forall i q r, rss !! i = Some q -> r ∈ q -> order_ok bid sess r
}.

Definition best_ok (bid : bool) (b : Z) (rss : list (list Resting)) : Prop :=
  (b = NULL_IDX /\ forall i q, rss !! i = Some q -> q = []) \/
  (exists q, rss !! b = Some q /\ q <> [] /\
     forall j qj, better bid j b -> rss !! j = Some qj -> qj = []).

Definition occ_ok (occ : list Z) (rss : list (list Resting)) : Prop :=
  forall i q, rss !! i = Some q -> bm_bit occ i = negb (bool_decide (q = [])).

Record side_wf (bid : bool) (base : list Order) (sess : list Z) (s : SideState)
    (rss : list (list Resting)) : Prop := {
  sw_levels : levels_wf bid base sess (levels s) rss;
  sw_bm : bm_wf LADDER_SIZE (occ s);
  sw_occ : occ_ok (occ s) rss;
  sw_best : best_ok bid (best s) rss
}.

Definition aslots (ab : ABook) : list Z := slots_of (bids ab) ++ slots_of (asks ab).

Record book_rel (bk : OrderBook) (ar : Arena) (ab : ABook) (F : list Z) : Prop := {
  br_ix : forall price, ladder_idx (base_price_ bk) (tick_size_ bk) price = ix price;
  br_sides : forall bid, exists rss,
    side_wf bid (Pool.data (pool_ ar)) (order_session_ ar) (side_of bid bk) rss /\
    aside bid ab = flat bid rss;
  br_tick : 0 < tick_size_ bk;
  br_price : forall bid r, r ∈ aside bid ab -> is_i64 (r_price r - base_price_ bk);
  br_pool : Pool.pool_wf MAX_ORDERS (pool_ ar) (aslots ab ++ F);
  br_sess : zlen (order_session_ ar) = MAX_ORDERS
}.

(** Generations: the slots of [R] were recycled once, the others are as before. *)
Definition gens_bump (R : list Z) (p p' : Pool.Pool Order) : Prop :=
  forall s, Pool.gen_ (Pool.arena_ p') !! s =
    (if bool_decide (s ∈ R) then (fun g => u32 (g + 1)) <$> Pool.gen_ (Pool.arena_ p) !! s
     else Pool.gen_ (Pool.arena_ p) !! s).

End invariant.

Arguments lw_len {_ _ _ _ _ _ _} _.
Arguments lw_len_rss {_ _ _ _ _ _ _} _.
Arguments lw_repr {_ _ _ _ _ _ _} _ {_ _ _} _ _.
Arguments lw_on {_ _ _ _ _ _ _} _ {_ _ _} _ _.
Arguments lw_ord {_ _ _ _ _ _ _} _ {_ _ _} _ _.
Arguments sw_levels {_ _ _ _ _ _ _} _.
Arguments sw_bm {_ _ _ _ _ _ _} _.
Arguments sw_occ {_ _ _ _ _ _ _} _ _ _ _.
Arguments sw_best {_ _ _ _ _ _ _} _.
Arguments br_ix {_ _ _ _ _ _ _} _ _.
Arguments br_sides {_ _ _ _ _ _ _} _ _.
Arguments br_tick {_ _ _ _ _ _ _} _.
Arguments br_price {_ _ _ _ _ _ _} _ _ _ _.
Arguments br_pool {_ _ _ _ _ _ _} _.
Arguments br_sess {_ _ _ _ _ _ _} _.

Definition same_params (bk bk' : OrderBook) : Prop :=
  base_price_ bk' = base_price_ bk /\ tick_size_ bk' = tick_size_ bk.

(** What an operation leaves alone: the orders in the slots of [F] and their owners. *)
Definition frame (F : list Z) (ar ar' : Arena) : Prop :=
  forall s, s ∈ F ->
    Pool.data (pool_ ar') !! s = Pool.data (pool_ ar) !! s /\
    order_session_ ar' !! s = order_session_ ar !! s.

(** ** Ladders *)

Lemma gens_bump_same p p' :
  Pool.gen_ (Pool.arena_ p') = Pool.gen_ (Pool.arena_ p) -> gens_bump [] p p'.
Proof. intros E s. rewrite E. by rewrite bool_decide_false by apply not_elem_of_nil. Qed.

Lemma gens_bump_one p p' s g :
  Pool.gen_ (Pool.arena_ p) !! s = Some g ->
  Pool.gen_ (Pool.arena_ p') = <[s := u32 (g + 1)]> (Pool.gen_ (Pool.arena_ p)) ->
  gens_bump [s] p p'.
Proof.
  intros Hg E i. rewrite E, lookupZ_insertZ by (by eapply lookupZ_range).
  destruct (decide (s = i)) as [<-|Es].
  - rewrite bool_decide_true by constructor. by rewrite Hg.
  - rewrite bool_decide_false; [done|]. intros Hs%list_elem_of_singleton. congruence.
Qed.

Lemma gens_bump_trans R S p p' p'' :
  NoDup (R ++ S) -> gens_bump R p p' -> gens_bump S p' p'' -> gens_bump (R ++ S) p p''.
Proof.
  intros (_ & D & _)%NoDup_app H1 H2 s. rewrite H2, H1.
  destruct (decide (s ∈ R)) as [Hr|Hr], (decide (s ∈ S)) as [Hs|Hs].
  - by destruct (D _ Hr).
  - rewrite (bool_decide_true (s ∈ R)), (bool_decide_false (s ∈ S)) by done.
    rewrite bool_decide_true; [done|]. apply elem_of_app. by left.
  - rewrite (bool_decide_false (s ∈ R)), (bool_decide_true (s ∈ S)) by done.
    rewrite bool_decide_true; [done|]. apply elem_of_app. by right.
  - rewrite (bool_decide_false (s ∈ R)), (bool_decide_false (s ∈ S)) by done.
    rewrite bool_decide_false; [done|]. rewrite elem_of_app. tauto.
Qed.

Lemma flat_perm bid rss i q q' :
  rss !! i = Some q -> exists k, flat bid rss ≡ₚ q ++ k /\ flat bid (<[i := q']> rss) ≡ₚ q' ++ k.
Proof.
  intros Hi. destruct (flat_split bid rss i q Hi) as (l & k & Heq & _ & _).
  exists (l ++ k). rewrite <- (insertZ_id _ _ _ Hi) at 1. rewrite !Heq.
  split; rewrite !app_assoc; apply Permutation_app_tail, Permutation_app_comm.
Qed.

Lemma flat_level_slots bid rss i q :
  rss !! i = Some q -> NoDup (slots_of (flat bid rss)) ->
  NoDup (slots_of q) /\
  (forall j qj r, j <> i -> rss !! j = Some qj -> r ∈ qj -> r_slot r ∉ slots_of q).
Proof.
  intros Hi ND. destruct (flat_split bid rss i q Hi) as (l & k & Heq & _ & _).
  assert (E : flat bid rss = l ++ q ++ k) by (by rewrite <- (insertZ_id _ _ _ Hi) at 1).
  rewrite E, !slots_of_app in ND.
  apply NoDup_app in ND as (_ & D1 & ND). apply NoDup_app in ND as (NDq & D2 & _).
  split; [done|]. intros j qj r Hj Hq Hr Hin.
  assert (Hf : r ∈ flat bid (<[i := []]> rss)).
  { apply elem_of_flat. exists j, qj. by rewrite lookupZ_insertZ_ne. }
  rewrite Heq in Hf. simpl in Hf. apply elem_of_app in Hf as [Hf|Hf];
    apply (list_elem_of_fmap_2 r_slot) in Hf.
  - apply (D1 _ Hf). apply elem_of_app. by left.
  - by apply (D2 _ Hin).
Qed.

Section ladder.
Context (LADDER_SIZE : Z) (ix : Z -> Z).

Lemma level_at bid base sess lvls rss i :
  levels_wf LADDER_SIZE ix bid base sess lvls rss -> 0 <= i < LADDER_SIZE ->
  exists lv q, lvls !! i = Some lv /\ rss !! i = Some q /\ level_repr base lv q.
Proof.
  intros H Hi. destruct (lookupZ_is_Some lvls i) as [lv Hlv].
  { rewrite (lw_len H). done. }
  destruct (lookupZ_is_Some rss i) as [q Hq].
  { rewrite (lw_len_rss H). done. }
  exists lv, q. split; [done|]. split; [done|]. by eapply (lw_repr H).
Qed.

Lemma rss_range bid base sess lvls rss i q :
  levels_wf LADDER_SIZE ix bid base sess lvls rss -> rss !! i = Some q -> 0 <= i < LADDER_SIZE.
Proof. intros H Hq%lookupZ_range. by rewrite (lw_len_rss H) in Hq. Qed.

(** Replacing one level and its queue, when the slot array changed nowhere else. *)
Lemma levels_wf_update bid base base' sess lvls rss i q lv' q' :
  levels_wf LADDER_SIZE ix bid base sess lvls rss -> rss !! i = Some q ->
  level_repr base' lv' q' ->
  (forall r, r ∈ q' -> r_ix ix r = i /\ order_ok bid sess r) ->
  (forall j qj r, j <> i -> rss !! j = Some qj -> r ∈ qj -> base' !! r_slot r = base !! r_slot r) ->
  levels_wf LADDER_SIZE ix bid base' sess (<[i := lv']> lvls) (<[i := q']> rss).
Proof.
  intros H Hi Hrep Hq' Hf. pose proof (rss_range _ _ _ _ _ _ _ H Hi) as Hr.
  pose proof (lw_len H) as L1. pose proof (lw_len_rss H) as L2.
  split; rewrite ?zlen_insertZ; try done.
  - intros j lv qj. rewrite !lookupZ_insertZ by lia. case_decide; [congruence|].
    intros Hlv Hqj. eapply level_repr_frame; [|by eapply (lw_repr H)].
    intros s (r & -> & Hx)%list_elem_of_fmap. by eapply Hf.
  - intros j qj r. rewrite lookupZ_insertZ by lia. case_decide as E.
    + intros [= <-] Hx. subst. by apply Hq'.
    + apply (lw_on H).
  - intros j qj r. rewrite lookupZ_insertZ by lia. case_decide as E.
    + intros [= <-] Hx. by apply Hq'.
    + apply (lw_ord H).
Qed.

Lemma levels_wf_frame bid base base' sess sess' lvls rss :
  (forall s, s ∈ slots_of (flat bid rss) -> base' !! s = base !! s) ->
  (forall s, s ∈ slots_of (flat bid rss) -> sess' !! s = sess !! s) ->
  levels_wf LADDER_SIZE ix bid base sess lvls rss ->
  levels_wf LADDER_SIZE ix bid base' sess' lvls rss.
Proof.
  intros Hb Hs H.
  assert (Hin : forall i q r, rss !! i = Some q -> r ∈ q -> r_slot r ∈ slots_of (flat bid rss)).
  { intros i q r Hi Hx. apply list_elem_of_fmap_2, elem_of_flat. eauto. }
  destruct H. split; try done.
  - intros i lv q Hlv Hq. eapply level_repr_frame; [|by eapply lw_repr0].
    intros s (r & -> & Hx)%list_elem_of_fmap. by eapply Hb, Hin.
  - intros i q r Hq Hx. destruct (lw_ord0 _ _ _ Hq Hx) as (? & ? & ?).
    split; [done|]. split; [done|]. rewrite Hs; [done|]. by eapply Hin.
Qed.

Lemma side_wf_frame bid base base' sess sess' s rss :
  (forall x, x ∈ slots_of (flat bid rss) -> base' !! x = base !! x) ->
  (forall x, x ∈ slots_of (flat bid rss) -> sess' !! x = sess !! x) ->
  side_wf LADDER_SIZE ix bid base sess s rss -> side_wf LADDER_SIZE ix bid base' sess' s rss.
Proof. intros ?? []. split; try done. by eapply levels_wf_frame. Qed.

(** The best index and the front of the side. *)
Lemma best_null bid b rss : zlen rss <= NULL_IDX ->
  best_ok bid b rss -> b = NULL_IDX -> flat bid rss = [].
Proof.
  intros HL [[_ H]|(q & Hq & _)] ->; [by apply flat_empty|].
  apply lookupZ_range in Hq. lia.
Qed.

Lemma best_some bid b rss : best_ok bid b rss -> b <> NULL_IDX ->
  exists r q k, rss !! b = Some (r :: q) /\ flat bid rss = r :: q ++ k /\
    (forall q', flat bid (<[b := q']> rss) = q' ++ k) /\
    (forall j qj, better bid j b -> rss !! j = Some qj -> qj = []).
Proof.
  intros [[? _]|(q & Hq & Hne & Hb)] Hn; [done|].
  destruct q as [|r q]; [done|]. destruct (flat_best bid rss b _ Hq Hb) as [k Hk].
  exists r, q, k. split; [done|]. split; [|done].
  rewrite <- (insertZ_id _ _ _ Hq) at 1. apply Hk.
Qed.

End ladder.

End BookInv.
