(* ===== verification/BookMatch.v ===== *)
(** * Matching implements the reference matching

    The nested loops of [OrderBook.match_] against [BookSpec.spec_match]: one
    fill, the inner loop over a level, the outer loop over the levels.  The
    loops run without undefined behaviour, within their fuel, keep the
    representation invariant, and make the fills of the reference matching. *)

From S2P Require Import Prelude Messages Order LevelBitmap Pool PriceLevel OrderHandle OrderBook BookSpec BookInv.

Module BookMatch.
Import LevelBitmap PriceLevel OrderHandle OrderBook BookSpec BookInv.

Section refinement.
Context (MAX_ORDERS LADDER_SIZE : Z) (ix : Z -> Z).
Context (HN : 0 < MAX_ORDERS < UINT32_MAX) (HL : 0 < LADDER_SIZE < 2 ^ 32).

Abbreviation levels_wf := (levels_wf LADDER_SIZE ix).
Abbreviation side_wf := (side_wf LADDER_SIZE ix).
Abbreviation pool_wf := (Pool.pool_wf MAX_ORDERS).

(** ** The best index *)

(** The scan start of [cancel_order]; [match] writes its case [0] out. *)
Definition scan_from (bid : bool) (b : Z) : Z :=
  if bid then (if 0 <? b then u32 (b - 1) else NULL_IDX) else u32 (b + 1).

Lemma scan_from_match (bid : bool) o b :
  (if bid then if 0 <? b then find_best LADDER_SIZE true o (u32 (b - 1)) else Ok NULL_IDX
   else find_best LADDER_SIZE false o (u32 (b + 1))) = find_best LADDER_SIZE bid o (scan_from bid b).
Proof.
  unfold scan_from, find_best. destruct bid; [|done]. destruct (0 <? b); [done|].
  unfold next_down. rewrite (proj2 (Z.leb_le _ _)); [done|]. unfold NULL_IDX, UINT32_MAX. lia.
Qed.

Lemma advance_best bid o b rss :
  bm_wf LADDER_SIZE o -> occ_ok o rss -> zlen rss = LADDER_SIZE -> 0 <= b < LADDER_SIZE ->
  (forall j qj, j = b \/ better bid j b -> rss !! j = Some qj -> qj = []) ->
  exists b', find_best LADDER_SIZE bid o (scan_from bid b) = Ok b' /\ best_ok bid b' rss /\
    (b' = NULL_IDX \/ (0 <= b' < LADDER_SIZE /\ better bid b b')).
Proof.
  intros Hbm Hocc Hlen Hb Hempty.
  assert (Hbit : forall j qj, rss !! j = Some qj -> bm_bit o j = false -> qj = []).
  { intros j qj Hj Hbit. rewrite (Hocc _ _ Hj) in Hbit.
    by destruct (decide (qj = [])); [|rewrite bool_decide_false in Hbit]. }
  assert (Hset : forall j, 0 <= j < LADDER_SIZE -> bm_bit o j = true ->
            exists q, rss !! j = Some q /\ q <> []).
  { intros j Hj Hbj. destruct (lookupZ_is_Some rss j) as [q Hq]; [by rewrite Hlen|].
    exists q. split; [done|]. intros ->. by rewrite (Hocc _ _ Hq) in Hbj. }
  unfold find_best, scan_from. destruct bid; simpl in Hempty |- *.
  - destruct (Z.ltb_spec 0 b).
    + rewrite wrapU_small by lia.
      destruct (next_down_spec LADDER_SIZE o Hbm HL (b - 1)) as (r & Hr & Hfirst); [lia|].
      exists r. split; [done|].
      destruct Hfirst as [(-> & Hno)|(H1 & H2 & H3 & H4)].
      * split; [|by left]. left. split; [done|]. intros j qj Hj.
        pose proof (lookupZ_range _ _ _ Hj). destruct (Z.lt_ge_cases j b).
        -- eapply Hbit; [done|]. apply Hno. lia.
        -- eapply Hempty; [|done]. lia.
      * split; [|right; lia]. right. destruct (Hset r ltac:(lia) H3) as (q & Hq & Hne).
        exists q. split; [done|]. split; [done|]. intros j qj Hj Hqj. simpl in Hj.
        destruct (Z.lt_ge_cases j b).
        -- eapply Hbit; [done|]. apply H4. lia.
        -- eapply Hempty; [|done]. lia.
    + unfold next_down. rewrite (proj2 (Z.leb_le _ _)) by (unfold NULL_IDX, UINT32_MAX; lia).
      exists NULL_IDX. split; [done|]. split; [|by left]. left. split; [done|].
      intros j qj Hj. pose proof (lookupZ_range _ _ _ Hj). eapply Hempty; [|done]. lia.
  - rewrite wrapU_small by lia.
    destruct (next_up_spec LADDER_SIZE o Hbm HL (b + 1)) as (r & Hr & Hfirst); [lia|].
    exists r. split; [done|]. destruct Hfirst as [(-> & Hno)|(H1 & H2 & H3)].
    + split; [|by left]. left. split; [done|]. intros j qj Hj.
      destruct (Z.lt_ge_cases b j).
      * eapply Hbit; [done|]. apply Hno. lia.
      * eapply Hempty; [|done]. lia.
    + split; [|right; lia]. right. destruct (Hset r ltac:(lia) H2) as (q & Hq & Hne).
      exists q. split; [done|]. split; [done|]. intros j qj Hj Hqj. simpl in Hj.
      destruct (Z.lt_ge_cases b j).
      * eapply Hbit; [done|]. apply H3. lia.
      * eapply Hempty; [|done]. lia.
Qed.

Lemma occ_ok_update o o' rss i q q' :
  occ_ok o rss -> rss !! i = Some q ->
  (forall j, bm_bit o' j = if j =? i then negb (bool_decide (q' = [])) else bm_bit o j) ->
  occ_ok o' (<[i := q']> rss).
Proof.
  intros H Hi Hbit j qj. pose proof (lookupZ_range _ _ _ Hi).
  rewrite lookupZ_insertZ by done. rewrite Hbit. case_decide as E.
  - subst. intros [= <-]. by rewrite Z.eqb_refl.
  - rewrite (proj2 (Z.eqb_neq _ _)) by congruence. apply H.
Qed.

(** The queues of a ladder whose slots are distinct slots of the arena. *)
Lemma queue_valid bid rss i q :
  NoDup (slots_of (flat bid rss)) ->
  (forall s, s ∈ slots_of (flat bid rss) -> 0 <= s < MAX_ORDERS) -> rss !! i = Some q ->
  valid_slots q /\ forall s, s ∈ slots_of q -> s ∈ slots_of (flat bid rss).
Proof.
  intros ND HR Hi. destruct (flat_level_slots bid rss i q Hi ND) as [NDq _].
  assert (Hin : forall s, s ∈ slots_of q -> s ∈ slots_of (flat bid rss)).
  { intros s (r & -> & Hx)%list_elem_of_fmap. apply list_elem_of_fmap_2, elem_of_flat. eauto. }
  split; [split; [|done]|done].
  apply Forall_forall. intros s Hs%Hin%HR. unfold NULL_IDX. lia.
Qed.

(** ** One fill *)

(** The state of the matching loops: aggressor [agg] in slot [aslot], the
    ladder being consumed, and the rest [F] of the arena. *)
Record matching (bid : bool) (aslot : Z) (agg : Order) (lvls : list PriceLevel)
    (rss : list (list Resting)) (p : Pool.Pool Order) (sess : list Z) (F : list Z) : Prop := {
  m_levels : levels_wf bid (Pool.data p) sess lvls rss;
  m_pool : pool_wf p (aslot :: slots_of (flat bid rss) ++ F);
  m_agg : Pool.data p !! aslot = Some agg;
  m_qty : 0 <= o_qty agg < 2 ^ 32
}.

Arguments m_levels {_ _ _ _ _ _ _ _} _.
Arguments m_pool {_ _ _ _ _ _ _ _} _.
Arguments m_agg {_ _ _ _ _ _ _ _} _.
Arguments m_qty {_ _ _ _ _ _ _ _} _.

(** What a matching step may change: the slots of [F] keep their contents,
    and exactly the slots [R] were recycled. *)
Definition preserves (F R : list Z) (p p' : Pool.Pool Order) : Prop :=
  (forall s, s ∈ F -> Pool.data p' !! s = Pool.data p !! s) /\ gens_bump R p p'.

Lemma preserves_trans F R S p p' p'' :
  NoDup (R ++ S) -> preserves F R p p' -> preserves F S p' p'' -> preserves F (R ++ S) p p''.
Proof.
  intros ND [H1 G1] [H2 G2]. split; [|by eapply gens_bump_trans].
  intros s Hs. by rewrite H2, H1.
Qed.

Section live.
Context bid aslot agg lvls rss p sess F (M : matching bid aslot agg lvls rss p sess F).

Lemma live_facts :
  NoDup (aslot :: slots_of (flat bid rss) ++ F) /\
  forall s, s ∈ aslot :: slots_of (flat bid rss) ++ F -> 0 <= s < MAX_ORDERS.
Proof.
  destruct M. split; [by eapply Pool.wf_live_NoDup|].
  intros s Hs. by eapply Pool.wf_live_range.
Qed.

Lemma live_levels : NoDup (slots_of (flat bid rss)) /\ (aslot ∉ slots_of (flat bid rss)) /\
  forall s, s ∈ F -> s ∉ aslot :: slots_of (flat bid rss).
Proof.
  destruct live_facts as [ND _]. apply NoDup_cons in ND as [Ha ND].
  apply NoDup_app in ND as (N1 & D & _). rewrite not_elem_of_app in Ha. destruct Ha as [Ha1 Ha2].
  split; [done|]. split; [done|]. intros s Hs [->|Hin]%elem_of_cons; [done|]. by apply (D _ Hin).
Qed.

Lemma level_valid i q : rss !! i = Some q ->
  valid_slots q /\ (aslot ∉ slots_of q) /\ (forall s, s ∈ slots_of q -> s ∈ slots_of (flat bid rss)) /\
  (forall s, s ∈ slots_of q -> 0 <= s < MAX_ORDERS).
Proof.
  intros Hi. destruct live_levels as (N1 & Ha & _). destruct live_facts as [_ HR].
  assert (HR' : forall s, s ∈ slots_of (flat bid rss) -> 0 <= s < MAX_ORDERS).
  { intros s Hs. apply HR, elem_of_cons. right. apply elem_of_app. by left. }
  destruct (queue_valid bid rss i q N1 HR' Hi) as [Hv Hin].
  split; [done|]. split; [by intros Hx%Hin|]. split; [done|]. auto.
Qed.

End live.

Lemma slots_of_flat_update bid rss b q q' :
  rss !! b = Some q ->
  exists k, slots_of (flat bid rss) ≡ₚ slots_of q ++ k /\
            slots_of (flat bid (<[b := q']> rss)) ≡ₚ slots_of q' ++ k.
Proof.
  intros Hb. destruct (flat_perm bid rss b q q' Hb) as (k & H1 & H2).
  exists (slots_of k). rewrite <- !slots_of_app. unfold slots_of. by rewrite H1, H2.
Qed.

Lemma order_ok_with_qty bid sess r q :
  0 < q < 2 ^ 32 -> order_ok bid sess r -> order_ok bid sess (with_qty r q).
Proof. intros ? (_ & ? & ?). done. Qed.

(** The slot array after the quantities of the aggressor and of the order at
    the head were reduced by [f]. *)
Lemma fill_base base aslot agg r nx f :
  base !! aslot = Some agg -> base !! r_slot r = Some (node r NULL_IDX nx) ->
  aslot <> r_slot r -> 0 <= f <= o_qty agg -> f <= r_qty r ->
  o_qty agg < 2 ^ 32 -> r_qty r < 2 ^ 32 ->
  let base1 := <[aslot := set_qty agg (u32 (o_qty agg - f))]> base in
  let base2 := <[r_slot r := set_qty (node r NULL_IDX nx) (u32 (r_qty r - f))]> base1 in
  base1 !! r_slot r = Some (node r NULL_IDX nx) /\
  base2 !! aslot = Some (set_qty agg (o_qty agg - f)) /\
  base2 !! r_slot r = Some (node (with_qty r (r_qty r - f)) NULL_IDX nx) /\
  (forall s, s <> aslot -> s <> r_slot r -> base2 !! s = base !! s) /\
  zlen base1 = zlen base /\ zlen base2 = zlen base.
Proof.
  intros Ha Hr Hne Hf1 Hf2 ? ? base1 base2.
  pose proof (lookupZ_range _ _ _ Ha) as Ra. pose proof (lookupZ_range _ _ _ Hr) as Rr.
  unfold base2, base1. rewrite !wrapU_small by lia. rewrite !zlen_insertZ.
  split; [by rewrite lookupZ_insertZ_ne|]. split.
  { rewrite lookupZ_insertZ_ne by done. by rewrite lookupZ_insertZ_eq. }
  split; [by rewrite lookupZ_insertZ_eq by (by rewrite zlen_insertZ)|].
  split; [|done]. intros s ??. by rewrite !lookupZ_insertZ_ne.
Qed.

Section one_fill.
Context bid aslot agg lvls rss p sess F (M : matching bid aslot agg lvls rss p sess F).
Context b r q (Hb : rss !! b = Some (r :: q)).

Let f := Z.min (o_qty agg) (r_qty r).
Let r' := with_qty r (r_qty r - f).

(** The orders behind the head, and those of the other levels. *)
Lemma fill_queue : order_ok bid sess r /\ 0 < r_qty r < 2 ^ 32 /\ 0 <= f <= r_qty r /\ f <= o_qty agg /\
  (forall x, x ∈ r :: q -> r_ix ix x = b /\ order_ok bid sess x).
Proof.
  pose proof (m_qty M).
  pose proof (lw_ord (m_levels M) Hb ltac:(constructor)) as (? & ? & ?).
  unfold f. split; [done|]. split; [done|]. split; [lia|].
  split; [lia|]. intros x Hx. split; [exact (lw_on (m_levels M) Hb Hx)|exact (lw_ord (m_levels M) Hb Hx)].
Qed.

Lemma fill_others j qj x : j <> b -> rss !! j = Some qj -> x ∈ qj ->
  r_slot x <> aslot /\ (r_slot x ∉ slots_of (r :: q)).
Proof.
  intros Hj Hqj Hx. destruct (live_levels _ _ _ _ _ _ _ _ M) as (NDf & Haf & _). split.
  - intros E. apply Haf. rewrite <- E. apply list_elem_of_fmap_2, elem_of_flat. eauto.
  - by apply (proj2 (flat_level_slots bid rss b _ Hb NDf) j qj).
Qed.

Lemma fill_frame s : s ∈ F -> s <> aslot /\ (s ∉ slots_of (r :: q)).
Proof.
  intros Hs. destruct (live_levels _ _ _ _ _ _ _ _ M) as (_ & _ & HF).
  destruct (level_valid _ _ _ _ _ _ _ _ M b _ Hb) as (_ & _ & Hin & _).
  specialize (HF _ Hs). rewrite not_elem_of_cons in HF. destruct HF. naive_solver.
Qed.

(** [fill_head] up to the test for a completed order. *)
Lemma fill_head_prefix fills :
  exists lv base2,
    level_repr base2 lv (r' :: q) /\ zlen base2 = MAX_ORDERS /\
    base2 !! aslot = Some (set_qty agg (o_qty agg - f)) /\
    (forall s, s <> aslot -> s ∉ slots_of (r :: q) -> base2 !! s = Pool.data p !! s) /\
    fill_head MAX_ORDERS aslot b lvls p sess fills =
      (let fills := fills ++ [spec_fill (o_order_id agg) r f] in
       if r_qty r - f =? 0 then
         '(_, level, base) ← pop_front lv base2;
         lvls ← aset lvls b level;
         p ← Pool.free MAX_ORDERS (Pool.with_data p base) (r_slot r);
         Ok (lvls, p, fills)
       else lvls ← aset lvls b lv; Ok (lvls, Pool.with_data p base2, fills)).
Proof.
  destruct fill_queue as (Hok & Hrq & Hf1 & Hf2 & _). destruct Hok as (_ & _ & Hsess).
  pose proof (rss_range _ _ _ _ _ _ _ _ _ (m_levels M) Hb) as Rb.
  destruct (level_at _ _ _ _ _ _ _ b (m_levels M) Rb)
    as (lv & q0 & Hlv & Hq0 & Hrep). rewrite Hb in Hq0. injection Hq0 as <-.
  destruct (level_valid _ _ _ _ _ _ _ _ M b _ Hb) as (Hv & Ha & _ & Hrange).
  assert (Hrslot : r_slot r ∈ slots_of (r :: q)) by constructor.
  assert (Hne : aslot <> r_slot r) by congruence.
  pose proof (lr_seg _ _ _ Hrep) as (Hhead & nx & Hnode & _).
  pose proof (m_agg M) as Hagg. pose proof (m_qty M) as Hqty.
  pose proof (Pool.wf_slots _ _ _ (m_pool M)) as Lp.
  assert (Hq_notin : r_slot r ∉ slots_of q) by (by destruct Hv as [_ [? _]%NoDup_cons]).
  destruct (fill_base (Pool.data p) aslot agg r nx f Hagg Hnode Hne) as
    (B1r & B2a & B2r & B2o & L1 & L2); try lia.
  unfold fill_head. rewrite (aget_Ok _ _ _ Hlv). simpl. rewrite (aget_Ok _ _ _ Hagg). simpl.
  rewrite Hhead, (Pool.at_Ok _ _ _ (node r NULL_IDX nx)) by (try done; by apply Hrange). simpl.
  rewrite (aget_Ok _ _ _ Hsess). simpl. fold f.
  rewrite (aset_Some _ _ _ _ Hagg). simpl. rewrite (aget_Ok _ _ _ B1r). simpl.
  rewrite (aset_Some _ _ _ _ B1r). simpl. rewrite (aget_Ok _ _ _ B2r). simpl.
  eexists (set_total lv (u32 (total_qty lv - f))), _.
  split; [|split; [by rewrite L2|split; [done|split; [|done]]]].
  - replace (total_qty lv - f) with (total_qty lv - (r_qty r - (r_qty r - f))) by lia.
    eapply fill_head_repr; [done|done|done|done|].
    intros s Hs. apply B2o; intros ->; [|done]. apply Ha. by constructor.
  - intros s Hs1 Hs2. apply B2o; [done|]. intros ->. by apply Hs2.
Qed.

Lemma fill_head_spec fills :
  let done_ := r_qty r - f =? 0 in
  exists lvls' p',
    fill_head MAX_ORDERS aslot b lvls p sess fills
      = Ok (lvls', p', fills ++ [spec_fill (o_order_id agg) r f]) /\
    matching bid aslot (set_qty agg (o_qty agg - f)) lvls'
      (<[b := if done_ then q else r' :: q]> rss) p' sess F /\
    preserves F (if done_ then [r_slot r] else []) p p'.
Proof.
  destruct fill_queue as (Hok & Hrq & Hf1 & Hf2 & Hq).
  pose proof (m_pool M) as HP. pose proof (m_qty M) as Hqty.
  pose proof (rss_range _ _ _ _ _ _ _ _ _ (m_levels M) Hb) as Rb.
  destruct (level_valid _ _ _ _ _ _ _ _ M b _ Hb) as (Hv & Ha & _ & _).
  destruct (fill_head_prefix fills) as (lv & base2 & Hrep & L2 & B2a & B2o & ->). simpl.
  assert (Hset : forall lv', aset lvls b lv' = Ok (<[b := lv']> lvls)).
  { intros. apply aset_Ok. rewrite (lw_len (m_levels M)). done. }
  destruct (Z.eqb_spec (r_qty r - f) 0) as [E0|E0].
  - destruct (pop_front_spec base2 lv r' q Hv Hrep) as (lv' & base3 & Hpop & Hrep3 & L3 & Hf3).
    rewrite Hpop. simpl. rewrite Hset. simpl.
    destruct (slots_of_flat_update bid rss b _ q Hb) as (k & P1 & P2).
    destruct (Pool.free_spec MAX_ORDERS ltac:(lia) (Pool.with_data p base3)
                (aslot :: slots_of (flat bid (<[b := q]> rss)) ++ F) (r_slot r))
      as (p' & g & Hfree & HP' & Hsl & _ & Hg & Hgen).
    { apply Pool.with_data_wf; [lia|].
      eapply Pool.pool_wf_perm; [|done]. rewrite P1, P2. simpl. constructor. }
    rewrite Hfree. simpl. eexists _, p'. split; [done|].
    assert (Hdata : Pool.data p' = base3) by done.
    assert (Hb3 : forall s, s <> aslot -> s ∉ slots_of (r :: q) -> base3 !! s = Pool.data p !! s).
    { intros s Hs1 Hs2. rewrite Hf3; [by apply B2o|]. intros Hs. apply Hs2. by constructor. }
    split; [split|split].
    + rewrite Hdata. eapply levels_wf_update; [apply M|done|done| |].
      * intros x Hx. apply Hq. by constructor.
      * intros j qj x Hj Hqj Hx. destruct (fill_others j qj x Hj Hqj Hx). by apply Hb3.
    + done.
    + rewrite Hdata, Hf3; [done|]. intros Hs. apply Ha. by constructor.
    + simpl. lia.
    + intros s Hs. rewrite Hdata. by apply Hb3; apply fill_frame.
    + by apply (gens_bump_one p p' _ g).
  - rewrite Hset. simpl. eexists _, _. split; [done|].
    destruct (slots_of_flat_update bid rss b _ (r' :: q) Hb) as (k & P1 & P2).
    split; [split|split].
    + eapply levels_wf_update; [apply M|done|done| |].
      * intros x [->|Hx]%elem_of_cons; [|apply Hq; by constructor].
        destruct (Hq r ltac:(constructor)) as [? ?].
        split; [done|]. apply order_ok_with_qty; [lia|done].
      * intros j qj x Hj Hqj Hx. destruct (fill_others j qj x Hj Hqj Hx). by apply B2o.
    + apply Pool.with_data_wf; [lia|]. eapply Pool.pool_wf_perm; [|done]. by rewrite P1, P2.
    + done.
    + simpl. lia.
    + intros s Hs. by apply B2o; apply fill_frame.
    + by apply gens_bump_same.
Qed.

End one_fill.

(** ** The matching loops *)

(** A run of the reference matching can be cut after the fills [fs]. *)
Definition runs_to (bid : bool) (agg_id agg_idx : Z) (budget qty : Z) (l : list Resting)
    (fs : list Fill) (budget' qty' : Z) (l' : list Resting) : Prop :=
  spec_match ix bid agg_id agg_idx budget qty l =
    (let '(fs2, q2, l2) := spec_match ix bid agg_id agg_idx budget' qty' l' in (fs ++ fs2, q2, l2)).

Lemma runs_to_refl bid id idx n q l : runs_to bid id idx n q l [] n q l.
Proof. unfold runs_to. by destruct (spec_match _ _ _ _ _ _ _) as [[??]?]. Qed.

Lemma runs_to_trans bid id idx n q l fs n' q' l' fs' n'' q'' l'' :
  runs_to bid id idx n q l fs n' q' l' -> runs_to bid id idx n' q' l' fs' n'' q'' l'' ->
  runs_to bid id idx n q l (fs ++ fs') n'' q'' l''.
Proof.
  unfold runs_to. intros -> ->. destruct (spec_match _ _ _ _ _ _ _) as [[??]?].
  by rewrite app_assoc.
Qed.

Lemma spec_match_qty0 bid id idx n l : spec_match ix bid id idx n 0 l = ([], 0, l).
Proof. by destruct l. Qed.

Lemma spec_match_budget0 bid id idx n q l : n <= 0 -> spec_match ix bid id idx n q l = ([], q, l).
Proof.
  intros Hn. destruct l; simpl; [done|]. rewrite (proj2 (Z.ltb_ge 0 n)) by lia.
  by rewrite andb_false_r.
Qed.

Lemma runs_to_fill bid id idx n q r l :
  0 < q -> 0 < n -> 0 < r_qty r -> at_least bid (r_ix ix r) idx = true ->
  let f := Z.min q (r_qty r) in
  runs_to bid id idx n q (r :: l) [spec_fill id r f] (n - 1) (q - f)
    (if r_qty r - f =? 0 then l else with_qty r (r_qty r - f) :: l).
Proof.
  intros Hq Hn Hr Hx f. unfold runs_to. cbn [spec_match]. unfold crosses.
  rewrite (proj2 (Z.ltb_lt 0 q)), (proj2 (Z.ltb_lt 0 n)), Hx by done. simpl. fold f.
  destruct (Z.eqb_spec (r_qty r - f) 0); [done|].
  replace (q - f) with 0 by lia. by rewrite spec_match_qty0.
Qed.

Lemma matching_empty bid aslot agg lvls rss p sess F b q :
  matching bid aslot agg lvls rss p sess F -> rss !! b = Some q ->
  exists lv, lvls !! b = Some lv /\ empty lv = bool_decide (q = []).
Proof.
  intros M Hb. pose proof (rss_range _ _ _ _ _ _ _ _ _ (m_levels M) Hb) as Rb.
  destruct (level_at _ _ _ _ _ _ _ b (m_levels M) Rb) as (lv & q0 & Hlv & Hq0 & Hrep).
  rewrite Hb in Hq0. injection Hq0 as <-. exists lv. split; [done|].
  eapply empty_spec; [|done]. by eapply level_valid.
Qed.

Lemma set_qty_set_qty o q q' : set_qty (set_qty o q) q' = set_qty o q'.
Proof. done. Qed.

Lemma set_qty_id o : set_qty o (o_qty o) = o.
Proof. by destruct o. Qed.

(** What a run of the inner loop on level [b] has done: some fills [fs] of the
    reference matching, after which it stopped because the fill array is full,
    or the aggressor or the level is exhausted. *)
Definition level_post (bid : bool) (aslot agg_idx max_fills b : Z) (F sess : list Z)
    (agg : Order) (rss : list (list Resting)) (p : Pool.Pool Order) (fills : list Fill)
    (q : list Resting) (full : bool) (lvls' : list PriceLevel) (p' : Pool.Pool Order)
    (fills' : list Fill) : Prop :=
  exists fs qty' q' R,
    fills' = fills ++ fs /\
    matching bid aslot (set_qty agg qty') lvls' (<[b := q']> rss) p' sess F /\
    preserves F R p p' /\ slots_of q = R ++ slots_of q' /\
    (forall k, runs_to bid (o_order_id agg) agg_idx (max_fills - zlen fills) (o_qty agg) (q ++ k)
                 fs (max_fills - zlen fills') qty' (q' ++ k)) /\
    zlen fills' <= max_fills /\
    (if full then q' <> [] /\ zlen fills' = max_fills else qty' = 0 \/ q' = []).

Section inner_loop.
Context (bid : bool) (aslot agg_idx max_fills b : Z) (F sess : list Z).
Context (Hcross : at_least bid b agg_idx = true).

Abbreviation post := (level_post bid aslot agg_idx max_fills b F sess).

Lemma level_stop agg lvls rss p fills q (full : bool) :
  matching bid aslot agg lvls rss p sess F -> rss !! b = Some q -> zlen fills <= max_fills ->
  (if full then q <> [] /\ zlen fills = max_fills else o_qty agg = 0 \/ q = []) ->
  post agg rss p fills q full lvls p fills.
Proof.
  intros M Hb Hmax Hfull. exists [], (o_qty agg), q, [].
  rewrite app_nil_r, set_qty_id, (insertZ_id _ _ _ Hb).
  split; [done|]. split; [done|]. split; [split; [done|by apply gens_bump_same]|].
  split; [done|]. split; [|done]. intros k. apply runs_to_refl.
Qed.

(** One fill before a run. *)
Lemma level_fill agg lvls rss p fills r q :
  matching bid aslot agg lvls rss p sess F -> rss !! b = Some (r :: q) ->
  0 < o_qty agg -> zlen fills < max_fills ->
  exists lvls1 p1 fills1 agg1 rss1 q1,
    fill_head MAX_ORDERS aslot b lvls p sess fills = Ok (lvls1, p1, fills1) /\
    matching bid aslot agg1 lvls1 rss1 p1 sess F /\ rss1 !! b = Some q1 /\
    zlen fills1 = zlen fills + 1 /\
    forall full lvls' p' fills', post agg1 rss1 p1 fills1 q1 full lvls' p' fills' ->
      post agg rss p fills (r :: q) full lvls' p' fills'.
Proof.
  intros M Hb Hq Hmax. pose proof (fill_queue _ _ _ _ _ _ _ _ M _ _ _ Hb) as (_ & Hrq & _ & _ & Hix).
  destruct (fill_head_spec _ _ _ _ _ _ _ _ M _ _ _ Hb fills) as (lvls1 & p1 & Hrun & M1 & Pr1).
  set (f := Z.min (o_qty agg) (r_qty r)) in *.
  set (q1 := if r_qty r - f =? 0 then q else with_qty r (r_qty r - f) :: q) in *.
  set (R1 := if r_qty r - f =? 0 then [r_slot r] else []) in *.
  assert (Hlen : zlen (fills ++ [spec_fill (o_order_id agg) r f]) = zlen fills + 1)
    by (rewrite zlen_app, zlen_cons, zlen_nil; lia).
  assert (Hs1 : slots_of (r :: q) = R1 ++ slots_of q1).
  { unfold R1, q1. by destruct (r_qty r - f =? 0). }
  eexists lvls1, p1, _, _, _, q1. split; [done|]. split; [done|]. split.
  { apply lookupZ_insertZ_eq. by eapply lookupZ_range. }
  split; [done|].
  intros full lvls' p' fills' (fs & qty' & q' & R & -> & M' & Pr' & Hslots & Hrun' & Hle & Hend).
  rewrite insertZ_insertZ, set_qty_set_qty in M'.
  exists ([spec_fill (o_order_id agg) r f] ++ fs), qty', q', (R1 ++ R).
  split; [by rewrite app_assoc|]. split; [done|]. split; [|split; [|split; [|done]]].
  - eapply preserves_trans; [|done|done].
    destruct (level_valid _ _ _ _ _ _ _ _ M _ _ Hb) as ([_ ND] & _).
    rewrite Hs1, Hslots, app_assoc in ND. by apply NoDup_app in ND as (? & _ & _).
  - by rewrite Hs1, Hslots, app_assoc.
  - intros k. eapply runs_to_trans; [apply runs_to_fill; [lia|lia|lia|]|].
    + destruct (Hix r ltac:(constructor)) as [-> _]. done.
    + fold f. specialize (Hrun' k). rewrite Hlen in Hrun'. unfold q1 in Hrun'. simpl in Hrun'.
      replace (max_fills - zlen fills - 1) with (max_fills - (zlen fills + 1)) by lia.
      by destruct (r_qty r - f =? 0).
Qed.

Lemma head_at agg lvls rss p r q lv :
  matching bid aslot agg lvls rss p sess F -> rss !! b = Some (r :: q) -> lvls !! b = Some lv ->
  exists o, Pool.at_ MAX_ORDERS p (head_idx lv) = Ok o.
Proof.
  intros M Hb Hlv. pose proof (lw_repr (m_levels M) Hlv Hb) as Hrep.
  destruct (lr_seg _ _ _ Hrep) as (-> & nx & Hnode & _).
  destruct (level_valid _ _ _ _ _ _ _ _ M b _ Hb) as (_ & _ & _ & Hrange).
  exists (node r NULL_IDX nx). apply Pool.at_Ok; [apply Hrange; constructor|done].
Qed.

Lemma match_level_spec fuel agg lvls rss p fills q :
  matching bid aslot agg lvls rss p sess F -> rss !! b = Some q ->
  max_fills - zlen fills < Z.of_nat fuel -> zlen fills <= max_fills ->
  exists full lvls' p' fills',
    match_level MAX_ORDERS fuel max_fills aslot b lvls p sess fills = Ok (full, lvls', p', fills') /\
    post agg rss p fills q full lvls' p' fills'.
Proof.
  revert agg lvls rss p fills q.
  induction fuel as [|fuel IH]; intros agg lvls rss p fills q M Hb Hfuel Hmax; [lia|].
  destruct (matching_empty _ _ _ _ _ _ _ _ _ _ M Hb) as (lv & Hlv & Hempty).
  pose proof (m_qty M) as Hqty.
  cbn [match_level]. rewrite (aget_Ok _ _ _ (m_agg M)). simpl.
  rewrite (aget_Ok _ _ _ Hlv). simpl. rewrite Hempty.
  destruct (Z.ltb_spec 0 (o_qty agg)) as [Hq|Hq]; simpl.
  2:{ eexists _, _, _, _. split; [done|]. apply level_stop; try done. left. lia. }
  destruct q as [|r q]; simpl.
  { eexists _, _, _, _. split; [done|]. apply level_stop; try done. by right. }
  destruct (head_at _ _ _ _ _ _ _ M Hb Hlv) as [o ->]. simpl.
  destruct (Z.leb_spec max_fills (zlen fills)).
  { eexists _, _, _, _. split; [done|]. apply level_stop; try done. split; [done|]. lia. }
  destruct (level_fill _ _ _ _ fills _ _ M Hb Hq) as
    (lvls1 & p1 & fills1 & agg1 & rss1 & q1 & -> & M1 & Hb1 & Hlen & Hpost); [lia|]. simpl.
  destruct (IH _ _ _ _ fills1 q1 M1 Hb1) as (full & lvls' & p' & fills' & -> & H'); [lia|lia|].
  eauto 10.
Qed.

End inner_loop.

(** The outer loop: the state at its head, and what a run of it has done. *)
Definition loop_inv (bid : bool) (aslot : Z) (agg : Order) (s : SideState)
    (rss : list (list Resting)) (p : Pool.Pool Order) (sess F : list Z) : Prop :=
  side_wf bid (Pool.data p) sess s rss /\ matching bid aslot agg (levels s) rss p sess F.

Definition loop_post (bid : bool) (aslot agg_idx max_fills : Z) (F sess : list Z)
    (agg : Order) (rss : list (list Resting)) (p : Pool.Pool Order) (fills : list Fill)
    (s' : SideState) (p' : Pool.Pool Order) (fills' : list Fill) : Prop :=
  exists fs qty' rss' R,
    fills' = fills ++ fs /\ loop_inv bid aslot (set_qty agg qty') s' rss' p' sess F /\
    preserves F R p p' /\ slots_of (flat bid rss) = R ++ slots_of (flat bid rss') /\
    spec_match ix bid (o_order_id agg) agg_idx (max_fills - zlen fills) (o_qty agg) (flat bid rss)
      = (fs, qty', flat bid rss').

Definition remaining (bid : bool) (b : Z) : Z :=
  if b =? NULL_IDX then 0 else if bid then b + 1 else LADDER_SIZE - b.

Section outer_loop.
Context (bid : bool) (aslot agg_idx max_fills : Z) (F sess : list Z).

Abbreviation inv := (fun agg s rss p => loop_inv bid aslot agg s rss p sess F).
Abbreviation post := (loop_post bid aslot agg_idx max_fills F sess).

Lemma loop_stop agg s rss p fills :
  inv agg s rss p ->
  spec_match ix bid (o_order_id agg) agg_idx (max_fills - zlen fills) (o_qty agg) (flat bid rss)
    = ([], o_qty agg, flat bid rss) ->
  post agg rss p fills s p fills.
Proof.
  intros Hinv Hspec. exists [], (o_qty agg), rss, []. rewrite app_nil_r, set_qty_id.
  split; [done|]. split; [done|]. split; [split; [done|by apply gens_bump_same]|]. done.
Qed.

Lemma break_cond b : (if bid then b <? agg_idx else agg_idx <? b) = negb (at_least bid b agg_idx).
Proof. destruct bid; simpl; bool_cases; simpl; lia. Qed.

(** The fills of the inner loop come before those of the rest of the run. *)
Lemma loop_compose agg s rss p fills q full lvls1 p1 fills1 :
  inv agg s rss p -> best s <> NULL_IDX -> rss !! best s = Some q ->
  level_post bid aslot agg_idx max_fills (best s) F sess agg rss p fills q full lvls1 p1 fills1 ->
  exists agg2 q', matching bid aslot agg2 lvls1 (<[best s := q']> rss) p1 sess F /\
    zlen fills1 <= max_fills /\
    (if full then q' <> [] /\ zlen fills1 = max_fills else o_qty agg2 = 0 \/ q' = []) /\
    forall s' p' fills', post agg2 (<[best s := q']> rss) p1 fills1 s' p' fills' ->
      post agg rss p fills s' p' fills'.
Proof.
  intros [Hs M] Hb Hq (fs & qty' & q' & R & -> & M1 & Pr1 & Hsl & Hrun & Hle & Hend).
  destruct (best_some _ _ _ (sw_best Hs) Hb) as (r & q0 & k & Hq0 & Hflat & Hupd & _).
  rewrite Hq in Hq0. injection Hq0 as ->.
  exists (set_qty agg qty'), q'. split; [done|]. split; [done|]. split; [done|].
  intros s' p' fills' (fs2 & qty2 & rss2 & R2 & -> & Hinv2 & Pr2 & Hsl2 & Hspec2).
  rewrite set_qty_set_qty in Hinv2. rewrite Hupd in Hsl2, Hspec2.
  assert (E : slots_of (flat bid rss) = (R ++ R2) ++ slots_of (flat bid rss2)).
  { rewrite Hflat, app_comm_cons, slots_of_app, Hsl, <- !app_assoc, <- Hsl2. by rewrite slots_of_app. }
  exists (fs ++ fs2), qty2, rss2, (R ++ R2). split; [by rewrite app_assoc|].
  split; [done|]. split; [|split; [done|]].
  - eapply preserves_trans; [|done|done]. destruct (live_levels _ _ _ _ _ _ _ _ M) as (ND & _).
    rewrite E in ND. by apply NoDup_app in ND as (? & _ & _).
  - rewrite Hflat, app_comm_cons. specialize (Hrun k). unfold runs_to in Hrun.
    cbn [o_order_id o_qty set_qty] in Hspec2. by rewrite Hrun, Hspec2.
Qed.

Lemma remaining_better b b' :
  0 <= b < LADDER_SIZE -> b' = NULL_IDX \/ (0 <= b' < LADDER_SIZE /\ better bid b b') ->
  remaining bid b' < remaining bid b.
Proof.
  intros Hb Hb'. unfold remaining. assert (b <> NULL_IDX) by (unfold NULL_IDX, UINT32_MAX; lia).
  rewrite (proj2 (Z.eqb_neq b _)) by done.
  destruct Hb' as [->|[? Hbt]]; [rewrite Z.eqb_refl; destruct bid; lia|].
  rewrite (proj2 (Z.eqb_neq b' _)) by (unfold NULL_IDX, UINT32_MAX; lia).
  destruct bid; simpl in Hbt; lia.
Qed.

(** The index is still right when the inner loop left orders at the best level. *)
Lemma index_kept agg s rss p agg2 q' lvls1 p1 :
  inv agg s rss p -> best s <> NULL_IDX ->
  matching bid aslot agg2 lvls1 (<[best s := q']> rss) p1 sess F -> q' <> [] ->
  inv agg2 (mkSide (best s) lvls1 (occ s)) (<[best s := q']> rss) p1.
Proof.
  intros [Hs M] Hb M1 Hne.
  destruct (best_some _ _ _ (sw_best Hs) Hb) as (r & q0 & k & Hq & _ & _ & Hbetter).
  pose proof (lookupZ_range _ _ _ Hq) as Rq.
  split; [split|done]; simpl; [apply M1|apply Hs| |].
  - apply (occ_ok_update (occ s) (occ s) rss (best s) (r :: q0)); [apply (sw_occ Hs)|done|].
    intros j. destruct (Z.eqb_spec j (best s)) as [->|]; [|done].
    rewrite (sw_occ Hs _ _ Hq), !bool_decide_false by done. done.
  - right. exists q'. split; [by apply lookupZ_insertZ_eq|]. split; [done|]. intros j qj Hj.
    rewrite lookupZ_insertZ_ne; [by apply Hbetter|]. destruct bid; simpl in Hj; lia.
Qed.

(** Putting occupancy and best index right after the inner loop. *)
Lemma loop_reindex agg s rss p agg2 q' lvls1 p1 :
  inv agg s rss p -> best s <> NULL_IDX ->
  matching bid aslot agg2 lvls1 (<[best s := q']> rss) p1 sess F ->
  exists lv s2, aget lvls1 (best s) = Ok lv /\
    (if empty lv then
       o ← clear (occ s) (best s);
       b ← (if bid then
              if 0 <? best s then find_best LADDER_SIZE true o (u32 (best s - 1)) else Ok NULL_IDX
            else find_best LADDER_SIZE false o (u32 (best s + 1)));
       Ok (mkSide b lvls1 o)
     else Ok (mkSide (best s) lvls1 (occ s))) = Ok s2 /\
    inv agg2 s2 (<[best s := q']> rss) p1 /\
    (if bool_decide (q' = []) then remaining bid (best s2) < remaining bid (best s)
     else best s2 = best s).
Proof.
  intros Hinv Hb M1. pose proof Hinv as [Hs M].
  destruct (best_some _ _ _ (sw_best Hs) Hb) as (r & q0 & k & Hq & _ & _ & Hbetter).
  pose proof (rss_range _ _ _ _ _ _ _ _ _ (m_levels M) Hq) as Rb.
  pose proof (lookupZ_range _ _ _ Hq) as Rq.
  assert (Hq' : <[best s := q']> rss !! best s = Some q') by (by apply lookupZ_insertZ_eq).
  destruct (matching_empty _ _ _ _ _ _ _ _ _ _ M1 Hq') as (lv & Hlv & Hempty).
  exists lv. rewrite (aget_Ok _ _ _ Hlv), Hempty.
  destruct (bool_decide_reflect (q' = [])) as [->|Hne].
  - destruct (clear_spec _ _ (sw_bm Hs) _ Rb) as (o & -> & Hbm & Hbit). simpl.
    assert (Hocc : occ_ok o (<[best s := []]> rss)).
    { by apply (occ_ok_update (occ s) o rss (best s) (r :: q0) []); [apply (sw_occ Hs)|..]. }
    rewrite scan_from_match.
    destruct (advance_best bid o (best s) _ Hbm Hocc) as (b' & -> & Hbest & Hrem).
    + rewrite zlen_insertZ. apply (lw_len_rss (m_levels M)).
    + done.
    + intros j qj Hj. rewrite lookupZ_insertZ by done. case_decide; [by intros [= <-]|].
      destruct Hj as [->|Hj]; [done|]. by apply Hbetter.
    + simpl. eexists. split; [done|]. split; [done|].
      split; [split; [split|]; try done; apply M1|]. by apply remaining_better.
  - eexists. split; [done|]. split; [done|]. split; [by eapply index_kept|done].
Qed.

Lemma remaining_nonneg agg s rss p : inv agg s rss p -> 0 <= remaining bid (best s).
Proof.
  intros [Hs M]. unfold remaining. destruct (Z.eqb_spec (best s) NULL_IDX); [done|].
  destruct (best_some _ _ _ (sw_best Hs)) as (? & ? & ? & Hq & _); [done|].
  pose proof (rss_range _ _ _ _ _ _ _ _ _ (m_levels M) Hq). destruct bid; lia.
Qed.

(** The reference matching stops where the outer loop does. *)
Lemma stop_no_best agg s rss p n :
  inv agg s rss p -> best s = NULL_IDX ->
  spec_match ix bid (o_order_id agg) agg_idx n (o_qty agg) (flat bid rss)
    = ([], o_qty agg, flat bid rss).
Proof.
  intros [Hs M] Hn. rewrite (best_null bid (best s)); [done| |apply Hs|done].
  rewrite (lw_len_rss (m_levels M)). unfold NULL_IDX, UINT32_MAX. lia.
Qed.

Lemma stop_no_cross agg s rss p n :
  inv agg s rss p -> best s <> NULL_IDX -> at_least bid (best s) agg_idx = false ->
  spec_match ix bid (o_order_id agg) agg_idx n (o_qty agg) (flat bid rss)
    = ([], o_qty agg, flat bid rss).
Proof.
  intros [Hs M] Hn Hx. destruct (best_some _ _ _ (sw_best Hs) Hn) as (r & q & k & Hr & -> & _ & _).
  simpl. rewrite (lw_on (m_levels M) Hr ltac:(constructor)). unfold crosses.
  by rewrite Hx, andb_false_r.
Qed.

Lemma match_loop_spec fuel agg s rss p fills :
  inv agg s rss p -> zlen fills <= max_fills ->
  remaining bid (best s) + (if 0 <? o_qty agg then 1 else 0) < Z.of_nat fuel ->
  exists s' p' fills',
    match_loop MAX_ORDERS LADDER_SIZE fuel bid max_fills aslot agg_idx s p sess fills
      = Ok (s', p', fills') /\ post agg rss p fills s' p' fills'.
Proof.
  intros Hinv Hle Hfuel. revert agg s rss p fills Hinv Hle Hfuel.
  induction fuel as [|fuel IH]; intros agg s rss p fills Hinv Hle Hfuel;
    pose proof (remaining_nonneg _ _ _ _ Hinv).
  { destruct (0 <? o_qty agg); lia. }
  pose proof Hinv as [Hs M]. pose proof (m_qty M) as Hqty.
  cbn [match_loop]. remember (S (Z.to_nat max_fills)) as n eqn:En.
  rewrite (aget_Ok _ _ _ (m_agg M)). simpl.
  destruct (Z.ltb_spec 0 (o_qty agg)) as [Hq|Hq]; simpl.
  2:{ eexists _, _, _. split; [done|]. apply loop_stop; [done|].
      replace (o_qty agg) with 0 by lia. apply spec_match_qty0. }
  destruct (Z.eqb_spec (best s) NULL_IDX) as [Hn|Hn]; simpl.
  { eexists _, _, _. split; [done|]. eapply loop_stop, stop_no_best; done. }
  rewrite break_cond. destruct (at_least bid (best s) agg_idx) eqn:Hx; simpl.
  2:{ eexists _, _, _. split; [done|]. eapply loop_stop, stop_no_cross; done. }
  destruct (best_some _ _ _ (sw_best Hs) Hn) as (r & q & k & Hr & _).
  destruct (match_level_spec bid aslot agg_idx max_fills (best s) F sess Hx
    n agg (levels s) rss p fills _ M Hr)
    as (full & lvls1 & p1 & fills1 & -> & Hpost);
    [pose proof (zlen_nonneg fills); lia|lia|]. simpl.
  destruct (loop_compose _ _ _ _ _ _ _ _ _ _ Hinv Hn Hr Hpost)
    as (agg2 & q' & M1 & Hle1 & Hend & Hcomp).
  destruct full.
  - destruct Hend as [Hne Hfull]. eexists _, _, _. split; [done|]. apply Hcomp, loop_stop.
    + by eapply index_kept.
    + apply spec_match_budget0. lia.
  - destruct (loop_reindex _ _ _ _ _ _ _ _ Hinv Hn M1) as (lv & s2 & -> & Hrun2 & Hinv2 & Hrem).
    simpl. rewrite Hrun2. simpl.
    destruct (IH agg2 s2 _ p1 fills1 Hinv2 Hle1) as (s' & p' & fills' & -> & H'); [|eauto 10].
    revert Hrem Hend. destruct (bool_decide_reflect (q' = [])); intros Hrem Hend.
    + destruct (0 <? o_qty agg2); lia.
    + destruct Hend as [->|]; [|done]. simpl. rewrite Hrem. lia.
Qed.

End outer_loop.

End refinement.

Arguments m_levels {_ _ _ _ _ _ _ _ _ _ _} _.
Arguments m_pool {_ _ _ _ _ _ _ _ _ _ _} _.
Arguments m_agg {_ _ _ _ _ _ _ _ _ _ _} _.
Arguments m_qty {_ _ _ _ _ _ _ _ _ _ _} _.
Arguments level_valid {_ _ _} _ {_ _ _ _ _ _ _ _} _ {_ _} _.
Arguments live_levels {_ _ _ _ _ _ _ _ _ _ _} _.
Arguments live_facts {_ _ _ _ _ _ _ _ _ _ _} _.

End BookMatch.
