(* ===== verification/BookRefine.v ===== *)
(** * The order book implements its specification

    The operations of [OrderBook] run without undefined behaviour from every
    state related to a reference book, terminate within their fuel, and lead
    to a state related to the reference book after the reference operation. *)

From S2P Require Import Prelude Messages Order LevelBitmap Pool PriceLevel OrderHandle OrderBook.
From S2P Require Import BookSpec BookInv BookMatch.

Module BookRefine.
Import LevelBitmap PriceLevel OrderHandle OrderBook BookSpec BookInv BookMatch.

Section refinement.
Context (MAX_ORDERS LADDER_SIZE : Z) (ix : Z -> Z).
Context (HN : 0 < MAX_ORDERS < UINT32_MAX) (HL : 0 < LADDER_SIZE < 2 ^ 32).

Abbreviation side_wf := (side_wf LADDER_SIZE ix).
Abbreviation pool_wf := (Pool.pool_wf MAX_ORDERS).
Abbreviation loop_inv := (loop_inv MAX_ORDERS LADDER_SIZE ix).
Abbreviation book_rel := (book_rel MAX_ORDERS LADDER_SIZE ix).

(** ** Resting and unresting an order *)

Lemma best_ok_rest bid b rss i q q' :
  best_ok bid b rss -> rss !! i = Some q -> q' <> [] -> zlen rss <= NULL_IDX ->
  best_ok bid (if (b =? NULL_IDX) || (if bid then b <? i else i <? b) then i else b)
    (<[i := q']> rss).
Proof.
  intros Hb Hi Hne HLen. pose proof (lookupZ_range _ _ _ Hi) as Ri. right.
  assert (E : (if bid then b <? i else i <? b) = negb (at_least bid b i))
    by (destruct bid; simpl; bool_cases; simpl; lia).
  rewrite E. destruct Hb as [[-> Hempty]|(qb & Hqb & Hqne & Hbetter)].
  - rewrite Z.eqb_refl. simpl. exists q'. split; [by apply lookupZ_insertZ_eq|].
    split; [done|]. intros j qj Hj. rewrite lookupZ_insertZ_ne; [by apply Hempty|].
    destruct bid; simpl in Hj; lia.
  - pose proof (lookupZ_range _ _ _ Hqb) as Rb.
    rewrite (proj2 (Z.eqb_neq b NULL_IDX)) by lia. simpl.
    destruct (at_least bid b i) eqn:Hx; simpl.
    + exists (if decide (i = b) then q' else qb). rewrite lookupZ_insertZ by done.
      split; [by case_decide|]. split; [by case_decide|]. intros j qj Hj.
      rewrite lookupZ_insertZ_ne; [by apply Hbetter|]. destruct bid; simpl in Hj, Hx; lia.
    + exists q'. split; [by apply lookupZ_insertZ_eq|]. split; [done|]. intros j qj Hj.
      apply better_not_at_least in Hx.
      rewrite lookupZ_insertZ_ne by (destruct bid; simpl in Hj; lia). apply Hbetter.
      destruct bid; simpl in Hj, Hx |- *; lia.
Qed.

Lemma best_ok_unrest bid b rss i q' :
  best_ok bid b rss -> b <> i \/ q' <> [] -> (forall q, rss !! i = Some q -> q <> []) ->
  0 <= i < zlen rss -> best_ok bid b (<[i := q']> rss).
Proof.
  intros Hb Hor Hi Ri. destruct (lookupZ_is_Some _ _ Ri) as [qi Hqi]. right.
  destruct Hb as [[-> Hempty]|(qb & Hqb & Hqne & Hbetter)].
  { exfalso. apply (Hi _ Hqi). by eapply Hempty. }
  exists (if decide (i = b) then q' else qb). rewrite lookupZ_insertZ by done.
  split; [by case_decide|]. split; [case_decide; [by destruct Hor|done]|].
  intros j qj Hj. rewrite lookupZ_insertZ_ne; [by apply Hbetter|].
  intros ->. by apply (Hi _ Hqi), (Hbetter _ _ Hj).
Qed.

Lemma rest_spec bid r a b s rss p sess F :
  loop_inv bid (r_slot r) (node r a b) s rss p sess F ->
  0 <= r_ix ix r < LADDER_SIZE -> order_ok bid sess r ->
  exists s' base' rss',
    rest bid (r_ix ix r) (r_slot r) s p = Ok (s', Pool.with_data p base') /\
    side_wf bid base' sess s' rss' /\ flat bid rss' = spec_insert ix bid r (flat bid rss) /\
    zlen base' = MAX_ORDERS /\ (forall x, x ∈ F -> base' !! x = Pool.data p !! x).
Proof.
  intros [Hs M] Ri Hok. destruct (level_at _ _ _ _ _ _ _ _ (m_levels M) Ri) as (lv & q & Hlv & Hq & Hrep).
  destruct (level_valid HN M Hq) as ([HF ND] & Ha & Hin & _).
  destruct (live_levels M) as (NDf & Haf & HFr).
  destruct (live_facts M) as [_ HR].
  pose proof (HR (r_slot r) ltac:(constructor)) as Rr.
  assert (Hv : valid_slots (q ++ [r])).
  { split; rewrite slots_of_app.
    - apply Forall_app. split; [done|]. apply Forall_singleton. unfold NULL_IDX. lia.
    - apply NoDup_app. split; [done|]. split; [|apply NoDup_singleton].
      intros x Hx ->%list_elem_of_singleton. done. }
  destruct (push_back_spec _ _ _ _ _ _ Hv Hrep (m_agg M)) as (lv' & base' & Hpush & Hrep' & L' & Hf').
  destruct (set_spec _ _ (sw_bm Hs) _ Ri) as (o & Hset & Hbm & Hbit).
  unfold rest. rewrite (aget_Ok _ _ _ Hlv). simpl. rewrite Hpush. simpl.
  rewrite (aset_Some _ _ _ _ Hlv). simpl. rewrite Hset. simpl.
  eexists _, base', (<[r_ix ix r := q ++ [r]]> rss). split; [done|].
  assert (Hne : q ++ [r] <> []) by (by destruct q).
  split; [split; simpl|split; [|split]].
  - eapply levels_wf_update; [apply M|done|done| |].
    + intros x [Hx| ->%list_elem_of_singleton]%elem_of_app; [|done].
      split; [exact (lw_on (m_levels M) Hq Hx)|exact (lw_ord (m_levels M) Hq Hx)].
    + intros j qj x Hj Hqj Hx. apply Hf'. rewrite slots_of_app, not_elem_of_app. split.
      * by apply (proj2 (flat_level_slots bid rss _ _ Hq NDf) j qj).
      * intros E%list_elem_of_singleton. apply Haf. rewrite <- E.
        apply list_elem_of_fmap_2, elem_of_flat. eauto.
  - done.
  - eapply occ_ok_update; [apply (sw_occ Hs)|done|]. intros j. by rewrite bool_decide_false.
  - eapply best_ok_rest; [apply Hs|done|done|]. rewrite (lw_len_rss (m_levels M)).
    unfold NULL_IDX, UINT32_MAX. lia.
  - apply flat_insert; [|done|done]. intros ???. apply (lw_on (m_levels M)).
  - rewrite L'. apply (Pool.wf_slots _ _ _ (m_pool M)).
  - intros x Hx. apply Hf'. specialize (HFr _ Hx). rewrite not_elem_of_cons in HFr.
    destruct HFr as [H1 H2]. rewrite slots_of_app, not_elem_of_app. split; [by intros Hx'%Hin|].
    by intros ->%list_elem_of_singleton.
Qed.

Lemma slots_of_mid l1 (r : Resting) l2 x :
  x ∈ slots_of (l1 ++ l2) -> x ∈ slots_of (l1 ++ r :: l2).
Proof. rewrite !slots_of_app, !elem_of_app. simpl. rewrite elem_of_cons. tauto. Qed.

Lemma elem_of_mid l1 (r : Resting) l2 x : x ∈ l1 ++ l2 -> x ∈ l1 ++ r :: l2.
Proof. rewrite !elem_of_app, elem_of_cons. tauto. Qed.

Lemma valid_slots_mid l1 r l2 : valid_slots (l1 ++ r :: l2) -> valid_slots (l1 ++ l2).
Proof.
  intros [HF ND]. split.
  - apply Forall_forall. intros x Hx. apply (proj1 (Forall_forall _ _) HF). by apply slots_of_mid.
  - rewrite slots_of_app in ND |- *. simpl in ND. apply NoDup_app in ND as (? & D & ND).
    apply NoDup_cons in ND as [_ ?]. apply NoDup_app. split; [done|]. split; [|done].
    intros x Hx Hx2. apply (D _ Hx). by constructor.
Qed.

(** The slots of one side of a book whose arena is well formed. *)
Lemma side_slots bid rss (p : Pool.Pool Order) F :
  pool_wf p (slots_of (flat bid rss) ++ F) ->
  NoDup (slots_of (flat bid rss)) /\ (forall x, x ∈ slots_of (flat bid rss) -> 0 <= x < MAX_ORDERS) /\
  (forall x, x ∈ F -> x ∉ slots_of (flat bid rss)).
Proof.
  intros HP. pose proof (Pool.wf_live_NoDup _ _ _ HP) as ND.
  apply NoDup_app in ND as (ND & D & _). split; [done|]. split.
  - intros x Hx. eapply Pool.wf_live_range; [done|]. apply elem_of_app. by left.
  - intros x Hx Hx'. by apply (D x).
Qed.

(** The occupancy and best index after a level lost an order, which is empty
    now when [q'] is. *)
Definition reindex (bid : bool) (i : Z) (lv : PriceLevel) (lvls : list PriceLevel) (s : SideState) :
    res SideState :=
  if empty lv then
    o ← LevelBitmap.clear (occ s) i;
    b ← (if best s =? i then find_best LADDER_SIZE bid o (scan_from bid i) else Ok (best s));
    Ok (mkSide b lvls o)
  else Ok (mkSide (best s) lvls (occ s)).

Lemma reindex_spec bid i lv lvls' s rss q q' base' sess :
  bm_wf LADDER_SIZE (occ s) -> occ_ok (occ s) rss -> best_ok bid (best s) rss ->
  zlen rss = LADDER_SIZE -> rss !! i = Some q -> q <> [] ->
  empty lv = bool_decide (q' = []) ->
  levels_wf LADDER_SIZE ix bid base' sess lvls' (<[i := q']> rss) ->
  exists s', reindex bid i lv lvls' s = Ok s' /\ side_wf bid base' sess s' (<[i := q']> rss).
Proof.
  intros Hbm Hocc Hbest HLen Hq Hne Hempty Hlw. pose proof (lookupZ_range _ _ _ Hq) as Rq.
  assert (Hne' : forall q0, rss !! i = Some q0 -> q0 <> []) by (rewrite Hq; by intros ? [= <-]).
  unfold reindex. rewrite Hempty. destruct (bool_decide_reflect (q' = [])) as [->|Hq'].
  - destruct (clear_spec _ _ Hbm i) as (o & -> & Hbm' & Hbit); [lia|]. simpl.
    assert (Hocc' : occ_ok o (<[i := []]> rss)) by (by apply (occ_ok_update (occ s) o rss i q [])).
    destruct (Z.eqb_spec (best s) i) as [<-|Hbi]; simpl.
    + destruct Hbest as [[E _]|(qb & Hqb & _ & Hbetter)]; [unfold NULL_IDX, UINT32_MAX in E; lia|].
      destruct (advance_best LADDER_SIZE HL bid o (best s) _ Hbm' Hocc') as (b' & -> & Hbest' & _).
      * by rewrite zlen_insertZ.
      * lia.
      * intros j qj Hj. rewrite lookupZ_insertZ by done. case_decide; [by intros [= <-]|].
        destruct Hj as [->|Hj]; [done|]. by apply Hbetter.
      * simpl. eexists. split; [done|]. by split.
    + eexists. split; [done|]. split; try done. simpl. apply best_ok_unrest; try done. by left.
  - eexists. split; [done|]. split; simpl; try done.
    + eapply occ_ok_update; [done|done|]. intros j. destruct (Z.eqb_spec j i) as [->|]; [|done].
      rewrite (Hocc _ _ Hq), !bool_decide_false by done. done.
    + apply best_ok_unrest; try done. by right.
Qed.

Lemma unrest_spec bid r l1 l2 s rss p sess F :
  side_wf bid (Pool.data p) sess s rss -> pool_wf p (slots_of (flat bid rss) ++ F) ->
  rss !! r_ix ix r = Some (l1 ++ r :: l2) ->
  exists s' base' rss',
    unrest LADDER_SIZE bid (r_ix ix r) (r_slot r) s p = Ok (s', Pool.with_data p base') /\
    side_wf bid base' sess s' rss' /\ flat bid rss' = spec_cancel (r_slot r) (flat bid rss) /\
    zlen base' = MAX_ORDERS /\
    (forall x, x ∉ slots_of (flat bid rss) -> base' !! x = Pool.data p !! x).
Proof.
  intros Hs HP Hq. pose proof (sw_levels Hs) as Hlw.
  pose proof (rss_range _ _ _ _ _ _ _ _ _ Hlw Hq) as Ri.
  destruct (side_slots _ _ _ _ HP) as (NDf & HR & _).
  destruct (queue_valid _ HN bid rss _ _ NDf HR Hq) as [Hv Hin].
  destruct (level_at _ _ _ _ _ _ _ _ Hlw Ri) as (lv & q & Hlv & Hq' & Hrep).
  rewrite Hq in Hq'. injection Hq' as <-.
  destruct (remove_spec _ _ _ _ _ Hv Hrep) as (lv' & base' & Hrm & Hrep' & L' & Hf').
  assert (Hlw' : levels_wf LADDER_SIZE ix bid base' sess (<[r_ix ix r := lv']> (levels s))
                   (<[r_ix ix r := l1 ++ l2]> rss)).
  { eapply levels_wf_update; [done|done|done| |].
    - intros x Hx%(elem_of_mid _ r).
      split; [exact (lw_on Hlw Hq Hx)|exact (lw_ord Hlw Hq Hx)].
    - intros j qj x Hj Hqj Hx. apply Hf'. intros Hx'%(slots_of_mid _ r).
      by apply (proj2 (flat_level_slots bid rss _ _ Hq NDf) j qj x Hj Hqj Hx). }
  destruct (reindex_spec bid (r_ix ix r) lv' _ s rss _ _ base' sess (sw_bm Hs) (sw_occ Hs)
    (sw_best Hs) (lw_len_rss Hlw) Hq ltac:(by destruct l1)
    (empty_spec _ _ _ (valid_slots_mid _ _ _ Hv) Hrep') Hlw') as (s' & Hre & Hs').
  exists s', base', (<[r_ix ix r := l1 ++ l2]> rss). split; [|split; [done|split; [|split]]].
  - unfold unrest. rewrite (aget_Ok _ _ _ Hlv). simpl. rewrite Hrm. simpl.
    rewrite (aset_Some _ _ _ _ Hlv). simpl. unfold reindex, scan_from in Hre. by rewrite Hre.
  - by apply flat_cancel.
  - rewrite L'. apply (Pool.wf_slots _ _ _ HP).
  - intros x Hx. apply Hf'. intros Hx'%(slots_of_mid _ r). by apply Hx, Hin.
Qed.

(** ** Reading a book *)

Lemma price_to_idx_Ok bk price :
  0 < tick_size_ bk -> is_i64 (price - base_price_ bk) ->
  price_to_idx bk price = Ok (ladder_idx (base_price_ bk) (tick_size_ bk) price).
Proof.
  intros Ht Hp. unfold price_to_idx, i64_sub, i64_div. rewrite i64_checked_Ok by done. simpl.
  rewrite (proj2 (Z.eqb_neq _ _)) by lia. rewrite i64_checked_Ok; [done|].
  unfold is_i64, INT64_MIN, INT64_MAX in *.
  pose proof (Z.quot_le_mono (- 2 ^ 63) (price - base_price_ bk) (tick_size_ bk) ltac:(lia) ltac:(lia)).
  pose proof (Z.quot_le_mono (price - base_price_ bk) (2 ^ 63 - 1) (tick_size_ bk) ltac:(lia) ltac:(lia)).
  assert (Z.quot (2 ^ 63 - 1) (tick_size_ bk) <= 2 ^ 63 - 1) by (apply Z.quot_le_upper_bound; nia).
  assert (- 2 ^ 63 <= Z.quot (- 2 ^ 63) (tick_size_ bk)) by (apply Z.quot_le_lower_bound; nia).
  lia.
Qed.

Lemma side_of_put_eq bid bk s : side_of bid (put_side bid bk s) = s.
Proof. by destruct bid, s. Qed.

Lemma side_of_put_ne bid bk s : side_of bid (put_side (negb bid) bk s) = side_of bid bk.
Proof. by destruct bid, s. Qed.

Lemma put_side_params bid bk s : same_params bk (put_side bid bk s).
Proof. by destruct bid. Qed.

Lemma put_sides_params bid bk s s' : same_params bk (put_side bid (put_side (negb bid) bk s) s').
Proof. by destruct bid. Qed.

Lemma aslots_sides bid ab :
  aslots ab ≡ₚ slots_of (aside bid ab) ++ slots_of (aside (negb bid) ab).
Proof. unfold aslots. destruct bid; simpl; [done|apply Permutation_app_comm]. Qed.

Lemma aside_aput_eq bid ab l : aside bid (aput bid ab l) = l.
Proof. by destruct bid. Qed.

Lemma aside_aput_ne bid ab l : aside bid (aput (negb bid) ab l) = aside bid ab.
Proof. by destruct bid. Qed.

(** A resting order is on the book, a cancel takes nothing else off it. *)
Lemma spec_add_rests i ab msg slot n fs ab' : spec_add i ab msg slot n = (true, fs, ab') -> slot ∈ aslots ab'.
Proof.
  unfold spec_add. destruct (spec_match _ _ _ _ _ _ _) as [[fs1 q] opp]. destruct (_ && _); [|done]. intros [= _ <-].
  rewrite (aslots_sides (bool_decide (no_side msg = BUY))), aside_aput_eq. apply elem_of_app. left.
  unfold slots_of. rewrite spec_insert_perm. constructor.
Qed.

Lemma aslots_cancel ab bid slot s :
  s ∈ aslots ab -> s <> slot -> s ∈ aslots (aput bid ab (spec_cancel slot (aside bid ab))).
Proof.
  intros Hs Hne. pose proof (aside_aput_ne (negb bid) ab) as Ane. rewrite negb_involutive in Ane.
  rewrite (aslots_sides bid) in Hs |- *. rewrite aside_aput_eq, Ane.
  apply elem_of_app in Hs as [Hs|Hs]; apply elem_of_app; [left|by right].
  apply list_elem_of_fmap in Hs as (r & -> & Hr). apply list_elem_of_fmap_2.
  by apply list_elem_of_filter.
Qed.

Lemma spec_cancel_slots l r : NoDup (slots_of l) -> r ∈ l -> slots_of l ≡ₚ r_slot r :: slots_of (spec_cancel (r_slot r) l).
Proof.
  unfold slots_of, spec_cancel. induction l as [|x l IH]; intros ND Hr; [by apply not_elem_of_nil in Hr|].
  rewrite fmap_cons in ND |- *. apply NoDup_cons in ND as [Hx ND]. rewrite filter_cons.
  destruct (decide (r_slot x = r_slot r)) as [E|Hne].
  - rewrite decide_False by (by intros H). rewrite E. f_equiv. rewrite filter_all; [done|].
    apply Forall_forall. intros y Hy Ey. apply Hx. rewrite E, <- Ey. by apply list_elem_of_fmap_2.
  - rewrite decide_True by done. rewrite fmap_cons. apply elem_of_cons in Hr as [->|Hr]; [done|]. rewrite (IH ND Hr). apply Permutation_swap.
Qed.

Lemma aslots_cancelled ab bid r : NoDup (aslots ab) -> r ∈ aside bid ab ->
  aslots ab ≡ₚ r_slot r :: aslots (aput bid ab (spec_cancel (r_slot r) (aside bid ab))).
Proof.
  intros ND Hr. pose proof (aside_aput_ne (negb bid) ab) as Ane. rewrite negb_involutive in Ane.
  rewrite !(aslots_sides bid) in *. rewrite aside_aput_eq, Ane. apply NoDup_app in ND as (ND & _ & _).
  by rewrite (spec_cancel_slots _ r ND Hr) at 1.
Qed.

(** The orders that matching leaves are orders of the side, maybe reduced. *)
Lemma spec_match_left bid id i n q l fs q' l' x :
  spec_match ix bid id i n q l = (fs, q', l') -> x ∈ l' ->
  exists y, y ∈ l /\ r_price x = r_price y.
Proof.
  revert n q fs q'. induction l as [|r l IH]; intros n q fs q'; simpl.
  { intros [= <- <- <-] Hx%not_elem_of_nil. done. }
  destruct (_ && _ && _); [|intros [= <- <- <-] Hx; eauto].
  destruct (_ =? 0).
  - destruct (spec_match _ _ _ _ _ _ _) as [[fs1 q1] l1] eqn:E. intros [= <- <- <-] Hx.
    destruct (IH _ _ _ _ E Hx) as (y & Hy & ?). exists y. split; [by constructor|done].
  - intros [= <- <- <-] [->|Hx]%elem_of_cons.
    + exists r. split; [constructor|done].
    + exists x. split; [by constructor|done].
Qed.

(** ** Adding an order *)

Definition order_of (msg : NewOrder) : Order :=
  mkOrder (no_order_id msg) (no_price msg) (no_qty msg) NULL_IDX NULL_IDX
    (no_symbol_id msg) (no_side msg) (no_tif msg).

Lemma order_of_node msg slot q :
  set_qty (order_of msg) q = node (resting_of msg slot q) NULL_IDX NULL_IDX.
Proof. done. Qed.

(** A state in which an order sits in [slot] but in no queue: side [bid] is
    to be matched against and the other side is waiting. *)
Definition entered (bid : bool) (slot : Z) (agg : Order) (bk : OrderBook) (s : SideState)
    (p : Pool.Pool Order) (sess : list Z) (rss own : list (list Resting)) (F : list Z) : Prop :=
  loop_inv bid slot agg s rss p sess (slots_of (flat (negb bid) own) ++ F) /\
  side_wf (negb bid) (Pool.data p) sess (side_of (negb bid) bk) own.

Lemma remaining_le bid base sess s rss :
  side_wf bid base sess s rss -> remaining LADDER_SIZE bid (best s) <= LADDER_SIZE.
Proof.
  intros Hs. unfold remaining. destruct (Z.eqb_spec (best s) NULL_IDX); [lia|].
  destruct (sw_best Hs) as [[]|(q & Hq & _)]; [done|].
  pose proof (rss_range _ _ _ _ _ _ _ _ _ (sw_levels Hs) Hq). destruct bid; lia.
Qed.

(** Matching terminates within its fuel and follows the reference matching. *)
Lemma match_spec bid slot agg bk s p sess rss own F i max_fills :
  entered bid slot agg bk s p sess rss own F -> 0 <= max_fills ->
  exists s' p' fs qty' rss' R,
    match_ MAX_ORDERS LADDER_SIZE bid max_fills slot i s p sess [] = Ok (s', p', fs) /\
    entered bid slot (set_qty agg qty') bk s' p' sess rss' own F /\
    preserves F R p p' /\ slots_of (flat bid rss) = R ++ slots_of (flat bid rss') /\
    spec_match ix bid (o_order_id agg) i max_fills (o_qty agg) (flat bid rss)
      = (fs, qty', flat bid rss').
Proof.
  intros [Hinv Hown] Hmax.
  destruct (match_loop_spec MAX_ORDERS LADDER_SIZE ix HN HL bid slot i max_fills _ sess
    (2 + Z.to_nat LADDER_SIZE) agg s rss p [] Hinv) as (s' & p' & fills' & Hrun & Hpost).
  - done.
  - pose proof (remaining_le _ _ _ _ _ (proj1 Hinv)). destruct (0 <? o_qty agg); lia.
  - destruct Hpost as (fs & qty' & rss' & R & -> & Hinv' & [Hdata Hgens] & Hsl & Hspec).
    rewrite Z.sub_0_r in Hspec. exists s', p', fs, qty', rss', R.
    split; [done|]. split; [split; [done|]|split; [split; [|done]|done]].
    + eapply side_wf_frame; [|done|done]. intros x Hx. apply Hdata, elem_of_app. by left.
    + intros x Hx. apply Hdata, elem_of_app. by right.
Qed.

(** The book is right again once the two sides and the arena are. *)
Lemma book_rel_intro bk ar ab F bid bk' p' sess ab' own opp :
  book_rel bk ar ab F ->
  base_price_ bk' = base_price_ bk -> tick_size_ bk' = tick_size_ bk -> zlen sess = MAX_ORDERS ->
  side_wf bid (Pool.data p') sess (side_of bid bk') own -> aside bid ab' = flat bid own ->
  side_wf (negb bid) (Pool.data p') sess (side_of (negb bid) bk') opp ->
  aside (negb bid) ab' = flat (negb bid) opp ->
  (forall b r, r ∈ aside b ab' -> is_i64 (r_price r - base_price_ bk)) ->
  pool_wf p' (slots_of (flat bid own) ++ slots_of (flat (negb bid) opp) ++ F) ->
  book_rel bk' (mkArena p' sess) ab' F.
Proof.
  intros HB Eb Et Ls Hown Eown Hopp Eopp Hpr HP. split; try done.
  - intros price. rewrite Eb, Et. apply (br_ix HB).
  - intros b. destruct (decide (b = bid)) as [->|Hb]; [by exists own|].
    assert (b = negb bid) as -> by (by destruct b, bid). by exists opp.
  - rewrite Et. apply (br_tick HB).
  - rewrite Eb. done.
  - eapply Pool.pool_wf_perm, HP. rewrite (aslots_sides bid), Eown, Eopp. by rewrite app_assoc.
Qed.

Section add.
Context (bk : OrderBook) (ar : Arena) (ab : ABook) (F : list Z) (msg : NewOrder) (max_fills : Z).
Context (HB : book_rel bk ar ab F) (Hq : is_u 32 (no_qty msg)).

Let buy : bool := bool_decide (no_side msg = BUY).

Lemma enter_spec : zlen (aslots ab ++ F) < MAX_ORDERS ->
  exists slot p p' sess opp own,
    Pool.alloc (pool_ ar) = Ok (slot, p) /\ 0 <= slot < MAX_ORDERS /\ (slot ∉ aslots ab ++ F) /\
    Pool.put MAX_ORDERS p slot (order_of msg) = Ok p' /\
    aset (order_session_ ar) slot (hdr_session_id (no_hdr msg)) = Ok sess /\
    sess !! slot = Some (hdr_session_id (no_hdr msg)) /\ zlen sess = MAX_ORDERS /\
    Pool.gen_ (Pool.arena_ p') = Pool.gen_ (Pool.arena_ (pool_ ar)) /\ frame F ar (mkArena p' sess) /\
    aside (negb buy) ab = flat (negb buy) opp /\ aside buy ab = flat buy own /\
    entered (negb buy) slot (order_of msg) bk (side_of (negb buy) bk) p' sess opp own F.
Proof.
  intros Hroom. pose proof (br_pool HB) as HP.
  destruct (Pool.alloc_spec MAX_ORDERS ltac:(lia) _ _ HP Hroom)
    as (slot & p & Ha & Rs & Hfresh & _ & Har & _ & HP').
  destruct (br_sides HB buy) as (own & Hown & Eown).
  destruct (br_sides HB (negb buy)) as (opp & Hopp & Eopp).
  pose proof (br_sess HB) as Ls. pose proof (Pool.wf_slots _ _ _ HP) as Lp.
  set (p' := Pool.with_data p (<[slot := order_of msg]> (Pool.data p))).
  set (sess := <[slot := hdr_session_id (no_hdr msg)]> (order_session_ ar)).
  assert (Hdata : forall x, x ∈ aslots ab ++ F -> Pool.data p' !! x = Pool.data (pool_ ar) !! x /\
            sess !! x = order_session_ ar !! x).
  { intros x Hx. assert (slot <> x) by congruence.
    unfold sess, p', Pool.data, Pool.with_data. simpl.
    rewrite !lookupZ_insertZ_ne by done. by rewrite Har. }
  assert (Hside : forall b rss, aside b ab = flat b rss -> forall x, x ∈ slots_of (flat b rss) ->
            x ∈ aslots ab ++ F).
  { intros b rss E x Hx. rewrite (aslots_sides b), E, !elem_of_app. tauto. }
  exists slot, p, p', sess, opp, own. do 3 (split; [done|]).
  split; [apply Pool.put_Ok; [done|by rewrite Har]|].
  split; [apply aset_Ok; lia|]. split; [by apply lookupZ_insertZ_eq; lia|].
  split; [by unfold sess; rewrite zlen_insertZ|]. split; [unfold p'; simpl; by rewrite Har|].
  split; [intros x Hx; apply Hdata; apply elem_of_app; by right|]. do 2 (split; [done|]).
  assert (Hs : side_wf (negb buy) (Pool.data p') sess (side_of (negb buy) bk) opp).
  { eapply side_wf_frame; [| |done]; intros x Hx%(Hside _ _ Eopp)%Hdata; apply Hx. }
  split; [split; [done|split]|].
  - apply Hs.
  - apply (Pool.pool_wf_perm _ _ (slot :: aslots ab ++ F)).
    + rewrite negb_involutive, <- Eown, <- Eopp, (aslots_sides (negb buy)), negb_involutive.
      by rewrite app_assoc.
    + apply Pool.with_data_wf; [|done]. rewrite zlen_insertZ. unfold Pool.data. by rewrite Har.
  - apply lookupZ_insertZ_eq. unfold Pool.data. rewrite Har. lia.
  - apply Hq.
  - rewrite negb_involutive. eapply side_wf_frame; [| |done]; intros x Hx%(Hside _ _ Eown)%Hdata; apply Hx.
Qed.

Section after_match.
Context (slot q : Z) (s : SideState) (p : Pool.Pool Order) (sess : list Z).
Context (opp own : list (list Resting)) (ab1 : ABook).
Context (HE : entered (negb buy) slot (set_qty (order_of msg) q) bk s p sess opp own F).
Context (Hopp : aside (negb buy) ab1 = flat (negb buy) opp) (Hown : aside buy ab1 = flat buy own).
Context (Hpr : forall b r, r ∈ aside b ab1 -> is_i64 (r_price r - base_price_ bk)).
Context (Hsess : sess !! slot = Some (hdr_session_id (no_hdr msg))) (Ls : zlen sess = MAX_ORDERS).

Let bk1 : OrderBook := put_side (negb buy) bk s.

Lemma entered_pool :
  pool_wf p (slot :: slots_of (flat buy own) ++ slots_of (flat (negb buy) opp) ++ F).
Proof.
  destruct HE as [[_ M] _]. eapply Pool.pool_wf_perm; [|apply (m_pool M)].
  rewrite negb_involutive, !app_assoc. by rewrite (Permutation_app_comm (slots_of (flat buy own))).
Qed.

Lemma entered_own :
  loop_inv buy slot (set_qty (order_of msg) q) (side_of buy bk) own p sess
    (slots_of (flat (negb buy) opp) ++ F).
Proof.
  pose proof entered_pool as HP. destruct HE as [[Hs M] Ho]. rewrite negb_involutive in Ho.
  split; [done|]. split; [apply Ho|exact HP|apply M|apply M].
Qed.

Lemma finish_rests : 0 < q < 2 ^ 32 -> 0 <= ix (no_price msg) < LADDER_SIZE ->
  is_i64 (no_price msg - base_price_ bk) ->
  exists s' p', rest buy (ix (no_price msg)) slot (side_of buy bk1) p = Ok (s', p') /\
    book_rel (put_side buy bk1 s') (mkArena p' sess)
      (aput buy ab1 (spec_insert ix buy (resting_of msg slot q) (aside buy ab1))) F /\
    (forall x, x ∈ F -> Pool.data p' !! x = Pool.data p !! x) /\
    Pool.gen_ (Pool.arena_ p') = Pool.gen_ (Pool.arena_ p).
Proof.
  intros Hq' Hi Hp. pose proof entered_own as Hinv. set (r := resting_of msg slot q).
  change slot with (r_slot r) in Hinv |- *. rewrite (order_of_node msg (r_slot r) q) in Hinv.
  destruct (rest_spec buy r _ _ _ _ _ _ _ Hinv Hi) as (s' & base' & own' & Hrun & Hs' & Hfl & Lb & Hf).
  { split; [done|]. by split. }
  exists s', (Pool.with_data p base'). unfold bk1. rewrite side_of_put_ne.
  split; [done|]. split; [|split; [|done]].
  2:{ intros x Hx. apply Hf, elem_of_app. by right. }
  destruct HE as [[Hs _] _]. pose proof (side_of_put_ne (negb buy)) as Hne. rewrite negb_involutive in Hne.
  pose proof (aside_aput_ne (negb buy)) as Ane. rewrite negb_involutive in Ane.
  apply book_rel_intro with (bk := bk) (ar := ar) (ab := ab) (bid := buy) (own := own') (opp := opp); try done.
  - apply put_sides_params.
  - apply put_sides_params.
  - by rewrite side_of_put_eq.
  - by rewrite aside_aput_eq, Hown.
  - rewrite Hne, side_of_put_eq. eapply side_wf_frame; [|done|exact Hs].
    intros x Hx. apply Hf, elem_of_app. by left.
  - by rewrite Ane.
  - intros b x. destruct (decide (b = buy)) as [->|Hb].
    + rewrite aside_aput_eq, (spec_insert_perm ix buy), elem_of_cons. intros [->|Hx]; [done|].
      by apply (Hpr buy).
    + assert (b = negb buy) as -> by (by destruct b, buy). rewrite Ane. apply Hpr.
  - apply Pool.with_data_wf; [done|]. eapply Pool.pool_wf_perm; [|apply entered_pool].
    rewrite Hfl. unfold slots_of. by rewrite spec_insert_perm.
Qed.

Lemma finish_frees : exists p', Pool.free MAX_ORDERS p slot = Ok p' /\
  book_rel bk1 (mkArena p' sess) ab1 F /\ Pool.data p' = Pool.data p /\ gens_bump [slot] p p'.
Proof.
  destruct (Pool.free_spec MAX_ORDERS ltac:(lia) _ _ _ entered_pool)
    as (p' & g & Hfree & HP & Hsl & _ & Hg & Hgen).
  exists p'. split; [done|]. split; [|split; [done|by eapply gens_bump_one]].
  destruct HE as [[Hs _] Ho]. rewrite negb_involutive in Ho.
  apply book_rel_intro with (bk := bk) (ar := ar) (ab := ab) (bid := buy) (own := own) (opp := opp); try done; unfold bk1.
  - apply put_side_params.
  - apply put_side_params.
  - rewrite side_of_put_ne. unfold Pool.data. by rewrite Hsl.
  - rewrite side_of_put_eq. unfold Pool.data. by rewrite Hsl.
Qed.

End after_match.

Definition accepted (slot g : Z) (rests : bool) (fs : list Fill) (ab' : ABook)
    (bk' : OrderBook) (ar' : Arena) : Prop :=
  (slot ∉ aslots ab ++ F) /\ 0 <= slot < MAX_ORDERS /\
  Pool.gen_ (Pool.arena_ (pool_ ar)) !! slot = Some g /\
  spec_add ix ab msg slot max_fills = (rests, fs, ab') /\
  book_rel bk' ar' ab' F /\ same_params bk bk' /\ frame F ar ar' /\
  exists R, gens_bump R (pool_ ar) (pool_ ar') /\ slot :: aslots ab ≡ₚ R ++ aslots ab'.

(** The slots in use before are the recycled ones and those in use after. *)
Lemma recycled_match slot R l' :
  slots_of (aside (negb buy) ab) = R ++ slots_of l' ->
  slot :: aslots ab ≡ₚ R ++ slot :: aslots (aput (negb buy) ab l').
Proof.
  intros E. rewrite !(aslots_sides (negb buy)), negb_involutive.
  rewrite E, aside_aput_eq, aside_aput_ne, <- app_assoc. apply Permutation_middle.
Qed.

Lemma gen_lookup slot : 0 <= slot < MAX_ORDERS ->
  exists g, Pool.gen_ (Pool.arena_ (pool_ ar)) !! slot = Some g.
Proof. intros Rs. apply lookupZ_is_Some. by rewrite (Pool.wf_gen_len _ _ _ (br_pool HB)). Qed.

Lemma aslots_insert r ab1 :
  aslots (aput buy ab1 (spec_insert ix buy r (aside buy ab1))) ≡ₚ r_slot r :: aslots ab1.
Proof.
  pose proof (aside_aput_ne (negb buy) ab1) as E. rewrite negb_involutive in E.
  rewrite !(aslots_sides buy), aside_aput_eq, E. unfold slots_of at 1. by rewrite spec_insert_perm.
Qed.

Lemma recycled_NoDup slot R L :
  slot ∉ aslots ab ++ F -> slot :: aslots ab ≡ₚ R ++ slot :: L -> NoDup (R ++ [slot]) /\ slot ∉ R.
Proof.
  intros [Hfresh _]%not_elem_of_app Hrec.
  pose proof (Pool.wf_live_NoDup _ _ _ (br_pool HB)) as ND. apply NoDup_app in ND as (ND & _).
  pose proof (NoDup_cons_2 _ _ Hfresh ND) as ND'. rewrite Hrec in ND'.
  apply NoDup_app in ND' as (NR & D & _).
  assert (slot ∉ R) by (intros Hin; apply (D _ Hin); constructor).
  split; [|done]. apply NoDup_app. split; [done|]. split; [|apply NoDup_singleton].
  by intros x Hx ->%list_elem_of_singleton.
Qed.

(** [add_order] up to the test for resting. *)
Lemma add_order_prefix :
  0 <= ix (no_price msg) < LADDER_SIZE -> is_i64 (no_price msg - base_price_ bk) ->
  zlen (aslots ab ++ F) < MAX_ORDERS -> 0 <= max_fills ->
  exists slot s p sess opp own q fs R,
    let ab1 := aput (negb buy) ab (flat (negb buy) opp) in
    (slot ∉ aslots ab ++ F) /\ 0 <= slot < MAX_ORDERS /\
    entered (negb buy) slot (set_qty (order_of msg) q) bk s p sess opp own F /\
    aside buy ab1 = flat buy own /\
    (forall b r, r ∈ aside b ab1 -> is_i64 (r_price r - base_price_ bk)) /\
    sess !! slot = Some (hdr_session_id (no_hdr msg)) /\ zlen sess = MAX_ORDERS /\
    spec_match ix (negb buy) (no_order_id msg) (ix (no_price msg)) max_fills (no_qty msg)
      (aside (negb buy) ab) = (fs, q, flat (negb buy) opp) /\
    frame F ar (mkArena p sess) /\ gens_bump R (pool_ ar) p /\
    slot :: aslots ab ≡ₚ R ++ slot :: aslots ab1 /\
    add_order MAX_ORDERS LADDER_SIZE bk ar msg [] max_fills =
      (if (0 <? q) && negb (bool_decide (no_tif msg = IOC)) then
         '(own, p) ← rest buy (ix (no_price msg)) slot (side_of buy (put_side (negb buy) bk s)) p;
         g ← Pool.gen p slot;
         Ok (mkHandle slot g, fs, put_side buy (put_side (negb buy) bk s) own, mkArena p sess)
       else
         p ← Pool.free MAX_ORDERS p slot;
         Ok (no_handle, fs, put_side (negb buy) bk s, mkArena p sess)).
Proof.
  intros Hi Hp Hroom Hmax.
  destruct (enter_spec Hroom) as (slot & p & p1 & sess & opp & own & Halloc & Rs & Hfresh & Hput &
    Hset & Hsess & Ls & Hg1 & Hfr1 & Eopp & Eown & HE1).
  destruct (match_spec _ _ _ _ _ _ _ _ _ _ (ix (no_price msg)) max_fills HE1 Hmax)
    as (s & p2 & fs & q & opp' & R & Hmatch & HE2 & [Hd2 Hg2] & Hsl & Hspec).
  exists slot, s, p2, sess, opp', own, q, fs, R. cbv zeta.
  do 3 (split; [done|]). split; [by rewrite aside_aput_ne|].
  split; [|do 2 (split; [done|]); rewrite Eopp; split; [done|]].
  { intros b r. destruct (decide (b = buy)) as [->|Hb].
    - rewrite aside_aput_ne. apply (br_price HB).
    - assert (b = negb buy) as -> by (by destruct b, buy). rewrite aside_aput_eq. intros Hx.
      destruct (spec_match_left _ _ _ _ _ _ _ _ _ _ Hspec Hx) as (y & Hy & ->).
      apply (br_price HB (negb buy)). by rewrite Eopp. }
  split; [intros x Hx; simpl; rewrite Hd2 by done; by apply Hfr1|].
  split; [intros x; rewrite Hg2; by rewrite Hg1|].
  split; [apply recycled_match; by rewrite Eopp|].
  unfold add_order. rewrite price_to_idx_Ok, (br_ix HB) by (done || apply (br_tick HB)). simpl.
  rewrite wrapU_small by lia.
  rewrite (proj2 (Z.ltb_ge _ _)), (proj2 (Z.leb_gt _ _)) by lia. simpl.
  rewrite Halloc. simpl.
  rewrite (proj2 (Z.eqb_neq _ _)) by (unfold Pool.INVALID_IDX; lia).
  fold (order_of msg). rewrite Hput. simpl. rewrite Hset. simpl. fold buy.
  rewrite Hmatch. simpl. by rewrite (aget_Ok _ _ _ (m_agg (proj2 (proj1 HE2)))).
Qed.

Lemma add_order_accepts :
  0 <= ix (no_price msg) < LADDER_SIZE -> is_i64 (no_price msg - base_price_ bk) ->
  zlen (aslots ab ++ F) < MAX_ORDERS -> 0 <= max_fills ->
  exists slot g (rests : bool) fs ab' bk' ar',
    add_order MAX_ORDERS LADDER_SIZE bk ar msg [] max_fills
      = Ok (if rests then mkHandle slot g else no_handle, fs, bk', ar') /\
    accepted slot g rests fs ab' bk' ar'.
Proof.
  intros Hi Hp Hroom Hmax.
  destruct (add_order_prefix Hi Hp Hroom Hmax) as (slot & s & p & sess & opp & own & q & fs & R & Hfresh
    & Rs & HE & Hown & Hpr & Hsess & Ls & Hspec & Hfr & Hg & Hrec & ->).
  destruct (gen_lookup slot Rs) as [g Hgs].
  set (ab1 := aput (negb buy) ab (flat (negb buy) opp)) in *.
  assert (Hopp : aside (negb buy) ab1 = flat (negb buy) opp) by apply aside_aput_eq.
  assert (Hqr : 0 <= q < 2 ^ 32) by apply (m_qty (proj2 (proj1 HE))).
  assert (Hadd : spec_add ix ab msg slot max_fills =
    (if (0 <? q) && negb (bool_decide (no_tif msg = IOC)) then
       (true, fs, aput buy ab1 (spec_insert ix buy (resting_of msg slot q) (aside buy ab1)))
     else (false, fs, ab1))) by (unfold spec_add; fold buy; by rewrite Hspec).
  destruct (_ && _) eqn:Hc.
  - apply andb_true_iff in Hc as [Hc%Z.ltb_lt _].
    destruct (finish_rests slot q s p sess opp own ab1 HE Hopp Hown Hpr Hsess Ls)
      as (s' & p' & -> & HB' & Hd & Hg'); [lia|done|done|]. simpl.
    assert (Hbump : gens_bump R (pool_ ar) p') by (intros x; by rewrite Hg', Hg).
    assert (Hgs' : Pool.gen p' slot = Ok g).
    { apply aget_Ok. by rewrite Hbump, bool_decide_false by (by eapply recycled_NoDup). }
    rewrite Hgs'. simpl. exists slot, g, true, fs. do 3 eexists. split; [done|].
    do 4 (split; [done|]). split; [exact HB'|]. split; [apply put_sides_params|]. split.
    + intros x Hx. simpl. rewrite Hd by done. by apply Hfr.
    + exists R. split; [done|]. by rewrite aslots_insert.
  - destruct (finish_frees slot q s p sess opp own ab1 HE Hopp Hown Hpr Ls)
      as (p' & -> & HB' & Hd & Hg'). simpl.
    exists slot, g, false, fs. do 3 eexists. split; [done|].
    do 4 (split; [done|]). split; [exact HB'|]. split; [apply put_side_params|]. split.
    + intros x Hx. simpl. rewrite Hd. by apply Hfr.
    + exists (R ++ [slot]). split; [|by rewrite <- app_assoc].
      eapply gens_bump_trans; [|done|done]. by eapply recycled_NoDup.
Qed.

End add.

(** The two ways to be turned away change nothing. *)
Lemma add_order_off_ladder bk ar msg fills max_fills :
  0 < tick_size_ bk -> is_i64 (no_price msg - base_price_ bk) ->
  ~ 0 <= ladder_idx (base_price_ bk) (tick_size_ bk) (no_price msg) < LADDER_SIZE ->
  add_order MAX_ORDERS LADDER_SIZE bk ar msg fills max_fills = Ok (no_handle, fills, bk, ar).
Proof.
  intros Ht Hp Hi. unfold add_order. rewrite price_to_idx_Ok by done. simpl.
  set (i := ladder_idx _ _ _) in *. destruct (Z.ltb_spec i 0) as [|Hi0]; [done|]. simpl.
  assert (i < 2 ^ 32).
  { unfold i, ladder_idx, wrapS. pose proof (Z.mod_pos_bound (Z.quot (no_price msg - base_price_ bk)
      (tick_size_ bk) + 2 ^ (32 - 1)) (2 ^ 32) ltac:(lia)). lia. }
  rewrite wrapU_small by lia. by rewrite (proj2 (Z.leb_le _ _)) by lia.
Qed.

Lemma add_order_no_room bk ar ab F msg fills max_fills :
  book_rel bk ar ab F -> is_i64 (no_price msg - base_price_ bk) ->
  zlen (aslots ab ++ F) = MAX_ORDERS ->
  add_order MAX_ORDERS LADDER_SIZE bk ar msg fills max_fills = Ok (no_handle, fills, bk, ar).
Proof.
  intros HB Hp Hfull. unfold add_order.
  rewrite price_to_idx_Ok by (done || apply (br_tick HB)). simpl. destruct (_ || _); [done|].
  rewrite (Pool.alloc_full MAX_ORDERS _ _ (br_pool HB) Hfull). simpl.
  by destruct ar.
Qed.

(** ** Cancelling an order *)

Lemma resting_lookup bid base sess s rss i q r :
  side_wf bid base sess s rss -> rss !! i = Some q -> r ∈ q ->
  exists a b, base !! r_slot r = Some (node r a b).
Proof.
  intros Hs Hq Hr. pose proof (sw_levels Hs) as Hlw.
  destruct (level_at _ _ _ _ _ _ _ _ Hlw (rss_range _ _ _ _ _ _ _ _ _ Hlw Hq))
    as (lv & q' & _ & Hq' & Hrep). rewrite Hq in Hq'. injection Hq' as <-.
  apply list_elem_of_split in Hr as (l1 & l2 & ->).
  destruct (proj1 (seg_app _ _ _ _ _ _ _) (lr_seg _ _ _ Hrep)) as (m & h & _ & Hh).
  destruct Hh as (-> & nx & Hb & _). eauto.
Qed.

(** The run of [cancel_order] on the current handle of a resting order. *)
Lemma cancel_order_run bk ar ab F bid r g a b s' base' p' :
  book_rel bk ar ab F -> r ∈ aside bid ab -> bool_decide (r_side r = BUY) = bid ->
  Pool.gen_ (Pool.arena_ (pool_ ar)) !! r_slot r = Some g ->
  Pool.data (pool_ ar) !! r_slot r = Some (node r a b) -> r_slot r < MAX_ORDERS -> 0 <= r_ix ix r < 2 ^ 32 ->
  unrest LADDER_SIZE bid (r_ix ix r) (r_slot r) (side_of bid bk) (pool_ ar) = Ok (s', Pool.with_data (pool_ ar) base') ->
  Pool.free MAX_ORDERS (Pool.with_data (pool_ ar) base') (r_slot r) = Ok p' ->
  cancel_order MAX_ORDERS LADDER_SIZE bk ar (mkHandle (r_slot r) g)
    = Ok (true, put_side bid bk s', mkArena p' (order_session_ ar)).
Proof.
  intros HB Hr Hside Hg Hnode Hmax Hix Hrun Hfree. pose proof (lookupZ_range _ _ _ Hnode) as Rn.
  unfold cancel_order. cbn [h_slot h_gen]. rewrite (proj2 (Z.leb_gt _ _)) by lia.
  unfold Pool.gen at 1. rewrite (aget_Ok _ _ _ Hg). simpl. rewrite Z.eqb_refl. simpl.
  rewrite (Pool.at_Ok _ _ _ (node r a b)) by (done || lia). simpl.
  rewrite price_to_idx_Ok by (apply (br_tick HB) || by eapply (br_price HB)). simpl.
  rewrite (br_ix HB). fold (r_ix ix r). rewrite wrapU_small, Hside by lia.
  rewrite Hrun. simpl. by rewrite Hfree.
Qed.

Lemma cancel_order_live bk ar ab F bid r g :
  book_rel bk ar ab F -> r ∈ aside bid ab ->
  Pool.gen_ (Pool.arena_ (pool_ ar)) !! r_slot r = Some g ->
  exists bk' ar',
    cancel_order MAX_ORDERS LADDER_SIZE bk ar (mkHandle (r_slot r) g) = Ok (true, bk', ar') /\
    book_rel bk' ar' (aput bid ab (spec_cancel (r_slot r) (aside bid ab))) F /\
    same_params bk bk' /\ frame F ar ar' /\ gens_bump [r_slot r] (pool_ ar) (pool_ ar').
Proof.
  intros HB Hr Hg. destruct (br_sides HB bid) as (rss & Hs & Eb).
  destruct (br_sides HB (negb bid)) as (opp & Ho & Eo).
  pose proof Hr as Hr'. rewrite Eb in Hr'. apply elem_of_flat in Hr' as (i & q & Hq & Hrq).
  pose proof (sw_levels Hs) as Hlw. pose proof (lw_on Hlw Hq Hrq) as Hi. subst i.
  pose proof (rss_range _ _ _ _ _ _ _ _ _ Hlw Hq) as Ri.
  destruct (resting_lookup _ _ _ _ _ _ _ _ Hs Hq Hrq) as (a & b & Hnode).
  destruct (lw_ord Hlw Hq Hrq) as (_ & Hside & _).
  pose proof (lookupZ_range _ _ _ Hnode) as Rn. pose proof (Pool.wf_slots _ _ _ (br_pool HB)) as Ls.
  unfold Pool.data in Rn. rewrite Ls in Rn.
  assert (HP : pool_wf (pool_ ar) (slots_of (flat bid rss) ++ slots_of (flat (negb bid) opp) ++ F)).
  { eapply Pool.pool_wf_perm, (br_pool HB). by rewrite (aslots_sides bid), Eb, Eo, app_assoc. }
  apply list_elem_of_split in Hrq as (l1 & l2 & ->).
  destruct (unrest_spec bid r l1 l2 _ _ _ _ _ Hs HP Hq)
    as (s' & base' & rss' & Hrun & Hs' & Hfl & Lb & Hf).
  assert (NDf : NoDup (slots_of (flat bid rss))) by (by eapply side_slots).
  assert (Hperm : slots_of (flat bid rss) ≡ₚ r_slot r :: slots_of (flat bid rss')).
  { rewrite Hfl. unfold slots_of at 1. rewrite Eb in Hr. by rewrite (spec_cancel_perm r) at 1. }
  destruct (Pool.free_spec MAX_ORDERS ltac:(lia) (Pool.with_data (pool_ ar) base')
    (slots_of (flat bid rss') ++ slots_of (flat (negb bid) opp) ++ F) (r_slot r))
    as (p' & g' & Hfree & HP' & Hsl & _ & Hg' & Hgen).
  { apply Pool.with_data_wf; [done|]. eapply Pool.pool_wf_perm, HP. by rewrite Hperm. }
  exists (put_side bid bk s'), (mkArena p' (order_session_ ar)).
  split; [|split; [|split; [apply put_side_params|split]]].
  - eapply cancel_order_run; try done; lia.
  - pose proof (side_of_put_ne (negb bid)) as Hne. rewrite negb_involutive in Hne.
    pose proof (aside_aput_ne (negb bid)) as Ane. rewrite negb_involutive in Ane.
    apply book_rel_intro with (bk := bk) (ar := ar) (ab := ab) (bid := bid) (own := rss') (opp := opp);
      try done; try apply put_side_params; unfold Pool.data; rewrite ?Hsl.
    + apply (br_sess HB).
    + by rewrite side_of_put_eq.
    + by rewrite aside_aput_eq, Hfl, Eb.
    + rewrite Hne. eapply side_wf_frame; [|done|done]. intros x Hx. apply Hf.
      intros Hin. apply Pool.wf_live_NoDup in HP. apply NoDup_app in HP as (_ & D & _).
      apply (D _ Hin), elem_of_app. by left.
    + by rewrite Ane.
    + intros b' x. destruct (decide (b' = bid)) as [->|Hb].
      * rewrite aside_aput_eq. intros Hx%elem_of_spec_cancel. by apply (br_price HB bid).
      * assert (b' = negb bid) as -> by (by destruct b', bid). rewrite Ane. apply (br_price HB).
  - intros x Hx. unfold Pool.data. simpl. rewrite Hsl. split; [|done]. apply Hf.
    intros Hin. apply Pool.wf_live_NoDup in HP. apply NoDup_app in HP as (_ & D & _).
    apply (D _ Hin), elem_of_app. by right.
  - by eapply gens_bump_one.
Qed.

Lemma cancel_order_stale bk ar h :
  0 <= h_slot h -> zlen (Pool.gen_ (Pool.arena_ (pool_ ar))) = MAX_ORDERS ->
  Pool.gen_ (Pool.arena_ (pool_ ar)) !! h_slot h <> Some (h_gen h) ->
  cancel_order MAX_ORDERS LADDER_SIZE bk ar h = Ok (false, bk, ar).
Proof.
  intros H0 HLen Hg. unfold cancel_order. destruct (Z.leb_spec MAX_ORDERS (h_slot h)); [done|].
  destruct (lookupZ_is_Some (Pool.gen_ (Pool.arena_ (pool_ ar))) (h_slot h)) as [g Hg']; [lia|].
  unfold Pool.gen. rewrite (aget_Ok _ _ _ Hg'). simpl.
  destruct (Z.eqb_spec g (h_gen h)) as [->|]; done.
Qed.

(** ** Fresh books, and books that share an arena *)

Lemma replicate_inv {A} n (x y : A) i : replicate n x !! i = Some y -> y = x.
Proof.
  intros H. pose proof (lookupZ_range _ _ _ H). rewrite lookupZ_nat in H by lia.
  by apply lookup_replicate in H as [? _].
Qed.

Lemma fresh_side_wf bid base sess :
  side_wf bid base sess (mkSide NULL_IDX (replicate (Z.to_nat LADDER_SIZE) level_init) (bm_init LADDER_SIZE))
    (replicate (Z.to_nat LADDER_SIZE) []).
Proof.
  pose proof (bm_init_wf LADDER_SIZE ltac:(lia)) as [Hwf Hbit].
  split; simpl.
  - split.
    + rewrite zlen_replicate. lia.
    + rewrite zlen_replicate. lia.
    + intros i lv q ->%replicate_inv ->%replicate_inv. apply level_init_repr.
    + intros i q r ->%replicate_inv Hr%not_elem_of_nil. done.
    + intros i q r ->%replicate_inv Hr%not_elem_of_nil. done.
  - done.
  - intros i q ->%replicate_inv. by rewrite Hbit.
  - left. split; [done|]. by intros i q ->%replicate_inv.
Qed.

Lemma book_init_rel base tick ar F :
  (forall price, ladder_idx base tick price = ix price) -> 0 < tick ->
  pool_wf (pool_ ar) F -> zlen (order_session_ ar) = MAX_ORDERS ->
  book_rel (book_init LADDER_SIZE base tick) ar (mkABook [] []) F.
Proof.
  intros Hix Ht HP Ls. split; try done.
  - intros bid. exists (replicate (Z.to_nat LADDER_SIZE) []). split; [|].
    + destruct bid; apply fresh_side_wf.
    + rewrite flat_empty; [by destruct bid|]. by intros i q ->%replicate_inv.
  - intros bid r. by destruct bid; intros Hr%not_elem_of_nil.
Qed.

Lemma book_rel_frame bk ar ar' ab F F' :
  book_rel bk ar ab F -> frame (aslots ab) ar ar' ->
  pool_wf (pool_ ar') (aslots ab ++ F') -> zlen (order_session_ ar') = MAX_ORDERS ->
  book_rel bk ar' ab F'.
Proof.
  intros [] Hf HP Ls. split; try done.
  intros bid. destruct (br_sides0 bid) as (rss & Hs & E). exists rss. split; [|done].
  eapply side_wf_frame; [| |done]; intros x Hx; apply Hf; rewrite (aslots_sides bid), E;
    apply elem_of_app; by left.
Qed.

End refinement.

End BookRefine.
