(* ===== verification/BookLaws.v ===== *)
(** * Laws of the reference order book

    Price-time priority, conservation of quantity, limit prices, and the
    order of the sides, for the operations of [BookSpec].  With the
    refinement of [BookRefine] they are laws of the book itself. *)

From S2P Require Import Prelude Messages Order LevelBitmap Pool PriceLevel OrderHandle OrderBook.
From S2P Require Import BookSpec BookInv.

Module BookLaws.
Import PriceLevel OrderBook BookSpec BookInv.

Definition fills_qty (fs : list Fill) : Z := foldr (fun f n => fill_qty f + n) 0 fs.

(** The resting orders [l] filled to their last lot. *)
Definition full_fills (agg_id : Z) (l : list Resting) : list Fill :=
  (fun r => spec_fill agg_id r (r_qty r)) <$> l.

Lemma sum_qty_perm l k : l ≡ₚ k -> sum_qty l = sum_qty k.
Proof. induction 1; simpl; lia. Qed.

Lemma fills_qty_app f k : fills_qty (f ++ k) = fills_qty f + fills_qty k.
Proof. induction f; simpl; lia. Qed.

Lemma fills_qty_full id l : fills_qty (full_fills id l) = sum_qty l.
Proof. induction l; simpl; lia. Qed.

Section laws.
Context (ix : Z -> Z).

(** Why matching stopped in front of [tail] with [q] left. *)
Definition match_stops (bid : bool) (agg_idx budget q : Z) (tail : list Resting) : Prop :=
  q = 0 \/ budget = 0 \/
  match tail with [] => True | r :: _ => crosses bid (r_ix ix r) agg_idx = false end.

(** An execution in price-time priority: the orders at the front of the side
    are filled completely, one after the other; the next one may be filled in
    part, which takes all that was left of the aggressor. *)
Inductive executes (bid : bool) (agg_id agg_idx budget qty : Z) :
    list Resting -> list Fill -> Z -> list Resting -> Prop :=
| executes_full full tail :
    Forall (fun r => crosses bid (r_ix ix r) agg_idx = true) full ->
    sum_qty full <= qty -> zlen full <= budget ->
    match_stops bid agg_idx (budget - zlen full) (qty - sum_qty full) tail ->
    executes bid agg_id agg_idx budget qty (full ++ tail)
      (full_fills agg_id full) (qty - sum_qty full) tail
| executes_partial full r tail part :
    Forall (fun r => crosses bid (r_ix ix r) agg_idx = true) (full ++ [r]) ->
    qty = sum_qty full + part -> 0 < part < r_qty r -> zlen full < budget ->
    executes bid agg_id agg_idx budget qty (full ++ r :: tail)
      (full_fills agg_id full ++ [spec_fill agg_id r part]) 0
      (with_qty r (r_qty r - part) :: tail).

Lemma executes_stop bid id i n q l :
  0 <= q -> 0 <= n -> match_stops bid i n q l -> executes bid id i n q l [] q l.
Proof.
  intros Hq Hn Hstop. pose proof (executes_full bid id i n q [] l) as H. simpl in H.
  rewrite !Z.sub_0_r in H. apply H; [constructor|lia|done|done].
Qed.

Lemma executes_cons bid id i n q r l fs q' l' :
  crosses bid (r_ix ix r) i = true -> executes bid id i (n - 1) (q - r_qty r) l fs q' l' ->
  executes bid id i n q (r :: l) (spec_fill id r (r_qty r) :: fs) q' l'.
Proof.
  intros Hx H. inversion H as [full tail HF Hs Hn Hstop|full x tail part HF Hs Hp Hn]; subst.
  - replace (q - r_qty r - sum_qty full) with (q - sum_qty (r :: full)) by (simpl; lia).
    apply (executes_full bid id i n q (r :: full) l'); simpl; rewrite ?zlen_cons.
    + by constructor.
    + lia.
    + lia.
    + replace (n - (1 + zlen full)) with (n - 1 - zlen full) by lia.
      by replace (q - (r_qty r + sum_qty full)) with (q - r_qty r - sum_qty full) by lia.
  - apply (executes_partial bid id i n q (r :: full) x tail part); simpl; rewrite ?zlen_cons.
    + by constructor.
    + lia.
    + lia.
    + lia.
Qed.

Lemma spec_match_executes bid id i n q l :
  0 <= q -> 0 <= n -> Forall (fun r => 0 < r_qty r) l ->
  let '(fs, q', l') := spec_match ix bid id i n q l in executes bid id i n q l fs q' l'.
Proof.
  revert n q. induction l as [|r l IH]; intros n q Hq Hn HF; simpl.
  { apply executes_stop; [done|done|]. by right; right. }
  apply Forall_cons in HF as [Hr HF].
  destruct (0 <? q) eqn:Eq; simpl; [|apply executes_stop; [done|done|left; lia]].
  destruct (crosses bid (r_ix ix r) i) eqn:Hx; simpl;
    [|apply executes_stop; [done|done|by right; right]].
  destruct (0 <? n) eqn:En; simpl; [|apply executes_stop; [done|done|right; left; lia]].
  destruct (Z.eqb_spec (r_qty r - Z.min q (r_qty r)) 0) as [Hd|Hd].
  - specialize (IH (n - 1) (q - Z.min q (r_qty r))).
    assert (r_qty r <= q) by lia. replace (Z.min q (r_qty r)) with (r_qty r) in * by lia.
    destruct (spec_match _ _ _ _ _ _ _) as [[fs q'] l'].
    apply executes_cons; [done|]. apply IH; [lia|lia|done].
  - replace (Z.min q (r_qty r)) with q by lia. replace (q - q) with 0 by lia.
    apply (executes_partial bid id i n q [] r l q); simpl; try lia; [|unfold zlen; simpl; lia].
    by repeat constructor.
Qed.

Section execution.
Context bid id i n q l fs q' l' (H : executes bid id i n q l fs q' l').

Lemma executes_conserves : fills_qty fs + q' = q /\ sum_qty l = fills_qty fs + sum_qty l'.
Proof.
  destruct H; rewrite ?fills_qty_app, fills_qty_full, !sum_qty_app; simpl; lia.
Qed.

Lemma executes_count : zlen fs <= n.
Proof.
  destruct H; unfold full_fills, zlen; rewrite ?length_app, length_fmap; unfold zlen in *; simpl; lia.
Qed.

(** No fill at a price the aggressor did not accept. *)
Lemma executes_limit f : f ∈ fs -> crosses bid (ix (fill_price f)) i = true.
Proof.
  destruct H as [full tail HF _ _ _|full r tail part HF _ _ _]; intros Hf.
  - apply list_elem_of_fmap in Hf as (r & -> & Hr). by rewrite Forall_forall in HF; apply HF.
  - apply Forall_app in HF as [HF Hr]. apply elem_of_app in Hf as [Hf| ->%list_elem_of_singleton].
    + apply list_elem_of_fmap in Hf as (x & -> & Hx). by rewrite Forall_forall in HF; apply HF.
    + by inversion Hr.
Qed.

(** What is left of the aggressor does not cross the book, unless the fill
    budget ran out. *)
Lemma executes_uncrossed : side_sorted ix bid l -> 0 < q' -> zlen fs < n ->
  Forall (fun r => crosses bid (r_ix ix r) i = false) l'.
Proof.
  intros Hs Hq Hn. destruct H as [full tail HF _ _ Hstop|full r tail part HF _ _ _]; [|lia].
  unfold full_fills, zlen in Hn. rewrite length_fmap in Hn. fold (zlen full) in Hn.
  destruct Hstop as [?|[?|Hx]]; [lia|unfold zlen in *; lia|].
  destruct tail as [|r tail]; [constructor|].
  apply StronglySorted_app_1_r in Hs. apply StronglySorted_cons in Hs as [Hall _].
  constructor; [done|]. apply Forall_forall. intros x Hx'.
  pose proof (proj1 (Forall_forall _ _) Hall x Hx') as Hp. unfold prio, crosses, at_least in *.
  destruct bid; lia.
Qed.

Lemma executes_sorted : side_sorted ix bid l -> side_sorted ix bid l'.
Proof.
  intros Hs. destruct H as [full tail HF _ _ _|full r tail part HF _ _ _];
    apply StronglySorted_app_1_r in Hs; [done|].
  apply StronglySorted_cons in Hs as [Hall Hs]. by apply StronglySorted_cons.
Qed.

Lemma executes_positive : Forall (fun r => 0 < r_qty r) l -> Forall (fun r => 0 < r_qty r) l'.
Proof.
  intros HF. destruct H as [full tail _ _ _ _|full r tail part _ _ ? _];
    apply Forall_app in HF as [_ HF]; [done|].
  apply Forall_cons in HF as [_ HF]. constructor; [simpl; lia|done].
Qed.

(** Every fill is with an order of the side, for at most its quantity. *)
Lemma executes_fill f : f ∈ fs -> Forall (fun r => 0 < r_qty r) l ->
  exists r k, r ∈ l /\ f = spec_fill id r k /\ 0 < k <= r_qty r.
Proof.
  intros Hf HF. rewrite Forall_forall in HF.
  destruct H as [full tail _ _ _ _|full x tail part _ _ ? _].
  - apply list_elem_of_fmap in Hf as (r & -> & Hr). exists r, (r_qty r).
    assert (Hr' : r ∈ full ++ tail) by (apply elem_of_app; by left). specialize (HF _ Hr').
    do 2 (split; [done|]). simpl in HF. lia.
  - apply elem_of_app in Hf as [Hf| ->%list_elem_of_singleton].
    + apply list_elem_of_fmap in Hf as (r & -> & Hr). exists r, (r_qty r).
      assert (Hr' : r ∈ full ++ x :: tail) by (apply elem_of_app; by left). specialize (HF _ Hr').
      do 2 (split; [done|]). simpl in HF. lia.
    + exists x, part. split; [|split; [done|lia]]. apply elem_of_app. right. constructor.
Qed.

(** What is left was there before, maybe for more. *)
Lemma executes_left x : x ∈ l' -> exists y k, y ∈ l /\ x = with_qty y k.
Proof.
  assert (Hid : forall y, y = with_qty y (r_qty y)) by (by intros []).
  destruct H as [full tail _ _ _ _|full r tail part _ _ _ _]; intros Hx.
  - exists x, (r_qty x). split; [apply elem_of_app; by right|done].
  - apply elem_of_cons in Hx as [->|Hx].
    + exists r, (r_qty r - part). split; [|done]. apply elem_of_app. right. constructor.
    + exists x, (r_qty x). split; [|done]. apply elem_of_app. right. by constructor.
Qed.

Lemma executes_length : zlen l' <= zlen l.
Proof. destruct H; autorewrite with lx; pose proof (zlen_nonneg full); lia. Qed.

End execution.

(** ** A new order *)

Lemma spec_add_executes ab msg slot n rests fs ab' :
  let buy := bool_decide (no_side msg = BUY) in
  spec_add ix ab msg slot n = (rests, fs, ab') -> 0 <= no_qty msg -> 0 <= n ->
  Forall (fun r => 0 < r_qty r) (aside (negb buy) ab) ->
  exists q, executes (negb buy) (no_order_id msg) (ix (no_price msg)) n (no_qty msg)
      (aside (negb buy) ab) fs q (aside (negb buy) ab') /\
    rests = (0 <? q) && negb (bool_decide (no_tif msg = IOC)) /\
    aside buy ab' = if rests then spec_insert ix buy (resting_of msg slot q) (aside buy ab)
                    else aside buy ab.
Proof.
  intros buy Hadd Hq Hn HF. unfold spec_add in Hadd. fold buy in Hadd.
  pose proof (spec_match_executes (negb buy) (no_order_id msg) (ix (no_price msg)) n (no_qty msg) _
    Hq Hn HF) as Hex.
  destruct (spec_match _ _ _ _ _ _ _) as [[fs1 q] opp]. exists q.
  destruct (_ && _); injection Hadd as <- <- <-; by destruct buy.
Qed.

(** ** Sides in priority order *)

Lemma spec_insert_sorted bid r l : side_sorted ix bid l -> side_sorted ix bid (spec_insert ix bid r l).
Proof.
  induction l as [|x l IH]; intros Hs; simpl; [by apply StronglySorted_cons|].
  apply StronglySorted_cons in Hs as [Hall Hs].
  destruct (at_least bid (r_ix ix x) (r_ix ix r)) eqn:E; apply StronglySorted_cons.
  - split; [|by apply IH]. apply Forall_forall. intros y Hy.
    assert (Hy' : y = r \/ y ∈ l) by (by rewrite (spec_insert_perm ix), elem_of_cons in Hy).
    destruct Hy' as [->|Hy']; [done|]. by apply (proj1 (Forall_forall _ _) Hall).
  - assert (E' : at_least bid (r_ix ix r) (r_ix ix x) = true) by (destruct bid; simpl in *; lia).
    split; [|by apply StronglySorted_cons]. constructor; [done|]. apply Forall_forall. intros y Hy.
    eapply at_least_trans; [done|]. by apply (proj1 (Forall_forall _ _) Hall).
Qed.

Lemma filter_sorted bid (P : Resting -> Prop) `{!forall x, Decision (P x)} l :
  side_sorted ix bid l -> side_sorted ix bid (filter P l).
Proof.
  induction l as [|x l IH]; intros Hs; [constructor|]. apply StronglySorted_cons in Hs as [Hall Hs].
  rewrite filter_cons. destruct (decide (P x)); [|by apply IH]. apply StronglySorted_cons.
  split; [|by apply IH]. apply Forall_forall. intros y [_ Hy]%list_elem_of_filter.
  by apply (proj1 (Forall_forall _ _) Hall).
Qed.

(** A ladder read level by level is in priority order. *)
Lemma level_sorted bid q k : (forall r, r ∈ q -> r_ix ix r = k) -> side_sorted ix bid q.
Proof.
  induction q as [|x q IH]; intros Hq; [constructor|]. apply StronglySorted_cons. split.
  - apply Forall_forall. intros y Hy. unfold prio.
    rewrite (Hq x ltac:(constructor)), (Hq y ltac:(by constructor)). apply at_least_refl.
  - apply IH. intros r Hr. apply Hq. by constructor.
Qed.

Lemma concat_sorted bid rss k :
  (forall (j : nat) q r, rss !! j = Some q -> r ∈ q -> r_ix ix r = k + Z.of_nat j) ->
  side_sorted ix bid (flat bid rss) /\ Forall (fun r => k <= r_ix ix r) (flat bid rss).
Proof.
  revert k. induction rss as [|q rss IH]; intros k Hon; [by destruct bid; split; constructor|].
  destruct (IH (k + 1)) as [Hs Hk].
  { intros j q' r Hj Hr. rewrite (Hon (S j) q' r Hj Hr). lia. }
  rewrite Forall_forall in Hk.
  assert (Hq : forall r, r ∈ q -> r_ix ix r = k) by (intros r Hr; rewrite (Hon 0%nat q r eq_refl Hr); lia).
  assert (E : flat bid (q :: rss) = if bid then flat bid rss ++ q else q ++ flat bid rss).
  { destruct bid; [|done]. unfold flat. by rewrite reverse_cons, concat_app; simpl; rewrite app_nil_r. }
  rewrite E. split.
  - destruct bid; (apply StronglySorted_app_2; [|try done; by eapply level_sorted..]);
      intros x y Hx Hy; unfold prio; simpl.
    + rewrite (Hq _ Hy). specialize (Hk _ Hx). simpl in Hk. lia.
    + rewrite (Hq _ Hx). specialize (Hk _ Hy). simpl in Hk. lia.
  - apply Forall_forall. intros r Hr.
    assert (r ∈ q \/ r ∈ flat bid rss) as [Hr'|Hr']
      by (destruct bid; apply elem_of_app in Hr; tauto).
    + by rewrite (Hq _ Hr').
    + specialize (Hk _ Hr'). simpl in Hk. lia.
Qed.

Lemma flat_sorted bid rss : on_levels ix rss -> side_sorted ix bid (flat bid rss).
Proof.
  intros Hon. apply (concat_sorted bid rss 0). intros j q r Hj Hr.
  rewrite <- lookupZ_of_nat in Hj. rewrite (Hon _ _ _ Hj Hr). lia.
Qed.

(** What every side of a represented book satisfies. *)
Lemma book_rel_side MAX LADDER bk ar ab F bid :
  book_rel MAX LADDER ix bk ar ab F ->
  side_sorted ix bid (aside bid ab) /\
  Forall (fun r => 0 < r_qty r < 2 ^ 32 /\ bool_decide (r_side r = BUY) = bid /\
                   order_session_ ar !! r_slot r = Some (r_session r) /\
                   0 <= r_ix ix r < LADDER) (aside bid ab).
Proof.
  intros HB. destruct (br_sides HB bid) as (rss & Hs & ->). pose proof (sw_levels Hs) as Hlw.
  split; [apply flat_sorted; intros ???; apply (lw_on Hlw)|].
  apply Forall_forall. intros r (i & q & Hq & Hr)%elem_of_flat.
  destruct (lw_ord Hlw Hq Hr) as (? & ? & ?). rewrite (lw_on Hlw Hq Hr).
  do 3 (split; [done|]). by eapply rss_range.
Qed.

End laws.

End BookLaws.
