(* ===== verification/BookAbs.v ===== *)
(** * The abstraction function of the order book

    [book_abs] reads the reference book off the representation by walking
    the linked list of every level.  The reference book related to a
    represented state by [BookInv.book_rel] is the one it computes, so the
    invariant [book_wf] needs no reference book. *)

From S2P Require Import Prelude Messages Order LevelBitmap Pool PriceLevel OrderHandle OrderBook.
From S2P Require Import BookSpec BookInv BookMatch BookRefine.

Module BookAbs.
Import PriceLevel OrderHandle OrderBook BookSpec BookInv BookMatch BookRefine.

Definition resting_at (slot : Z) (o : Order) (session : Z) : Resting :=
  mkResting slot (o_order_id o) (o_price o) (o_qty o) (o_symbol o) (o_side o) (o_tif o) session.

Fixpoint walk (fuel : nat) (base : list Order) (sess : list Z) (idx : Z) : list Resting :=
  match fuel with
  | O => []
  | S fuel =>
      match base !! idx, sess !! idx with
      | Some o, Some sid => resting_at idx o sid :: walk fuel base sess (o_next_idx o)
      | _, _ => []
      end
  end.

Definition queue_of (ar : Arena) (lv : PriceLevel) : list Resting :=
  walk (length (Pool.data (pool_ ar))) (Pool.data (pool_ ar)) (order_session_ ar) (head_idx lv).

Definition side_abs (bid : bool) (bk : OrderBook) (ar : Arena) : list Resting :=
  flat bid (queue_of ar <$> levels (side_of bid bk)).

Definition book_abs (bk : OrderBook) (ar : Arena) : ABook :=
  mkABook (side_abs true bk ar) (side_abs false bk ar).

Definition book_ix (bk : OrderBook) : Z -> Z := ladder_idx (base_price_ bk) (tick_size_ bk).

(** The invariant of a book and the arena it shares with the orders in [F]. *)
Definition book_wf (MAX_ORDERS LADDER_SIZE : Z) (bk : OrderBook) (ar : Arena) (F : list Z) : Prop :=
  book_rel MAX_ORDERS LADDER_SIZE (book_ix bk) bk ar (book_abs bk ar) F.

Lemma walk_seg fuel base sess prev hd rs la :
  seg base prev hd rs la NULL_IDX -> zlen base <= NULL_IDX ->
  (forall r, r ∈ rs -> sess !! r_slot r = Some (r_session r)) -> (length rs <= fuel)%nat ->
  walk fuel base sess hd = rs.
Proof.
  intros Hseg HLen. revert prev hd fuel Hseg. induction rs as [|r rs IH]; intros prev hd fuel Hseg Hs Hf.
  - destruct Hseg as [-> _]. destruct fuel; [done|]. simpl.
    destruct (base !! NULL_IDX) as [o|] eqn:E; [apply lookupZ_range in E; lia|done].
  - destruct Hseg as (-> & nx & Hb & Hseg). destruct fuel; [simpl in Hf; lia|]. simpl.
    rewrite Hb, (Hs r) by constructor. simpl. f_equal; [by destruct r|].
    eapply IH; [done| |simpl in Hf; lia]. intros x Hx. apply Hs. by constructor.
Qed.

Section abstraction.
Context (MAX_ORDERS LADDER_SIZE : Z) (HN : 0 < MAX_ORDERS < UINT32_MAX).

Lemma side_abs_unique ix bk ar ab F bid :
  book_rel MAX_ORDERS LADDER_SIZE ix bk ar ab F -> side_abs bid bk ar = aside bid ab.
Proof.
  intros HB. destruct (br_sides HB bid) as (rss & Hs & E). rewrite E. unfold side_abs. f_equal.
  pose proof (sw_levels Hs) as Hlw. pose proof (br_pool HB) as HP.
  pose proof (Pool.wf_slots _ _ _ HP) as Lp.
  apply list_eq. intros n. rewrite list_lookup_fmap.
  pose proof (lw_len Hlw) as L1. pose proof (lw_len_rss Hlw) as L2.
  destruct (levels (side_of bid bk) !! n) as [lv|] eqn:Hlv; simpl.
  - assert (0 <= Z.of_nat n < LADDER_SIZE) as Hn.
    { apply lookup_lt_Some in Hlv. rewrite <- L1. unfold zlen. lia. }
    rewrite <- lookupZ_of_nat in Hlv.
    destruct (level_at _ _ _ _ _ _ _ _ Hlw Hn) as (lv' & q & Hlv' & Hq & Hrep).
    rewrite Hlv in Hlv'. injection Hlv' as <-.
    rewrite <- lookupZ_of_nat, Hq. f_equal. unfold queue_of.
    eapply walk_seg; [apply (lr_seg _ _ _ Hrep)| | |].
    + unfold Pool.data. rewrite Lp. unfold NULL_IDX. lia.
    + intros r Hr. apply (lw_ord Hlw Hq Hr).
    + pose proof (Pool.wf_free_count _ _ _ HP) as C. pose proof (Pool.wf_top _ _ _ HP).
      destruct (flat_perm bid rss _ _ [] Hq) as (k & Hk & _).
      apply Permutation_length in Hk. rewrite length_app in Hk.
      pose proof (Permutation_length (aslots_sides bid ab)) as A. rewrite E, length_app in A.
      rewrite zlen_app in C. unfold zlen, slots_of in *. rewrite !length_fmap in *.
      unfold Pool.data. lia.
  - symmetry. apply lookup_ge_None_2. apply lookup_ge_None_1 in Hlv. unfold zlen in *. lia.
Qed.

Lemma book_abs_unique ix bk ar ab F :
  book_rel MAX_ORDERS LADDER_SIZE ix bk ar ab F -> book_abs bk ar = ab.
Proof.
  intros HB. unfold book_abs.
  rewrite (side_abs_unique _ _ _ _ _ true HB), (side_abs_unique _ _ _ _ _ false HB). by destruct ab.
Qed.

Lemma book_rel_wf ix bk ar ab F :
  book_rel MAX_ORDERS LADDER_SIZE ix bk ar ab F ->
  (forall x, ix x = book_ix bk x) -> book_wf MAX_ORDERS LADDER_SIZE bk ar F.
Proof.
  intros HB Hix. unfold book_wf. rewrite (book_abs_unique _ _ _ _ _ HB).
  destruct HB as [E Hs Ht Hp HP Ls]. split; try done.
  intros bid. destruct (Hs bid) as (rss & [[] ? ? ?] & Ef). exists rss. split; [|done].
  split; try done. split; try done. intros i q r Hq Hr. rewrite <- (lw_on0 _ _ _ Hq Hr).
  unfold r_ix. by rewrite Hix.
Qed.

End abstraction.

End BookAbs.
