(* ===== verification/BookProps.v ===== *)
(** * What an order book guarantees

    Theorems on [OrderBook.add_order] and [OrderBook.cancel_order] from
    every well-formed state: they implement the reference book, conserve
    quantity, respect price-time priority and limit prices, keep the book
    uncrossed, and leave the other books of the arena alone. *)

From S2P Require Import Prelude Messages Order LevelBitmap Pool PriceLevel OrderHandle OrderBook.
From S2P Require Import BookSpec BookInv BookMatch BookRefine BookLaws BookAbs.

Module BookProps.
Import PriceLevel OrderHandle OrderBook BookSpec BookInv BookRefine BookLaws BookAbs.

(** The template arguments of a book. *)
Record book_params (MAX_ORDERS LADDER_SIZE : Z) : Prop := {
  bp_max : 0 < MAX_ORDERS < UINT32_MAX;
  bp_ladder : 0 < LADDER_SIZE < 2 ^ 32
}.

(** A message that [add_order] takes up: its price is on the ladder, its
    fields have their widths and there is a free slot. *)
Record admissible (LADDER_SIZE : Z) (bk : OrderBook) (ar : Arena) (msg : NewOrder) (max_fills : Z) : Prop := {
  ad_price : is_i64 (no_price msg - base_price_ bk);
  ad_ladder : 0 <= book_ix bk (no_price msg) < LADDER_SIZE;
  ad_qty : is_u 32 (no_qty msg);
  ad_room : 0 < Pool.free_count (pool_ ar);
  ad_fills : 0 <= max_fills
}.

Definition is_buy (msg : NewOrder) : bool := bool_decide (no_side msg = BUY).

(** No bid reaches an ask. *)
Definition uncrossed (ix : Z -> Z) (ab : ABook) : Prop :=
  forall b a, b ∈ bids ab -> a ∈ asks ab -> r_ix ix b < r_ix ix a.

Definition book_qty (ab : ABook) : Z := sum_qty (bids ab) + sum_qty (asks ab).

Lemma gen_next_ne g : is_u 32 g -> u32 (g + 1) <> g.
Proof.
  intros [H0 H1] E. unfold wrapU in E. destruct (Z.eq_dec g (2 ^ 32 - 1)) as [->|].
  - by vm_compute in E.
  - rewrite Z.mod_small in E by lia. lia.
Qed.

(** The best index of a side is the level of the order at its front. *)
Lemma best_of_side MAX_ORDERS LADDER_SIZE bk ar F :
  0 < LADDER_SIZE < 2 ^ 32 -> book_wf MAX_ORDERS LADDER_SIZE bk ar F -> forall bid,
  match aside bid (book_abs bk ar) with
  | [] => best (side_of bid bk) = NULL_IDX
  | r :: _ => best (side_of bid bk) = book_ix bk (r_price r) /\ 0 <= book_ix bk (r_price r) < LADDER_SIZE
  end.
Proof.
  intros HL HB bid. destruct (br_sides HB bid) as (rss & Hs & ->). pose proof (sw_levels Hs) as Hlw.
  destruct (decide (best (side_of bid bk) = NULL_IDX)) as [E|E].
  - rewrite (best_null bid (best (side_of bid bk)) rss); [done| |apply (sw_best Hs)|done].
    rewrite (lw_len_rss Hlw). unfold NULL_IDX, UINT32_MAX. lia.
  - destruct (best_some _ _ _ (sw_best Hs) E) as (r & q & k & Hq & -> & _).
    pose proof (lw_on Hlw Hq (list_elem_of_here r q)) as Hr.
    unfold r_ix in Hr. rewrite Hr. split; [done|]. by eapply rss_range.
Qed.

(** The price of the level of a price is that price rounded down to the tick. *)
Lemma level_price bk price :
  0 < tick_size_ bk -> is_i64 (base_price_ bk) -> is_i64 price -> is_i64 (price - base_price_ bk) ->
  base_price_ bk <= price < base_price_ bk + 2 ^ 31 * tick_size_ bk ->
  (d ← i64_mul (book_ix bk price) (tick_size_ bk); i64_add (base_price_ bk) d) =
    Ok (price - (price - base_price_ bk) mod tick_size_ bk).
Proof.
  intros Ht Hb Hp Hd Hr. unfold book_ix, ladder_idx.
  remember (price - base_price_ bk) as d eqn:Ed. assert (Hd0 : 0 <= d) by lia.
  pose proof (Z.div_mod d (tick_size_ bk) ltac:(lia)) as E.
  pose proof (Z.mod_pos_bound d (tick_size_ bk) Ht) as Hm.
  pose proof (Z.div_pos d (tick_size_ bk) Hd0 Ht) as Hq.
  rewrite Z.quot_div_nonneg by done. rewrite wrapS_small; [|lia|].
  - unfold i64_mul, i64_add, is_i64 in *.
    rewrite i64_checked_Ok by (unfold is_i64, INT64_MIN in *; nia). simpl.
    rewrite i64_checked_Ok by (unfold is_i64 in *; nia). f_equal. lia.
  - split; [lia|]. apply Z.div_lt_upper_bound; lia.
Qed.

Section guarantees.
Context (MAX_ORDERS LADDER_SIZE : Z) (P : book_params MAX_ORDERS LADDER_SIZE).

Abbreviation book_wf := (book_wf MAX_ORDERS LADDER_SIZE).
Abbreviation add_order := (add_order MAX_ORDERS LADDER_SIZE).
Abbreviation cancel_order := (cancel_order MAX_ORDERS LADDER_SIZE).

(** The accepting case in terms of the abstraction function. *)
Lemma add_order_run bk ar F msg n :
  book_wf bk ar F -> admissible LADDER_SIZE bk ar msg n ->
  exists slot g (rests : bool) fs bk' ar',
    add_order bk ar msg [] n = Ok (if rests then mkHandle slot g else no_handle, fs, bk', ar') /\
    accepted MAX_ORDERS LADDER_SIZE (book_ix bk) bk ar (book_abs bk ar) F msg n
      slot g rests fs (book_abs bk' ar') bk' ar' /\ book_wf bk' ar' F.
Proof.
  intros HB [Hp Hl Hq Hr Hn]. destruct P as [HN HL].
  assert (Hroom : zlen (aslots (book_abs bk ar) ++ F) < MAX_ORDERS).
  { pose proof (Pool.wf_free_count _ _ _ (br_pool HB)). unfold Pool.free_count in Hr. lia. }
  destruct (add_order_accepts MAX_ORDERS LADDER_SIZE _ HN HL bk ar _ F msg n HB Hq Hl Hp Hroom Hn)
    as (slot & g & rests & fs & ab' & bk' & ar' & Hrun & Hacc).
  exists slot, g, rests, fs, bk', ar'. split; [done|].
  pose proof Hacc as (_ & _ & _ & _ & HB' & [E1 E2] & _).
  rewrite (book_abs_unique _ _ HN _ _ _ _ _ HB'). split; [done|].
  eapply book_rel_wf; [done|done|]. intros x. unfold book_ix. by rewrite E1, E2.
Qed.

Lemma book_wf_positive bk ar F bid :
  book_wf bk ar F -> Forall (fun r => 0 < r_qty r) (aside bid (book_abs bk ar)).
Proof.
  intros HB. destruct (book_rel_side _ _ _ _ _ _ _ bid HB) as [_ HF].
  eapply Forall_impl; [done|]. simpl. intros r H. apply H.
Qed.

(** Everything a successful call of [add_order] says. *)
Record added (bk : OrderBook) (ar : Arena) (F : list Z) (msg : NewOrder) (n : Z)
    (h : OrderHandle) (fs : list Fill) (bk' : OrderBook) (ar' : Arena) (slot q : Z) : Prop := {
  added_wf : book_wf bk' ar' F;
  added_params : same_params bk bk';
  added_frame : frame F ar ar';
  added_exec : executes (book_ix bk) (negb (is_buy msg)) (no_order_id msg)
    (book_ix bk (no_price msg)) n (no_qty msg)
    (aside (negb (is_buy msg)) (book_abs bk ar)) fs q
    (aside (negb (is_buy msg)) (book_abs bk' ar'));
  added_own : aside (is_buy msg) (book_abs bk' ar') =
    if (0 <? q) && negb (bool_decide (no_tif msg = IOC))
    then spec_insert (book_ix bk) (is_buy msg) (resting_of msg slot q)
           (aside (is_buy msg) (book_abs bk ar))
    else aside (is_buy msg) (book_abs bk ar);
  added_handle : if (0 <? q) && negb (bool_decide (no_tif msg = IOC))
    then h_slot h = slot /\ Pool.gen_ (Pool.arena_ (pool_ ar')) !! slot = Some (h_gen h)
    else h = no_handle;
  added_fresh : 0 <= slot < MAX_ORDERS /\ slot ∉ aslots (book_abs bk ar) ++ F;
  added_gens : exists R, gens_bump R (pool_ ar) (pool_ ar') /\
    slot :: aslots (book_abs bk ar) ≡ₚ R ++ aslots (book_abs bk' ar')
}.

Lemma add_order_inv bk ar F msg n h fs bk' ar' :
  book_wf bk ar F -> admissible LADDER_SIZE bk ar msg n ->
  add_order bk ar msg [] n = Ok (h, fs, bk', ar') ->
  exists slot q, added bk ar F msg n h fs bk' ar' slot q.
Proof.
  intros HB Ha Hrun. destruct (add_order_run _ _ _ _ _ HB Ha)
    as (slot & g & rests & fs1 & bk1 & ar1 & Hrun1 & Hacc & HB').
  rewrite Hrun1 in Hrun. injection Hrun as <- <- <- <-.
  destruct Hacc as (Hfresh & Rs & Hg & Hadd & HBr & Hpar & Hframe & R & HR & Hperm).
  destruct (spec_add_executes _ _ _ _ _ _ _ _ Hadd ltac:(apply Ha) ltac:(apply Ha)
    (book_wf_positive _ _ _ _ HB)) as (q & Hex & -> & Hown).
  exists slot, q. split; try done; [|by exists R].
  destruct (_ && _) eqn:Hc; [|done]. split; [done|]. simpl.
  rewrite HR, bool_decide_false; [done|]. intros Hin.
  assert (Hs : slot ∈ aslots (book_abs bk1 ar1)).
  { rewrite (aslots_sides (bool_decide (no_side msg = BUY))). apply elem_of_app. left. rewrite Hown.
    unfold slots_of. rewrite spec_insert_perm. constructor. }
  assert (ND : NoDup (slot :: aslots (book_abs bk ar))).
  { apply NoDup_cons. rewrite not_elem_of_app in Hfresh. split; [apply Hfresh|].
    pose proof (Pool.wf_live_NoDup _ _ _ (br_pool HB)) as ND. by apply NoDup_app in ND as (? & _). }
  rewrite Hperm in ND. apply NoDup_app in ND as (_ & D & _). by apply (D _ Hin).
Qed.

Lemma add_order_total bk ar F msg n :
  book_wf bk ar F -> admissible LADDER_SIZE bk ar msg n ->
  exists h fs bk' ar', add_order bk ar msg [] n = Ok (h, fs, bk', ar').
Proof.
  intros HB Ha. destruct (add_order_run _ _ _ _ _ HB Ha) as (? & ? & ? & ? & ? & ? & -> & _).
  do 4 eexists. done.
Qed.

Lemma rested_gen bk ar F msg n slot g fs bk' ar' :
  book_wf bk ar F -> admissible LADDER_SIZE bk ar msg n -> 0 <= slot < MAX_ORDERS ->
  add_order bk ar msg [] n = Ok (mkHandle slot g, fs, bk', ar') ->
  Pool.gen_ (Pool.arena_ (pool_ ar')) !! slot = Some g.
Proof.
  intros HB Ha Rs Hrun.
  destruct (add_order_inv _ _ _ _ _ _ _ _ _ HB Ha Hrun) as (slot' & q & A).
  pose proof (added_handle _ _ _ _ _ _ _ _ _ _ _ A) as Hh.
  destruct (_ && _); [by destruct Hh as [<- ?]|].
  unfold no_handle, INVALID in Hh. injection Hh as -> _.
  destruct P as [[_ HN] _]. unfold UINT32_MAX in *. lia.
Qed.

(** ** Adding an order *)

(** C1: From every well-formed state, [add_order] on an order whose price is on
    the ladder and that finds a free slot runs to completion without undefined
    behaviour, and fills, resting decision and resulting book are those of the
    reference book; the handle of a resting order carries its slot and the
    slot's current generation, the slot was unused, and the state is well
    formed again. *)
Theorem add_order_refines bk ar F msg n :
  book_wf bk ar F -> admissible LADDER_SIZE bk ar msg n ->
  exists slot g (rests : bool) fs bk' ar',
    add_order bk ar msg [] n = Ok (if rests then mkHandle slot g else no_handle, fs, bk', ar') /\
    spec_add (book_ix bk) (book_abs bk ar) msg slot n = (rests, fs, book_abs bk' ar') /\
    book_wf bk' ar' F /\ (slot ∉ aslots (book_abs bk ar) ++ F) /\
    Pool.gen_ (Pool.arena_ (pool_ ar)) !! slot = Some g /\
    (rests = true -> Pool.gen_ (Pool.arena_ (pool_ ar')) !! slot = Some g).
Proof.
  intros HB Ha. destruct (add_order_run _ _ _ _ _ HB Ha)
    as (slot & g & rests & fs & bk' & ar' & Hrun & Hacc & HB').
  exists slot, g, rests, fs, bk', ar'.
  destruct Hacc as (? & ? & ? & Hadd & _). do 5 (split; [done|]). intros ->.
  exact (rested_gen _ _ _ _ _ _ _ _ _ _ HB Ha ltac:(done) Hrun).
Qed.

(** C23: Price-time priority: the fills of [add_order] execute the opposite side
    strictly from its front.  The orders at the front are filled completely,
    one after the other, at their own prices; only the next one may be filled
    in part, and then nothing of the new order is left. *)
Theorem add_order_price_time bk ar F msg n h fs bk' ar' :
  book_wf bk ar F -> admissible LADDER_SIZE bk ar msg n ->
  add_order bk ar msg [] n = Ok (h, fs, bk', ar') ->
  exists q, executes (book_ix bk) (negb (is_buy msg)) (no_order_id msg)
    (book_ix bk (no_price msg)) n (no_qty msg)
    (aside (negb (is_buy msg)) (book_abs bk ar)) fs q
    (aside (negb (is_buy msg)) (book_abs bk' ar')).
Proof.
  intros HB Ha Hrun. destruct (add_order_inv _ _ _ _ _ _ _ _ _ HB Ha Hrun) as (slot & q & []).
  by exists q.
Qed.

(** C24: No quantity is created or lost: the quantity of a new order is what it
    traded plus what rests or is discarded, and the quantity on the book
    changes by what rests minus what was traded. *)
Theorem add_order_conserves bk ar F msg n h fs bk' ar' :
  book_wf bk ar F -> admissible LADDER_SIZE bk ar msg n ->
  add_order bk ar msg [] n = Ok (h, fs, bk', ar') ->
  exists rem, 0 <= rem /\ no_qty msg = fills_qty fs + rem /\
    book_qty (book_abs bk' ar') + fills_qty fs =
      book_qty (book_abs bk ar) + (if bool_decide (h = no_handle) then 0 else rem).
Proof.
  intros HB Ha Hrun. destruct (add_order_inv _ _ _ _ _ _ _ _ _ HB Ha Hrun)
    as (slot & q & [_ _ _ Hex Hown Hh [Rs _] _]).
  destruct (executes_conserves _ _ _ _ _ _ _ _ _ _ Hex) as [E1 E2].
  exists q. split; [by inversion Hex; lia|]. split; [lia|].
  assert (Hq : forall b ab, book_qty ab = sum_qty (aside b ab) + sum_qty (aside (negb b) ab))
    by (intros [] ab; unfold book_qty; simpl; lia).
  rewrite !(Hq (is_buy msg)), E2, Hown.
  destruct (_ && _) eqn:Hc.
  - rewrite bool_decide_false.
    + rewrite (sum_qty_perm _ _ (spec_insert_perm _ _ _ _)). simpl. lia.
    + intros ->. destruct Hh as [Hs _]. unfold no_handle, INVALID in Hs. simpl in Hs.
      destruct P as [[_ HN] _]. unfold UINT32_MAX in *. lia.
  - subst h. rewrite bool_decide_true by done. lia.
Qed.

(** C25: The limit is respected: every fill is at a level of the ladder at least
    as good for the new order as its own, and is addressed to the session that
    owns the resting order. *)
Theorem add_order_limit bk ar F msg n h fs bk' ar' f :
  book_wf bk ar F -> admissible LADDER_SIZE bk ar msg n ->
  add_order bk ar msg [] n = Ok (h, fs, bk', ar') -> f ∈ fs ->
  (if is_buy msg then book_ix bk (fill_price f) <= book_ix bk (no_price msg)
   else book_ix bk (no_price msg) <= book_ix bk (fill_price f)) /\
  exists r, r ∈ aside (negb (is_buy msg)) (book_abs bk ar) /\
    fill_resting_id f = r_id r /\ fill_price f = r_price r /\
    0 < fill_qty f <= r_qty r /\
    order_session_ ar !! r_slot r = Some (hdr_session_id (fill_hdr f)).
Proof.
  intros HB Ha Hrun Hf. destruct (add_order_inv _ _ _ _ _ _ _ _ _ HB Ha Hrun)
    as (slot & q & [_ _ _ Hex _ _ _ _]).
  pose proof (executes_limit _ _ _ _ _ _ _ _ _ _ Hex f Hf) as Hx. split.
  { unfold crosses, at_least in Hx. destruct (is_buy msg); simpl in Hx; lia. }
  destruct (executes_fill _ _ _ _ _ _ _ _ _ _ Hex f Hf (book_wf_positive _ _ _ _ HB))
    as (r & k & Hr & -> & Hk).
  exists r. do 4 (split; [done|]). destruct (book_rel_side _ _ _ _ _ _ _ (negb (is_buy msg)) HB) as [_ HF].
  rewrite Forall_forall in HF. by apply HF.
Qed.

(** C26: An uncrossed book stays uncrossed, as long as the call does not run into
    its fill limit. *)
Theorem add_order_uncrossed bk ar F msg n h fs bk' ar' :
  book_wf bk ar F -> admissible LADDER_SIZE bk ar msg n ->
  add_order bk ar msg [] n = Ok (h, fs, bk', ar') -> zlen fs < n ->
  uncrossed (book_ix bk) (book_abs bk ar) -> uncrossed (book_ix bk) (book_abs bk' ar').
Proof.
  intros HB Ha Hrun Hn Hun. destruct (add_order_inv _ _ _ _ _ _ _ _ _ HB Ha Hrun)
    as (slot & q & [_ _ _ Hex Hown _ _ _]).
  pose proof (proj1 (book_rel_side _ _ _ _ _ _ _ (negb (is_buy msg)) HB)) as Hs.
  pose proof (executes_uncrossed _ _ _ _ _ _ _ _ _ _ Hex Hs) as Hnew.
  assert (Hopp : forall x, x ∈ aside (negb (is_buy msg)) (book_abs bk' ar') ->
    exists y, y ∈ aside (negb (is_buy msg)) (book_abs bk ar) /\ r_ix (book_ix bk) x = r_ix (book_ix bk) y)
    by (intros x Hx; destruct (executes_left _ _ _ _ _ _ _ _ _ _ Hex x Hx) as (y & k & Hy & ->);
        by exists y).
  assert (Hmine : forall x, x ∈ aside (is_buy msg) (book_abs bk' ar') ->
    x ∈ aside (is_buy msg) (book_abs bk ar) \/
    (x = resting_of msg slot q /\ 0 < q)).
  { intros x. rewrite Hown. destruct (_ && _) eqn:Hc; [|by left].
    apply andb_true_iff in Hc as [Hc%Z.ltb_lt _].
    rewrite spec_insert_perm, elem_of_cons. intros [->|?]; [by right|by left]. }
  intros b a Hb Ha'. destruct (is_buy msg) eqn:Eb; simpl in Hopp, Hmine, Hnew.
  - destruct (Hmine b Hb) as [Hb'|[-> Hq]].
    + destruct (Hopp a Ha') as (y & Hy & ->). by apply Hun.
    + specialize (Hnew Hq Hn). rewrite Forall_forall in Hnew. specialize (Hnew a Ha').
      unfold crosses, at_least in Hnew. unfold r_ix at 1. simpl. lia.
  - destruct (Hmine a Ha') as [Ha''|[-> Hq]].
    + destruct (Hopp b Hb) as (y & Hy & ->). by apply Hun.
    + specialize (Hnew Hq Hn). rewrite Forall_forall in Hnew. specialize (Hnew b Hb).
      unfold crosses, at_least in Hnew. unfold r_ix at 2. simpl. lia.
Qed.

(** An immediate-or-cancel order never rests: the handle is invalid, its own
    side of the book is untouched and its slot is free again. *)
Theorem add_order_ioc bk ar F msg n h fs bk' ar' :
  book_wf bk ar F -> admissible LADDER_SIZE bk ar msg n -> no_tif msg = IOC ->
  add_order bk ar msg [] n = Ok (h, fs, bk', ar') ->
  valid h = false /\
  aside (is_buy msg) (book_abs bk' ar') = aside (is_buy msg) (book_abs bk ar) /\
  Pool.free_count (pool_ ar) <= Pool.free_count (pool_ ar').
Proof.
  intros HB Ha Htif Hrun. destruct (add_order_inv _ _ _ _ _ _ _ _ _ HB Ha Hrun)
    as (slot & q & [HB' _ _ Hex Hown Hh _ (R & _ & Hperm)]).
  rewrite (bool_decide_true (no_tif msg = IOC)), andb_false_r in Hown, Hh by done. subst h.
  split; [done|]. split; [done|].
  pose proof (Pool.wf_free_count _ _ _ (br_pool HB)) as C.
  pose proof (Pool.wf_free_count _ _ _ (br_pool HB')) as C'.
  pose proof (executes_length _ _ _ _ _ _ _ _ _ _ Hex) as L.
  rewrite zlen_app in C, C'. unfold Pool.free_count.
  assert (Hz : forall ab, zlen (aslots ab) =
    zlen (aside (is_buy msg) ab) + zlen (aside (negb (is_buy msg)) ab)).
  { intros ab. unfold zlen. rewrite (Permutation_length (aslots_sides (is_buy msg) ab)).
    rewrite length_app. unfold slots_of. rewrite !length_fmap. lia. }
  rewrite Hz in C, C'. rewrite Hown in C'. lia.
Qed.

(** An order whose price is off the ladder, or that finds no free slot, is
    turned away without any effect: invalid handle, no fill, same book and
    same arena. *)
Theorem add_order_rejects bk ar F msg fills n :
  book_wf bk ar F -> is_i64 (no_price msg - base_price_ bk) ->
  ~ 0 <= book_ix bk (no_price msg) < LADDER_SIZE \/ Pool.free_count (pool_ ar) = 0 ->
  add_order bk ar msg fills n = Ok (no_handle, fills, bk, ar).
Proof.
  intros HB Hp [Hi|Hfull].
  - apply add_order_off_ladder; [apply (br_tick HB)|done|done].
  - eapply add_order_no_room; [done|done|]. pose proof (Pool.wf_free_count _ _ _ (br_pool HB)).
    unfold Pool.free_count in Hfull. lia.
Qed.

(** ** Cancelling an order *)

(** C2: A cancel with the current handle of a resting order succeeds: exactly
    that order leaves the book, all others keep their place, the slot's
    generation moves on, so that the same handle is refused from now on, and
    the other orders of the arena are untouched. *)
Theorem cancel_order_refines bk ar F bid r g :
  book_wf bk ar F -> r ∈ aside bid (book_abs bk ar) ->
  Pool.gen_ (Pool.arena_ (pool_ ar)) !! r_slot r = Some g ->
  exists bk' ar', cancel_order bk ar (mkHandle (r_slot r) g) = Ok (true, bk', ar') /\
    book_abs bk' ar' = aput bid (book_abs bk ar) (spec_cancel (r_slot r) (aside bid (book_abs bk ar))) /\
    book_wf bk' ar' F /\ frame F ar ar' /\
    cancel_order bk' ar' (mkHandle (r_slot r) g) = Ok (false, bk', ar').
Proof.
  intros HB Hr Hg. destruct P as [HN HL].
  destruct (cancel_order_live MAX_ORDERS LADDER_SIZE _ HN HL bk ar _ F bid r g HB Hr Hg)
    as (bk' & ar' & Hrun & HB' & [E1 E2] & Hframe & Hgens).
  exists bk', ar'. split; [done|]. split; [by apply (book_abs_unique _ _ HN _ _ _ _ _ HB')|].
  split; [eapply book_rel_wf; [done|done|]; intros x; unfold book_ix; by rewrite E1, E2|].
  split; [done|]. pose proof (lookupZ_range _ _ _ Hg) as Rg. apply cancel_order_stale; simpl.
  - lia.
  - apply (Pool.wf_gen_len _ _ _ (br_pool HB')).
  - rewrite Hgens, bool_decide_true, Hg by constructor. simpl. intros [= E].
    pose proof (Pool.wf_gen _ _ _ (br_pool HB) _ _ Hg) as Hu. by apply (gen_next_ne g).
Qed.

(** A cancel whose slot is outside the arena, or whose generation is not
    the slot's current one, is refused without any effect. *)
Theorem cancel_order_refuses bk ar F h :
  book_wf bk ar F -> 0 <= h_slot h ->
  Pool.gen_ (Pool.arena_ (pool_ ar)) !! h_slot h <> Some (h_gen h) ->
  cancel_order bk ar h = Ok (false, bk, ar).
Proof. intros HB H0 Hg. apply cancel_order_stale; [done|apply (br_pool HB)|done]. Qed.

(** ** Reading the book *)

(** In every well-formed state the two sides are in price-time priority, and
    the best prices are the prices of the orders at their fronts, rounded down
    to the tick (the sentinels when a side is empty). *)
Theorem best_prices bk ar F :
  book_wf bk ar F -> is_i64 (base_price_ bk) ->
  (forall bid, side_sorted (book_ix bk) bid (aside bid (book_abs bk ar))) /\
  (bids (book_abs bk ar) = [] -> best_bid_price bk = Ok INT64_MIN) /\
  (asks (book_abs bk ar) = [] -> best_ask_price bk = Ok INT64_MAX) /\
  forall bid r l, aside bid (book_abs bk ar) = r :: l -> is_i64 (r_price r) ->
    base_price_ bk <= r_price r < base_price_ bk + LADDER_SIZE * tick_size_ bk -> LADDER_SIZE <= 2 ^ 31 ->
    (if bid then best_bid_price bk else best_ask_price bk) =
      Ok (r_price r - (r_price r - base_price_ bk) mod tick_size_ bk).
Proof.
  intros HB Hbase. destruct P as [HN HL]. split; [|split; [|split]].
  - intros bid. apply (book_rel_side _ _ _ _ _ _ _ bid HB).
  - intros E. pose proof (best_of_side _ _ _ _ _ HL HB true) as H. simpl in E, H. rewrite E in H.
    unfold best_bid_price. by rewrite H.
  - intros E. pose proof (best_of_side _ _ _ _ _ HL HB false) as H. simpl in E, H. rewrite E in H.
    unfold best_ask_price. by rewrite H.
  - intros bid r l E Hr Hrange HL2. pose proof (best_of_side _ _ _ _ _ HL HB bid) as H.
    rewrite E in H. destruct H as [Hb Hi].
    assert (Hpr : is_i64 (r_price r - base_price_ bk)) by (apply (br_price HB bid); rewrite E; constructor).
    pose proof (level_price bk (r_price r) (br_tick HB) Hbase Hr Hpr) as Hlp.
    destruct bid; [unfold best_bid_price|unfold best_ask_price]; simpl in Hb; rewrite Hb;
      rewrite (proj2 (Z.eqb_neq _ _)) by (unfold NULL_IDX, UINT32_MAX; lia); apply Hlp; nia.
Qed.

End guarantees.
(** ** A concrete book

    Eight slots, sixteen levels from 1000 by 5: two sells queue at 1050, one
    at 1060, and a buy at 1040. *)

Definition admissible_b (LADDER_SIZE : Z) (bk : OrderBook) (ar : Arena) (msg : NewOrder) (n : Z) : bool :=
  (INT64_MIN <=? no_price msg - base_price_ bk) && (no_price msg - base_price_ bk <=? INT64_MAX) &&
  (0 <=? book_ix bk (no_price msg)) && (book_ix bk (no_price msg) <? LADDER_SIZE) &&
  (0 <=? no_qty msg) && (no_qty msg <? 2 ^ 32) && (0 <? Pool.free_count (pool_ ar)) && (0 <=? n).

Lemma admissible_b_spec L bk ar msg n :
  admissible_b L bk ar msg n = true -> admissible L bk ar msg n.
Proof.
  unfold admissible_b. rewrite !andb_true_iff, !Z.leb_le, !Z.ltb_lt.
  intros H. split; unfold is_i64, is_u; try apply H; (split; apply H).
Qed.

Fixpoint fill_book (M L : Z) (st : OrderBook * Arena) (msgs : list NewOrder) : option (OrderBook * Arena) :=
  match msgs with
  | [] => Some st
  | m :: msgs =>
      if admissible_b L st.1 st.2 m 64 then
        match add_order M L st.1 st.2 m [] 64 with
        | Ok (_, _, bk, ar) => fill_book M L (bk, ar) msgs
        | Err _ => None
        end
      else None
  end.

Lemma fill_book_wf M L st msgs st' : book_params M L ->
  book_wf M L st.1 st.2 [] -> fill_book M L st msgs = Some st' -> book_wf M L st'.1 st'.2 [].
Proof.
  intros HP. revert st. induction msgs as [|m msgs IH]; intros st HB; simpl; [by intros [= <-]|].
  destruct (admissible_b _ _ _ _ _) eqn:Ha; [|done].
  destruct (add_order _ _ _ _ _ _ _) as [[[[h fs] bk] ar]|] eqn:Hrun; [|done].
  destruct (add_order_inv _ _ HP _ _ _ _ _ _ _ _ _ HB (admissible_b_spec _ _ _ _ _ Ha) Hrun)
    as (slot & q & []). by apply IH.
Qed.

Lemma book_init_wf M L base tick : book_params M L -> 0 < tick ->
  book_wf M L (book_init L base tick) (arena_init M) [] /\
  book_abs (book_init L base tick) (arena_init M) = mkABook [] [].
Proof.
  intros [HN HL] Ht.
  assert (HB : book_rel M L (ladder_idx base tick) (book_init L base tick) (arena_init M) (mkABook [] []) []).
  { apply book_init_rel; [done|done|done| |].
    - apply Pool.pool_init_wf. lia.
    - unfold arena_init. simpl. rewrite zlen_replicate. lia. }
  split; [by eapply book_rel_wf|]. by eapply (book_abs_unique _ _ HN).
Qed.

Definition new_order (id : Z) (side : Side) (price qty : Z) (tif : TimeInForce) (session : Z) : NewOrder :=
  mkNewOrder (mkHeader sizeof_NewOrder NEW_ORDER 0 session) id price qty 0 side tif.

Lemma demo_params : book_params 8 16.
Proof. by split. Qed.

Definition demo : OrderBook * Arena :=
  default (book_init 16 1000 5, arena_init 8)
    (fill_book 8 16 (book_init 16 1000 5, arena_init 8)
       [new_order 1 SELL 1050 10 GTC 71; new_order 2 SELL 1050 5 GTC 72;
        new_order 3 SELL 1060 7 GTC 73; new_order 4 BUY 1040 4 GTC 74]).

Lemma demo_wf : book_wf 8 16 demo.1 demo.2 [].
Proof.
  pose proof (book_init_wf 8 16 1000 5 demo_params eq_refl) as [H0 _]. unfold demo.
  destruct (fill_book _ _ _ _) as [st|] eqn:E; [|exact H0].
  exact (fill_book_wf 8 16 (book_init 16 1000 5, arena_init 8) _ st demo_params H0 E).
Qed.

(** A buy for 17 at 1055 fills the two sells at 1050 and rests for 2; an
    immediate-or-cancel buy for 12 fills the first and part of the second. *)
Definition demo_buy : NewOrder := new_order 5 BUY 1055 17 GTC 75.
Definition demo_ioc : NewOrder := new_order 6 BUY 1055 12 IOC 76.

Definition demo_add (msg : NewOrder) : OrderHandle * list Fill * OrderBook * Arena :=
  match add_order 8 16 demo.1 demo.2 msg [] 64 with
  | Ok x => x
  | Err _ => (no_handle, [], demo.1, demo.2)
  end.

Lemma demo_admissible msg : msg = demo_buy \/ msg = demo_ioc -> admissible 16 demo.1 demo.2 msg 64.
Proof. intros [-> | ->]; apply admissible_b_spec; by vm_compute. Qed.

Lemma demo_add_Ok msg : msg = demo_buy \/ msg = demo_ioc ->
  add_order 8 16 demo.1 demo.2 msg [] 64 =
    Ok ((demo_add msg).1.1.1, (demo_add msg).1.1.2, (demo_add msg).1.2, (demo_add msg).2).
Proof. intros [-> | ->]; vm_compute; reflexivity. Qed.

Lemma add_order_refines_witness :
  exists slot g (rests : bool) fs bk' ar',
    add_order 8 16 demo.1 demo.2 demo_buy [] 64 =
      Ok (if rests then mkHandle slot g else no_handle, fs, bk', ar') /\
    book_wf 8 16 bk' ar' [].
Proof.
  destruct (add_order_refines 8 16 demo_params demo.1 demo.2 [] demo_buy 64 demo_wf
    (demo_admissible _ (or_introl eq_refl))) as (slot & g & rests & fs & bk' & ar' & H & _ & H' & _).
  exists slot, g, rests, fs, bk', ar'. split; [exact H|exact H'].
Defined.

Lemma add_order_price_time_witness :
  exists q, executes (book_ix demo.1) (negb (is_buy demo_ioc)) (no_order_id demo_ioc)
    (book_ix demo.1 (no_price demo_ioc)) 64 (no_qty demo_ioc)
    (aside (negb (is_buy demo_ioc)) (book_abs demo.1 demo.2)) (demo_add demo_ioc).1.1.2 q
    (aside (negb (is_buy demo_ioc)) (book_abs (demo_add demo_ioc).1.2 (demo_add demo_ioc).2)).
Proof.
  exact (add_order_price_time 8 16 demo_params demo.1 demo.2 [] demo_ioc 64 _ _ _ _ demo_wf
    (demo_admissible _ (or_intror eq_refl)) (demo_add_Ok _ (or_intror eq_refl))).
Defined.

Lemma add_order_conserves_witness :
  exists rem, 0 <= rem /\ 17 = fills_qty (demo_add demo_buy).1.1.2 + rem.
Proof.
  destruct (add_order_conserves 8 16 demo_params demo.1 demo.2 [] demo_buy 64 _ _ _ _ demo_wf
    (demo_admissible _ (or_introl eq_refl)) (demo_add_Ok _ (or_introl eq_refl))) as (rem & H0 & H1 & _).
  exists rem. split; [exact H0|exact H1].
Defined.

Lemma add_order_limit_witness : book_ix demo.1 1050 <= book_ix demo.1 1055.
Proof.
  refine (proj1 (add_order_limit 8 16 demo_params demo.1 demo.2 [] demo_buy 64 _ _ _ _
    (mkFill (mkHeader 40 FILL 0 71) 5 1 1050 10 0) demo_wf
    (demo_admissible _ (or_introl eq_refl)) (demo_add_Ok _ (or_introl eq_refl)) _)).
  vm_compute. left.
Defined.

Lemma add_order_uncrossed_witness :
  uncrossed (book_ix demo.1) (book_abs (demo_add demo_buy).1.2 (demo_add demo_buy).2).
Proof.
  apply (add_order_uncrossed 8 16 demo_params demo.1 demo.2 [] demo_buy 64 _ _ _ _ demo_wf
    (demo_admissible _ (or_introl eq_refl)) (demo_add_Ok _ (or_introl eq_refl))).
  - by vm_compute.
  - intros b a Hb Ha. vm_compute in Hb, Ha.
    apply list_elem_of_In in Hb, Ha. destruct Hb as [<-|[]]. by destruct Ha as [<-|[<-|[<-|[]]]].
Defined.

Lemma add_order_ioc_witness : valid (demo_add demo_ioc).1.1.1 = false.
Proof.
  exact (proj1 (add_order_ioc 8 16 demo_params demo.1 demo.2 [] demo_ioc 64 _ _ _ _ demo_wf
    (demo_admissible _ (or_intror eq_refl)) eq_refl (demo_add_Ok _ (or_intror eq_refl)))).
Defined.

Lemma add_order_rejects_witness :
  add_order 8 16 demo.1 demo.2 (new_order 7 BUY 1080 3 GTC 77) [] 64 = Ok (no_handle, [], demo.1, demo.2) /\
  add_order 8 16 demo.1 demo.2 (new_order 7 BUY 990 3 GTC 77) [] 64 = Ok (no_handle, [], demo.1, demo.2).
Proof.
  split; (apply (add_order_rejects 8 16 _ _ [] _ _ _ demo_wf);
    [by vm_compute|left; vm_compute; intros [? ?]; done]).
Defined.

Definition demo_r2 : Resting := mkResting 6 2 1050 5 0 SELL GTC 72.

Lemma cancel_order_refines_witness :
  exists bk' ar', cancel_order 8 16 demo.1 demo.2 (mkHandle 6 0) = Ok (true, bk', ar') /\
    book_wf 8 16 bk' ar' [].
Proof.
  destruct (cancel_order_refines 8 16 demo_params demo.1 demo.2 [] false demo_r2 0 demo_wf)
    as (bk' & ar' & H & _ & H' & _).
  - vm_compute. right. left.
  - by vm_compute.
  - exists bk', ar'. split; [exact H|exact H'].
Defined.

Lemma cancel_order_refuses_witness :
  cancel_order 8 16 demo.1 demo.2 (mkHandle 6 1) = Ok (false, demo.1, demo.2) /\
  cancel_order 8 16 demo.1 demo.2 (mkHandle 8 0) = Ok (false, demo.1, demo.2).
Proof. split; apply (cancel_order_refuses 8 16 demo.1 demo.2 [] _ demo_wf); by vm_compute. Defined.

Lemma best_prices_witness : best_bid_price demo.1 = Ok 1040 /\ best_ask_price demo.1 = Ok 1050.
Proof.
  pose proof (best_prices 8 16 demo_params demo.1 demo.2 [] demo_wf ltac:(by vm_compute)) as (_ & _ & _ & H).
  split.
  - apply (H true (mkResting 4 4 1040 4 0 BUY GTC 74) []); by vm_compute.
  - apply (H false (mkResting 7 1 1050 10 0 SELL GTC 71) [demo_r2; mkResting 5 3 1060 7 0 SELL GTC 73]);
      by vm_compute.
Defined.

End BookProps.
