(* ===== verification/BookSession.v ===== *)
(** * Handles over a session

    A client of one book that cancels with handles it was given: whatever it
    sends, and in whatever order, the book runs without undefined behaviour,
    and a cancel succeeds exactly when the order behind its handle is still
    resting.  Generations are 32 bits wide, so the guarantee is for sessions
    of fewer than [2^32] operations: a slot cannot come back to an old
    generation in fewer. *)

From S2P Require Import Prelude Messages Order LevelBitmap Pool PriceLevel OrderHandle OrderBook.
From S2P Require Import BookSpec BookInv BookMatch BookRefine BookLaws BookAbs BookProps.

Module BookSession.
Import PriceLevel OrderHandle OrderBook BookSpec BookInv BookRefine BookAbs BookProps.

(** The client sends an order, or cancels with the [k]-th handle it got. *)
Inductive Cmd : Type :=
| CAdd (msg : NewOrder)
| CCancel (k : nat).

Record Client : Type := mkClient {
  cl_book : OrderBook;
  cl_arena : Arena;
  cl_issued : list OrderHandle
}.

Section session.
Context (MAX_ORDERS LADDER_SIZE max_fills : Z).

Definition client_step (c : Cmd) (st : Client) : res (option bool * Client) :=
  match c with
  | CAdd msg =>
      '(h, _, bk, ar) ← add_order MAX_ORDERS LADDER_SIZE (cl_book st) (cl_arena st) msg [] max_fills;
      Ok (None, mkClient bk ar (if valid h then cl_issued st ++ [h] else cl_issued st))
  | CCancel k =>
      match cl_issued st !! k with
      | None => Ok (None, st)
      | Some h =>
          '(b, bk, ar) ← cancel_order MAX_ORDERS LADDER_SIZE (cl_book st) (cl_arena st) h;
          Ok (Some b, mkClient bk ar (cl_issued st))
      end
  end.

Fixpoint client_run (cs : list Cmd) (st : Client) : res Client :=
  match cs with
  | [] => Ok st
  | c :: cs => '(_, st) ← client_step c st; client_run cs st
  end.

(** The fields of the message have their widths and the subtraction of the
    base price does not overflow. *)
Definition cmd_ok (base : Z) (c : Cmd) : Prop :=
  match c with
  | CAdd msg => is_i64 (no_price msg - base) /\ is_u 32 (no_qty msg)
  | CCancel _ => True
  end.

(** The order behind a handle is resting; it left at most [n] operations ago. *)
Definition held (slots : list Z) (ar : Arena) (h : OrderHandle) : Prop :=
  h_slot h ∈ slots /\ Pool.gen_ (Pool.arena_ (pool_ ar)) !! h_slot h = Some (h_gen h).

Definition resting_handle (bk : OrderBook) (ar : Arena) (h : OrderHandle) : Prop :=
  held (aslots (book_abs bk ar)) ar h.

Definition gone_handle (n : Z) (ar : Arena) (h : OrderHandle) : Prop :=
  exists k, 1 <= k <= n /\ Pool.gen_ (Pool.arena_ (pool_ ar)) !! h_slot h = Some (u32 (h_gen h + k)).

Record client_inv (base n : Z) (st : Client) : Prop := {
  ci_wf : book_wf MAX_ORDERS LADDER_SIZE (cl_book st) (cl_arena st) [];
  ci_base : base_price_ (cl_book st) = base;
  ci_handles : forall h, h ∈ cl_issued st -> is_u 32 (h_gen h) /\
    (resting_handle (cl_book st) (cl_arena st) h \/ gone_handle n (cl_arena st) h)
}.

Context (P : book_params MAX_ORDERS LADDER_SIZE) (Hfills : 0 <= max_fills).

(** One operation moves each generation at most once. *)
Lemma handle_step n slots ar slots' ar' R h :
  gens_bump R (pool_ ar) (pool_ ar') ->
  (forall s, s ∈ slots -> s ∉ R -> s ∈ slots') ->
  0 <= n -> held slots ar h \/ gone_handle n ar h ->
  held slots' ar' h \/ gone_handle (n + 1) ar' h.
Proof.
  intros HR Hkeep Hn Hh. destruct (decide (h_slot h ∈ R)) as [Hin|Hin].
  - right. destruct Hh as [[_ Hg]|(k & Hk & Hg)].
    + exists 1. split; [lia|]. by rewrite HR, bool_decide_true, Hg.
    + exists (k + 1). split; [lia|]. rewrite HR, bool_decide_true, Hg by done. simpl. f_equal.
      rewrite wrapU_add_l. f_equal. lia.
  - destruct Hh as [[Hs Hg]|(k & Hk & Hg)].
    + left. split; [by apply Hkeep|]. by rewrite HR, bool_decide_false.
    + right. exists k. split; [lia|]. by rewrite HR, bool_decide_false.
Qed.

Lemma gone_not_current n ar h :
  is_u 32 (h_gen h) -> n < 2 ^ 32 -> gone_handle n ar h ->
  Pool.gen_ (Pool.arena_ (pool_ ar)) !! h_slot h <> Some (h_gen h).
Proof.
  intros [H0 H1] Hn (k & Hk & ->) [= E]. unfold wrapU in E.
  destruct (Z.lt_ge_cases (h_gen h + k) (2 ^ 32)).
  - rewrite Z.mod_small in E by lia. lia.
  - rewrite <- (Z_mod_plus_full _ (-1)), Z.mod_small in E by lia. lia.
Qed.

Lemma handle_keep base n n' bk ar issued h :
  n <= n' -> client_inv base n (mkClient bk ar issued) -> h ∈ issued ->
  is_u 32 (h_gen h) /\ (resting_handle bk ar h \/ gone_handle n' ar h).
Proof.
  intros Hle HI Hin. destruct (ci_handles _ _ _ HI h Hin) as [? [?|(k & ? & ?)]];
    (split; [done|]); [by left|]. right. exists k. split; [lia|done].
Qed.

Lemma client_add base n msg st :
  client_inv base n st -> 0 <= n -> cmd_ok base (CAdd msg) ->
  exists o st', client_step (CAdd msg) st = Ok (o, st') /\ client_inv base (n + 1) st'.
Proof.
  intros HI Hn [Hp Hq]. destruct st as [bk ar issued]. pose proof HI as [HB E _]. simpl in *.
  rewrite <- E in Hp.
  destruct (decide (0 <= book_ix bk (no_price msg) < LADDER_SIZE /\ 0 < Pool.free_count (pool_ ar)))
    as [[Hi Hr]|Hno].
  - assert (Ha : admissible LADDER_SIZE bk ar msg max_fills) by done.
    destruct (add_order_total _ _ P _ _ _ _ _ HB Ha) as (h & fs & bk' & ar' & Hrun).
    rewrite Hrun. simpl. eexists _, _. split; [done|].
    destruct (add_order_inv _ _ P _ _ _ _ _ _ _ _ _ HB Ha Hrun)
      as (slot & q & [HB' [E' _] _ _ Hown Hh _ (R & HR & Hperm)]).
    split; simpl; [done|congruence|].
    assert (Hold : forall h', h' ∈ issued -> is_u 32 (h_gen h') /\
      (resting_handle bk' ar' h' \/ gone_handle (n + 1) ar' h')).
    { intros h' Hh'. destruct (ci_handles _ _ _ HI h' Hh') as [? Hst]. split; [done|].
      eapply (handle_step n (aslots (book_abs bk ar)) ar); [done| |done|done]. intros s Hs HnR.
      assert (Hs' : s ∈ slot :: aslots (book_abs bk ar)) by (by right).
      rewrite Hperm, elem_of_app in Hs'. by destruct Hs'. }
    destruct (valid h) eqn:Hv; [|done].
    intros h' [Hh'|Hh']%elem_of_app; [by apply Hold|]. apply list_elem_of_singleton in Hh' as ->.
    destruct (_ && _) eqn:Hc; [|by subst h]. destruct Hh as [Hslot Hgen]. subst slot. split.
    + by eapply (Pool.wf_gen _ _ _ (br_pool HB')).
    + left. split; [|done]. rewrite (aslots_sides (is_buy msg)), Hown. apply elem_of_app. left.
      unfold slots_of. rewrite spec_insert_perm. constructor.
  - assert (Hrej : add_order MAX_ORDERS LADDER_SIZE bk ar msg [] max_fills = Ok (no_handle, [], bk, ar)).
    { destruct (decide (0 <= book_ix bk (no_price msg) < LADDER_SIZE)) as [Hi|Hi].
      - eapply add_order_no_room; [done|done|].
        pose proof (Pool.wf_free_count _ _ _ (br_pool HB)). pose proof (Pool.wf_top _ _ _ (br_pool HB)).
        unfold Pool.free_count in Hno. lia.
      - apply add_order_off_ladder; [apply (br_tick HB)|done|done]. }
    rewrite Hrej. simpl. eexists _, _. split; [done|]. split; [done|done|].
    intros h Hh. eapply handle_keep; [|done|done]. lia.
Qed.

Lemma resting_order bk ar F h :
  book_wf MAX_ORDERS LADDER_SIZE bk ar F -> h_slot h ∈ aslots (book_abs bk ar) ->
  exists bid r, r ∈ aside bid (book_abs bk ar) /\ h_slot h = r_slot r.
Proof.
  intros HB [Hin|Hin]%elem_of_app; apply list_elem_of_fmap in Hin as (r & E & Hr).
  - by exists true, r.
  - by exists false, r.
Qed.

Lemma client_cancel base n k st :
  client_inv base n st -> 0 <= n < 2 ^ 32 ->
  exists o st', client_step (CCancel k) st = Ok (o, st') /\ client_inv base (n + 1) st' /\
    (forall h, cl_issued st !! k = Some h ->
       (o = Some true /\ resting_handle (cl_book st) (cl_arena st) h) \/
       (o = Some false /\ gone_handle n (cl_arena st) h /\ st' = st)).
Proof.
  intros HI Hn. destruct st as [bk ar issued]. pose proof HI as [HB E Hall]. simpl in *.
  destruct (issued !! k) as [h|] eqn:Hk.
  2:{ eexists _, _. split; [done|]. split; [|done]. split; [done|done|].
      intros h Hh. eapply handle_keep; [|done|done]. lia. }
  destruct (Hall h ltac:(by eapply list_elem_of_lookup_2)) as [Hu [Hrest|Hgone]].
  - destruct Hrest as [Hs Hg]. destruct (resting_order _ _ _ _ HB Hs) as (bid & r & Hr & Er).
    destruct P as [HN HL]. rewrite Er in Hg.
    destruct (cancel_order_live MAX_ORDERS LADDER_SIZE _ HN HL bk ar _ [] bid r _ HB Hr Hg)
      as (bk' & ar' & Hrun & HB' & [E1 E2] & _ & Hgens).
    assert (h = mkHandle (r_slot r) (h_gen h)) as Eh by (destruct h; simpl in *; congruence).
    rewrite Eh, Hrun. simpl. eexists _, _. split; [done|]. split.
    + pose proof (book_abs_unique _ _ HN _ _ _ _ _ HB') as Eab. split; simpl; [|congruence|].
      * eapply book_rel_wf; [done|done|]. intros x. unfold book_ix. by rewrite E1, E2.
      * intros h' Hh'. destruct (Hall h' Hh') as [? Hst]. split; [done|].
        eapply (handle_step n (aslots (book_abs bk ar)) ar); [done| |lia|done]. intros s Hs' Hne. rewrite Eab.
        apply aslots_cancel; [done|]. intros ->. apply Hne. constructor.
    + intros ? [= <-]. left. rewrite <- Eh. split; [done|]. split; [done|]. by rewrite Er.
  - assert (Hst : cancel_order MAX_ORDERS LADDER_SIZE bk ar h = Ok (false, bk, ar)).
    { apply cancel_order_stale; [|apply (br_pool HB)|].
      - destruct Hgone as (? & _ & Hg). apply lookupZ_range in Hg. lia.
      - eapply gone_not_current; [done| |done]. lia. }
    rewrite Hst. simpl. eexists _, _. split; [done|]. split.
    + split; [done|done|]. intros h' Hh'. eapply handle_keep; [|done|done]. lia.
    + intros ? [= <-]. by right.
Qed.

Lemma client_inv_step base n c st :
  client_inv base n st -> 0 <= n < 2 ^ 32 -> cmd_ok base c ->
  exists o st', client_step c st = Ok (o, st') /\ client_inv base (n + 1) st'.
Proof.
  intros HI Hn Hc. destruct c as [msg|k].
  - apply client_add; [done|lia|done].
  - destruct (client_cancel base n k st HI Hn) as (o & st' & ? & ? & _). eauto.
Qed.

Lemma client_inv_init base tick : 0 < tick ->
  client_inv base 0 (mkClient (book_init LADDER_SIZE base tick) (arena_init MAX_ORDERS) []).
Proof.
  intros Ht. split; simpl; [by apply book_init_wf|done|]. intros h Hh%not_elem_of_nil. done.
Qed.

Lemma client_inv_run base n cs st :
  client_inv base n st -> 0 <= n -> n + zlen cs <= 2 ^ 32 -> Forall (cmd_ok base) cs ->
  exists st', client_run cs st = Ok st' /\ client_inv base (n + zlen cs) st'.
Proof.
  revert n st. induction cs as [|c cs IH]; intros n st HI Hn Hle HF; simpl.
  { exists st. split; [done|]. by rewrite Z.add_0_r. }
  rewrite zlen_cons in Hle |- *. pose proof (zlen_nonneg cs). apply Forall_cons in HF as [Hc HF].
  destruct (client_inv_step base n c st HI ltac:(lia) Hc) as (o & st1 & -> & HI1). simpl.
  destruct (IH (n + 1) st1 HI1) as (st' & -> & HI'); [lia|lia|done|].
  exists st'. split; [done|]. by replace (n + (1 + zlen cs)) with (n + 1 + zlen cs) by lia.
Qed.

(** Handles are safe to use: in every session of fewer than [2^32]
    operations on a fresh book (orders at any price that does not overflow, of
    any quantity; cancels with any handle handed out so far, repeated or not),
    no operation has undefined behaviour, the final state is well formed, and
    one more cancel succeeds exactly when the order behind its handle is still
    resting, and otherwise changes nothing: no handle ever cancels another
    order. *)
Theorem session_handles base tick cs k :
  0 < tick -> zlen cs < 2 ^ 32 -> Forall (cmd_ok base) cs ->
  exists st, client_run cs (mkClient (book_init LADDER_SIZE base tick) (arena_init MAX_ORDERS) []) = Ok st /\
    book_wf MAX_ORDERS LADDER_SIZE (cl_book st) (cl_arena st) [] /\
    forall h, cl_issued st !! k = Some h ->
      exists b st', client_step (CCancel k) st = Ok (Some b, st') /\
        (b = true <-> resting_handle (cl_book st) (cl_arena st) h) /\ (b = false -> st' = st).
Proof.
  intros Ht Hlen HF. pose proof (zlen_nonneg cs) as H0.
  destruct (client_inv_run base 0 cs _ (client_inv_init base tick Ht)) as (st & Hrun & HI);
    [lia|lia|done|].
  exists st. split; [done|]. split; [apply HI|]. intros h Hh.
  destruct (client_cancel base (0 + zlen cs) k st HI ltac:(lia)) as (o & st' & Hstep & _ & Ho).
  destruct (Ho h Hh) as [[-> Hr]|(-> & Hg & ->)]; eexists _, _; (split; [done|]); split; try done.
  split; [done|]. intros [_ Hr]. exfalso. eapply gone_not_current; [| |done|done]; [|lia].
  apply (ci_handles _ _ _ HI h). by eapply list_elem_of_lookup_2.
Qed.

End session.

(** A sell, a crossing buy that fills it, a resting buy; then cancels of the
    filled sell (twice) and of the resting buy. *)
Definition demo_cmds : list Cmd :=
  [CAdd (new_order 1 SELL 1050 10 GTC 71); CAdd (new_order 2 BUY 1050 10 GTC 72);
   CAdd (new_order 3 BUY 1040 4 GTC 73); CCancel 0; CCancel 0].

Lemma session_handles_witness :
  exists st, client_run 8 16 64 demo_cmds (mkClient (book_init 16 1000 5) (arena_init 8) []) = Ok st /\
    book_wf 8 16 (cl_book st) (cl_arena st) [].
Proof.
  destruct (session_handles 8 16 64 demo_params ltac:(lia) 1000 5 demo_cmds 1) as (st & H & H' & _).
  - lia.
  - reflexivity.
  - repeat constructor; simpl; unfold INT64_MIN, INT64_MAX; lia.
  - exists st. split; [exact H|exact H'].
Defined.
End BookSession.
