(* ===== verification/Spsc.v ===== *)
(** * Single-producer single-consumer ring ([include/lx/queue/spsc.hpp])

    [SpscQueue<T, N>]: two free-running 64-bit counters and [N] slots, [N] a
    power of two.  First the two operations run alone, against a bounded FIFO
    list; the counters may wrap around.  Then the operations interleaved as
    sequences of their loads and stores. *)

From stdpp Require Import relations.
From S2P Require Import Prelude.

Module Spsc.

Section ring.
Context {A : Type}.

Record SpscQueue : Type := mkQueue {
  head_ : Z;           (* std::atomic<std::size_t> *)
  tail_ : Z;           (* std::atomic<std::size_t> *)
  slots_ : list A
}.

Context (N : Z).

Definition kMask : Z := N - 1.

Definition queue_init (zero : A) : SpscQueue := mkQueue 0 0 (replicate (Z.to_nat N) zero).

Definition push (q : SpscQueue) (val : A) : res (bool * SpscQueue) :=
  let head := head_ q in
  let next := u64 (head + 1) in
  if N <? u64 (next - tail_ q) then Ok (false, q)
  else
    slots ← aset (slots_ q) (Z.land head kMask) val;
    Ok (true, mkQueue next (tail_ q) slots).

Definition pop (q : SpscQueue) : res (option A * SpscQueue) :=
  let tail := tail_ q in
  if head_ q =? tail then Ok (None, q)
  else
    val ← aget (slots_ q) (Z.land tail kMask);
    Ok (Some val, mkQueue (head_ q) (u64 (tail + 1)) (slots_ q)).

(** ** The bounded FIFO it implements *)

(** The queue of the values pushed and not popped yet: [H] pushes and [T]
    pops happened so far; the counters hold them modulo [2^64]. *)
Record holds (q : SpscQueue) (H T : Z) (l : list A) : Prop := {
  ho_count : 0 <= T /\ H = T + zlen l /\ zlen l <= N;
  ho_head : head_ q = u64 H;
  ho_tail : tail_ q = u64 T;
  ho_len : zlen (slots_ q) = N;
  ho_slot : forall i x, l !! i = Some x -> slots_ q !! ((T + i) mod N) = Some x
}.

Definition queue_repr (q : SpscQueue) (l : list A) : Prop := exists H T, holds q H T l.

(** [N] is a power of two that a [size_t] holds. *)
Definition pow2 : Prop := exists k, 0 <= k < 64 /\ N = 2 ^ k.

Context (HN : pow2).

Lemma N_pos : 0 < N <= 2 ^ 63.
Proof.
  destruct HN as (k & Hk & ->). split; [lia|]. apply Z.pow_le_mono_r; lia.
Qed.

(** Masking a counter that wrapped around is reduction of the true count. *)
Lemma mask_mod H : Z.land (u64 H) kMask = H mod N.
Proof.
  destruct HN as (k & Hk & EN). unfold kMask, wrapU. rewrite EN.
  replace (2 ^ k - 1) with (Z.ones k) by (rewrite Z.ones_equiv; lia). rewrite Z.land_ones by lia.
  assert (E : 2 ^ 64 = 2 ^ k * 2 ^ (64 - k)) by (rewrite <- Z.pow_add_r by lia; f_equal; lia).
  rewrite E, Z.rem_mul_r by lia. rewrite (Z.mul_comm (2 ^ k)), Z.mod_add by lia. by rewrite Zmod_mod.
Qed.

Lemma count_diff H T : 0 <= H + 1 - T < 2 ^ 64 -> u64 (u64 (u64 H + 1) - u64 T) = H + 1 - T.
Proof. intros Hd. by rewrite wrapU_sub_r, wrapU_add_l, wrapU_sub_l, wrapU_small. Qed.

Lemma count_eq H T : 0 <= H - T < 2 ^ 64 -> (u64 H =? u64 T) = (H =? T).
Proof.
  intros Hd. destruct (Z.eqb_spec H T) as [->|Hne]; [apply Z.eqb_refl|]. apply Z.eqb_neq. intros E.
  assert (E2 : u64 (H - T) = 0).
  { rewrite <- wrapU_sub_l, E, wrapU_sub_l, Z.sub_diag. done. }
  rewrite wrapU_small in E2; lia.
Qed.

(** Counts that are less than [N] apart have different slots. *)
Lemma slot_ne a b : a < b < a + N -> a mod N <> b mod N.
Proof.
  intros Hd E. pose proof N_pos.
  assert (E2 : (b - a) mod N = 0) by (rewrite Zminus_mod, E, Z.sub_diag; apply Z.mod_0_l; lia).
  rewrite Z.mod_small in E2; lia.
Qed.

Lemma slot_range a : 0 <= a mod N < N.
Proof. pose proof N_pos. apply Z.mod_pos_bound. lia. Qed.

Lemma holds_init zero : holds (queue_init zero) 0 0 [].
Proof.
  pose proof N_pos. split; simpl; try done.
  - change (zlen []) with 0. lia.
  - rewrite zlen_replicate. lia.
  - intros i x Hi%lookupZ_range. change (zlen []) with 0 in Hi. lia.
Qed.

(** The two stores of a push, and the store of a pop. *)
Lemma holds_write q H T l x : holds q H T l -> zlen l < N ->
  aset (slots_ q) (Z.land (head_ q) kMask) x = Ok (<[H mod N := x]> (slots_ q)) /\
  <[H mod N := x]> (slots_ q) !! (H mod N) = Some x /\
  holds (mkQueue (head_ q) (tail_ q) (<[H mod N := x]> (slots_ q))) H T l.
Proof.
  intros [(HT & HH & Hl) Eh Et HL Hs] Hroom. pose proof (slot_range H) as Hr.
  rewrite Eh, mask_mod, aset_Ok by (by rewrite HL). split; [done|].
  split; [apply lookupZ_insertZ_eq; by rewrite HL|].
  split; simpl; try done; [by rewrite zlen_insertZ|].
  intros i y Hi. pose proof (lookupZ_range _ _ _ Hi). rewrite lookupZ_insertZ_ne; [by apply Hs|].
  apply not_eq_sym, slot_ne. lia.
Qed.

Lemma holds_publish q H T l x : holds q H T l -> zlen l < N -> slots_ q !! (H mod N) = Some x ->
  holds (mkQueue (u64 (head_ q + 1)) (tail_ q) (slots_ q)) (H + 1) T (l ++ [x]).
Proof.
  intros [(HT & HH & Hl) Eh Et HL Hs] Hroom Hx. pose proof (zlen_nonneg l). split; simpl; try done.
  - rewrite zlen_app. change (zlen [x]) with 1. lia.
  - rewrite Eh. apply wrapU_add_l.
  - intros i y Hi. pose proof (lookupZ_range _ _ _ Hi) as Ri. rewrite zlen_app in Ri.
    change (zlen [x]) with 1 in Ri. destruct (Z.eq_dec i (zlen l)) as [->|Hne].
    + rewrite lookupZ_app_r, Z.sub_diag in Hi by lia. injection Hi as <-. by rewrite <- HH.
    + rewrite lookupZ_app_l in Hi by lia. by apply Hs.
Qed.

Lemma holds_retire q H T x l : holds q H T (x :: l) ->
  holds (mkQueue (head_ q) (u64 (tail_ q + 1)) (slots_ q)) H (T + 1) l.
Proof.
  intros [(HT & HH & Hl) Eh Et HL Hs]. rewrite zlen_cons in *. pose proof (zlen_nonneg l).
  split; simpl; try done; [lia|rewrite Et; apply wrapU_add_l|].
  intros i y Hi. replace (T + 1 + i) with (T + (1 + i)) by lia. apply Hs.
  pose proof (lookupZ_range _ _ _ Hi). rewrite lookupZ_nat in Hi |- * by lia.
  by replace (Z.to_nat (1 + i)) with (S (Z.to_nat i)) by lia.
Qed.

(** The tests of the two operations. *)
Lemma holds_full q H T l : holds q H T l -> (N <? u64 (u64 (head_ q + 1) - tail_ q)) = (N <=? zlen l).
Proof.
  intros [(HT & HH & Hl) Eh Et _ _]. pose proof N_pos. pose proof (zlen_nonneg l).
  rewrite Eh, Et, count_diff by lia. bool_cases; lia.
Qed.

Lemma holds_empty q H T l : holds q H T l -> (head_ q =? tail_ q) = bool_decide (l = []).
Proof.
  intros [(HT & HH & Hl) Eh Et _ _]. pose proof N_pos. pose proof (zlen_nonneg l).
  rewrite Eh, Et, count_eq by lia. destruct l as [|x l].
  - rewrite bool_decide_true by done. change (zlen []) with 0 in HH. lia.
  - rewrite bool_decide_false by done. rewrite zlen_cons in *. pose proof (zlen_nonneg l). lia.
Qed.

Lemma holds_front q H T x l : holds q H T (x :: l) -> aget (slots_ q) (Z.land (tail_ q) kMask) = Ok x.
Proof.
  intros [_ _ Et _ Hs]. rewrite Et, mask_mod. apply aget_Ok.
  specialize (Hs 0 x eq_refl). by rewrite Z.add_0_r in Hs.
Qed.

(** The ring is a bounded FIFO of capacity [N]. *)
Lemma push_spec q l x : queue_repr q l ->
  exists q', push q x = Ok (zlen l <? N, q') /\ queue_repr q' (if zlen l <? N then l ++ [x] else l).
Proof.
  intros (H & T & Hq). unfold push. rewrite (holds_full _ _ _ _ Hq).
  destruct (Z.leb_spec N (zlen l)), (Z.ltb_spec (zlen l) N); try lia.
  - exists q. split; [done|]. by eexists _, _.
  - destruct (holds_write _ _ _ _ x Hq) as (-> & Hx & Hw); [done|]. simpl. eexists. split; [done|].
    exists (H + 1), T. by apply (holds_publish _ _ _ _ _ Hw).
Qed.

Lemma pop_spec q l : queue_repr q l ->
  exists q', pop q = Ok (head l, q') /\ queue_repr q' (tail l).
Proof.
  intros (H & T & Hq). unfold pop. rewrite (holds_empty _ _ _ _ Hq). destruct l as [|x l].
  - exists q. split; [done|]. by eexists _, _.
  - rewrite (holds_front _ _ _ _ _ Hq). eexists. split; [done|]. eexists _, _. by apply holds_retire with x.
Qed.

Lemma queue_repr_len q l : queue_repr q l -> zlen l <= N.
Proof. intros (H & T & []). lia. Qed.

(** The counters tell how many values are queued. *)
Lemma queue_repr_count q l : queue_repr q l -> zlen l = u64 (head_ q - tail_ q).
Proof.
  intros (H & T & [(HT & -> & Hlen) -> -> _ _]). pose proof N_pos. pose proof (zlen_nonneg l).
  unfold wrapU. rewrite <- Zminus_mod. replace (T + zlen l - T) with (zlen l) by lia. rewrite Z.mod_small; lia.
Qed.

(** The queued values, read off the ring. *)
Definition contents (q : SpscQueue) : list A :=
  omap (fun i => slots_ q !! Z.land (u64 (tail_ q + i)) kMask) (seqZ 0 (u64 (head_ q - tail_ q))).

Lemma contents_repr q l : queue_repr q l -> contents q = l.
Proof.
  intros Hq. unfold contents. rewrite <- (queue_repr_count q l Hq). destruct Hq as (H & T & [(HT & _ & _) _ -> _ Hs]).
  rewrite <- (omap_seqZ l) at 2. apply list_omap_ext, Forall_Forall2_diag, Forall_seqZ. intros i Hi.
  destruct (lookupZ_is_Some l i ltac:(lia)) as [x Hx]. rewrite wrapU_add_l, mask_mod, Hx. by apply Hs.
Qed.

Lemma queue_init_repr zero : queue_repr (queue_init zero) [].
Proof. exists 0, 0. apply holds_init. Qed.

(** ** The two threads interleaved

    Each thread is at one of its loads and stores.  [PLoad v h] has read
    [head_ = h] and is about to read [tail_]; [PWrite] is about to write the
    slot; [PPublish] to store [head_].  [CLoad t] has read [tail_ = t] and is
    about to read [head_]; [CRead] is about to read the slot; [CPublish] to
    store [tail_].  [pushed] and [popped] record the values in the order in
    which the two counters were stored. *)

Inductive Producer : Type :=
| PIdle
| PLoad (val : A) (head : Z)
| PWrite (val : A) (head : Z)
| PPublish (val : A) (head : Z).

Inductive Consumer : Type :=
| CIdle
| CLoad (tail : Z)
| CRead (tail : Z)
| CPublish (tail : Z) (val : A).

Record Threads : Type := mkThreads {
  ring : SpscQueue;
  producer : Producer;
  consumer : Consumer;
  pushed : list A;
  popped : list A
}.

Inductive step : Threads -> Threads -> Prop :=
| step_p_start q c us vs val :
    step (mkThreads q PIdle c us vs) (mkThreads q (PLoad val (head_ q)) c us vs)
| step_p_full q c us vs val h :
    (N <? u64 (u64 (h + 1) - tail_ q)) = true ->
    step (mkThreads q (PLoad val h) c us vs) (mkThreads q PIdle c us vs)
| step_p_room q c us vs val h :
    (N <? u64 (u64 (h + 1) - tail_ q)) = false ->
    step (mkThreads q (PLoad val h) c us vs) (mkThreads q (PWrite val h) c us vs)
| step_p_write q c us vs val h slots :
    aset (slots_ q) (Z.land h kMask) val = Ok slots ->
    step (mkThreads q (PWrite val h) c us vs)
         (mkThreads (mkQueue (head_ q) (tail_ q) slots) (PPublish val h) c us vs)
| step_p_publish q c us vs val h :
    step (mkThreads q (PPublish val h) c us vs)
         (mkThreads (mkQueue (u64 (h + 1)) (tail_ q) (slots_ q)) PIdle c (us ++ [val]) vs)
| step_c_start q p us vs :
    step (mkThreads q p CIdle us vs) (mkThreads q p (CLoad (tail_ q)) us vs)
| step_c_empty q p us vs t :
    (head_ q =? t) = true ->
    step (mkThreads q p (CLoad t) us vs) (mkThreads q p CIdle us vs)
| step_c_some q p us vs t :
    (head_ q =? t) = false ->
    step (mkThreads q p (CLoad t) us vs) (mkThreads q p (CRead t) us vs)
| step_c_read q p us vs t val :
    aget (slots_ q) (Z.land t kMask) = Ok val ->
    step (mkThreads q p (CRead t) us vs) (mkThreads q p (CPublish t val) us vs)
| step_c_publish q p us vs t val :
    step (mkThreads q p (CPublish t val) us vs)
         (mkThreads (mkQueue (head_ q) (u64 (t + 1)) (slots_ q)) p CIdle us (vs ++ [val])).

Definition threads_init (zero : A) : Threads := mkThreads (queue_init zero) PIdle CIdle [] [].

(** What each thread knows at its program point. *)
Definition producer_ok (q : SpscQueue) (H : Z) (l : list A) (p : Producer) : Prop :=
  match p with
  | PIdle => True
  | PLoad _ h => h = head_ q
  | PWrite _ h => h = head_ q /\ zlen l < N
  | PPublish val h => h = head_ q /\ zlen l < N /\ slots_ q !! (H mod N) = Some val
  end.

Definition consumer_ok (q : SpscQueue) (l : list A) (c : Consumer) : Prop :=
  match c with
  | CIdle => True
  | CLoad t => t = tail_ q
  | CRead t => t = tail_ q /\ l <> []
  | CPublish t val => t = tail_ q /\ head l = Some val
  end.

Definition threads_inv (st : Threads) : Prop :=
  exists l, pushed st = popped st ++ l /\
    holds (ring st) (zlen (pushed st)) (zlen (popped st)) l /\
    producer_ok (ring st) (zlen (pushed st)) l (producer st) /\
    consumer_ok (ring st) l (consumer st).

Lemma threads_inv_init zero : threads_inv (threads_init zero).
Proof. exists []. split; [done|]. split; [apply holds_init|done]. Qed.

Lemma threads_inv_step st st' : step st st' -> threads_inv st -> threads_inv st'.
Proof.
  intros Hstep (l & E & Hq & Hp & Hc). destruct Hstep; simpl in *.
  - by exists l.
  - by exists l.
  - exists l. subst h. rewrite (holds_full _ _ _ _ Hq) in H. apply Z.leb_gt in H. done.
  - destruct Hp as [-> Hroom]. destruct (holds_write _ _ _ _ val Hq Hroom) as (Hs & Hx & Hw).
    rewrite H in Hs. injection Hs as ->. exists l. do 2 (split; [done|]). split; [done|].
    destruct c; simpl in *; done.
  - destruct Hp as (-> & Hroom & Hx). pose proof (holds_publish _ _ _ _ _ Hq Hroom Hx) as Hw.
    exists (l ++ [val]). simpl. rewrite zlen_app. change (zlen [val]) with 1.
    split; [by rewrite E, app_assoc|]. do 2 (split; [done|]).
    destruct c as [|t|t|t x]; simpl in *; [done|done|..]; destruct Hc as [-> Hc]; split; try done.
    + by destruct l.
    + by destruct l.
  - by exists l.
  - by exists l.
  - exists l. subst t. rewrite (holds_empty _ _ _ _ Hq) in H. apply bool_decide_eq_false in H. done.
  - destruct Hc as [-> Hne]. destruct l as [|x l]; [done|].
    rewrite (holds_front _ _ _ _ _ Hq) in H. injection H as ->. by exists (val :: l).
  - destruct Hc as [-> Hhd]. destruct l as [|x l]; [done|]. injection Hhd as ->.
    pose proof (holds_retire _ _ _ _ _ Hq) as Hw. exists l. simpl. rewrite zlen_app. change (zlen [val]) with 1.
    split; [by rewrite E, <- app_assoc|]. split; [done|]. split; [|done].
    destruct p; simpl in Hp |- *; try done; rewrite zlen_cons in Hp.
    + destruct Hp. split; [done|lia].
    + destruct Hp as (? & ? & ?). split; [done|]. split; [lia|done].
Qed.

Lemma threads_inv_reachable zero st : rtc step (threads_init zero) st -> threads_inv st.
Proof.
  revert st. apply rtc_ind_r; [apply threads_inv_init|].
  intros y z _ Hyz. by apply threads_inv_step.
Qed.

(** ** Guarantees *)

(** C33: The ring is a FIFO of capacity [N], also when its 64-bit counters wrap
    around: from a ring that holds [l], a push appends exactly when fewer than
    [N] values are queued and is refused without any effect otherwise, a pop
    takes the oldest value, and neither touches memory outside the slots. *)
Theorem ring_is_bounded_fifo q l x : queue_repr q l ->
  (exists q', push q x = Ok (zlen l <? N, q') /\ queue_repr q' (if zlen l <? N then l ++ [x] else l) /\
    (N <= zlen l -> q' = q)) /\
  exists q', pop q = Ok (head l, q') /\ queue_repr q' (tail l).
Proof.
  intros Hq. split; [|by apply pop_spec].
  destruct (push_spec q l x Hq) as (q' & Hpush & Hq'). exists q'. split; [done|]. split; [done|].
  intros Hfull. destruct Hq as (H & T & Hq). unfold push in Hpush.
  rewrite (holds_full _ _ _ _ Hq), (proj2 (Z.leb_le _ _)) in Hpush by done. by injection Hpush as _ <-.
Qed.

(** Under every interleaving of a producer and a consumer, what was popped
    is a prefix of what was pushed, at most [N] values are in between, a push
    that was let through and a pop that saw a value access their slot within
    bounds, and they never access the same slot at the same time. *)
Theorem ring_interleaved zero st : rtc step (threads_init zero) st ->
  (exists l, pushed st = popped st ++ l /\ zlen l <= N) /\
  (forall val h, producer st = PWrite val h ->
     exists slots, aset (slots_ (ring st)) (Z.land h kMask) val = Ok slots) /\
  (forall t, consumer st = CRead t -> exists val, aget (slots_ (ring st)) (Z.land t kMask) = Ok val) /\
  (forall val h t, producer st = PWrite val h -> consumer st = CRead t ->
     Z.land h kMask <> Z.land t kMask).
Proof.
  intros (l & E & Hq & Hp & Hc)%threads_inv_reachable.
  split; [exists l; split; [done|apply Hq]|]. split; [|split].
  - intros val h Ep. rewrite Ep in Hp. destruct Hp as [-> Hroom].
    destruct (holds_write _ _ _ _ val Hq Hroom) as (-> & _). by eexists.
  - intros t Ec. rewrite Ec in Hc. destruct Hc as [-> Hne]. destruct l as [|x l]; [done|].
    rewrite (holds_front _ _ _ _ _ Hq). by eexists.
  - intros val h t Ep Ec. rewrite Ep in Hp. rewrite Ec in Hc. destruct Hp as [-> Hroom].
    destruct Hc as [-> Hne]. destruct Hq as [(HT & HH & Hl) Eh Et _ _].
    rewrite Eh, Et, !mask_mod. apply not_eq_sym, slot_ne.
    destruct l; [done|]. rewrite zlen_cons in *. pose proof (zlen_nonneg l). lia.
Qed.

End ring.

Arguments SpscQueue : clear implicits.
Arguments Threads : clear implicits.

(** Capacity 4, with counters just below the point where they wrap: two values
    queued, then a push across it. *)
Lemma pow2_4 : pow2 4.
Proof. exists 2. lia. Qed.

Definition demo_ring : SpscQueue Z := mkQueue (2 ^ 64 - 1) (2 ^ 64 - 3) [0; 11; 12; 0].

Lemma demo_ring_repr : queue_repr 4 demo_ring [11; 12].
Proof.
  exists (2 ^ 64 - 1), (2 ^ 64 - 3). split; try done.
  intros i x Hi. pose proof (lookupZ_range _ _ _ Hi) as Ri. change (zlen [11; 12]) with 2 in Ri.
  assert (i = 0 \/ i = 1) as [-> | ->] by lia; injection Hi as <-; done.
Qed.

Lemma ring_is_bounded_fifo_witness :
  exists q', push 4 demo_ring 13 = Ok (true, q') /\ queue_repr 4 q' [11; 12; 13].
Proof.
  destruct (proj1 (ring_is_bounded_fifo 4 pow2_4 demo_ring [11; 12] 13 demo_ring_repr))
    as (q' & H & H' & _).
  exists q'. split; [exact H|exact H'].
Defined.

(** A push has written its value and published it; a second push is about to
    write while a pop is about to read. *)
Definition demo_threads : Threads Z :=
  mkThreads (mkQueue 1 0 [7; 0; 0; 0]) (PWrite 8 1) (CRead 0) [7] [].

Lemma demo_threads_reachable : rtc (step 4) (threads_init 4 0) demo_threads.
Proof.
  apply rtc_l with (mkThreads (queue_init 4 0) (PLoad 7 0) CIdle [] []); [apply (step_p_start 4)|].
  apply rtc_l with (mkThreads (queue_init 4 0) (PWrite 7 0) CIdle [] []); [by apply step_p_room|].
  apply rtc_l with (mkThreads (mkQueue 0 0 [7; 0; 0; 0]) (PPublish 7 0) CIdle [] []);
    [by apply (step_p_write 4)|].
  apply rtc_l with (mkThreads (mkQueue 1 0 [7; 0; 0; 0]) PIdle CIdle [7] []);
    [apply (step_p_publish 4 (mkQueue 0 0 [7; 0; 0; 0]))|].
  apply rtc_l with (mkThreads (mkQueue 1 0 [7; 0; 0; 0]) (PLoad 8 1) CIdle [7] []);
    [apply (step_p_start 4 (mkQueue 1 0 [7; 0; 0; 0]))|].
  apply rtc_l with (mkThreads (mkQueue 1 0 [7; 0; 0; 0]) (PWrite 8 1) CIdle [7] []);
    [by apply step_p_room|].
  apply rtc_l with (mkThreads (mkQueue 1 0 [7; 0; 0; 0]) (PWrite 8 1) (CLoad 0) [7] []);
    [apply (step_c_start 4 (mkQueue 1 0 [7; 0; 0; 0]))|].
  apply rtc_once. by apply step_c_some.
Qed.

Lemma ring_interleaved_witness : Z.land 1 (kMask 4) <> Z.land 0 (kMask 4).
Proof.
  exact (proj2 (proj2 (proj2 (ring_interleaved 4 pow2_4 0 demo_threads demo_threads_reachable)))
    8 1 0 eq_refl eq_refl).
Defined.

End Spsc.
