(* ===== verification/SpscWeak.v ===== *)
(** * The ring under release and acquire ([include/lx/queue/spsc.hpp])

    The loads and stores of [push] and [pop] with the memory orders they are
    written with, on a machine where a load may return an old value.  A thread
    has a view: how far it is in the modification order of each counter, and
    which accesses to each slot happen before its next step.  A load reads any
    store its view does not hide; an acquire load of a release store takes over
    the view of the store.  The slots are plain memory: two accesses, one of
    them a write, of which neither happens before the other are a data race.

    Each counter is stored by one thread only, whose view is at its last store
    (shown below), so that a store goes to the end of the modification order. *)

From stdpp Require Import relations functions.
From S2P Require Import Prelude Spsc.

Module SpscWeak.
Import Spsc.

(** ** Memory orders and views *)

Inductive MemOrder := memory_order_relaxed | memory_order_acquire | memory_order_release.

(** The six accesses to the counters. *)
Record Orders : Type := mkOrders {
  push_head : MemOrder;     (* push: head_.load *)
  push_tail : MemOrder;     (* push: tail_.load *)
  push_store : MemOrder;    (* push: head_.store *)
  pop_tail : MemOrder;      (* pop: tail_.load *)
  pop_head : MemOrder;      (* pop: head_.load *)
  pop_store : MemOrder      (* pop: tail_.store *)
}.

Definition spsc_orders : Orders :=
  mkOrders memory_order_relaxed memory_order_acquire memory_order_release
           memory_order_relaxed memory_order_acquire memory_order_release.

Record View : Type := mkView {
  v_head : Z;          (* stores to head_ that are not hidden start here *)
  v_tail : Z;
  v_wr : Z -> Z;       (* writes to each slot that happened before *)
  v_rd : Z -> Z        (* reads of each slot that happened before *)
}.

Definition bottom : View := mkView 0 0 (fun _ => 0) (fun _ => 0).

Definition join (V W : View) : View :=
  mkView (Z.max (v_head V) (v_head W)) (Z.max (v_tail V) (v_tail W))
    (fun s => Z.max (v_wr V s) (v_wr W s)) (fun s => Z.max (v_rd V s) (v_rd W s)).

Definition at_head (V : View) (t : Z) : View := mkView t (v_tail V) (v_wr V) (v_rd V).
Definition at_tail (V : View) (t : Z) : View := mkView (v_head V) t (v_wr V) (v_rd V).
Definition wrote (V : View) (s k : Z) : View := mkView (v_head V) (v_tail V) (<[s := k]> (v_wr V)) (v_rd V).
Definition has_read (V : View) (s k : Z) : View := mkView (v_head V) (v_tail V) (v_wr V) (<[s := k]> (v_rd V)).

(** A store in the modification order of a counter: the value, and the view
    that an acquire load of it takes over. *)
Record Store : Type := mkStore { st_val : Z; st_view : View }.

Definition load_view (o : MemOrder) (V : View) (m : Store) : View :=
  match o with memory_order_acquire => join V (st_view m) | _ => V end.
Definition store_view (o : MemOrder) (V : View) : View :=
  match o with memory_order_release => V | _ => bottom end.

Section ring.
Context {A : Type} (N : Z).

Record Weak : Type := mkWeak {
  heads : list Store;          (* modification order of head_ *)
  tails : list Store;          (* modification order of tail_ *)
  slots : list A;
  wr : Z -> Z;                 (* writes to each slot so far *)
  rd : Z -> Z;                 (* reads of each slot so far *)
  pv : View;                   (* view of the producer *)
  cv : View;                   (* view of the consumer *)
  producer : Producer (A := A);
  consumer : Consumer (A := A);
  pushed : list A;
  popped : list A
}.

Definition weak_init (zero : A) : Weak :=
  mkWeak [mkStore 0 bottom] [mkStore 0 bottom] (replicate (Z.to_nat N) zero) (fun _ => 0) (fun _ => 0)
    bottom bottom PIdle CIdle [] [].

(** The store with number [t], if the view does not hide it. *)
Definition readable (seen : Z) (hist : list Store) (t : Z) : option Store := if seen <=? t then hist !! t else None.

(** ** The steps *)

(** What the scheduler and the memory choose: whose turn it is, the value to
    push, and the store a load reads. *)
Inductive Action :=
| APush (val : A) (t : Z)     (* head_.load(relaxed) *)
| ACheck (t : Z)              (* tail_.load(acquire) and the test *)
| AWrite                      (* slots_[head & kMask] = val *)
| APublish                    (* head_.store(next, release) *)
| APop (t : Z)                (* tail_.load(relaxed) *)
| AEmpty (t : Z)              (* head_.load(acquire) and the test *)
| ARead                       (* val = slots_[tail & kMask] *)
| ARetire.                    (* tail_.store(tail + 1, release) *)

Definition set_producer (st : Weak) (V : View) (p : Producer) : Weak :=
  mkWeak (heads st) (tails st) (slots st) (wr st) (rd st) V (cv st) p (consumer st) (pushed st) (popped st).
Definition set_consumer (st : Weak) (V : View) (c : Consumer) : Weak :=
  mkWeak (heads st) (tails st) (slots st) (wr st) (rd st) (pv st) V (producer st) c (pushed st) (popped st).

Definition act (O : Orders) (a : Action) (st : Weak) : option Weak :=
  match a, producer st, consumer st with
  | APush val t, PIdle, _ =>
      m ← readable (v_head (pv st)) (heads st) t;
      Some (set_producer st (load_view (push_head O) (at_head (pv st) t) m) (PLoad val (st_val m)))
  | ACheck t, PLoad val h, _ =>
      m ← readable (v_tail (pv st)) (tails st) t;
      Some (set_producer st (load_view (push_tail O) (at_tail (pv st) t) m)
        (if N <? u64 (u64 (h + 1) - st_val m) then PIdle else PWrite val h))
  | AWrite, PWrite val h, _ =>
      let s := Z.land h (kMask N) in
      match aset (slots st) s val with
      | Err _ => None
      | Ok slots' => Some (mkWeak (heads st) (tails st) slots' (<[s := wr st s + 1]> (wr st)) (rd st)
          (wrote (pv st) s (wr st s + 1)) (cv st) (PPublish val h) (consumer st) (pushed st) (popped st))
      end
  | APublish, PPublish val h, _ =>
      let V := at_head (pv st) (zlen (heads st)) in
      Some (mkWeak (heads st ++ [mkStore (u64 (h + 1)) (store_view (push_store O) V)]) (tails st) (slots st) (wr st) (rd st)
        V (cv st) PIdle (consumer st) (pushed st ++ [val]) (popped st))
  | APop t, _, CIdle =>
      m ← readable (v_tail (cv st)) (tails st) t;
      Some (set_consumer st (load_view (pop_tail O) (at_tail (cv st) t) m) (CLoad (st_val m)))
  | AEmpty t, _, CLoad tl =>
      m ← readable (v_head (cv st)) (heads st) t;
      Some (set_consumer st (load_view (pop_head O) (at_head (cv st) t) m)
        (if st_val m =? tl then CIdle else CRead tl))
  | ARead, _, CRead tl =>
      let s := Z.land tl (kMask N) in
      match aget (slots st) s with
      | Err _ => None
      | Ok val => Some (mkWeak (heads st) (tails st) (slots st) (wr st) (<[s := rd st s + 1]> (rd st))
          (pv st) (has_read (cv st) s (rd st s + 1)) (producer st) (CPublish tl val) (pushed st) (popped st))
      end
  | ARetire, _, CPublish tl val =>
      let V := at_tail (cv st) (zlen (tails st)) in
      Some (mkWeak (heads st) (tails st ++ [mkStore (u64 (tl + 1)) (store_view (pop_store O) V)]) (slots st) (wr st) (rd st)
        (pv st) V (producer st) CIdle (pushed st) (popped st ++ [val]))
  | _, _, _ => None
  end.

Definition weak_step (O : Orders) (st st' : Weak) : Prop := exists a, act O a st = Some st'.

(** A slot is about to be accessed, and an earlier access to it that conflicts
    does not happen before. *)
Definition races (st : Weak) : bool :=
  match producer st with
  | PWrite _ h => let s := Z.land h (kMask N) in (v_wr (pv st) s <? wr st s) || (v_rd (pv st) s <? rd st s)
  | _ => false
  end ||
  match consumer st with
  | CRead tl => let s := Z.land tl (kMask N) in v_wr (cv st) s <? wr st s
  | _ => false
  end.

(** Runs of chosen actions. *)
Fixpoint acts (O : Orders) (l : list Action) (st : Weak) : option Weak :=
  match l with
  | [] => Some st
  | a :: l => st ← act O a st; acts O l st
  end.

Lemma acts_reachable O l st st' : acts O l st = Some st' -> rtc (weak_step O) st st'.
Proof.
  revert st. induction l as [|a l IH]; intros st; cbn [acts]; [by intros [= ->]; apply rtc_refl|].
  destruct (act O a st) as [st1|] eqn:E; [|done]. intros Hl. apply rtc_l with st1; [by exists a|by apply IH].
Qed.

(** ** Accesses to a slot *)

(** How many of the first [k] values go through slot [s]. *)
Definition cnt (k s : Z) : Z := (k + N - 1 - s) / N.

Context (HN : pow2 N).

Lemma cnt_mono j k s : j <= k -> cnt j s <= cnt k s.
Proof. intros Hle. pose proof (N_pos N HN). unfold cnt. apply Z.div_le_mono; lia. Qed.

Lemma cnt_step k s : 0 <= s < N -> cnt (k + 1) s = if decide (k mod N = s) then cnt k s + 1 else cnt k s.
Proof.
  intros Hs. pose proof (N_pos N HN). unfold cnt. pose proof (Z.div_mod k N ltac:(lia)) as E. pose proof (slot_range N HN k) as Hr.
  set (r := k mod N) in *. set (q := k / N) in *. clearbody r q.
  replace (k + 1 + N - 1 - s) with ((N + r - s) + q * N) by lia. replace (k + N - 1 - s) with ((N + r - 1 - s) + q * N) by lia.
  rewrite !Z.div_add by lia. clear E. destruct (decide (r = s)) as [->|Hne].
  - replace (N + s - s) with N by lia. rewrite Z.div_same by lia. rewrite (Z.div_small (N + s - 1 - s)) by lia. lia.
  - destruct (Z.lt_ge_cases r s).
    + rewrite !Z.div_small by lia. lia.
    + replace (N + r - s) with ((r - s) + 1 * N) by lia. replace (N + r - 1 - s) with ((r - s - 1) + 1 * N) by lia.
      rewrite !Z.div_add by lia. rewrite !Z.div_small by lia. lia.
Qed.

(** Between two uses of a slot there are [N] values. *)
Lemma cnt_window k j : k - N < j -> cnt k (k mod N) <= cnt j (k mod N).
Proof.
  intros Hj. pose proof (N_pos N HN). unfold cnt. pose proof (Z.div_mod k N ltac:(lia)) as E. pose proof (slot_range N HN k) as Hr.
  set (r := k mod N) in *. set (q := k / N) in *. clearbody r q.
  transitivity q.
  - replace (k + N - 1 - r) with ((N - 1) + q * N) by lia. rewrite Z.div_add by lia. rewrite Z.div_small by lia. lia.
  - apply Z.div_le_lower_bound; lia.
Qed.

Lemma cnt_window_next k j : k < j -> cnt (k + N) (k mod N) <= cnt j (k mod N).
Proof.
  intros Hj. assert ((k + N) mod N = k mod N) as <-.
  { replace (k + N) with (k + 1 * N) by lia. apply Z.mod_add. pose proof (N_pos N HN). lia. }
  apply cnt_window. lia.
Qed.

(** ** The invariant *)

Abbreviation pushes st := (zlen (pushed st)).
Abbreviation pops st := (zlen (popped st)).

Definition written (st : Weak) : Z := match producer st with PPublish _ _ => pushes st + 1 | _ => pushes st end.
Definition was_read (st : Weak) : Z := match consumer st with CPublish _ _ => pops st + 1 | _ => pops st end.

(** Store number [j] of a counter holds [j] and brings what its thread did to
    the slots before it. *)
Record stores_ok (hist : list Store) (n H T : Z) (acc : View -> Z -> Z) : Prop := {
  so_len : zlen hist = n + 1;
  so_val : forall j m, hist !! j = Some m -> st_val m = u64 j;
  so_view : forall j m, hist !! j = Some m -> v_head (st_view m) <= H /\ v_tail (st_view m) <= T;
  so_acc : forall j m s, hist !! j = Some m -> 0 <= s < N -> cnt j s <= acc (st_view m) s
}.

Definition producer_knows (H : Z) (V : View) (sl : list A) (p : Producer) : Prop :=
  match p with
  | PIdle => True
  | PLoad _ h => h = u64 H
  | PWrite _ h => h = u64 H /\ exists j, H - N < j <= v_tail V /\ forall s, 0 <= s < N -> cnt j s <= v_rd V s
  | PPublish val h => h = u64 H /\ H - N < v_tail V /\ sl !! (H mod N) = Some val
  end.

Definition consumer_knows (T : Z) (V : View) (l : list A) (c : Consumer) : Prop :=
  match c with
  | CIdle => True
  | CLoad t => t = u64 T
  | CRead t => t = u64 T /\ exists j, T < j <= v_head V /\ forall s, 0 <= s < N -> cnt j s <= v_wr V s
  | CPublish t val => t = u64 T /\ T < v_head V /\ head l = Some val
  end.

Record weak_inv (st : Weak) (l : list A) : Prop := {
  wv_queue : pushed st = popped st ++ l;
  wv_holds : holds N (mkQueue (u64 (pushes st)) (u64 (pops st)) (slots st)) (pushes st) (pops st) l;
  wv_heads : stores_ok (heads st) (pushes st) (pushes st) (pops st) v_wr;
  wv_tails : stores_ok (tails st) (pops st) (pushes st) (pops st) v_rd;
  wv_wr : forall s, 0 <= s < N -> wr st s = cnt (written st) s /\ wr st s <= v_wr (pv st) s;
  wv_rd : forall s, 0 <= s < N -> rd st s = cnt (was_read st) s /\ rd st s <= v_rd (cv st) s;
  wv_pv : v_head (pv st) = pushes st /\ pushes st - N <= v_tail (pv st) <= pops st;
  wv_cv : v_tail (cv st) = pops st /\ pops st <= v_head (cv st) <= pushes st;
  wv_producer : producer_knows (pushes st) (pv st) (slots st) (producer st);
  wv_consumer : consumer_knows (pops st) (cv st) l (consumer st)
}.

Lemma cnt_init s : 0 <= s < N -> cnt 0 s = 0.
Proof. intros Hs. unfold cnt. apply Z.div_small. lia. Qed.

Lemma stores_init acc : (forall s, acc bottom s = 0) -> stores_ok [mkStore 0 bottom] 0 0 0 acc.
Proof.
  intros Ha. split; [done| | |]; intros j m; [..|intros s]; intros Hj; pose proof (lookupZ_range _ _ _ Hj) as Rj;
    change (zlen [_]) with 1 in Rj; assert (j = 0) as -> by lia; injection Hj as <-; [done|done|].
  intros Hs. cbn [st_view]. rewrite Ha, cnt_init by done. lia.
Qed.

Lemma weak_inv_init zero : weak_inv (weak_init zero) [].
Proof.
  pose proof (N_pos N HN). unfold weak_init. split; cbn; try done; try (split; lia).
  - apply holds_init, HN.
  - by apply stores_init.
  - by apply stores_init.
  - intros s Hs. unfold written. cbn. by rewrite cnt_init.
  - intros s Hs. unfold was_read. cbn. by rewrite cnt_init.
  - change (zlen []) with 0. lia.
Qed.

(** A counter only grows. *)
Lemma stores_more hist n H T H' T' acc : stores_ok hist n H T acc -> H <= H' -> T <= T' -> stores_ok hist n H' T' acc.
Proof. intros [A1 A2 A3 A4] HH HT. split; try done. intros j m Hj. destruct (A3 j m Hj). lia. Qed.

Lemma stores_app hist n H T acc x V :
  stores_ok hist n H T acc -> x = u64 (n + 1) -> v_head V <= H -> v_tail V <= T ->
  (forall s, 0 <= s < N -> cnt (n + 1) s <= acc V s) -> stores_ok (hist ++ [mkStore x V]) (n + 1) H T acc.
Proof.
  intros [A1 A2 A3 A4] -> HH HT Hacc.
  assert (Hnew : forall j m, (hist ++ [mkStore (u64 (n + 1)) V]) !! j = Some m ->
    hist !! j = Some m \/ (j = n + 1 /\ m = mkStore (u64 (n + 1)) V)).
  { intros j m Hj. pose proof (lookupZ_range _ _ _ Hj) as Rj. rewrite zlen_app in Rj. change (zlen [_]) with 1 in Rj.
    destruct (Z.lt_ge_cases j (zlen hist)); [left; by rewrite lookupZ_app_l in Hj|right].
    assert (j = zlen hist) as -> by lia. rewrite lookupZ_app_r, Z.sub_diag in Hj by lia. injection Hj as <-. by rewrite A1. }
  split.
  - rewrite zlen_app, A1. change (zlen [_]) with 1. lia.
  - intros j m [Hj|[-> ->]]%Hnew; [by apply A2|done].
  - intros j m [Hj|[-> ->]]%Hnew; [by apply (A3 j)|done].
  - intros j m s [Hj|[-> ->]]%Hnew; [by apply A4|apply Hacc].
Qed.

(** What a load reads. *)
Lemma readable_ok seen hist n H T acc t m : stores_ok hist n H T acc -> readable seen hist t = Some m ->
  seen <= t <= n /\ st_val m = u64 t /\ v_head (st_view m) <= H /\ v_tail (st_view m) <= T /\
  forall s, 0 <= s < N -> cnt t s <= acc (st_view m) s.
Proof.
  intros [A1 A2 A3 A4] Hr. unfold readable in Hr. destruct (Z.leb_spec seen t); [|done].
  pose proof (lookupZ_range _ _ _ Hr). split; [lia|]. split; [by apply A2|].
  destruct (A3 t m Hr). do 2 (split; [done|]). intros s. by apply A4.
Qed.

(** ** The steps of the producer *)

Lemma weak_push st l val t st' : weak_inv st l -> act spsc_orders (APush val t) st = Some st' -> weak_inv st' l.
Proof.
  intros HI Hact. cbn [act] in Hact. destruct (producer st) eqn:Ep; try done.
  destruct (readable _ _ t) as [m|] eqn:Hr; [|done]. injection Hact as <-. destruct HI as [W1 W2 W3 W4 W5 W6 W7 W8 W9 W10].
  destruct (readable_ok _ _ _ _ _ _ _ _ W3 Hr) as (Ht & Hv & _). assert (t = pushes st) as -> by lia.
  unfold written in W5. rewrite Ep in W5. split; cbn; try done. lia.
Qed.

Lemma weak_check st l t st' : weak_inv st l -> act spsc_orders (ACheck t) st = Some st' -> weak_inv st' l.
Proof.
  intros HI Hact. cbn [act] in Hact. destruct (producer st) as [|val h| |] eqn:Ep; try done.
  destruct (readable _ _ t) as [m|] eqn:Hr; [|done]. injection Hact as <-. destruct HI as [W1 W2 W3 W4 W5 W6 W7 W8 W9 W10].
  destruct (readable_ok _ _ _ _ _ _ _ _ W4 Hr) as (Ht & Hv & HmH & HmT & Hacc). unfold written in W5. rewrite Ep in W5, W9. cbn in W9. subst h.
  pose proof (N_pos N HN). destruct (ho_count _ _ _ _ _ W2) as (HT & HH & Hlen). pose proof (zlen_nonneg l).
  rewrite Hv, count_diff by lia. cbn [load_view push_tail spsc_orders].
  assert (Hview : v_tail (join (at_tail (pv st) t) (st_view m)) = Z.max t (v_tail (st_view m))) by done.
  split; cbn; try done.
  - intros s Hs. destruct (W5 s Hs) as [E1 E2]. unfold written. cbn. destruct (_ <? _); (split; [done|lia]).
  - lia.
  - destruct (Z.ltb_spec N (pushes st + 1 - t)); [done|]. cbn. split; [done|]. exists t. split; [lia|].
    intros s Hs. specialize (Hacc s Hs). lia.
Qed.

Lemma weak_write st l st' : weak_inv st l -> act spsc_orders AWrite st = Some st' -> weak_inv st' l.
Proof.
  intros HI Hact. cbn [act] in Hact. destruct (producer st) as [| |val h|] eqn:Ep; try done. destruct HI as [W1 W2 W3 W4 W5 W6 W7 W8 W9 W10].
  unfold written in W5. rewrite Ep in W5, W9. destruct W9 as [-> (j & Hj & Hk)]. destruct (ho_count _ _ _ _ _ W2) as (HT & HH & Hlen).
  destruct (holds_write N HN _ _ _ _ val W2 ltac:(lia)) as (Hset & Hx & Hw). cbn [head_ tail_ slots_] in Hset, Hx, Hw.
  rewrite Hset in Hact. injection Hact as <-. rewrite mask_mod by done. pose proof (slot_range N HN (pushes st)) as Rs.
  split; cbn; try done.
  - intros s Hs. unfold written. cbn. rewrite cnt_step by done. destruct (W5 s Hs) as [E1 E2]. destruct (decide (pushes st mod N = s)) as [<-|Hne].
    + rewrite !fn_lookup_insert. lia.
    + by rewrite !fn_lookup_insert_ne.
  - split; [done|]. split; [lia|done].
Qed.

Lemma weak_publish st l st' : weak_inv st l -> act spsc_orders APublish st = Some st' -> exists l', weak_inv st' l'.
Proof.
  intros HI Hact. cbn [act] in Hact. destruct (producer st) as [| | |val h] eqn:Ep; try done. injection Hact as <-. destruct HI as [W1 W2 W3 W4 W5 W6 W7 W8 W9 W10].
  unfold written in W5. rewrite Ep in W5, W9. destruct W9 as (-> & Hroom & Hx). destruct (ho_count _ _ _ _ _ W2) as (HT & HH & Hlen).
  pose proof (holds_publish N _ _ _ _ val W2 ltac:(lia) Hx) as Hq. cbn [head_ tail_ slots_] in Hq. rewrite wrapU_add_l in *.
  assert (Elen : zlen (pushed st ++ [val]) = pushes st + 1) by (rewrite zlen_app; done).
  exists (l ++ [val]). split; cbn; rewrite ?Elen; try done.
  - rewrite W1. by rewrite app_assoc.
  - apply stores_app; [by eapply stores_more; [exact W3|lia|lia]|done| | |].
    + cbn. rewrite (so_len _ _ _ _ _ W3). lia.
    + cbn. lia.
    + intros s Hs. cbn. destruct (W5 s Hs). lia.
  - eapply stores_more; [exact W4|lia|lia].
  - rewrite (so_len _ _ _ _ _ W3). lia.
  - lia.
  - destruct (consumer st) as [| | |tl x]; try done. destruct W10 as (? & ? & Hhd). split; [done|]. split; [done|]. by destruct l.
Qed.

(** ** The steps of the consumer *)

Lemma weak_pop st l t st' : weak_inv st l -> act spsc_orders (APop t) st = Some st' -> weak_inv st' l.
Proof.
  intros HI Hact. cbn [act] in Hact. destruct (consumer st) eqn:Ec; try done.
  destruct (readable _ _ t) as [m|] eqn:Hr; [|done]. injection Hact as <-. destruct HI as [W1 W2 W3 W4 W5 W6 W7 W8 W9 W10].
  destruct (readable_ok _ _ _ _ _ _ _ _ W4 Hr) as (Ht & Hv & _). assert (t = pops st) as -> by lia.
  unfold was_read in W6. rewrite Ec in W6. split; cbn; try done. lia.
Qed.

Lemma weak_empty st l t st' : weak_inv st l -> act spsc_orders (AEmpty t) st = Some st' -> weak_inv st' l.
Proof.
  intros HI Hact. cbn [act] in Hact. destruct (consumer st) as [|tl| |] eqn:Ec; try done.
  destruct (readable _ _ t) as [m|] eqn:Hr; [|done]. injection Hact as <-. destruct HI as [W1 W2 W3 W4 W5 W6 W7 W8 W9 W10].
  destruct (readable_ok _ _ _ _ _ _ _ _ W3 Hr) as (Ht & Hv & HmH & HmT & Hacc). unfold was_read in W6. rewrite Ec in W6, W10. cbn in W10. subst tl.
  pose proof (N_pos N HN). destruct (ho_count _ _ _ _ _ W2) as (HT & HH & Hlen). pose proof (zlen_nonneg l).
  rewrite Hv, count_eq by lia. cbn [load_view pop_head spsc_orders].
  split; cbn; try done.
  - intros s Hs. destruct (W6 s Hs) as [E1 E2]. unfold was_read. cbn. destruct (_ =? _); (split; [done|lia]).
  - lia.
  - destruct (Z.eqb_spec t (pops st)); [done|]. cbn. split; [done|]. exists t. split; [lia|].
    intros s Hs. specialize (Hacc s Hs). lia.
Qed.

Lemma weak_read st l st' : weak_inv st l -> act spsc_orders ARead st = Some st' -> weak_inv st' l.
Proof.
  intros HI Hact. cbn [act] in Hact. destruct (consumer st) as [| |tl|] eqn:Ec; try done. destruct HI as [W1 W2 W3 W4 W5 W6 W7 W8 W9 W10].
  unfold was_read in W6. rewrite Ec in W6, W10. destruct W10 as [-> (j & Hj & Hk)]. destruct (ho_count _ _ _ _ _ W2) as (HT & HH & Hlen).
  destruct l as [|x l]; [change (zlen []) with 0 in HH; lia|].
  pose proof (holds_front N HN _ _ _ _ _ W2) as Hget. cbn [head_ tail_ slots_] in Hget.
  rewrite Hget in Hact. injection Hact as <-. rewrite mask_mod by done. pose proof (slot_range N HN (pops st)) as Rs.
  split; cbn; try done.
  - intros s Hs. unfold was_read. cbn. rewrite cnt_step by done. destruct (W6 s Hs) as [E1 E2]. destruct (decide (pops st mod N = s)) as [<-|Hne].
    + rewrite !fn_lookup_insert. lia.
    + by rewrite !fn_lookup_insert_ne.
  - split; [done|]. split; [lia|done].
Qed.

Lemma weak_retire st l st' : weak_inv st l -> act spsc_orders ARetire st = Some st' -> exists l', weak_inv st' l'.
Proof.
  intros HI Hact. cbn [act] in Hact. destruct (consumer st) as [| | |tl val] eqn:Ec; try done. injection Hact as <-. destruct HI as [W1 W2 W3 W4 W5 W6 W7 W8 W9 W10].
  unfold was_read in W6. rewrite Ec in W6, W10. destruct W10 as (-> & Hseen & Hhd). destruct l as [|x l]; [done|]. injection Hhd as ->.
  pose proof (holds_retire N _ _ _ _ _ W2) as Hq. cbn [head_ tail_ slots_] in Hq. rewrite wrapU_add_l in *.
  assert (Elen : zlen (popped st ++ [val]) = pops st + 1) by (rewrite zlen_app; done).
  exists l. split; cbn; rewrite ?Elen; try done.
  - rewrite W1. by rewrite <- app_assoc.
  - eapply stores_more; [exact W3|lia|lia].
  - apply stores_app; [by eapply stores_more; [exact W4|lia|lia]|done| | |].
    + cbn. lia.
    + cbn. rewrite (so_len _ _ _ _ _ W4). lia.
    + intros s Hs. cbn. destruct (W6 s Hs). lia.
  - lia.
  - rewrite (so_len _ _ _ _ _ W4). lia.
Qed.

Lemma weak_inv_step st st' l : weak_inv st l -> weak_step spsc_orders st st' -> exists l', weak_inv st' l'.
Proof.
  intros HI [[] Hact]; [| | |by eapply weak_publish| | | |by eapply weak_retire]; exists l;
    [by eapply weak_push|by eapply weak_check|by eapply weak_write|by eapply weak_pop|by eapply weak_empty|by eapply weak_read].
Qed.

Lemma weak_inv_reachable zero st : rtc (weak_step spsc_orders) (weak_init zero) st -> exists l, weak_inv st l.
Proof.
  revert st. apply rtc_ind_r; [exists []; apply weak_inv_init|].
  intros y z _ Hyz [l HI]. by eapply weak_inv_step.
Qed.

(** ** No races *)

Lemma no_race st l : weak_inv st l -> races st = false.
Proof.
  intros [W1 W2 W3 W4 W5 W6 W7 W8 W9 W10]. destruct (ho_count _ _ _ _ _ W2) as (HT & HH & Hlen). pose proof (zlen_nonneg l).
  unfold races. apply orb_false_iff. split.
  - destruct (producer st) as [| |val h|] eqn:Ep; try done. destruct W9 as [-> (j & Hj & Hk)]. rewrite mask_mod by done.
    pose proof (slot_range N HN (pushes st)) as Rs. destruct (W5 _ Rs) as [_ E1]. destruct (W6 _ Rs) as [E2 _]. specialize (Hk _ Rs).
    pose proof (cnt_window (pushes st) j ltac:(lia)). assert (Hle : was_read st <= pushes st).
    { unfold was_read. destruct (consumer st); try lia. destruct W10 as (_ & ? & _). lia. }
    pose proof (cnt_mono _ _ (pushes st mod N) Hle). apply orb_false_iff. split; apply Z.ltb_ge; lia.
  - destruct (consumer st) as [| |tl|] eqn:Ec; try done. destruct W10 as [-> (j & Hj & Hk)]. rewrite mask_mod by done.
    pose proof (slot_range N HN (pops st)) as Rs. destruct (W5 _ Rs) as [E1 _]. specialize (Hk _ Rs).
    pose proof (cnt_window_next (pops st) j ltac:(lia)) as Hw.
    assert (Hle : written st <= pops st + N).
    { unfold written. destruct (producer st); try lia. destruct W9 as (_ & ? & _). lia. }
    pose proof (cnt_mono _ _ (pops st mod N) Hle). apply Z.ltb_ge. lia.
Qed.

(** C13: The memory orders of the ring suffice.  In every execution of one
    producer and one consumer in which loads may return any store their view
    does not hide, with the orders the code is written with: no slot access
    races with another, what was popped is a prefix of what was pushed with at
    most [N] values in between, also when the counters wrap around, the slots
    are accessed within bounds, and each thread sees its own last store, so that
    its relaxed load of its own counter returns it. *)
Theorem ring_release_acquire zero st : rtc (weak_step spsc_orders) (weak_init zero) st ->
  races st = false /\
  (exists l, pushed st = popped st ++ l /\ zlen l <= N) /\
  (forall val h, producer st = PWrite val h -> exists sl, aset (slots st) (Z.land h (kMask N)) val = Ok sl) /\
  (forall t, consumer st = CRead t -> exists val, aget (slots st) (Z.land t (kMask N)) = Ok val) /\
  v_head (pv st) = zlen (heads st) - 1 /\ v_tail (cv st) = zlen (tails st) - 1.
Proof.
  intros [l HI]%weak_inv_reachable. split; [by eapply no_race|]. destruct HI as [W1 W2 W3 W4 W5 W6 W7 W8 W9 W10].
  destruct (ho_count _ _ _ _ _ W2) as (HT & HH & Hlen). split; [by exists l|]. split; [|split; [|split]].
  - intros val h Ep. rewrite Ep in W9. destruct W9 as [-> (j & Hj & _)].
    destruct (holds_write N HN _ _ _ _ val W2 ltac:(lia)) as (Hset & _). by eexists.
  - intros t Ec. rewrite Ec in W10. destruct W10 as [-> (j & Hj & _)]. destruct l as [|x l]; [change (zlen []) with 0 in HH; lia|].
    exists x. apply (holds_front N HN _ _ _ _ _ W2).
  - rewrite (so_len _ _ _ _ _ W3). lia.
  - rewrite (so_len _ _ _ _ _ W4). lia.
Qed.

End ring.

Arguments Weak : clear implicits.
Arguments Action : clear implicits.

(** ** Each order is needed *)

(** A value is pushed and popped; the consumer reads an old [tail_] and an old
    [head_] on the way. *)
Definition demo_actions : list (Action Z) :=
  [APush 7 0; APop 0; ACheck 0; AWrite; AEmpty 0; APublish; APop 0; AEmpty 1; ARead; ARetire; APush 8 1; ACheck 0; AWrite; APop 1].
Definition demo_weak : Weak Z := default (weak_init 4 0) (acts 4 spsc_orders demo_actions (weak_init 4 0)).

Lemma ring_release_acquire_witness : races 4 demo_weak = false /\ popped demo_weak = [7].
Proof.
  destruct (ring_release_acquire 4 pow2_4 0 demo_weak) as (H & _).
  - apply (acts_reachable 4 spsc_orders demo_actions). by vm_compute.
  - split; [exact H|by vm_compute].
Defined.

(** On a ring of one slot: a push, up to the read of a pop; and a pop, up to the
    write of the next push. *)
Definition to_read : list (Action Z) := [APush 7 0; ACheck 0; AWrite; APublish; APop 0; AEmpty 1].
Definition to_write : list (Action Z) := to_read ++ [ARead; ARetire; APush 8 1; ACheck 1].

(** The orders with one of the four stronger ones relaxed. *)
Definition weakened : list Orders :=
  let rlx := memory_order_relaxed in let acq := memory_order_acquire in let rel := memory_order_release in
  [mkOrders rlx rlx rel rlx acq rel; mkOrders rlx acq rlx rlx acq rel;
   mkOrders rlx acq rel rlx rlx rel; mkOrders rlx acq rel rlx acq rlx].

(** None of the two acquire loads and two release stores can be relaxed: each
    of the four rings with one order weakened has an execution that races. *)
Theorem orders_needed : Forall (fun O => exists st, rtc (weak_step 1 O) (weak_init 1 0) st /\ races 1 st = true) weakened.
Proof.
  assert (Hrun : forall O l, (match acts 1 O l (weak_init 1 0) with Some st => races 1 st | None => false end) = true ->
    exists st, rtc (weak_step 1 O) (weak_init 1 0) st /\ races 1 st = true).
  { intros O l Hr. destruct (acts 1 O l (weak_init 1 0)) as [st|] eqn:E; [|done]. exists st. split; [by eapply acts_reachable|done]. }
  repeat constructor.
  - by apply (Hrun _ to_write); vm_compute.
  - by apply (Hrun _ to_read); vm_compute.
  - by apply (Hrun _ to_read); vm_compute.
  - by apply (Hrun _ to_write); vm_compute.
Qed.

End SpscWeak.
