(* ===== verification/Sink.v ===== *)
(** * What [Session::consume] asks of its queue

    The [Queue] template parameter of [Session::consume] needs one member,
    [push], that takes a message or refuses it.  [Sink] is that interface and
    [SinkLaws] what the session relies on: the queue implements a pure sink
    whose [v_push] says whether a message is taken, and a refused message
    leaves it as it was.  The ring of [Spsc] and the router of [ShardRouter]
    are the two instances. *)

From S2P Require Import Prelude Messages Spsc.

Class Sink (Q : Type) : Type := sink_push : Q -> InboundMsg -> res (bool * Q).

Class SinkLaws (Q V : Type) `{Sink Q} (rel : Q -> V -> Prop) (v_push : V -> InboundMsg -> option V) : Prop :=
  sink_push_ok : forall q v m, rel q v ->
    match v_push v m with
    | Some v' => exists q', sink_push q m = Ok (true, q') /\ rel q' v'
    | None => sink_push q m = Ok (false, q)
    end.

(** ** One ring *)

Section ring_sink.
Context (N : Z) (HN : Spsc.pow2 N).

Definition fifo_push (l : list InboundMsg) (m : InboundMsg) : option (list InboundMsg) :=
  if zlen l <? N then Some (l ++ [m]) else None.

#[export] Instance ring_sink : Sink (Spsc.SpscQueue InboundMsg) := Spsc.push N.

#[export] Instance ring_sink_laws : SinkLaws (Spsc.SpscQueue InboundMsg) _ (Spsc.queue_repr N) fifo_push.
Proof.
  intros q l m Hq. unfold fifo_push, sink_push, ring_sink.
  destruct (Spsc.push_spec N HN q l m Hq) as (q' & Hpush & Hq').
  destruct (zlen l <? N) eqn:E; [by exists q'|].
  destruct Hq as (H & T & Hq). unfold Spsc.push in *.
  rewrite (Spsc.holds_full N HN _ _ _ _ Hq) in *. rewrite (proj2 (Z.leb_le _ _)); [done|].
  apply Z.ltb_ge in E. done.
Qed.

End ring_sink.
