(* ===== verification/Codec.v ===== *)
(** * Framing ([include/lx/proto/codec.hpp])

    [tryDecode] looks for one frame at the front of the received bytes. *)

From S2P Require Import Prelude Messages.

Module Codec.

Definition MIN_FRAME_LEN : Z := sizeof_Header.
Definition MAX_FRAME_LEN : Z := 256.

(** [OK] carries the two output parameters. *)
Inductive DecodeResult : Type :=
| OK (type : MsgType) (frame_len : Z)
| NEED_MORE
| INVALID.

Definition known_type (t : MsgType) : bool :=
  match t with
  | LOGON | NEW_ORDER | CANCEL_ORDER | ACK | REJECT | FILL => true
  | MsgType_raw _ => false
  end.

Definition tryDecode (buf : list Z) (avail : Z) : DecodeResult :=
  if avail <? MIN_FRAME_LEN then NEED_MORE
  else
    let hdr := cdec c_Header buf in
    if (hdr_len hdr <? MIN_FRAME_LEN) || (MAX_FRAME_LEN <? hdr_len hdr) then INVALID
    else if negb (known_type (hdr_type hdr)) then INVALID
    else if avail <? hdr_len hdr then NEED_MORE
    else OK (hdr_type hdr) (hdr_len hdr).

(** ** Lemmas *)

Lemma header_app l k : sizeof_Header <= zlen l -> cdec c_Header (l ++ k) = cdec c_Header l.
Proof.
  intros H. unfold sizeof_Header, zlen in H.
  rewrite <- (dec_prefix c_Header (l ++ k)) by (rewrite length_app; lia).
  rewrite take_app_le by lia. by rewrite (dec_prefix c_Header) by lia.
Qed.

Lemma tryDecode_take buf avail k :
  0 <= avail <= zlen buf -> tryDecode (take (Z.to_nat avail) buf ++ k) avail = tryDecode buf avail.
Proof.
  intros Ha. unfold tryDecode. destruct (Z.ltb_spec avail MIN_FRAME_LEN) as [|Hmin]; [done|].
  assert (E : cdec c_Header (take (Z.to_nat avail) buf ++ k) = cdec c_Header buf); [|by rewrite E].
  assert (L : zlen (take (Z.to_nat avail) buf) = avail)
    by (unfold zlen in *; rewrite length_take; lia).
  rewrite header_app by (by rewrite L). rewrite <- (take_drop (Z.to_nat avail) buf) at 2.
  by rewrite header_app by (by rewrite L).
Qed.

Lemma tryDecode_OK buf avail t n :
  tryDecode buf avail = OK t n ->
  MIN_FRAME_LEN <= n <= MAX_FRAME_LEN /\ n <= avail /\ known_type t = true /\
  cdec c_Header buf = mkHeader n t (hdr_flags (cdec c_Header buf)) (hdr_session_id (cdec c_Header buf)).
Proof.
  unfold tryDecode. destruct (Z.ltb_spec avail MIN_FRAME_LEN); [done|].
  destruct (cdec c_Header buf) as [n' t' f s]. simpl.
  destruct (_ || _) eqn:E1; [done|]. destruct (known_type _) eqn:E2; [|done]. simpl.
  destruct (Z.ltb_spec avail n'); [done|]. intros [= <- <-].
  apply orb_false_iff in E1 as [?%Z.ltb_ge ?%Z.ltb_ge]. split; [lia|]. done.
Qed.

(** More bytes only settle what was open. *)
Lemma tryDecode_mono l k :
  tryDecode l (zlen l) <> NEED_MORE -> tryDecode (l ++ k) (zlen (l ++ k)) = tryDecode l (zlen l).
Proof.
  unfold tryDecode. rewrite zlen_app. pose proof (zlen_nonneg k).
  destruct (Z.ltb_spec (zlen l) MIN_FRAME_LEN) as [|Hmin]; [done|].
  rewrite header_app by done. rewrite (proj2 (Z.ltb_ge (zlen l + zlen k) MIN_FRAME_LEN)) by lia.
  destruct (_ || _); [done|]. destruct (negb _); [done|].
  destruct (Z.ltb_spec (zlen l) (hdr_len (cdec c_Header l))); [done|]. intros _.
  by rewrite (proj2 (Z.ltb_ge (zlen l + zlen k) _)) by lia.
Qed.

End Codec.
