(* ===== verification/Session.v ===== *)
(** * Client sessions ([include/lx/net/session.hpp])

    A session buffers the bytes of its connection and turns complete frames
    into messages for a queue.  [spec_consume] is the parser it should be:
    it eats frames from the front of a byte list. *)

From S2P Require Import Prelude Messages Codec Spsc Sink.

Module Session.
Import Codec.

Definition RECV_BUF_SIZE : Z := 4096.

Record Session : Type := mkSession {
  fd : Z;
  session_id : Z;              (* uint32_t *)
  recv_buf_ : list Z;
  recv_len_ : Z;               (* uint32_t *)
  closed_ : bool
}.

Definition session_init (fd_ sid : Z) : Session :=
  mkSession fd_ sid (replicate (Z.to_nat RECV_BUF_SIZE) 0) 0 false.

Definition append (s : Session) (data : list Z) (len : Z) : res Session :=
  let space := u32 (RECV_BUF_SIZE - recv_len_ s) in
  let len := if space <? len then space else len in
  buf ← memcpy (recv_buf_ s) (recv_len_ s) data len;
  Ok (mkSession (fd s) (session_id s) buf (u32 (recv_len_ s + len)) (closed_ s)).

Section consume.
Context {Q : Type} `{Sink Q}.

(** The message of a frame of [n] bytes at [recv_buf_ + consumed]. *)
Definition read_msg (s : Session) (consumed : Z) (n : nat) : res InboundMsg :=
  src ← bytes_at (recv_buf_ s) consumed (Z.of_nat n);
  Ok (in_set_session (in_memcpy src n) (session_id s)).

(** The loop of [consume]; [count] and [consumed] are its counters, and the
    boolean of the result is the new value of [closed_]. *)
Fixpoint consume_loop (fuel : nat) (s : Session) (q : Q) (consumed count : Z) :
    res (Z * Z * bool * Q) :=
  match fuel with
  | O => Err OutOfFuel
  | S fuel =>
      match tryDecode (drop (Z.to_nat consumed) (recv_buf_ s)) (u32 (recv_len_ s - consumed)) with
      | NEED_MORE => Ok (consumed, count, false, q)
      | INVALID => Ok (consumed, count, true, q)
      | OK type frame_len =>
          let next q := consume_loop fuel s q (u32 (consumed + frame_len)) (u32 (count + 1)) in
          if bool_decide (type = NEW_ORDER) && (frame_len =? sizeof_NewOrder) then
            msg ← read_msg s consumed (csize c_NewOrder);
            '(ok, q) ← sink_push q msg;
            if (ok : bool) then next q else Ok (consumed, count, false, q)
          else if bool_decide (type = CANCEL_ORDER) && (frame_len =? sizeof_CancelOrder) then
            msg ← read_msg s consumed (csize c_CancelOrder);
            '(ok, q) ← sink_push q msg;
            if (ok : bool) then next q else Ok (consumed, count, false, q)
          else next q
      end
  end.

(** A frame has at least [MIN_FRAME_LEN] bytes, so 513 rounds see the whole
    buffer. *)
Definition consume_fuel : nat := Z.to_nat (RECV_BUF_SIZE / MIN_FRAME_LEN + 1).

Definition consume (s : Session) (q : Q) : res (Z * Session * Q) :=
  if closed_ s then Ok (0, s, q)
  else
    '(consumed, count, closed, q) ← consume_loop consume_fuel s q 0 0;
    if 0 <? consumed then
      let n := u32 (recv_len_ s - consumed) in
      src ← bytes_at (recv_buf_ s) consumed n;
      buf ← memcpy (recv_buf_ s) 0 src n;
      Ok (count, mkSession (fd s) (session_id s) buf n closed, q)
    else Ok (count, mkSession (fd s) (session_id s) (recv_buf_ s) (recv_len_ s) closed, q).

End consume.

Definition closed (s : Session) : bool := closed_ s.

(** ** The parser it implements *)

Record session_wf (s : Session) : Prop := {
  se_buf : zlen (recv_buf_ s) = RECV_BUF_SIZE;
  se_bytes : Forall is_byte (recv_buf_ s);
  se_len : 0 <= recv_len_ s <= RECV_BUF_SIZE;
  se_id : is_u 32 (session_id s)
}.

(** The bytes received and not consumed yet. *)
Definition pending (s : Session) : list Z := take (Z.to_nat (recv_len_ s)) (recv_buf_ s).

(** The message for the engine in a frame of type [t] and length [n] at the
    front of [bs]; the other frames are skipped. *)
Definition frame_msg (sid : Z) (t : MsgType) (n : Z) (bs : list Z) : option InboundMsg :=
  if bool_decide (t = NEW_ORDER) && (n =? sizeof_NewOrder) then
    Some (in_set_session (in_memcpy bs (csize c_NewOrder)) sid)
  else if bool_decide (t = CANCEL_ORDER) && (n =? sizeof_CancelOrder) then
    Some (in_set_session (in_memcpy bs (csize c_CancelOrder)) sid)
  else None.

Lemma stamped_formed sid bs n : Forall is_byte bs -> (n <= length bs)%nat -> (csize c_Header <= n <= csize c_NewOrder)%nat ->
  in_formed (in_set_session (in_memcpy bs n) sid).
Proof.
  intros Hb Hl Hn. unfold in_formed, in_set_session, in_memcpy. cbn [in_raw]. split.
  - rewrite length_app, length_enc, length_drop, length_app, length_take, length_replicate. lia.
  - apply Forall_app. split; [apply bytes_enc|]. apply Forall_drop, Forall_app.
    split; [by apply Forall_take|]. by apply Forall_replicate.
Qed.

Lemma frame_msg_formed sid t n bs m : Forall is_byte bs -> n <= zlen bs -> frame_msg sid t n bs = Some m -> in_formed m.
Proof.
  unfold frame_msg, zlen. intros Hb Hn. case_match eqn:E1; [|case_match eqn:E2; [|done]]; intros [= <-].
  - apply andb_true_iff in E1 as [_ E1%Z.eqb_eq]. apply stamped_formed; [done|change sizeof_NewOrder with 32 in E1; lia|vm_compute; lia].
  - apply andb_true_iff in E2 as [_ E2%Z.eqb_eq]. apply stamped_formed; [done|change sizeof_CancelOrder with 16 in E2; lia|vm_compute; lia].
Qed.

Lemma memcpy_formed bs n : Forall is_byte bs -> (csize c_Header <= n)%nat -> (n <= length bs)%nat ->
  (csize c_Header <= length (in_raw (in_memcpy bs n)))%nat /\ Forall is_byte (in_raw (in_memcpy bs n)).
Proof.
  intros Hb Hn Hl. unfold in_memcpy. cbn [in_raw]. split.
  - rewrite length_app, length_take, length_replicate. lia.
  - apply Forall_app. split; [by apply Forall_take|by apply Forall_replicate].
Qed.

Lemma frame_msg_stamp sid t n bs m : is_u 32 sid -> Forall is_byte bs -> n <= zlen bs -> frame_msg sid t n bs = Some m ->
  hdr_session_id (in_hdr m) = sid.
Proof.
  unfold frame_msg, zlen. intros Hsid Hb Hn. case_match eqn:E1; [|case_match eqn:E2; [|done]]; intros [= <-].
  - apply andb_true_iff in E1 as [_ E1%Z.eqb_eq]. change sizeof_NewOrder with 32 in E1.
    destruct (memcpy_formed bs (csize c_NewOrder) Hb) as [H1 H2]; [vm_compute; lia|change (csize c_NewOrder) with 32%nat; lia|]. by rewrite in_hdr_stamp.
  - apply andb_true_iff in E2 as [_ E2%Z.eqb_eq]. change sizeof_CancelOrder with 16 in E2.
    destruct (memcpy_formed bs (csize c_CancelOrder) Hb) as [H1 H2]; [vm_compute; lia|change (csize c_CancelOrder) with 16%nat; lia|]. by rewrite in_hdr_stamp.
Qed.

Section spec.
Context {V : Type} (v_push : V -> InboundMsg -> option V).

(** Frames taken, the sink after them, the bytes left and whether the stream
    is broken. *)
Fixpoint spec_consume (fuel : nat) (sid : Z) (v : V) (bs : list Z) : Z * V * list Z * bool :=
  match fuel with
  | O => (0, v, bs, false)
  | S fuel =>
      match tryDecode bs (zlen bs) with
      | NEED_MORE => (0, v, bs, false)
      | INVALID => (0, v, bs, true)
      | OK t n =>
          match (match frame_msg sid t n bs with Some m => v_push v m | None => Some v end) with
          | None => (0, v, bs, false)
          | Some v' =>
              let '(c, v', r, b) := spec_consume fuel sid v' (drop (Z.to_nat n) bs) in (c + 1, v', r, b)
          end
      end
  end.

(** Whatever whole messages do to the queue, parsing does. *)
Lemma spec_consume_grows (R : relation V) `{!PreOrder R} :
  forall fuel sid v bs n v' r b,
  (forall v m v', in_formed m -> hdr_session_id (in_hdr m) = sid -> v_push v m = Some v' -> R v v') ->
  is_u 32 sid -> Forall is_byte bs -> spec_consume fuel sid v bs = (n, v', r, b) -> R v v'.
Proof.
  intros fuel sid v bs n v' r b Hpush Hsid. revert v bs n v' r b. induction fuel as [|fuel IH]; intros v bs n v' r b Hbs; cbn [spec_consume]; [by intros [= _ <- _ _]|].
  destruct (Codec.tryDecode bs (zlen bs)) as [t k| |] eqn:Ed; [|by intros [= _ <- _ _]..].
  apply Codec.tryDecode_OK in Ed as (_ & Hk & _).
  assert (Hnext : forall v1, R v v1 ->
    (let '(c, v', r, b) := spec_consume fuel sid v1 (drop (Z.to_nat k) bs) in (c + 1, v', r, b)) = (n, v', r, b) -> R v v').
  { intros v1 Hf. destruct (spec_consume _ _ v1 _) as [[[c v2] r2] b2] eqn:E. intros [= _ <- _ _].
    transitivity v1; [done|]. eapply IH; [|exact E]. by apply Forall_drop. }
  destruct (frame_msg sid t k bs) as [m|] eqn:Em; [|by apply Hnext].
  destruct (v_push v m) as [v1|] eqn:Ep; [|by intros [= _ <- _ _]].
  apply Hnext. eapply Hpush; [| |exact Ep]; [eapply frame_msg_formed; [exact Hbs| |exact Em]; lia|eapply frame_msg_stamp; [done|exact Hbs| |exact Em]; lia].
Qed.

End spec.

(** ** Lemmas *)

(** What is left after [consumed] bytes. *)
Definition rest_of (s : Session) (consumed : Z) : list Z :=
  take (Z.to_nat (recv_len_ s - consumed)) (drop (Z.to_nat consumed) (recv_buf_ s)).

Section facts.
Context (s : Session) (HS : session_wf s).

Lemma rest_of_0 : rest_of s 0 = pending s.
Proof. unfold rest_of. by rewrite Z.sub_0_r. Qed.

Lemma zlen_rest_of c : 0 <= c <= recv_len_ s -> zlen (rest_of s c) = recv_len_ s - c.
Proof.
  intros Hc. destruct HS. unfold rest_of. rewrite zlen_take; [done|]. rewrite zlen_drop by lia. lia.
Qed.

Lemma rest_of_drop c n : 0 <= c -> 0 <= n -> c + n <= recv_len_ s ->
  drop (Z.to_nat n) (rest_of s c) = rest_of s (c + n).
Proof.
  intros. unfold rest_of. rewrite skipn_firstn_comm, drop_drop. f_equal; [lia|]. f_equal. lia.
Qed.

Lemma decode_rest c : 0 <= c <= recv_len_ s ->
  tryDecode (drop (Z.to_nat c) (recv_buf_ s)) (u32 (recv_len_ s - c)) =
  tryDecode (rest_of s c) (zlen (rest_of s c)).
Proof.
  intros Hc. destruct HS as [Hb _ Hl _]. unfold RECV_BUF_SIZE in *. rewrite zlen_rest_of by done.
  rewrite wrapU_small by lia. rewrite <- (tryDecode_take _ _ []); [by rewrite app_nil_r|].
  rewrite zlen_drop; lia.
Qed.

Lemma read_msg_Ok c n : 0 <= c -> c + Z.of_nat n <= recv_len_ s ->
  read_msg s c n = Ok (in_set_session (in_memcpy (rest_of s c) n) (session_id s)).
Proof.
  intros Hc Hn. destruct HS as [Hb _ Hl _]. unfold read_msg. rewrite bytes_at_Ok by lia. simpl.
  unfold in_memcpy, rest_of. rewrite !take_take. do 4 f_equal. f_equal. lia.
Qed.

End facts.

Section refinement.
Context {Q V : Type} `{!Sink Q} (rel : Q -> V -> Prop) (v_push : V -> InboundMsg -> option V).
Context `{!SinkLaws Q V rel v_push}.

(** A run of the loop from [c] and [count] agrees with the parser's result. *)
Definition run_ok (s : Session) (c count bound : Z) (run : res (Z * Z * bool * Q))
    (result : Z * V * list Z * bool) : Prop :=
  let '(n, v', r, b) := result in
  exists c' q', run = Ok (c', count + n, b, q') /\ rel q' v' /\
    c <= c' <= recv_len_ s /\ r = rest_of s c' /\ 0 <= n <= bound.

Lemma run_ok_stop s c count bound q v b :
  rel q v -> 0 <= c <= recv_len_ s -> 0 <= bound ->
  run_ok s c count bound (Ok (c, count, b, q)) (0, v, rest_of s c, b).
Proof.
  intros Hr Hc Hb. exists c, q. rewrite Z.add_0_r. split; [done|]. split; [done|].
  split; [lia|]. split; [done|lia].
Qed.

Lemma run_ok_next s c d count bound run result :
  c <= d -> run_ok s d (count + 1) bound run result ->
  run_ok s c count (bound + 1) run (let '(n, v', r, b) := result in (n + 1, v', r, b)).
Proof.
  destruct result as [[[n v'] r] b]. intros Hd (c' & q' & -> & ? & ? & -> & ?). exists c', q'.
  replace (count + 1 + n) with (count + (n + 1)) by lia. split; [done|]. split; [done|].
  split; [lia|]. split; [done|lia].
Qed.

(** A frame whose message is offered to the sink. *)
Lemma run_ok_push s c count bound k q v (next : Q -> res (Z * Z * bool * Q)) (spec : V -> Z * V * list Z * bool) :
  session_wf s -> rel q v -> 0 <= c -> c + Z.of_nat k <= recv_len_ s -> 0 <= bound ->
  (forall q' v', rel q' v' -> run_ok s c count bound (next q') (spec v')) ->
  let m := in_set_session (in_memcpy (rest_of s c) k) (session_id s) in
  run_ok s c count bound
    (msg ← read_msg s c k; '(ok, q) ← sink_push q msg;
     if (ok : bool) then next q else Ok (c, count, false, q))
    (match v_push v m with None => (0, v, rest_of s c, false) | Some v' => spec v' end).
Proof.
  intros HS Hr Hc Hk Hb Hnext m. rewrite read_msg_Ok by (done || lia). simpl. fold m.
  pose proof (sink_push_ok q v m Hr) as Hp. destruct (v_push v m) as [v'|].
  - destruct Hp as (q' & -> & Hr'). by apply Hnext.
  - rewrite Hp. simpl. apply run_ok_stop; [done|lia|done].
Qed.

Lemma consume_loop_spec fuel s q v c count :
  session_wf s -> rel q v -> 0 <= c <= recv_len_ s -> 0 <= count -> count + Z.of_nat fuel < 2 ^ 32 ->
  recv_len_ s - c < MIN_FRAME_LEN * Z.of_nat fuel ->
  run_ok s c count (Z.of_nat fuel) (consume_loop fuel s q c count)
    (spec_consume v_push fuel (session_id s) v (rest_of s c)).
Proof.
  intros HS. revert q v c count. induction fuel as [|fuel IH]; intros q v c count Hr Hc Hcount Hov Hf; [lia|].
  cbn [spec_consume consume_loop]. rewrite (decode_rest s HS c Hc).
  destruct (tryDecode (rest_of s c) (zlen (rest_of s c))) as [t n| |] eqn:Hd;
    [|apply run_ok_stop; [done|lia|lia]..].
  apply tryDecode_OK in Hd as (Hn & Ha & _). rewrite zlen_rest_of in Ha by done.
  pose proof HS as [Hb _ Hl _]. change MIN_FRAME_LEN with 8 in *. unfold RECV_BUF_SIZE, MAX_FRAME_LEN in *.
  rewrite (wrapU_small 32 (c + n)), (wrapU_small 32 (count + 1)) by lia.
  rewrite rest_of_drop by lia.
  set (spec v' := let '(m, v'', r, b) := spec_consume v_push fuel (session_id s) v' (rest_of s (c + n))
                  in (m + 1, v'', r, b)).
  assert (Hnext : forall q' v', rel q' v' ->
    run_ok s c count (Z.of_nat (S fuel)) (consume_loop fuel s q' (c + n) (count + 1)) (spec v')).
  { intros q' v' Hr'. rewrite Nat2Z.inj_succ. apply (run_ok_next s c (c + n)); [lia|].
    apply IH; [done|lia|lia|lia|lia]. }
  unfold frame_msg. destruct (_ && (n =? sizeof_NewOrder)) eqn:E1.
  { apply andb_true_iff in E1 as [_ E1%Z.eqb_eq]. unfold sizeof_NewOrder in E1.
    apply run_ok_push with (spec := spec); (done || lia). }
  destruct (_ && (n =? sizeof_CancelOrder)) eqn:E2.
  { apply andb_true_iff in E2 as [_ E2%Z.eqb_eq]. unfold sizeof_CancelOrder in E2.
    apply run_ok_push with (spec := spec); (done || lia). }
  by apply Hnext.
Qed.

(** Moving the rest of the bytes to the front of the buffer. *)
Lemma move_rest s c closed : session_wf s -> 0 <= c <= recv_len_ s ->
  exists buf,
    (src ← bytes_at (recv_buf_ s) c (u32 (recv_len_ s - c));
     memcpy (recv_buf_ s) 0 src (u32 (recv_len_ s - c))) = Ok buf /\
    let s' := mkSession (fd s) (session_id s) buf (u32 (recv_len_ s - c)) closed in
    session_wf s' /\ pending s' = rest_of s c.
Proof.
  intros HS Hc. pose proof HS as [Hb HF Hl Hid]. unfold RECV_BUF_SIZE in *. rewrite wrapU_small by lia.
  rewrite bytes_at_Ok by lia. cbn [mbind res_bind]. fold (rest_of s c).
  pose proof (zlen_rest_of s HS c Hc) as Lr.
  rewrite memcpy_Ok by lia. eexists. split; [done|]. simpl.
  assert (E : take (Z.to_nat (recv_len_ s - c)) (rest_of s c) = rest_of s c)
    by (apply take_ge; unfold zlen in Lr; lia).
  rewrite E. split.
  - split; simpl; unfold RECV_BUF_SIZE.
    + rewrite zlen_app, Lr, zlen_drop by lia. lia.
    + apply Forall_app. split; [by apply Forall_take, Forall_drop|by apply Forall_drop].
    + lia.
    + done.
  - unfold pending. simpl. rewrite take_app_le by (unfold zlen in Lr; lia). done.
Qed.

Lemma consume_spec s q v : session_wf s -> closed_ s = false -> rel q v ->
  let '(n, v', r, b) := spec_consume v_push consume_fuel (session_id s) v (pending s) in
  exists s' q', consume s q = Ok (n, s', q') /\ session_wf s' /\ rel q' v' /\
    pending s' = r /\ closed_ s' = b /\ fd s' = fd s /\ session_id s' = session_id s.
Proof.
  intros HS Hcl Hr. pose proof HS as [Hb _ Hl _]. unfold RECV_BUF_SIZE in Hl.
  pose proof (consume_loop_spec consume_fuel s q v 0 0 HS Hr ltac:(lia) ltac:(lia) eq_refl) as Hrun.
  rewrite rest_of_0 in Hrun. specialize (Hrun ltac:(change (MIN_FRAME_LEN * Z.of_nat consume_fuel) with 4104; lia)).
  unfold run_ok in Hrun. destruct (spec_consume _ _ _ _ _) as [[[n v'] r] b].
  destruct Hrun as (c & q' & Hloop & Hr' & Hc & -> & _). unfold consume. rewrite Hcl, Hloop. simpl.
  destruct (Z.ltb_spec 0 c).
  - destruct (move_rest s c b HS ltac:(lia)) as (buf & Hm & HS' & Hp). unfold mbind in Hm at 1.
    destruct (bytes_at _ _ _) as [src|]; [|done]. simpl in Hm |- *. rewrite Hm. simpl. by eexists _, _.
  - replace c with 0 by lia. eexists _, q'. split; [done|]. split; [by destruct HS|].
    split; [done|]. split; [|done]. by rewrite rest_of_0.
Qed.

End refinement.

Lemma append_spec s data len : session_wf s -> Forall is_byte data -> 0 <= len <= zlen data ->
  exists s', append s data len = Ok s' /\ session_wf s' /\
    pending s' = pending s ++ take (Z.to_nat (Z.min len (RECV_BUF_SIZE - recv_len_ s))) data /\
    recv_len_ s' = recv_len_ s + Z.min len (RECV_BUF_SIZE - recv_len_ s) /\
    closed_ s' = closed_ s /\ fd s' = fd s /\ session_id s' = session_id s.
Proof.
  intros HS HF Hlen. pose proof HS as [Hb HFb Hl Hid]. unfold RECV_BUF_SIZE in *.
  unfold append. unfold RECV_BUF_SIZE. rewrite (wrapU_small 32 (4096 - recv_len_ s)) by lia.
  set (n := if 4096 - recv_len_ s <? len then 4096 - recv_len_ s else len).
  assert (En : n = Z.min len (4096 - recv_len_ s)) by (unfold n; bool_cases; lia).
  rewrite <- En. clearbody n. rewrite memcpy_Ok by lia. simpl. rewrite wrapU_small by lia.
  assert (L1 : zlen (take (Z.to_nat (recv_len_ s)) (recv_buf_ s)) = recv_len_ s) by (apply zlen_take; lia).
  assert (L2 : zlen (take (Z.to_nat n) data) = n) by (apply zlen_take; lia).
  eexists. split; [done|]. split; [|split; [|done]].
  - split; simpl; unfold RECV_BUF_SIZE.
    + rewrite !zlen_app, L1, L2, zlen_drop by lia. lia.
    + apply Forall_app. split; [by apply Forall_take|]. apply Forall_app.
      split; [by apply Forall_take|by apply Forall_drop].
    + lia.
    + done.
  - unfold pending. simpl. rewrite app_assoc, take_app_le by (rewrite length_app; unfold zlen in *; lia).
    apply take_ge. rewrite length_app. unfold zlen in *. lia.
Qed.

(** ** The parser on a growing stream *)

Section stream.
Context {V : Type} (f : V -> InboundMsg -> V) (sid : Z).

(** A sink that takes everything. *)
Definition take_all (v : V) (m : InboundMsg) : option V := Some (f v m).

Abbreviation parse := (spec_consume take_all).

Lemma frame_msg_app t n a b : tryDecode a (zlen a) = OK t n -> frame_msg sid t n (a ++ b) = frame_msg sid t n a.
Proof.
  intros (_ & Hn & _)%tryDecode_OK. unfold frame_msg, in_memcpy. unfold zlen in Hn.
  destruct (_ && (n =? sizeof_NewOrder)) eqn:E1.
  { apply andb_true_iff in E1 as [_ ->%Z.eqb_eq]. unfold sizeof_NewOrder in Hn.
    by rewrite take_app_le by lia. }
  destruct (_ && (n =? sizeof_CancelOrder)) eqn:E2; [|done].
  apply andb_true_iff in E2 as [_ ->%Z.eqb_eq]. unfold sizeof_CancelOrder in Hn.
  by rewrite take_app_le by lia.
Qed.

Lemma parse_fuel n1 n2 v bs :
  zlen bs < MIN_FRAME_LEN * Z.of_nat n1 -> zlen bs < MIN_FRAME_LEN * Z.of_nat n2 ->
  parse n1 sid v bs = parse n2 sid v bs.
Proof.
  change MIN_FRAME_LEN with 8. revert n2 v bs. induction n1 as [|n1 IH]; intros n2 v bs H1 H2;
    [pose proof (zlen_nonneg bs); lia|]. destruct n2 as [|n2]; [pose proof (zlen_nonneg bs); lia|].
  cbn [spec_consume]. destruct (tryDecode bs (zlen bs)) as [t n| |] eqn:Hd; [|done|done].
  apply tryDecode_OK in Hd as (Hn & Ha & _). change MIN_FRAME_LEN with 8 in Hn.
  assert (L : zlen (drop (Z.to_nat n) bs) = zlen bs - n) by (apply zlen_drop; lia).
  destruct (frame_msg sid t n bs); simpl; rewrite (IH n2); (done || lia).
Qed.

Lemma parse_rest n v bs c v' r k : parse n sid v bs = (c, v', r, k) -> zlen r <= zlen bs.
Proof.
  revert v bs c v' r k. induction n as [|n IH]; intros v bs c v' r k; cbn [spec_consume].
  { by intros [= _ _ <- _]. }
  destruct (tryDecode bs (zlen bs)) as [t m| |] eqn:Hd; [|by intros [= _ _ <- _]..].
  apply tryDecode_OK in Hd as (Hm & Ha & _). change MIN_FRAME_LEN with 8 in Hm.
  assert (L : zlen (drop (Z.to_nat m) bs) = zlen bs - m) by (apply zlen_drop; lia).
  destruct (frame_msg sid t m bs); simpl;
    destruct (spec_consume _ _ _ _ _) as [[[c1 v1] r1] k1] eqn:E; intros [= <- <- <- <-];
    apply IH in E; lia.
Qed.

Lemma parse_OK n v bs t k : tryDecode bs (zlen bs) = OK t k ->
  parse (S n) sid v bs =
    let '(c, v', r, b) := parse n sid (match frame_msg sid t k bs with Some m => f v m | None => v end)
                            (drop (Z.to_nat k) bs) in (c + 1, v', r, b).
Proof. intros Hd. cbn [spec_consume]. rewrite Hd. by destruct (frame_msg sid t k bs). Qed.

(** Parsing more bytes is parsing the first ones and going on with what they left. *)
Lemma parse_app n v a b :
  zlen (a ++ b) < MIN_FRAME_LEN * Z.of_nat n ->
  parse n sid v (a ++ b) =
    let '(c1, v1, r1, k1) := parse n sid v a in
    if k1 then (c1, v1, r1 ++ b, true)
    else let '(c2, v2, r2, k2) := parse n sid v1 (r1 ++ b) in (c1 + c2, v2, r2, k2).
Proof.
  change MIN_FRAME_LEN with 8.
  revert v a. induction n as [|n IH]; intros v a Hn; [pose proof (zlen_nonneg (a ++ b)); lia|].
  destruct (tryDecode a (zlen a)) as [t k| |] eqn:Hd.
  - pose proof (tryDecode_mono a b ltac:(by rewrite Hd)) as Hm. rewrite Hd in Hm.
    rewrite (parse_OK n v _ t k Hm), (parse_OK n v _ t k Hd), (frame_msg_app t k a b Hd).
    apply tryDecode_OK in Hd as (Hk & Ha & _). change MIN_FRAME_LEN with 8 in Hk.
    rewrite drop_app_le by (unfold zlen in Ha; lia).
    assert (L : zlen (drop (Z.to_nat k) a) = zlen a - k) by (apply zlen_drop; lia).
    rewrite zlen_app in Hn. rewrite IH by (rewrite zlen_app; lia).
    destruct (parse n sid _ (drop (Z.to_nat k) a)) as [[[c1 v1] r1] k1] eqn:E.
    destruct k1; [done|]. apply parse_rest in E.
    rewrite (parse_fuel (S n) n) by (rewrite zlen_app; change MIN_FRAME_LEN with 8; lia).
    destruct (parse n sid v1 (r1 ++ b)) as [[[c2 v2] r2] k2]. f_equal. f_equal. f_equal. lia.
  - assert (E : parse (S n) sid v a = (0, v, a, false)) by (cbn [spec_consume]; by rewrite Hd).
    rewrite E. destruct (parse (S n) sid v (a ++ b)) as [[[c2 v2] r2] k2]. done.
  - assert (E : parse (S n) sid v a = (0, v, a, true)) by (cbn [spec_consume]; by rewrite Hd).
    rewrite E. cbn [spec_consume]. by rewrite (tryDecode_mono a b), Hd by (by rewrite Hd).
Qed.

End stream.

(** ** Sessions fed with chunks *)

(** A queue without a bound, which records what it was given. *)
#[export] Instance log_sink : Sink (list InboundMsg) := fun q m => Ok (true, q ++ [m]).

Definition log_push (v : list InboundMsg) (m : InboundMsg) : list InboundMsg := v ++ [m].

#[export] Instance log_sink_laws : SinkLaws (list InboundMsg) _ eq (take_all log_push).
Proof. intros q v m ->. by eexists. Qed.

(** What a gateway does with each block it reads. *)
Fixpoint feed (s : Session) (q : list InboundMsg) (chunks : list (list Z)) : res (Session * list InboundMsg) :=
  match chunks with
  | [] => Ok (s, q)
  | d :: ds => s ← append s d (zlen d); '(_, s, q) ← consume s q; feed s q ds
  end.

Section feeding.
Context (s : Session) (HS : session_wf s).

Lemma append_fits d : Forall is_byte d -> recv_len_ s + zlen d <= RECV_BUF_SIZE ->
  exists s', append s d (zlen d) = Ok s' /\ session_wf s' /\ pending s' = pending s ++ d /\
    recv_len_ s' = recv_len_ s + zlen d /\ closed_ s' = closed_ s /\ session_id s' = session_id s /\ fd s' = fd s.
Proof.
  intros HF Hfit. pose proof (zlen_nonneg d).
  destruct (append_spec s d (zlen d) HS HF) as (s' & -> & ? & Hp & Hl & ? & ? & ?); [lia|].
  rewrite Z.min_l in Hp, Hl by lia. exists s'. do 2 (split; [done|]). split; [|done].
  rewrite Hp, take_ge; [done|]. unfold zlen. lia.
Qed.

Lemma zlen_pending : zlen (pending s) = recv_len_ s.
Proof. unfold pending. destruct HS. apply zlen_take. lia. Qed.

End feeding.

Lemma feed_closed s q chunks :
  session_wf s -> closed_ s = true -> Forall (Forall is_byte) chunks ->
  recv_len_ s + zlen (concat chunks) <= RECV_BUF_SIZE ->
  exists s', feed s q chunks = Ok (s', q) /\ closed_ s' = true /\ pending s' = pending s ++ concat chunks.
Proof.
  revert s. induction chunks as [|d ds IH]; intros s HS Hcl HF Hfit; simpl.
  { exists s. by rewrite app_nil_r. }
  apply Forall_cons in HF as [Hd HF]. simpl in Hfit. rewrite zlen_app in Hfit.
  pose proof (zlen_nonneg (concat ds)).
  destruct (append_fits s HS d Hd) as (s1 & -> & HS1 & Hp & Hl & Hc & _); [lia|]. simpl.
  unfold consume. rewrite Hc, Hcl. simpl.
  destruct (IH s1 HS1) as (s' & -> & ? & Hp'); [congruence|done|lia|].
  exists s'. do 2 (split; [done|]). by rewrite Hp', Hp, app_assoc.
Qed.

(** The outcome only depends on the bytes. *)
Lemma feed_parse s q d ds :
  session_wf s -> closed_ s = false -> Forall (Forall is_byte) (d :: ds) ->
  recv_len_ s + zlen (concat (d :: ds)) <= RECV_BUF_SIZE ->
  let '(_, q', r, b) := spec_consume (take_all log_push) consume_fuel (session_id s) q
                          (pending s ++ concat (d :: ds)) in
  exists s', feed s q (d :: ds) = Ok (s', q') /\ closed_ s' = b /\ pending s' = r.
Proof.
  revert s q d. induction ds as [|d2 ds IH]; intros s q d HS Hcl HF Hfit;
    apply Forall_cons in HF as [Hd HF]; rewrite concat_cons in Hfit |- *; rewrite zlen_app in Hfit;
    pose proof (zlen_nonneg d).
  - cbn [feed]. destruct (append_fits s HS d Hd) as (s1 & -> & HS1 & Hp & Hl & Hc & Hi & _); [change (zlen (concat [])) with 0 in Hfit; lia|].
    pose proof (consume_spec eq (take_all log_push) s1 q q HS1 ltac:(congruence) eq_refl) as Hcons.
    rewrite app_nil_r, <- Hp, <- Hi. destruct (spec_consume _ _ _ _ _) as [[[n v'] r] b].
    destruct Hcons as (s' & q' & Hrun & _ & -> & ? & ? & _). simpl. rewrite Hrun. simpl. by exists s'.
  - remember (d2 :: ds) as ds2 eqn:E2. cbn [feed].
    assert (Hpos : 0 <= zlen (concat ds2)) by apply zlen_nonneg.
    destruct (append_fits s HS d Hd) as (s1 & -> & HS1 & Hp & Hl & Hc & Hi & _); [lia|].
    pose proof (consume_spec eq (take_all log_push) s1 q q HS1 ltac:(congruence) eq_refl) as Hcons.
    rewrite app_assoc, <- Hp, <- Hi, parse_app.
    2:{ rewrite zlen_app, (zlen_pending s1 HS1), Hl.
        change (MIN_FRAME_LEN * Z.of_nat consume_fuel) with 4104. unfold RECV_BUF_SIZE in Hfit. lia. }
    destruct (spec_consume _ _ _ q (pending s1)) as [[[n v1] r1] k1] eqn:E1.
    destruct Hcons as (s2 & q2 & Hrun & HS2 & -> & Hp2 & Hc2 & _ & Hi2).
    cbn [mbind res_bind]. rewrite Hrun. cbn [mbind res_bind].
    assert (Hl2 : recv_len_ s2 <= recv_len_ s1).
    { rewrite <- (zlen_pending s2 HS2), <- (zlen_pending s1 HS1), Hp2. by eapply parse_rest. }
    destruct k1.
    + destruct (feed_closed s2 v1 ds2 HS2 Hc2 HF ltac:(lia)) as (s' & -> & ? & ?).
      exists s'. split; [done|]. split; [done|]. by rewrite <- Hp2.
    + subst ds2. specialize (IH s2 v1 d2 HS2 Hc2 HF ltac:(lia)). rewrite Hp2, Hi2 in IH.
      by destruct (spec_consume _ _ _ v1 _) as [[[n2 v2] r2] k2].
Qed.

(** ** Delivery *)

(** What a client sends to the engine. *)
Inductive Request : Type :=
| RNew (o : NewOrder)
| RCancel (c : CancelOrder).

Definition request_bytes (r : Request) : list Z :=
  match r with RNew o => cenc c_NewOrder o | RCancel c => cenc c_CancelOrder c end.

Definition request_ok (r : Request) : Prop :=
  match r with
  | RNew o => cok c_NewOrder o /\ hdr_len (no_hdr o) = sizeof_NewOrder /\ hdr_type (no_hdr o) = NEW_ORDER
  | RCancel c => cok c_CancelOrder c /\ hdr_len (co_hdr c) = sizeof_CancelOrder /\
                 hdr_type (co_hdr c) = CANCEL_ORDER
  end.

(** The engine gets the request with the session of the connection. *)
Definition delivers (sid : Z) (r : Request) (m : InboundMsg) : Prop :=
  match r with
  | RNew o => hdr_type (in_hdr m) = NEW_ORDER /\ hdr_session_id (in_hdr m) = sid /\
              in_new_order m = with_session o sid
  | RCancel c => hdr_type (in_hdr m) = CANCEL_ORDER /\ hdr_session_id (in_hdr m) = sid /\
                 in_cancel m = cancel_with_session c sid
  end.

Lemma zlen_request r : zlen (request_bytes r) =
  match r with RNew _ => sizeof_NewOrder | RCancel _ => sizeof_CancelOrder end.
Proof. destruct r; unfold zlen; cbn [request_bytes]; by rewrite length_enc. Qed.

Lemma request_header r k : request_ok r ->
  cdec c_Header (request_bytes r ++ k) = match r with RNew o => no_hdr o | RCancel c => co_hdr c end.
Proof.
  intros Hok. rewrite header_app by (rewrite zlen_request; by destruct r).
  destruct r as [o|c]; destruct Hok as [Hok _]; cbn [request_bytes].
  - rewrite <- (dec_enc (c := c_NewOrder) o Hok) at 2. done.
  - rewrite <- (dec_enc (c := c_CancelOrder) c Hok) at 2. done.
Qed.

Lemma request_decode r k : request_ok r ->
  tryDecode (request_bytes r ++ k) (zlen (request_bytes r ++ k)) =
    match r with RNew _ => OK NEW_ORDER sizeof_NewOrder | RCancel _ => OK CANCEL_ORDER sizeof_CancelOrder end.
Proof.
  intros Hok. unfold tryDecode. rewrite (request_header r k Hok), zlen_app, zlen_request.
  pose proof (zlen_nonneg k).
  change MIN_FRAME_LEN with 8. change sizeof_NewOrder with 32. change sizeof_CancelOrder with 16.
  destruct r as [o|c]; destruct Hok as (_ & El & Et); rewrite El, Et.
  - assert (E1 : (32 + zlen k <? 8) = false) by lia. assert (E2 : (32 + zlen k <? 32) = false) by lia.
    change sizeof_NewOrder with 32. by rewrite E1, E2.
  - assert (E1 : (16 + zlen k <? 8) = false) by lia. assert (E2 : (16 + zlen k <? 16) = false) by lia.
    change sizeof_CancelOrder with 16. by rewrite E1, E2.
Qed.

Lemma bytes_request r : Forall is_byte (request_bytes r).
Proof. destruct r; apply bytes_enc. Qed.

(** The message made from a request at the front of the stream. *)
Definition request_msg (sid : Z) (r : Request) : InboundMsg :=
  in_set_session (in_memcpy (request_bytes r) (length (request_bytes r))) sid.

Lemma request_frame sid r k : request_ok r ->
  match r with
  | RNew _ => frame_msg sid NEW_ORDER sizeof_NewOrder (request_bytes r ++ k)
  | RCancel _ => frame_msg sid CANCEL_ORDER sizeof_CancelOrder (request_bytes r ++ k)
  end = Some (request_msg sid r).
Proof.
  intros _. unfold request_msg, frame_msg, in_memcpy.
  destruct r; cbn [request_bytes]; simpl bool_decide; simpl andb; rewrite length_enc;
    (rewrite take_app_le by (by rewrite length_enc)); done.
Qed.

Lemma request_delivers sid r : is_u 32 sid -> request_ok r -> delivers sid r (request_msg sid r).
Proof.
  intros Hsid Hok. set (m := in_memcpy (request_bytes r) (length (request_bytes r))).
  assert (Eraw : exists z, in_raw m = request_bytes r ++ z /\ Forall is_byte z).
  { eexists. unfold m, in_memcpy. cbn [in_raw]. rewrite take_ge by done. split; [done|].
    apply Forall_replicate. done. }
  destruct Eraw as (z & Eraw & Hz). pose proof (zlen_request r) as Lr.
  assert (Hlen : (csize c_Header <= length (in_raw m))%nat).
  { rewrite Eraw, length_app. unfold zlen in Lr. destruct r; [unfold sizeof_NewOrder in Lr|unfold sizeof_CancelOrder in Lr];
      simpl in *; lia. }
  assert (Hb : Forall is_byte (in_raw m)) by (rewrite Eraw; apply Forall_app; split; [apply bytes_request|done]).
  unfold request_msg. fold m.
  pose proof (in_hdr_stamp m sid Hlen Hb Hsid) as Hh.
  assert (Ehdr : in_hdr m = match r with RNew o => no_hdr o | RCancel c => co_hdr c end)
    by (unfold in_hdr; rewrite Eraw; by apply request_header).
  destruct r as [o|c]; destruct Hok as (Hok & El & Et); cbn [delivers]; rewrite Hh, Ehdr; simpl.
  - do 2 (split; [done|]). rewrite in_new_order_stamp by done. f_equal.
    unfold in_new_order. rewrite Eraw. cbn [request_bytes].
    rewrite (dec_app (c := c_NewOrder)) by apply length_enc. by apply dec_enc.
  - do 2 (split; [done|]). rewrite in_cancel_stamp by done. f_equal.
    unfold in_cancel. rewrite Eraw. cbn [request_bytes].
    rewrite (dec_app (c := c_CancelOrder)) by apply length_enc. by apply dec_enc.
Qed.

Lemma parse_requests n sid v rs : Forall request_ok rs -> (length rs < n)%nat ->
  spec_consume (take_all log_push) n sid v (concat (request_bytes <$> rs)) =
    (zlen rs, v ++ (request_msg sid <$> rs), [], false).
Proof.
  intros HF. revert n v. induction HF as [|r rs Hr _ IH]; intros n v Hn; (destruct n as [|n]; [simpl in Hn; lia|]).
  { rewrite app_nil_r. done. }
  rewrite fmap_cons, concat_cons. set (k := concat (request_bytes <$> rs)).
  assert (Hn' : (length rs < n)%nat) by (simpl in Hn; lia).
  pose proof (request_decode r k Hr) as Hd. pose proof (request_frame sid r k Hr) as Hf.
  pose proof (zlen_request r) as Lr.
  destruct r as [o|c]; rewrite (parse_OK log_push sid n v _ _ _ Hd), Hf, drop_app_length'
      by (unfold zlen in Lr; lia);
    unfold k; rewrite IH by done; unfold log_push; rewrite zlen_cons, fmap_cons, <- app_assoc;
    f_equal; f_equal; f_equal; lia.
Qed.

Lemma requests_bound rs : 16 * zlen rs <= zlen (concat (request_bytes <$> rs)).
Proof.
  induction rs as [|r rs IH]; [done|]. rewrite fmap_cons, concat_cons, zlen_app, zlen_cons, zlen_request.
  destruct r; [change sizeof_NewOrder with 32|change sizeof_CancelOrder with 16]; lia.
Qed.

(** ** Guarantees *)

(** C14: [consume] terminates, stays inside the receive buffer and implements
    the parser, over every queue that keeps the queue interface: it hands over
    the messages of the complete frames in order, stops at an incomplete frame,
    at a refused message (which stays buffered) or at a malformed header
    (which closes the session), and keeps exactly the bytes not consumed. *)
Theorem consume_refines {Q V : Type} `{!Sink Q} (rel : Q -> V -> Prop) v_push
    `{!SinkLaws Q V rel v_push} s q v :
  session_wf s -> closed_ s = false -> rel q v ->
  exists s' q' n v' r b,
    spec_consume v_push consume_fuel (session_id s) v (pending s) = (n, v', r, b) /\
    consume s q = Ok (n, s', q') /\ session_wf s' /\ rel q' v' /\
    pending s' = r /\ closed_ s' = b /\ session_id s' = session_id s.
Proof.
  intros HS Hcl Hr. pose proof (consume_spec rel v_push s q v HS Hcl Hr) as H.
  destruct (spec_consume _ _ _ _ _) as [[[n v'] r] b].
  destruct H as (s' & q' & ? & ? & ? & ? & ? & _ & ?). by exists s', q', n, v', r, b.
Qed.

(** How the network splits the stream does not matter: feeding any non-empty
    sequence of blocks, with a [consume] after each, hands over the same
    messages and leaves the same bytes and the same closed flag as feeding
    their concatenation at once, as long as the bytes fit into the receive
    buffer and the queue refuses nothing. *)
Theorem chunks_do_not_matter s q d ds :
  session_wf s -> closed_ s = false -> Forall (Forall is_byte) (d :: ds) ->
  recv_len_ s + zlen (concat (d :: ds)) <= RECV_BUF_SIZE ->
  exists s1 s2 q', feed s q (d :: ds) = Ok (s1, q') /\ feed s q [concat (d :: ds)] = Ok (s2, q') /\
    closed_ s1 = closed_ s2 /\ pending s1 = pending s2.
Proof.
  intros HS Hcl HF Hfit. pose proof (feed_parse s q d ds HS Hcl HF Hfit) as H1.
  assert (HF' : Forall (Forall is_byte) [concat (d :: ds)]).
  { apply Forall_singleton, Forall_concat. done. }
  pose proof (feed_parse s q (concat (d :: ds)) [] HS Hcl HF') as H2.
  change (concat [concat (d :: ds)]) with (concat (d :: ds) ++ []) in H2. rewrite app_nil_r in H2.
  specialize (H2 Hfit). destruct (spec_consume _ _ _ _ _) as [[[n q'] r] b].
  destruct H1 as (s1 & ? & ? & ?), H2 as (s2 & ? & ? & ?). exists s1, s2, q'.
  do 2 (split; [done|]). split; congruence.
Qed.

(** Requests arrive: every sequence of well-formed orders and cancels that
    fits into the buffer of an idle session is handed over completely and in
    order, each with its fields as the client encoded them and with the session
    of the connection in place of whatever the client claimed. *)
Theorem requests_delivered s q rs :
  session_wf s -> closed_ s = false -> pending s = [] -> Forall request_ok rs ->
  zlen (concat (request_bytes <$> rs)) <= RECV_BUF_SIZE ->
  exists s' ms, feed s q [concat (request_bytes <$> rs)] = Ok (s', q ++ ms) /\
    Forall2 (delivers (session_id s)) rs ms /\ pending s' = [] /\ closed_ s' = false.
Proof.
  intros HS Hcl Hp HF Hfit. pose proof (requests_bound rs) as Hb. unfold RECV_BUF_SIZE in Hfit.
  assert (Hlen : recv_len_ s = 0) by (by rewrite <- (zlen_pending s HS), Hp).
  assert (HB : Forall (Forall is_byte) [concat (request_bytes <$> rs)]).
  { apply Forall_singleton, Forall_concat, Forall_fmap, Forall_forall. intros r _. apply bytes_request. }
  pose proof (feed_parse s q (concat (request_bytes <$> rs)) [] HS Hcl HB) as H.
  rewrite concat_cons in H. cbn [concat] in H. rewrite app_nil_r, Hp in H. simpl app in H.
  rewrite parse_requests in H; [|done|change consume_fuel with 513%nat; unfold zlen in *; lia].
  destruct H as (s' & Hrun & Hc & Hp'); [unfold RECV_BUF_SIZE; lia|].
  exists s', (request_msg (session_id s) <$> rs). split; [done|]. split; [|done].
  apply Forall2_fmap_r, Forall_Forall2_diag. eapply Forall_impl; [exact HF|].
  intros r Hr. by apply request_delivers, Hr; apply HS.
Qed.

(** [append] never writes outside the buffer, but bytes that do not fit are
    lost: the session keeps the longest prefix that fits, and the caller is not
    told. *)
Theorem append_truncates s data : session_wf s -> Forall is_byte data -> is_u 32 (zlen data) ->
  exists s', append s data (zlen data) = Ok s' /\ session_wf s' /\
    pending s' = pending s ++ take (Z.to_nat (RECV_BUF_SIZE - recv_len_ s)) data /\
    (pending s' = pending s ++ data <-> recv_len_ s + zlen data <= RECV_BUF_SIZE).
Proof.
  intros HS HF _. pose proof (zlen_nonneg data).
  destruct (append_spec s data (zlen data) HS HF ltac:(lia)) as (s' & ? & ? & Hp & _).
  exists s'. do 2 (split; [done|]).
  assert (Ht : take (Z.to_nat (Z.min (zlen data) (RECV_BUF_SIZE - recv_len_ s))) data =
               take (Z.to_nat (RECV_BUF_SIZE - recv_len_ s)) data).
  { destruct (Z.le_ge_cases (zlen data) (RECV_BUF_SIZE - recv_len_ s)).
    - rewrite Z.min_l by done. by rewrite !take_ge by (unfold zlen in *; lia).
    - by rewrite Z.min_r by done. }
  rewrite Ht in Hp. split; [done|]. rewrite Hp. split.
  - intros E%app_inv_head. apply (f_equal length) in E. rewrite length_take in E.
    destruct HS as [_ _ Hl _]. unfold zlen in *. lia.
  - intros Hfit. by rewrite take_ge by (unfold zlen in *; lia).
Qed.

(** ** A concrete session

    Session 7 has received a new order whose header claims session 99. *)

Lemma session_init_wf fd sid : is_u 32 sid -> session_wf (session_init fd sid).
Proof.
  intros H. unfold session_init. split; cbn [recv_buf_ recv_len_ session_id].
  - by rewrite zlen_replicate.
  - by apply Forall_replicate.
  - done.
  - done.
Qed.

Definition demo_order : NewOrder := mkNewOrder (mkHeader 32 NEW_ORDER 0 99) 1 1050 10 0 SELL GTC.
Definition demo_cancel : CancelOrder := mkCancelOrder (mkHeader 16 CANCEL_ORDER 0 99) 5.

Definition demo_session : Session :=
  mkSession 3 7 (cenc c_NewOrder demo_order ++ replicate 4064 0) 32 false.

Lemma demo_session_wf : session_wf demo_session.
Proof.
  unfold demo_session. split; cbn [recv_buf_ recv_len_ session_id].
  - by rewrite zlen_app, zlen_replicate.
  - apply Forall_app. split; [apply bytes_enc|by apply Forall_replicate].
  - done.
  - done.
Qed.

Lemma demo_requests_ok : Forall request_ok [RNew demo_order; RCancel demo_cancel].
Proof. repeat constructor; by vm_compute. Qed.

Lemma consume_refines_witness :
  exists s' q', @consume _ (ring_sink 4) demo_session (Spsc.queue_init 4 (mkInbound [])) = Ok (1, s', q') /\
    pending s' = [].
Proof.
  destruct (@consume_refines _ _ (ring_sink 4) (Spsc.queue_repr 4) (fifo_push 4) (ring_sink_laws 4 Spsc.pow2_4)
    demo_session (Spsc.queue_init 4 (mkInbound [])) [] demo_session_wf eq_refl
    (Spsc.queue_init_repr 4 Spsc.pow2_4 _)) as (s' & q' & n & v' & r & b & Hspec & Hrun & _ & _ & Hp & _).
  exists s', q'. vm_compute in Hspec. injection Hspec as <- _ <- _. split; [exact Hrun|exact Hp].
Defined.

Lemma chunks_do_not_matter_witness :
  let bs := cenc c_NewOrder demo_order in
  exists s1 s2 q', feed (session_init 3 7) [] [take 5 bs; take 20 (drop 5 bs); drop 25 bs] = Ok (s1, q') /\
    feed (session_init 3 7) [] [bs] = Ok (s2, q') /\ closed_ s1 = closed_ s2 /\ pending s1 = pending s2.
Proof.
  intros bs. apply (chunks_do_not_matter (session_init 3 7) [] (take 5 bs) [take 20 (drop 5 bs); drop 25 bs]).
  - apply session_init_wf. by vm_compute.
  - reflexivity.
  - assert (HF : Forall is_byte bs) by apply bytes_enc.
    rewrite !Forall_cons, Forall_nil.
    split; [by apply Forall_take|]. split; [by apply Forall_take, Forall_drop|]. by split; [apply Forall_drop|].
  - by vm_compute.
Defined.

Lemma requests_delivered_witness :
  exists s' ms, feed (session_init 3 7) [] [concat (request_bytes <$> [RNew demo_order; RCancel demo_cancel])]
      = Ok (s', ms) /\ Forall2 (delivers 7) [RNew demo_order; RCancel demo_cancel] ms.
Proof.
  destruct (requests_delivered (session_init 3 7) [] [RNew demo_order; RCancel demo_cancel]
    (session_init_wf 3 7 ltac:(by vm_compute)) eq_refl eq_refl demo_requests_ok ltac:(by vm_compute))
    as (s' & ms & Hrun & Hd & _).
  exists s', ms. split; [exact Hrun|exact Hd].
Defined.

Lemma append_truncates_witness :
  exists s', append demo_session (replicate 4096 1) 4096 = Ok s' /\
    pending s' <> pending demo_session ++ replicate 4096 1.
Proof.
  assert (HF : Forall is_byte (replicate 4096 1)) by (by apply Forall_replicate).
  destruct (append_truncates demo_session (replicate 4096 1) demo_session_wf HF) as (s' & Hrun & _ & _ & Hiff).
  - by vm_compute.
  - exists s'. split; [exact Hrun|]. intros E%Hiff. vm_compute in E. by apply E.
Defined.

End Session.
