(* ===== verification/Shard.v ===== *)
(** * Matching shards ([include/lx/engine/shard.hpp])

    A [Shard<CFG>] owns the books of its symbols, the order arena they share,
    and the two rings that connect it to the gateway.  This file holds the
    operations; [ShardInv] the invariant and what [tick] does. *)

From S2P Require Import Prelude Messages Order LevelBitmap Pool PriceLevel OrderHandle OrderBook Spsc.

Module Shard.
Import OrderHandle OrderBook.

Record ShardConfig : Type := mkConfig {
  max_orders : Z;       (* uint32_t *)
  ladder_size : Z;      (* uint32_t *)
  queue_depth : Z;      (* uint32_t *)
  max_symbols : Z;      (* uint16_t *)
  symbol_space : Z      (* uint16_t *)
}.

Definition MAX_FILLS_PER_ORDER : Z := 64.
Definition NO_BOOK : Z := UINT16_MAX.

Record Shard : Type := mkShard {
  arena_ : Arena;                               (* pool_ and order_session_ *)
  books_ : list OrderBook;
  local_of_ : list Z;                           (* uint16_t per symbol id *)
  inbound_ : Spsc.SpscQueue InboundMsg;
  outbound_ : Spsc.SpscQueue OutboundMsg;
  running_ : bool;
  shard_id_ : Z                                 (* uint8_t *)
}.

Definition set_arena (sh : Shard) (ar : Arena) : Shard :=
  mkShard ar (books_ sh) (local_of_ sh) (inbound_ sh) (outbound_ sh) (running_ sh) (shard_id_ sh).
Definition set_books (sh : Shard) (bks : list OrderBook) : Shard :=
  mkShard (arena_ sh) bks (local_of_ sh) (inbound_ sh) (outbound_ sh) (running_ sh) (shard_id_ sh).
Definition set_inbound (sh : Shard) (q : Spsc.SpscQueue InboundMsg) : Shard :=
  mkShard (arena_ sh) (books_ sh) (local_of_ sh) q (outbound_ sh) (running_ sh) (shard_id_ sh).
Definition set_outbound (sh : Shard) (q : Spsc.SpscQueue OutboundMsg) : Shard :=
  mkShard (arena_ sh) (books_ sh) (local_of_ sh) (inbound_ sh) q (running_ sh) (shard_id_ sh).

Section shard.
Context (CFG : ShardConfig).

Definition SYMBOL_SPACE : Z :=
  if negb (symbol_space CFG =? 0) then symbol_space CFG else max_symbols CFG.

(** ** Construction *)

(** [for (s = 0; s < max_symbols && s < SYMBOL_SPACE; ++s) local_of_[s] = s;] *)
Fixpoint identity_map (fuel : nat) (s : Z) (local_of : list Z) : res (list Z) :=
  match fuel with
  | O => Err OutOfFuel
  | S fuel =>
      if (s <? max_symbols CFG) && (s <? SYMBOL_SPACE) then
        local_of ← aset local_of s s; identity_map fuel (u16 (s + 1)) local_of
      else Ok local_of
  end.

(** [for (s : symbols) { assert(s < SYMBOL_SPACE); local_of_[s] = next++; }] *)
Fixpoint assign_symbols (symbols : list Z) (next : Z) (local_of : list Z) : res (list Z) :=
  match symbols with
  | [] => Ok local_of
  | s :: symbols =>
      _ ← assert_ (s <? SYMBOL_SPACE);
      local_of ← aset local_of s next;
      assign_symbols symbols (u16 (next + 1)) local_of
  end.

Definition make_books (base_price tick_size : Z) : list OrderBook :=
  replicate (Z.to_nat (max_symbols CFG)) (book_init (ladder_size CFG) base_price tick_size).

(** The rings start with zeroed slots. *)
Definition zero_inbound : InboundMsg := mkInbound (replicate 32 0).
Definition zero_outbound : OutboundMsg :=
  out_fill (mkFill (mkHeader 0 (MsgType_raw 0) 0 0) 0 0 0 0 0).

Definition shard_init (base_price tick_size shard_id : Z) (symbols : list Z) : res Shard :=
  let local_of := replicate (Z.to_nat SYMBOL_SPACE) NO_BOOK in
  local_of ←
    (match symbols with
     | [] => identity_map (S (Z.to_nat SYMBOL_SPACE)) 0 local_of
     | _ =>
         _ ← assert_ (zlen symbols <=? max_symbols CFG);
         assign_symbols symbols 0 local_of
     end);
  Ok (mkShard (arena_init (max_orders CFG)) (make_books base_price tick_size) local_of
        (Spsc.queue_init (queue_depth CFG) zero_inbound)
        (Spsc.queue_init (queue_depth CFG) zero_outbound) true shard_id).

(** ** Reports *)

(** [while (!outbound_.push(m)) ;]: with no other thread running, a full ring
    is waited on forever. *)
Definition push_out (sh : Shard) (m : OutboundMsg) : res Shard :=
  '(ok, q) ← Spsc.push (queue_depth CFG) (outbound_ sh) m;
  if (ok : bool) then Ok (set_outbound sh q) else Err Spin.

Definition emit_fill (sh : Shard) (fill : Fill) (aggressor_session : Z) : res Shard :=
  sh ← push_out sh (out_fill fill);
  if negb (aggressor_session =? hdr_session_id (fill_hdr fill)) then
    push_out sh (out_fill (mkFill (set_session (fill_hdr fill) aggressor_session)
      (fill_aggressor_id fill) (fill_resting_id fill) (fill_price fill) (fill_qty fill)
      (fill_padding fill)))
  else Ok sh.

Definition emit_ack (sh : Shard) (order_id token session_id : Z) : res Shard :=
  push_out sh (out_ack (mkAck (mkHeader sizeof_Ack ACK 0 session_id) order_id token)).

Definition emit_reject (sh : Shard) (order_id : Z) (reason : RejectReason) (session_id : Z) : res Shard :=
  push_out sh (out_reject (mkReject (mkHeader sizeof_Reject REJECT 0 session_id) order_id reason 0)).

(** ** Requests *)

Definition local_book (sh : Shard) (symbol : Z) : res Z :=
  if symbol <? SYMBOL_SPACE then aget (local_of_ sh) symbol else Ok NO_BOOK.

Fixpoint emit_fills (sh : Shard) (fills : list Fill) (session_id : Z) : res Shard :=
  match fills with
  | [] => Ok sh
  | f :: fills => sh ← emit_fill sh f session_id; emit_fills sh fills session_id
  end.

Definition handle_new (sh : Shard) (order : NewOrder) (session_id : Z) : res Shard :=
  book ← local_book sh (no_symbol_id order);
  if book =? NO_BOOK then emit_reject sh (no_order_id order) UNKNOWN_SYMBOL session_id
  else
    bk ← aget (books_ sh) book;
    '(h, fills, bk, ar) ←
      add_order (max_orders CFG) (ladder_size CFG) bk (arena_ sh) order [] MAX_FILLS_PER_ORDER;
    bks ← aset (books_ sh) book bk;
    let sh := set_arena (set_books sh bks) ar in
    sh ← emit_fills sh fills session_id;
    if valid h then emit_ack sh (no_order_id order) (to_token h (shard_id_ sh)) session_id
    else Ok sh.

Definition handle_cancel (sh : Shard) (cancel : CancelOrder) (session_id : Z) : res Shard :=
  let h := from_token (co_order_token cancel) in
  if max_orders CFG <=? h_slot h then emit_reject sh 0 UNKNOWN_ORDER session_id
  else
    g ← Pool.gen (pool_ (arena_ sh)) (h_slot h);
    if negb (g =? h_gen h) then emit_reject sh 0 UNKNOWN_ORDER session_id
    else
      o ← Pool.at_ (max_orders CFG) (pool_ (arena_ sh)) (h_slot h);
      book ← local_book sh (o_symbol o);
      if book =? NO_BOOK then emit_reject sh 0 UNKNOWN_ORDER session_id
      else
        bk ← aget (books_ sh) book;
        '(ok, bk, ar) ← cancel_order (max_orders CFG) (ladder_size CFG) bk (arena_ sh) h;
        bks ← aset (books_ sh) book bk;
        let sh := set_arena (set_books sh bks) ar in
        if (ok : bool) then emit_ack sh 0 (co_order_token cancel) session_id
        else emit_reject sh 0 UNKNOWN_ORDER session_id.

Definition tick (sh : Shard) : res Shard :=
  '(m, q) ← Spsc.pop (queue_depth CFG) (inbound_ sh);
  match m with
  | None => Ok sh
  | Some msg =>
      let sh := set_inbound sh q in
      let session_id := hdr_session_id (in_hdr msg) in
      match hdr_type (in_hdr msg) with
      | NEW_ORDER => handle_new sh (in_new_order msg) session_id
      | CANCEL_ORDER => handle_cancel sh (in_cancel msg) session_id
      | _ => Ok sh
      end
  end.

(** [run] leaves its loop when another thread has called [stop]; [n] bounds
    the rounds before it does. *)
Fixpoint run (n : nat) (sh : Shard) : res Shard :=
  match n with
  | O => Ok sh
  | S n => if running_ sh then sh ← tick sh; run n sh else Ok sh
  end.

Definition stop (sh : Shard) : Shard :=
  mkShard (arena_ sh) (books_ sh) (local_of_ sh) (inbound_ sh) (outbound_ sh) false (shard_id_ sh).

Definition best_bid (sh : Shard) (symbol : Z) : res Z :=
  book ← local_book sh symbol;
  if book =? NO_BOOK then Ok INT64_MIN else bk ← aget (books_ sh) book; best_bid_price bk.

Definition best_ask (sh : Shard) (symbol : Z) : res Z :=
  book ← local_book sh symbol;
  if book =? NO_BOOK then Ok INT64_MAX else bk ← aget (books_ sh) book; best_ask_price bk.

End shard.

End Shard.
