(* ===== verification/ShardWork.v ===== *)
(** * The matching thread of a shard ([include/lx/engine/shard.hpp])

    [tick] in two phases, the way the thread of a shard runs it: the work on
    one request, which touches the books and yields the reports, and the
    pushes of these reports, each of which may have to wait for the consumer
    of the outbound ring.  The phases make up [tick], and a thread interrupted
    between any two of its pushes goes on where it was. *)

From S2P Require Import Prelude Messages Order LevelBitmap Pool PriceLevel OrderHandle OrderBook Spsc Shard.

Module ShardWork.
Import OrderHandle OrderBook Shard.

(** ** Reports *)

Definition fill_reports (session : Z) (f : Fill) : list OutboundMsg :=
  out_fill f ::
  (if session =? hdr_session_id (fill_hdr f) then []
   else [out_fill (mkFill (set_session (fill_hdr f) session) (fill_aggressor_id f)
           (fill_resting_id f) (fill_price f) (fill_qty f) (fill_padding f))]).

Definition reports (session : Z) (fs : list Fill) : list OutboundMsg :=
  concat (fill_reports session <$> fs).

Definition ack_of (order_id token session : Z) : OutboundMsg :=
  out_ack (mkAck (mkHeader sizeof_Ack ACK 0 session) order_id token).
Definition reject_of (order_id : Z) (reason : RejectReason) (session : Z) : OutboundMsg :=
  out_reject (mkReject (mkHeader sizeof_Reject REJECT 0 session) order_id reason 0).

(** The reports of one order: fills to both sides, then the acknowledgement. *)
Definition order_reports (sid id : Z) (rests : bool) (fs : list Fill) (token : Z) : list OutboundMsg :=
  reports sid fs ++ if rests then [ack_of id token sid] else [].

Lemma reports_bound session fs : zlen (reports session fs) <= 2 * zlen fs.
Proof.
  induction fs as [|f fs IH]; [done|]. unfold reports in *.
  rewrite fmap_cons, concat_cons, zlen_app, zlen_cons. unfold fill_reports at 1.
  rewrite zlen_cons. destruct (_ =? _); [change (zlen []) with 0|rewrite zlen_cons; change (zlen []) with 0]; lia.
Qed.

Section work.
Context (CFG : ShardConfig).

(** ** The work on one request *)

(** [handle_new], up to its first [emit_fill]. *)
Definition new_work (sh : Shard) (order : NewOrder) (session_id : Z) : res (Shard * list OutboundMsg) :=
  book ← local_book CFG sh (no_symbol_id order);
  if book =? NO_BOOK then Ok (sh, [reject_of (no_order_id order) UNKNOWN_SYMBOL session_id])
  else
    bk ← aget (books_ sh) book;
    '(h, fills, bk, ar) ←
      add_order (max_orders CFG) (ladder_size CFG) bk (arena_ sh) order [] MAX_FILLS_PER_ORDER;
    bks ← aset (books_ sh) book bk;
    Ok (set_arena (set_books sh bks) ar, reports session_id fills ++
      if valid h then [ack_of (no_order_id order) (to_token h (shard_id_ sh)) session_id] else []).

Definition cancel_work (sh : Shard) (cancel : CancelOrder) (session_id : Z) : res (Shard * list OutboundMsg) :=
  let h := from_token (co_order_token cancel) in
  let unknown := [reject_of 0 UNKNOWN_ORDER session_id] in
  if max_orders CFG <=? h_slot h then Ok (sh, unknown)
  else
    g ← Pool.gen (pool_ (arena_ sh)) (h_slot h);
    if negb (g =? h_gen h) then Ok (sh, unknown)
    else
      o ← Pool.at_ (max_orders CFG) (pool_ (arena_ sh)) (h_slot h);
      book ← local_book CFG sh (o_symbol o);
      if book =? NO_BOOK then Ok (sh, unknown)
      else
        bk ← aget (books_ sh) book;
        '(ok, bk, ar) ← cancel_order (max_orders CFG) (ladder_size CFG) bk (arena_ sh) h;
        bks ← aset (books_ sh) book bk;
        Ok (set_arena (set_books sh bks) ar,
            if (ok : bool) then [ack_of 0 (co_order_token cancel) session_id] else unknown).

Definition tick_work (sh : Shard) : res (Shard * list OutboundMsg) :=
  '(m, q) ← Spsc.pop (queue_depth CFG) (inbound_ sh);
  match m with
  | None => Ok (sh, [])
  | Some msg =>
      let sh := set_inbound sh q in
      let session_id := hdr_session_id (in_hdr msg) in
      match hdr_type (in_hdr msg) with
      | NEW_ORDER => new_work sh (in_new_order msg) session_id
      | CANCEL_ORDER => cancel_work sh (in_cancel msg) session_id
      | _ => Ok (sh, [])
      end
  end.

(** ** The thread *)

(** Reports the thread has still to push are its program counter: with none it
    is at the head of the loop of [run]. *)
Record Thread : Type := mkThread { th_shard : Shard; th_outbox : list OutboundMsg }.

(** One round of [while (!outbound_.push(m)) ;] or of [while (running_)]. *)
Definition thread_turn (th : Thread) : res Thread :=
  let sh := th_shard th in
  match th_outbox th with
  | m :: rest =>
      '(ok, q) ← Spsc.push (queue_depth CFG) (outbound_ sh) m;
      if (ok : bool) then Ok (mkThread (set_outbound sh q) rest) else Ok th
  | [] => if running_ sh then '(sh, outs) ← tick_work sh; Ok (mkThread sh outs) else Ok th
  end.

Fixpoint thread_run (n : nat) (th : Thread) : res Thread :=
  match n with
  | O => Ok th
  | S n => th ← thread_turn th; thread_run n th
  end.

(** ** [tick] is the work and the pushes *)

Fixpoint push_outs (sh : Shard) (outs : list OutboundMsg) : res Shard :=
  match outs with
  | [] => Ok sh
  | m :: outs => sh ← push_out CFG sh m; push_outs sh outs
  end.

Lemma push_outs_app sh l k : push_outs sh (l ++ k) = sh ← push_outs sh l; push_outs sh k.
Proof. revert sh. induction l as [|m l IH]; intros sh; simpl; [done|]. destruct (push_out CFG sh m); simpl; [apply IH|done]. Qed.

Lemma push_outs_one sh m : push_outs sh [m] = push_out CFG sh m.
Proof. simpl. by destruct (push_out CFG sh m). Qed.

Lemma push_outs_id sh outs sh' : push_outs sh outs = Ok sh' -> shard_id_ sh' = shard_id_ sh.
Proof.
  revert sh. induction outs as [|m outs IH]; intros sh; simpl; [by intros [= <-]|].
  unfold push_out. destruct (Spsc.push _ _ _) as [[[] q]|]; simpl; [|done|done]. exact (IH (set_outbound sh q)).
Qed.

Lemma emit_fills_pushes sh fs session : emit_fills CFG sh fs session = push_outs sh (reports session fs).
Proof.
  revert sh. induction fs as [|f fs IH]; intros sh; [done|]. unfold reports. rewrite fmap_cons, concat_cons. fold (reports session fs).
  rewrite push_outs_app. cbn [emit_fills]. assert (emit_fill CFG sh f session = push_outs sh (fill_reports session f)) as ->.
  { unfold emit_fill, fill_reports. cbn [push_outs]. destruct (push_out CFG sh _) as [sh'|]; simpl; [|done].
    destruct (_ =? _); simpl; [done|]. by destruct (push_out CFG sh' _). }
  destruct (push_outs sh _); simpl; [apply IH|done].
Qed.

(** Work followed by its pushes. *)
Definition then_push (w : res (Shard * list OutboundMsg)) : res Shard := '(sh, outs) ← w; push_outs sh outs.

Lemma handle_new_splits sh order sid : handle_new CFG sh order sid = then_push (new_work sh order sid).
Proof.
  unfold handle_new, new_work, then_push. destruct (local_book CFG sh _) as [b|]; cbn [mbind res_bind]; [|done].
  destruct (b =? NO_BOOK); [symmetry; apply push_outs_one|].
  destruct (aget _ b) as [bk|]; cbn [mbind res_bind]; [|done].
  destruct (add_order _ _ _ _ _ _ _) as [[[[h fs] bk'] ar']|]; cbn [mbind res_bind]; [|done].
  destruct (aset _ b bk') as [bks|]; cbn [mbind res_bind]; [|done].
  rewrite push_outs_app, emit_fills_pushes. destruct (push_outs _ _) as [sh'|] eqn:E; cbn [mbind res_bind]; [|done].
  apply push_outs_id in E. rewrite E. destruct (valid h); [symmetry; apply push_outs_one|done].
Qed.

Lemma handle_cancel_splits sh cancel sid : handle_cancel CFG sh cancel sid = then_push (cancel_work sh cancel sid).
Proof.
  unfold handle_cancel, cancel_work, then_push. destruct (_ <=? _); [symmetry; apply push_outs_one|].
  destruct (Pool.gen _ _) as [g|]; cbn [mbind res_bind]; [|done]. destruct (negb _); [symmetry; apply push_outs_one|].
  destruct (Pool.at_ _ _ _) as [o|]; cbn [mbind res_bind]; [|done].
  destruct (local_book CFG sh _) as [b|]; cbn [mbind res_bind]; [|done]. destruct (b =? NO_BOOK); [symmetry; apply push_outs_one|].
  destruct (aget _ b) as [bk|]; cbn [mbind res_bind]; [|done].
  destruct (cancel_order _ _ _ _ _) as [[[ok bk'] ar']|]; cbn [mbind res_bind]; [|done].
  destruct (aset _ b bk') as [bks|]; cbn [mbind res_bind]; [|done]. destruct ok; symmetry; apply push_outs_one.
Qed.

Lemma tick_pushes sh : tick CFG sh = then_push (tick_work sh).
Proof.
  unfold tick, tick_work. destruct (Spsc.pop _ _) as [[[msg|] q]|]; cbn [mbind res_bind]; [|done|done].
  destruct (hdr_type _); try done; [apply handle_new_splits|apply handle_cancel_splits].
Qed.

(** A thread that is at the head of its loop and whose ring has room goes
    through the whole of [tick] undisturbed. *)
Lemma thread_pushes outs sh sh' : push_outs sh outs = Ok sh' ->
  thread_run (length outs) (mkThread sh outs) = Ok (mkThread sh' []).
Proof.
  revert sh. induction outs as [|m outs IH]; intros sh; cbn [length thread_run push_outs]; [by intros [= ->]|].
  unfold push_out, thread_turn. cbn [th_shard th_outbox]. destruct (Spsc.push _ _ _) as [[[] q]|]; cbn [mbind res_bind]; [|done|done].
  apply IH.
Qed.

(** C12: [tick] is the work on one request followed by the pushes of its
    reports: for every shard, whatever is in its rings, [tick] returns, fails
    or waits exactly as the two phases in sequence do; and a running thread
    whose pushes find room reaches, in one turn more than it has reports, the
    very state in which [tick] returns. *)
Theorem tick_splits sh :
  tick CFG sh = then_push (tick_work sh) /\
  (forall sh', running_ sh = true -> tick CFG sh = Ok sh' ->
   exists sh1 outs, tick_work sh = Ok (sh1, outs) /\ thread_run (S (length outs)) (mkThread sh []) = Ok (mkThread sh' [])).
Proof.
  split; [apply tick_pushes|]. intros sh' Hr. rewrite tick_pushes. unfold then_push.
  destruct (tick_work sh) as [[sh1 outs]|] eqn:E; cbn [mbind res_bind]; [|done]. intros Hp. exists sh1, outs. split; [done|].
  cbn [thread_run]. unfold thread_turn at 1. cbn [th_shard th_outbox]. rewrite Hr, E. cbn [mbind res_bind]. by apply thread_pushes.
Qed.

End work.

End ShardWork.
