(* ===== verification/ShardInv.v ===== *)
(** * What a shard does with a request

    The invariant of a shard (its books share one arena without sharing
    orders, and an order rests in the book of its symbol), that [tick]
    preserves it, and the reports each request produces. *)

From S2P Require Import Prelude Messages Order LevelBitmap Pool PriceLevel OrderHandle OrderBook Spsc.
From S2P Require Import BookSpec BookInv BookMatch BookRefine BookLaws BookAbs BookProps Shard ShardWork.

Module ShardInv.
Export ShardWork.
Import PriceLevel OrderHandle OrderBook BookSpec BookInv BookRefine BookLaws BookAbs BookProps Shard.

(** ** Books that share an arena *)

(** The slots in use by a list of books. *)
Definition live (ar : Arena) (bks : list OrderBook) : list Z :=
  concat ((fun bk => aslots (book_abs bk ar)) <$> bks).

Section sharing.
Context (MAX_ORDERS LADDER_SIZE : Z) (P : book_params MAX_ORDERS LADDER_SIZE).

Abbreviation book_wf := (book_wf MAX_ORDERS LADDER_SIZE).

Record sharing (ar : Arena) (bks : list OrderBook) : Prop := {
  sr_pool : Pool.pool_wf MAX_ORDERS (pool_ ar) (live ar bks);
  sr_sess : zlen (order_session_ ar) = MAX_ORDERS;
  sr_books : forall bk, bk ∈ bks -> exists F, book_wf bk ar F
}.

Lemma live_app ar l k : live ar (l ++ k) = live ar l ++ live ar k.
Proof. unfold live. by rewrite fmap_app, concat_app. Qed.

Lemma live_mid ar l1 bk l2 : live ar (l1 ++ bk :: l2) ≡ₚ aslots (book_abs bk ar) ++ live ar (l1 ++ l2).
Proof.
  rewrite !live_app. unfold live at 2. rewrite fmap_cons, concat_cons. fold (live ar l2).
  rewrite !app_assoc. by rewrite (Permutation_app_comm (live ar l1)).
Qed.

Lemma live_elem ar bks bk s : bk ∈ bks -> s ∈ aslots (book_abs bk ar) -> s ∈ live ar bks.
Proof.
  intros (l1 & l2 & ->)%list_elem_of_split Hs. rewrite live_mid. apply elem_of_app. by left.
Qed.

Lemma live_ext ar ar' bks :
  (forall bk, bk ∈ bks -> book_abs bk ar' = book_abs bk ar) -> live ar' bks = live ar bks.
Proof.
  intros H. unfold live. f_equal. apply list_fmap_ext. intros i bk Hi. f_equal.
  apply H. by eapply list_elem_of_lookup_2.
Qed.

Lemma frame_refl F ar : frame F ar ar.
Proof. by intros s. Qed.

(** Each book sees the orders of the others as its frame. *)
Lemma sharing_at ar l1 bk l2 : sharing ar (l1 ++ bk :: l2) -> book_wf bk ar (live ar (l1 ++ l2)).
Proof.
  intros [HP Hs Hb]. destruct (Hb bk) as [F HB]; [apply elem_of_app; right; constructor|].
  eapply book_rel_frame; [exact HB|apply frame_refl| |done].
  eapply Pool.pool_wf_perm, HP. apply live_mid.
Qed.

(** An operation on one book keeps the others. *)
Lemma sharing_step ar ar' l1 bk bk' l2 :
  sharing ar (l1 ++ bk :: l2) ->
  book_wf bk' ar' (live ar (l1 ++ l2)) -> frame (live ar (l1 ++ l2)) ar ar' ->
  sharing ar' (l1 ++ bk' :: l2) /\
  (forall x, x ∈ l1 ++ l2 -> book_abs x ar' = book_abs x ar).
Proof.
  intros HS HB' Hfr. destruct P as [HN HL]. pose proof (br_pool HB') as HP'. pose proof (br_sess HB') as Ls.
  assert (Hother : forall x, x ∈ l1 ++ l2 ->
    exists F, book_rel MAX_ORDERS LADDER_SIZE (book_ix x) x ar' (book_abs x ar) F).
  { intros x Hx. destruct (sr_books _ _ HS x) as [F HB].
    { revert Hx. rewrite !elem_of_app, elem_of_cons. tauto. }
    pose proof Hx as (k1 & k2 & E)%list_elem_of_split.
    exists (aslots (book_abs bk' ar') ++ live ar (k1 ++ k2)).
    eapply book_rel_frame; [exact HB| | |done].
    - intros s Hs. apply Hfr. by eapply live_elem.
    - eapply Pool.pool_wf_perm, HP'. rewrite E, live_mid.
      rewrite !app_assoc. by rewrite (Permutation_app_comm (aslots (book_abs bk' ar'))). }
  assert (Habs : forall x, x ∈ l1 ++ l2 -> book_abs x ar' = book_abs x ar).
  { intros x Hx. destruct (Hother x Hx) as [F HB]. by eapply (book_abs_unique _ _ HN). }
  split; [|done]. split; [|done|].
  - eapply Pool.pool_wf_perm, HP'. by rewrite live_mid, (live_ext ar ar' (l1 ++ l2) Habs).
  - intros x. rewrite elem_of_app, elem_of_cons. intros Hx.
    assert (x = bk' \/ x ∈ l1 ++ l2) as [->|Hin] by (rewrite elem_of_app; tauto).
    + by exists (live ar (l1 ++ l2)).
    + destruct (Hother x Hin) as [F HB]. exists F. unfold BookAbs.book_wf. by rewrite Habs.
Qed.

(** No order rests in two books. *)
Lemma sharing_disjoint ar bks i bki j bkj s : sharing ar bks -> i <> j -> bks !! i = Some bki -> bks !! j = Some bkj ->
  s ∈ aslots (book_abs bki ar) -> s ∉ aslots (book_abs bkj ar).
Proof.
  intros HS Hne (l1 & l2 & -> & Hl & _)%lookupZ_split Hj Hi Hs. pose proof (Pool.wf_live_NoDup _ _ _ (sr_pool _ _ HS)) as ND.
  rewrite live_mid in ND. apply NoDup_app in ND as (_ & Hd & _). apply (Hd s Hi).
  apply (live_elem _ _ bkj); [|done]. apply (lookupZ_elsewhere l1 bki l2 j); [congruence|done].
Qed.

End sharing.

(** Every order that left the book had its generation moved on, by one. *)
Definition retires (bk : OrderBook) (ar : Arena) (bk' : OrderBook) (ar' : Arena) : Prop :=
  exists R, gens_bump R (pool_ ar) (pool_ ar') /\
    forall s, s ∈ aslots (book_abs bk ar) -> s ∉ R -> s ∈ aslots (book_abs bk' ar').

(** The slots of the book before, and those of [fresh] that were free, are in
    the book after or recycled, and no others are. *)
Definition recycles (sh : Shard) (fresh : list Z) (bk bk' : OrderBook) (ar' : Arena) : Prop :=
  Forall (fun s => s ∈ Pool.free_stack (pool_ (arena_ sh))) fresh /\
  exists R, gens_bump R (pool_ (arena_ sh)) (pool_ ar') /\
    fresh ++ aslots (book_abs bk (arena_ sh)) ≡ₚ R ++ aslots (book_abs bk' ar').

Lemma recycles_retires sh fresh bk bk' ar' : recycles sh fresh bk bk' ar' -> retires bk (arena_ sh) bk' ar'.
Proof.
  intros (_ & R & HR & Hp). exists R. split; [done|]. intros s Hs HnR.
  assert (Hin : s ∈ fresh ++ aslots (book_abs bk (arena_ sh))) by (apply elem_of_app; by right). rewrite Hp, elem_of_app in Hin. by destruct Hin.
Qed.

(** ** Reports *)

Section reporting.
Context (CFG : ShardConfig) (HQ : Spsc.pow2 (queue_depth CFG)).

(** [run] ends in [sh] with the messages [outs] added to its outbound ring,
    which held [l]. *)
Definition emits (sh : Shard) (l : list OutboundMsg) (run : res Shard) (outs : list OutboundMsg) : Prop :=
  exists q, run = Ok (set_outbound sh q) /\ Spsc.queue_repr (queue_depth CFG) q (l ++ outs).

(** With too little room in the ring the shard waits for its consumer. *)
Definition tries (sh : Shard) (l : list OutboundMsg) (run : res Shard) (outs : list OutboundMsg) : Prop :=
  if decide (zlen l + zlen outs <= queue_depth CFG) then emits sh l run outs else run = Err Spin.

Lemma tries_emits sh l run outs : tries sh l run outs -> zlen l + zlen outs <= queue_depth CFG -> emits sh l run outs.
Proof. intros Ht Hroom. unfold tries in Ht. by rewrite decide_True in Ht. Qed.

Lemma tries_nothing sh l : Spsc.queue_repr (queue_depth CFG) (outbound_ sh) l -> tries sh l (Ok sh) [].
Proof.
  intros Hq. unfold tries. rewrite decide_True by (pose proof (Spsc.queue_repr_len _ _ _ Hq); change (zlen []) with 0; lia).
  exists (outbound_ sh). rewrite app_nil_r. by destruct sh.
Qed.

Lemma push_out_tries sh l m : Spsc.queue_repr (queue_depth CFG) (outbound_ sh) l -> tries sh l (push_out CFG sh m) [m].
Proof.
  intros Hq. destruct (Spsc.push_spec _ HQ _ _ m Hq) as (q & Hpush & Hq'). unfold tries, push_out. rewrite Hpush.
  change (zlen [m]) with 1. destruct (Z.ltb_spec (zlen l) (queue_depth CFG)).
  - rewrite decide_True by lia. by exists q.
  - by rewrite decide_False by lia.
Qed.

Lemma push_out_emits sh l m :
  Spsc.queue_repr (queue_depth CFG) (outbound_ sh) l -> zlen l < queue_depth CFG ->
  emits sh l (push_out CFG sh m) [m].
Proof. intros Hq Hroom. apply tries_emits; [by apply push_out_tries|]. change (zlen [m]) with 1. lia. Qed.

(** Pushing one report after the other, as far as the ring takes them. *)
Lemma push_outs_tries outs sh l :
  Spsc.queue_repr (queue_depth CFG) (outbound_ sh) l -> tries sh l (push_outs CFG sh outs) outs.
Proof.
  revert sh l. induction outs as [|m outs IH]; intros sh l Hq; [by apply tries_nothing|]. cbn [push_outs].
  pose proof (push_out_tries sh l m Hq) as Hm. unfold tries in *. change (zlen [m]) with 1 in Hm. rewrite zlen_cons.
  pose proof (zlen_nonneg outs). destruct (decide (zlen l + 1 <= _)); [|rewrite Hm; by rewrite decide_False by lia].
  destruct Hm as (q & -> & Hq'). specialize (IH (set_outbound sh q) _ Hq'). rewrite zlen_app in IH. change (zlen [m]) with 1 in IH.
  replace (zlen l + 1 + zlen outs) with (zlen l + (1 + zlen outs)) in IH by lia.
  cbn [mbind res_bind]. destruct (decide _); [|done].
  destruct IH as (q' & -> & Hq2). exists q'. split; [done|]. by rewrite <- app_assoc in Hq2.
Qed.

Lemma work_tries w sh l outs : w = Ok (sh, outs) -> Spsc.queue_repr (queue_depth CFG) (outbound_ sh) l ->
  tries sh l (then_push CFG w) outs.
Proof. intros -> Hq. by apply push_outs_tries. Qed.

Lemma work_emits w sh l outs : w = Ok (sh, outs) -> Spsc.queue_repr (queue_depth CFG) (outbound_ sh) l ->
  zlen l + zlen outs <= queue_depth CFG -> emits sh l (then_push CFG w) outs.
Proof. intros Hw Hq. by apply tries_emits, work_tries. Qed.

End reporting.

(** ** The invariant *)

(** Template and constructor arguments; a token has 24 bits for the slot. *)
Record config_ok (CFG : ShardConfig) : Prop := {
  cf_book : book_params (max_orders CFG) (ladder_size CFG);
  cf_token : max_orders CFG <= 2 ^ 24;
  cf_ring : Spsc.pow2 (queue_depth CFG);
  cf_symbols : 0 < max_symbols CFG < UINT16_MAX;
  cf_space : 0 <= symbol_space CFG <= UINT16_MAX
}.

Section invariant.
Context (CFG : ShardConfig) (base tick_size : Z).

Record shard_wf (sh : Shard) : Prop := {
  sh_sharing : sharing (max_orders CFG) (ladder_size CFG) (arena_ sh) (books_ sh);
  sh_books : zlen (books_ sh) = max_symbols CFG;
  sh_params : forall bk, bk ∈ books_ sh -> base_price_ bk = base /\ tick_size_ bk = tick_size;
  sh_space : zlen (local_of_ sh) = SYMBOL_SPACE CFG;
  sh_local : forall s b, local_of_ sh !! s = Some b -> b = NO_BOOK \/ 0 <= b < max_symbols CFG;
  sh_symbols : forall i bk bid r, books_ sh !! i = Some bk ->
    r ∈ aside bid (book_abs bk (arena_ sh)) -> local_of_ sh !! r_symbol r = Some i;
  sh_id : is_u 8 (shard_id_ sh)
}.

Context (HC : config_ok CFG).

Lemma local_book_Ok sh symbol : shard_wf sh -> 0 <= symbol ->
  local_book CFG sh symbol = Ok (default NO_BOOK (local_of_ sh !! symbol)).
Proof.
  intros HS H0. unfold local_book. destruct (Z.ltb_spec symbol (SYMBOL_SPACE CFG)).
  - destruct (lookupZ_is_Some (local_of_ sh) symbol) as [b Hb]; [rewrite (sh_space _ HS); lia|].
    by rewrite (aget_Ok _ _ _ Hb), Hb.
  - destruct (local_of_ sh !! symbol) eqn:E; [|done].
    apply lookupZ_range in E. rewrite (sh_space _ HS) in E. lia.
Qed.

Lemma book_of_symbol sh symbol b : shard_wf sh -> local_of_ sh !! symbol = Some b -> b <> NO_BOOK ->
  exists bk, books_ sh !! b = Some bk.
Proof.
  intros HS Hb Hn. destruct (sh_local _ HS _ _ Hb) as [|Hr]; [done|].
  apply lookupZ_is_Some. by rewrite (sh_books _ HS).
Qed.

(** The books other than [b]. *)
Definition others (sh : Shard) (b : Z) (F : list Z) : Prop :=
  exists l1 bk l2, books_ sh = l1 ++ bk :: l2 /\ zlen l1 = b /\ F = live (arena_ sh) (l1 ++ l2).

Lemma book_in_shard sh b bk : shard_wf sh -> books_ sh !! b = Some bk ->
  exists F, others sh b F /\ book_wf (max_orders CFG) (ladder_size CFG) bk (arena_ sh) F /\
    base_price_ bk = base /\ tick_size_ bk = tick_size.
Proof.
  intros HS Hb. destruct (lookupZ_split _ _ _ Hb) as (l1 & l2 & E & Hl & _).
  exists (live (arena_ sh) (l1 ++ l2)). split; [by exists l1, bk, l2|].
  pose proof (sh_sharing _ HS) as Hsh. rewrite E in Hsh.
  split; [by apply sharing_at|]. apply (sh_params _ HS). rewrite E. apply elem_of_app. right. constructor.
Qed.

(** Storing the outcome of an operation on book [b]. *)
Definition with_book (sh : Shard) (b : Z) (bk' : OrderBook) (ar' : Arena) : Shard :=
  set_arena (set_books sh (<[b := bk']> (books_ sh))) ar'.

Lemma shard_wf_book sh b bk F bk' ar' :
  shard_wf sh -> books_ sh !! b = Some bk -> others sh b F ->
  book_wf (max_orders CFG) (ladder_size CFG) bk' ar' F -> frame F (arena_ sh) ar' -> same_params bk bk' ->
  (forall bid r, r ∈ aside bid (book_abs bk' ar') -> local_of_ sh !! r_symbol r = Some b) ->
  shard_wf (with_book sh b bk' ar') /\
  (forall j bkj, j <> b -> books_ sh !! j = Some bkj ->
     books_ (with_book sh b bk' ar') !! j = Some bkj /\ book_abs bkj ar' = book_abs bkj (arena_ sh)).
Proof.
  intros HS Hb (l1 & bk0 & l2 & E & Hl & ->) HB' Hfr [E1 E2] Hsym.
  destruct (lookupZ_split _ _ _ Hb) as (k1 & k2 & E' & Hk & Hins).
  assert (k1 = l1 /\ bk0 = bk /\ k2 = l2) as (-> & -> & ->).
  { rewrite E in E'. apply app_inj_1 in E' as [-> [= -> ->]]; [done|]. unfold zlen in *. lia. }
  pose proof (sh_sharing _ HS) as Hsh. rewrite E in Hsh.
  destruct (sharing_step _ _ (cf_book _ HC) _ _ _ _ _ _ Hsh HB' Hfr) as [Hsh' Habs].
  assert (Hin : forall j bkj, j <> b -> books_ sh !! j = Some bkj -> bkj ∈ l1 ++ l2)
    by (intros j bkj Hj; rewrite E; apply lookupZ_elsewhere; by rewrite Hl).
  pose proof (lookupZ_range _ _ _ Hb) as Rb. destruct HS as [_ Hbk Hpar Hsp Hlo Hsy Hid]. split.
  - split; simpl; try done.
    + by rewrite Hins.
    + by rewrite zlen_insertZ.
    + intros x. rewrite Hins, elem_of_app, elem_of_cons. intros Hx.
      destruct (Hpar bk) as [P1 P2]; [rewrite E; apply elem_of_app; right; constructor|].
      destruct Hx as [Hx|[->|Hx]]; [|by rewrite E1, E2|]; apply Hpar; rewrite E, elem_of_app, elem_of_cons; tauto.
    + intros i x bid r. rewrite lookupZ_insertZ by done. destruct (decide (b = i)) as [<-|Hne].
      * intros [= <-]. apply Hsym.
      * intros Hx. rewrite (Habs x (Hin i x (not_eq_sym Hne) Hx)). by apply Hsy.
  - intros j bkj Hj Hbj. simpl. rewrite lookupZ_insertZ_ne by congruence. split; [done|].
    apply Habs. by eapply Hin.
Qed.

(** ** New orders *)

Lemma shard_wf_outbound sh q : shard_wf sh -> shard_wf (set_outbound sh q).
Proof. by intros []. Qed.

Lemma shard_wf_inbound sh q : shard_wf sh -> shard_wf (set_inbound sh q).
Proof. by intros []. Qed.

Lemma handle_valid slot g : 0 <= slot < UINT32_MAX -> valid (mkHandle slot g) = true.
Proof. intros H. unfold valid, INVALID. simpl. rewrite (proj2 (Z.eqb_neq _ _)) by lia. done. Qed.

(** The orders in the book of a new order's symbol have that symbol's book. *)
Lemma symbols_after_add sh b bk F msg n h fs bk' ar' slot q :
  shard_wf sh -> books_ sh !! b = Some bk -> local_of_ sh !! no_symbol_id msg = Some b ->
  added (max_orders CFG) (ladder_size CFG) bk (arena_ sh) F msg n h fs bk' ar' slot q ->
  forall bid r, r ∈ aside bid (book_abs bk' ar') -> local_of_ sh !! r_symbol r = Some b.
Proof.
  intros HS Hb Hsym A bid r Hr. destruct A as [_ _ _ Hex Hown _ _ _].
  destruct (decide (bid = is_buy msg)) as [->|Hne].
  - rewrite Hown in Hr. destruct (_ && _); [|by eapply (sh_symbols _ HS)].
    rewrite spec_insert_perm, elem_of_cons in Hr. destruct Hr as [->|Hr]; [done|].
    by eapply (sh_symbols _ HS).
  - assert (bid = negb (is_buy msg)) as -> by (by destruct bid, (is_buy msg)).
    destruct (executes_left _ _ _ _ _ _ _ _ _ _ Hex r Hr) as (y & k & Hy & ->).
    by apply (sh_symbols _ HS b bk _ y Hb Hy).
Qed.

(** What the book, the arena and the token of a resting order are after the
    work on a new order. *)
Definition trade_facts (sh : Shard) (b : Z) (bk : OrderBook) (slot g : Z) (rests : bool) (fs : list Fill)
    (bk' : OrderBook) (ar' : Arena) (token : Z) : Prop :=
  shard_wf (with_book sh b bk' ar') /\ zlen fs <= MAX_FILLS_PER_ORDER /\
  (rests = true -> token = to_token (mkHandle slot g) (shard_id_ sh) /\
     from_token token = mkHandle slot g /\ token_shard token = shard_id_ sh /\
     Pool.gen_ (Pool.arena_ (pool_ ar')) !! slot = Some g) /\
  (forall j bkj, j <> b -> books_ sh !! j = Some bkj ->
     books_ (with_book sh b bk' ar') !! j = Some bkj /\ book_abs bkj ar' = book_abs bkj (arena_ sh)) /\
  (rests = true -> slot ∈ aslots (book_abs bk' ar')) /\ recycles sh [slot] bk bk' ar'.

Lemma new_work_served sh order sid b bk :
  shard_wf sh -> 0 <= no_symbol_id order ->
  local_of_ sh !! no_symbol_id order = Some b -> books_ sh !! b = Some bk ->
  admissible (ladder_size CFG) bk (arena_ sh) order MAX_FILLS_PER_ORDER ->
  exists slot g (rests : bool) fs bk' ar' token,
    spec_add (book_ix bk) (book_abs bk (arena_ sh)) order slot MAX_FILLS_PER_ORDER
      = (rests, fs, book_abs bk' ar') /\
    new_work CFG sh order sid = Ok (with_book sh b bk' ar',
      reports sid fs ++ if rests then [ack_of (no_order_id order) token sid] else []) /\
    trade_facts sh b bk slot g rests fs bk' ar' token.
Proof.
  intros HS H0 Hsym Hb Ha.
  destruct (book_in_shard sh b bk HS Hb) as (F & Hoth & HB & Ebase & _).
  destruct (add_order_run _ _ (cf_book _ HC) _ _ _ _ _ HB Ha)
    as (slot & g & rests & fs & bk' & ar' & Hrun & Hacc & HB').
  destruct (add_order_inv _ _ (cf_book _ HC) _ _ _ _ _ _ _ _ _ HB Ha Hrun) as (slot' & q & A).
  pose proof Hacc as (Hfresh & Rs & Hg & Hadd & _ & Hpar & Hfr & HR).
  destruct (shard_wf_book sh b bk F bk' ar' HS Hb Hoth HB' Hfr Hpar
    (symbols_after_add _ _ _ _ _ _ _ _ _ _ _ _ HS Hb Hsym A)) as [HS' Hothers].
  exists slot, g, rests, fs, bk', ar', (to_token (mkHandle slot g) (shard_id_ sh)).
  split; [done|]. pose proof (executes_count _ _ _ _ _ _ _ _ _ _ (added_exec _ _ _ _ _ _ _ _ _ _ _ _ _ A)) as Hn.
  split; [|split; [done|split; [done|split; [|split; [done|]]]]].
  - unfold new_work. rewrite (local_book_Ok sh _ HS H0), Hsym. simpl.
    pose proof (lookupZ_range _ _ _ Hb) as Rb. rewrite (sh_books _ HS) in Rb. pose proof (cf_symbols _ HC).
    rewrite (proj2 (Z.eqb_neq b NO_BOOK)) by (unfold NO_BOOK; lia).
    rewrite (aget_Ok _ _ _ Hb). simpl. rewrite Hrun. simpl. rewrite (aset_Some _ _ _ _ Hb). simpl.
    fold (with_book sh b bk' ar'). destruct rests; [|done].
    by rewrite handle_valid by (pose proof (bp_max _ _ (cf_book _ HC)); lia).
  - intros ->. split; [done|].
    assert (Hgen : Pool.gen_ (Pool.arena_ (pool_ ar')) !! slot = Some g)
      by exact (rested_gen _ _ (cf_book _ HC) _ _ _ _ _ _ _ _ _ _ HB Ha Rs Hrun).
    pose proof (cf_token _ HC). pose proof (sh_id _ HS).
    destruct (token_round_trip (mkHandle slot g) (shard_id_ sh)) as [-> ->]; simpl; try done.
    + unfold is_u. lia.
    + by eapply (Pool.wf_gen _ _ _ (br_pool HB')).
  - split; [intros ->; exact (spec_add_rests _ _ _ _ _ _ _ Hadd)|]. split; [|exact HR]. constructor; [|constructor].
    apply (Pool.wf_in_range _ _ _ slot (br_pool HB)), elem_of_app in Rs as [Rs|Rs]; [done|]. by destruct Hfresh.
Qed.

(** The whole of [handle_new]: with too little room it waits. *)
Lemma handle_new_served sh order sid l b bk :
  shard_wf sh -> Spsc.queue_repr (queue_depth CFG) (outbound_ sh) l ->
  0 <= no_symbol_id order ->
  local_of_ sh !! no_symbol_id order = Some b -> books_ sh !! b = Some bk ->
  admissible (ladder_size CFG) bk (arena_ sh) order MAX_FILLS_PER_ORDER ->
  exists slot g (rests : bool) fs bk' ar' token,
    spec_add (book_ix bk) (book_abs bk (arena_ sh)) order slot MAX_FILLS_PER_ORDER
      = (rests, fs, book_abs bk' ar') /\
    tries CFG (with_book sh b bk' ar') l (handle_new CFG sh order sid)
      (reports sid fs ++ if rests then [ack_of (no_order_id order) token sid] else []) /\
    trade_facts sh b bk slot g rests fs bk' ar' token.
Proof.
  intros HS Hq H0 Hsym Hb Ha. destruct (new_work_served sh order sid b bk HS H0 Hsym Hb Ha)
    as (slot & g & rests & fs & bk' & ar' & token & Hadd & Hrun & Hfacts).
  exists slot, g, rests, fs, bk', ar', token. split; [done|]. split; [|done].
  rewrite handle_new_splits. apply work_tries; [apply HC|done|done].
Qed.

Lemma order_outs_bound sid fs (rests : bool) m : zlen fs <= MAX_FILLS_PER_ORDER ->
  zlen (reports sid fs ++ if rests then [m] else []) <= 129.
Proof.
  intros Hn. rewrite zlen_app. pose proof (reports_bound sid fs). unfold MAX_FILLS_PER_ORDER in Hn.
  destruct rests; [change (zlen [m]) with 1|change (zlen []) with 0]; lia.
Qed.

(** With room for every report there can be. *)
Lemma handle_new_trades sh order sid l b bk :
  shard_wf sh -> Spsc.queue_repr (queue_depth CFG) (outbound_ sh) l ->
  zlen l + 129 <= queue_depth CFG -> 0 <= no_symbol_id order ->
  local_of_ sh !! no_symbol_id order = Some b -> books_ sh !! b = Some bk ->
  admissible (ladder_size CFG) bk (arena_ sh) order MAX_FILLS_PER_ORDER ->
  exists slot g (rests : bool) fs bk' ar' token,
    spec_add (book_ix bk) (book_abs bk (arena_ sh)) order slot MAX_FILLS_PER_ORDER
      = (rests, fs, book_abs bk' ar') /\
    emits CFG (with_book sh b bk' ar') l (handle_new CFG sh order sid)
      (reports sid fs ++ if rests then [ack_of (no_order_id order) token sid] else []) /\
    trade_facts sh b bk slot g rests fs bk' ar' token.
Proof.
  intros HS Hq Hroom H0 Hsym Hb Ha. destruct (handle_new_served sh order sid l b bk HS Hq H0 Hsym Hb Ha)
    as (slot & g & rests & fs & bk' & ar' & token & Hadd & Hrun & Hfacts).
  exists slot, g, rests, fs, bk', ar', token. split; [done|]. split; [|done]. apply tries_emits; [done|].
  destruct Hfacts as (_ & Hn & _). pose proof (order_outs_bound sid fs rests (ack_of (no_order_id order) token sid) Hn). lia.
Qed.

(** A new order that no book takes: an unknown symbol is reported, but an order
    off the ladder or without a free slot leaves no trace at all. *)
Lemma new_work_unknown sh order sid : shard_wf sh ->
  0 <= no_symbol_id order -> default NO_BOOK (local_of_ sh !! no_symbol_id order) = NO_BOOK ->
  new_work CFG sh order sid = Ok (sh, [reject_of (no_order_id order) UNKNOWN_SYMBOL sid]).
Proof. intros HS H0 Hsym. unfold new_work. by rewrite (local_book_Ok sh _ HS H0), Hsym. Qed.

Lemma handle_new_unknown sh order sid l :
  shard_wf sh -> Spsc.queue_repr (queue_depth CFG) (outbound_ sh) l -> zlen l < queue_depth CFG ->
  0 <= no_symbol_id order -> default NO_BOOK (local_of_ sh !! no_symbol_id order) = NO_BOOK ->
  emits CFG sh l (handle_new CFG sh order sid) [reject_of (no_order_id order) UNKNOWN_SYMBOL sid].
Proof.
  intros HS Hq Hroom H0 Hsym. rewrite handle_new_splits. apply work_emits; [apply HC|by apply new_work_unknown|done|].
  change (zlen [_]) with 1. lia.
Qed.

Lemma new_work_silent sh order sid b bk :
  shard_wf sh -> 0 <= no_symbol_id order ->
  local_of_ sh !! no_symbol_id order = Some b -> books_ sh !! b = Some bk ->
  is_i64 (no_price order - base) ->
  ~ 0 <= book_ix bk (no_price order) < ladder_size CFG \/ Pool.free_count (pool_ (arena_ sh)) = 0 ->
  new_work CFG sh order sid = Ok (sh, []).
Proof.
  intros HS H0 Hsym Hb Hp Hno. unfold new_work. rewrite (local_book_Ok sh _ HS H0), Hsym. simpl.
  pose proof (lookupZ_range _ _ _ Hb) as Rb. rewrite (sh_books _ HS) in Rb. pose proof (cf_symbols _ HC).
  rewrite (proj2 (Z.eqb_neq b NO_BOOK)) by (unfold NO_BOOK; lia).
  rewrite (aget_Ok _ _ _ Hb). simpl.
  destruct (book_in_shard sh b bk HS Hb) as (F & _ & HB & Ebase & _). rewrite <- Ebase in Hp.
  assert (add_order (max_orders CFG) (ladder_size CFG) bk (arena_ sh) order [] MAX_FILLS_PER_ORDER
    = Ok (no_handle, [], bk, arena_ sh)) as ->.
  { destruct Hno as [Hi|Hfull].
    - apply add_order_off_ladder; [apply (br_tick HB)|done|done].
    - eapply add_order_no_room; [exact HB|done|].
      pose proof (Pool.wf_free_count _ _ _ (br_pool HB)). unfold Pool.free_count in Hfull. lia. }
  simpl. rewrite (aset_Some _ _ _ _ Hb). simpl. rewrite insertZ_id by done. by destruct sh.
Qed.

Lemma handle_new_silent sh order sid b bk :
  shard_wf sh -> 0 <= no_symbol_id order ->
  local_of_ sh !! no_symbol_id order = Some b -> books_ sh !! b = Some bk ->
  is_i64 (no_price order - base) ->
  ~ 0 <= book_ix bk (no_price order) < ladder_size CFG \/ Pool.free_count (pool_ (arena_ sh)) = 0 ->
  handle_new CFG sh order sid = Ok sh.
Proof. intros HS H0 Hsym Hb Hp Hno. by rewrite handle_new_splits, (new_work_silent sh order sid b bk). Qed.

(** ** Cancels *)

Lemma cancel_work_stale sh cancel sid (h := from_token (co_order_token cancel)) :
  shard_wf sh -> Pool.gen_ (Pool.arena_ (pool_ (arena_ sh))) !! h_slot h <> Some (h_gen h) ->
  cancel_work CFG sh cancel sid = Ok (sh, [reject_of 0 UNKNOWN_ORDER sid]).
Proof.
  intros HS Hg. unfold cancel_work. fold h.
  assert (H0 : 0 <= h_slot h) by (apply wrapU_bound; lia). clearbody h.
  pose proof (sr_pool _ _ _ _ (sh_sharing _ HS)) as HP.
  destruct (Z.leb_spec (max_orders CFG) (h_slot h)) as [|Hlt]; [done|].
  destruct (lookupZ_is_Some (Pool.gen_ (Pool.arena_ (pool_ (arena_ sh)))) (h_slot h)) as [g Hg'].
  { rewrite (Pool.wf_gen_len _ _ _ HP). done. }
  unfold Pool.gen. rewrite (aget_Ok _ _ _ Hg'). simpl.
  by destruct (Z.eqb_spec g (h_gen h)) as [->|].
Qed.

Lemma handle_cancel_stale sh cancel sid l :
  shard_wf sh -> Spsc.queue_repr (queue_depth CFG) (outbound_ sh) l -> zlen l < queue_depth CFG ->
  let h := from_token (co_order_token cancel) in
  Pool.gen_ (Pool.arena_ (pool_ (arena_ sh))) !! h_slot h <> Some (h_gen h) ->
  emits CFG sh l (handle_cancel CFG sh cancel sid) [reject_of 0 UNKNOWN_ORDER sid].
Proof.
  intros HS Hq Hroom h Hg. rewrite handle_cancel_splits. apply work_emits; [apply HC|by apply cancel_work_stale|done|].
  change (zlen [_]) with 1. lia.
Qed.

(** The book and the arena after the order [r] was taken off. *)
Definition cancel_facts (sh : Shard) (b : Z) (bk : OrderBook) (bid : bool) (r : Resting) (bk' : OrderBook) (ar' : Arena) : Prop :=
  shard_wf (with_book sh b bk' ar') /\
  book_abs bk' ar' = aput bid (book_abs bk (arena_ sh))
    (spec_cancel (r_slot r) (aside bid (book_abs bk (arena_ sh)))) /\
  (forall j bkj, j <> b -> books_ sh !! j = Some bkj ->
     books_ (with_book sh b bk' ar') !! j = Some bkj /\ book_abs bkj ar' = book_abs bkj (arena_ sh)) /\
  recycles sh [] bk bk' ar'.

Lemma cancel_work_live sh cancel sid b bk bid r g :
  shard_wf sh -> books_ sh !! b = Some bk -> r ∈ aside bid (book_abs bk (arena_ sh)) ->
  Pool.gen_ (Pool.arena_ (pool_ (arena_ sh))) !! r_slot r = Some g ->
  from_token (co_order_token cancel) = mkHandle (r_slot r) g ->
  exists bk' ar',
    cancel_work CFG sh cancel sid = Ok (with_book sh b bk' ar', [ack_of 0 (co_order_token cancel) sid]) /\
    cancel_facts sh b bk bid r bk' ar'.
Proof.
  intros HS Hb Hr Hg Htok. destruct (cf_book _ HC) as [HN HL].
  destruct (book_in_shard sh b bk HS Hb) as (F & Hoth & HB & _ & _).
  destruct (cancel_order_live _ _ _ HN HL _ _ _ _ _ _ _ HB Hr Hg)
    as (bk' & ar' & Hrun & HB' & Hpar & Hfr & Hgens).
  pose proof (book_abs_unique _ _ HN _ _ _ _ _ HB') as Eabs.
  assert (HBw : book_wf (max_orders CFG) (ladder_size CFG) bk' ar' F).
  { eapply book_rel_wf; [done|done|]. intros x. destruct Hpar as [E1 E2]. unfold book_ix. by rewrite E1, E2. }
  exists bk', ar'. destruct (shard_wf_book sh b bk F bk' ar' HS Hb Hoth HBw Hfr Hpar) as [HS' Hothers].
  { intros bid' x. rewrite Eabs. destruct (decide (bid' = bid)) as [->|Hne].
    - rewrite aside_aput_eq. intros Hx%elem_of_spec_cancel. by eapply (sh_symbols _ HS).
    - assert (bid' = negb bid) as -> by (by destruct bid', bid).
      pose proof (aside_aput_ne (negb bid)) as E. rewrite negb_involutive in E. rewrite E.
      by eapply (sh_symbols _ HS). }
  split; [|split; [done|split; [done|split; [done|]]]].
  2:{ split; [constructor|]. exists [r_slot r]. split; [done|]. rewrite Eabs. apply aslots_cancelled; [|done].
      pose proof (Pool.wf_live_NoDup _ _ _ (br_pool HB)) as ND. by apply NoDup_app in ND as (ND & _). }
  pose proof (sh_symbols _ HS _ _ _ _ Hb Hr) as Hsym.
  destruct (br_sides HB bid) as (rss & Hs & Eb). pose proof Hr as Hr'. rewrite Eb in Hr'.
  apply elem_of_flat in Hr' as (i & q & Hi & Hrq).
  destruct (resting_lookup _ _ _ _ _ _ _ _ _ _ Hs Hi Hrq) as (a & c & Hnode).
  pose proof (lookupZ_range _ _ _ Hnode) as Rn. pose proof (Pool.wf_slots _ _ _ (br_pool HB)) as Lp.
  unfold Pool.data in Rn. rewrite Lp in Rn. pose proof (lookupZ_range _ _ _ Hsym) as Rs.
  pose proof (lookupZ_range _ _ _ Hb) as Rb. rewrite (sh_books _ HS) in Rb. pose proof (cf_symbols _ HC).
  unfold cancel_work. rewrite Htok. cbn [h_slot h_gen]. rewrite (proj2 (Z.leb_gt _ _)) by lia.
  unfold Pool.gen. rewrite (aget_Ok _ _ _ Hg). simpl. rewrite Z.eqb_refl. simpl.
  rewrite (Pool.at_Ok _ _ _ (node r a c)) by (done || lia). simpl.
  rewrite (local_book_Ok sh _ HS) by lia. rewrite Hsym. simpl.
  rewrite (proj2 (Z.eqb_neq b NO_BOOK)) by (unfold NO_BOOK; lia).
  rewrite (aget_Ok _ _ _ Hb). simpl. rewrite Hrun. simpl. rewrite (aset_Some _ _ _ _ Hb). simpl.
  done.
Qed.

Lemma handle_cancel_live sh cancel sid l b bk bid r g :
  shard_wf sh -> Spsc.queue_repr (queue_depth CFG) (outbound_ sh) l -> zlen l < queue_depth CFG ->
  books_ sh !! b = Some bk -> r ∈ aside bid (book_abs bk (arena_ sh)) ->
  Pool.gen_ (Pool.arena_ (pool_ (arena_ sh))) !! r_slot r = Some g ->
  from_token (co_order_token cancel) = mkHandle (r_slot r) g ->
  exists bk' ar',
    emits CFG (with_book sh b bk' ar') l (handle_cancel CFG sh cancel sid) [ack_of 0 (co_order_token cancel) sid] /\
    cancel_facts sh b bk bid r bk' ar'.
Proof.
  intros HS Hq Hroom Hb Hr Hg Htok. destruct (cancel_work_live sh cancel sid b bk bid r g HS Hb Hr Hg Htok) as (bk' & ar' & Hrun & Hfacts).
  exists bk', ar'. split; [|done]. rewrite handle_cancel_splits. apply work_emits; [apply HC|done|done|]. change (zlen [_]) with 1. lia.
Qed.

(** ** One request *)

(** What the work is, and what [tick] does, with the next message [m]. *)
Lemma work_dispatch sh m li :
  Spsc.queue_repr (queue_depth CFG) (inbound_ sh) (m :: li) ->
  exists q, Spsc.queue_repr (queue_depth CFG) q li /\
    tick_work CFG sh = match hdr_type (in_hdr m) with
      | NEW_ORDER => new_work CFG (set_inbound sh q) (in_new_order m) (hdr_session_id (in_hdr m))
      | CANCEL_ORDER => cancel_work CFG (set_inbound sh q) (in_cancel m) (hdr_session_id (in_hdr m))
      | _ => Ok (set_inbound sh q, [])
      end.
Proof.
  intros Hq. destruct (Spsc.pop_spec _ (cf_ring _ HC) _ _ Hq) as (q & Hpop & Hq').
  exists q. split; [done|]. unfold tick_work. by rewrite Hpop.
Qed.

Lemma work_empty sh : Spsc.queue_repr (queue_depth CFG) (inbound_ sh) [] -> tick_work CFG sh = Ok (sh, []).
Proof. intros Hq. destruct (Spsc.pop_spec _ (cf_ring _ HC) _ _ Hq) as (q & Hpop & _). unfold tick_work. by rewrite Hpop. Qed.

Lemma tick_dispatch sh m li :
  Spsc.queue_repr (queue_depth CFG) (inbound_ sh) (m :: li) ->
  exists q, Spsc.queue_repr (queue_depth CFG) q li /\
    tick CFG sh = match hdr_type (in_hdr m) with
      | NEW_ORDER => handle_new CFG (set_inbound sh q) (in_new_order m) (hdr_session_id (in_hdr m))
      | CANCEL_ORDER => handle_cancel CFG (set_inbound sh q) (in_cancel m) (hdr_session_id (in_hdr m))
      | _ => Ok (set_inbound sh q)
      end.
Proof.
  intros Hq. destruct (Spsc.pop_spec _ (cf_ring _ HC) _ _ Hq) as (q & Hpop & Hq').
  exists q. split; [done|]. unfold tick. by rewrite Hpop.
Qed.

Lemma tick_empty sh : Spsc.queue_repr (queue_depth CFG) (inbound_ sh) [] -> tick CFG sh = Ok sh.
Proof. intros Hq. destruct (Spsc.pop_spec _ (cf_ring _ HC) _ _ Hq) as (q & Hpop & _). unfold tick. by rewrite Hpop. Qed.

(** A token that names a slot of the arena with its current generation is the
    token of a resting order. *)
Definition not_forged (sh : Shard) (token : Z) : Prop :=
  let h := from_token token in
  Pool.gen_ (Pool.arena_ (pool_ (arena_ sh))) !! h_slot h = Some (h_gen h) ->
  h_slot h ∈ live (arena_ sh) (books_ sh).

Lemma live_order sh slot : slot ∈ live (arena_ sh) (books_ sh) ->
  exists b bk bid r, books_ sh !! b = Some bk /\ r ∈ aside bid (book_abs bk (arena_ sh)) /\ r_slot r = slot.
Proof.
  intros Hs. apply elem_of_concat_lookup in Hs as (i & x & Hi & Hx).
  apply list_lookup_fmap_Some in Hi as (bk & -> & Hbk).
  apply elem_of_app in Hx as [Hx|Hx]; apply list_elem_of_fmap in Hx as (r & -> & Hr).
  - exists (Z.of_nat i), bk, true, r. by rewrite lookupZ_of_nat.
  - exists (Z.of_nat i), bk, false, r. by rewrite lookupZ_of_nat.
Qed.

(** An order that is still somewhere on the books of the shard. *)
Lemma live_with_book sh b bk bk' ar' (R : list Z) :
  books_ sh !! b = Some bk ->
  (forall s, s ∈ aslots (book_abs bk (arena_ sh)) -> s ∉ R -> s ∈ aslots (book_abs bk' ar')) ->
  (forall j bkj, j <> b -> books_ sh !! j = Some bkj ->
     books_ (with_book sh b bk' ar') !! j = Some bkj /\ book_abs bkj ar' = book_abs bkj (arena_ sh)) ->
  forall s, s ∈ live (arena_ sh) (books_ sh) -> s ∉ R -> s ∈ live ar' (books_ (with_book sh b bk' ar')).
Proof.
  intros Hb Hkeep Hoth s (j & bkj & bid & r & Hj & Hr & <-)%live_order HnR.
  assert (Hs : r_slot r ∈ aslots (book_abs bkj (arena_ sh))).
  { rewrite (aslots_sides bid). apply elem_of_app. left. by apply list_elem_of_fmap_2. }
  destruct (decide (j = b)) as [->|Hne].
  - assert (bkj = bk) as -> by congruence. apply (live_elem _ _ bk'); [|by apply Hkeep].
    apply (elem_of_lookupZ _ b), lookupZ_insertZ_eq. by eapply lookupZ_range.
  - destruct (Hoth j bkj Hne Hj) as [Hj' E]. apply (live_elem _ _ bkj); [by eapply elem_of_lookupZ|]. by rewrite E.
Qed.

End invariant.

End ShardInv.
