(* ===== verification/ReportTypes.v ===== *)
(** * Reports are typed

    Every field of a report fits its width and the header says which member of
    the union was written, so that a client that reads the frame recovers the
    report.  The fields come from requests, whose bytes bound them, and from the
    orders that rest, so resting orders are typed too. *)

From S2P Require Import Prelude Messages Order PriceLevel OrderHandle OrderBook BookSpec BookAbs Shard ShardWork ShardInv.

Module ReportTypes.
Import PriceLevel OrderHandle OrderBook BookSpec BookAbs Shard ShardInv.

(** The header of a report of [len] bytes. *)
Definition header_of (h : Header) (len : Z) (t : MsgType) : Prop :=
  hdr_len h = len /\ hdr_type h = t /\ hdr_flags h = 0 /\ is_u 32 (hdr_session_id h).

Definition out_typed (m : OutboundMsg) : Prop :=
  match m with
  | out_ack a => header_of (ack_hdr a) sizeof_Ack ACK /\ is_u 64 (ack_order_id a) /\ is_u 64 (ack_order_token a)
  | out_reject r =>
      header_of (rej_hdr r) sizeof_Reject REJECT /\ is_u 64 (rej_order_id r) /\
      (rej_reason r = UNKNOWN_SYMBOL \/ rej_reason r = UNKNOWN_ORDER) /\ rej_padding r = 0
  | out_fill f =>
      header_of (fill_hdr f) sizeof_Fill FILL /\ is_u 64 (fill_aggressor_id f) /\ is_u 64 (fill_resting_id f) /\
      is_i64 (fill_price f) /\ is_u 32 (fill_qty f) /\ fill_padding f = 0
  end.

(** What a client makes of a frame: the type of the header tells the member. *)
Definition client_read (frame : list Z) : option OutboundMsg :=
  match hdr_type (cdec c_Header frame) with
  | ACK => Some (out_ack (cdec c_Ack frame))
  | REJECT => Some (out_reject (cdec c_Reject frame))
  | FILL => Some (out_fill (cdec c_Fill frame))
  | _ => None
  end.

Lemma header_ok h len t : header_of h len t -> is_u 16 len -> cok c_MsgType t -> cok c_Header h.
Proof.
  intros (E1 & E2 & E3 & Hs) Hl Ht. split; [|by destruct h]. cbn [fst snd]. rewrite E1, E2, E3.
  split; [exact Hl|]. split; [exact Ht|]. split; [|exact Hs]. by vm_compute.
Qed.

Lemma typed_read m : out_typed m -> client_read (out_enc m) = Some m.
Proof.
  destruct m as [a|r|f]; cbn [out_typed out_enc]; unfold client_read.
  - intros (Hh & Hi & Ht). assert (Hok : cok c_Ack a).
    { split; [|by destruct a]. split; [|by split]. eapply header_ok; [exact Hh|by vm_compute|by vm_compute]. }
    pose proof (dec_enc (c := c_Ack) a Hok) as E. rewrite E.
    change (cdec c_Header (cenc c_Ack a)) with (ack_hdr (cdec c_Ack (cenc c_Ack a))). rewrite E. by destruct Hh as (_ & -> & _).
  - intros (Hh & Hi & Hr & Hp). assert (Hok : cok c_Reject r).
    { split; [|by destruct r]. split; [eapply header_ok; [exact Hh|by vm_compute|by vm_compute]|]. split; [done|]. cbn [fst snd].
      rewrite Hp. destruct Hr as [-> | ->]; by vm_compute. }
    pose proof (dec_enc (c := c_Reject) r Hok) as E. rewrite E.
    change (cdec c_Header (cenc c_Reject r)) with (rej_hdr (cdec c_Reject (cenc c_Reject r))). rewrite E. by destruct Hh as (_ & -> & _).
  - intros (Hh & Ha & Hr & Hp & Hq & Hd). assert (Hok : cok c_Fill f).
    { split; [|by destruct f]. split; [eapply header_ok; [exact Hh|by vm_compute|by vm_compute]|]. do 4 (split; [done|]). cbn [fst snd].
      rewrite Hd. by vm_compute. }
    pose proof (dec_enc (c := c_Fill) f Hok) as E. rewrite E.
    change (cdec c_Header (cenc c_Fill f)) with (fill_hdr (cdec c_Fill (cenc c_Fill f))). rewrite E. by destruct Hh as (_ & -> & _).
Qed.

(** ** Resting orders *)

Definition resting_typed (r : Resting) : Prop :=
  is_u 64 (r_id r) /\ is_i64 (r_price r) /\ is_u 32 (r_qty r) /\ is_u 32 (r_session r).

Definition abook_typed (ab : ABook) : Prop := forall bid, Forall resting_typed (aside bid ab).

Definition books_typed (sh : Shard) : Prop := forall i bk, books_ sh !! i = Some bk -> abook_typed (book_abs bk (arena_ sh)).

Definition order_typed (o : NewOrder) : Prop :=
  is_u 64 (no_order_id o) /\ is_i64 (no_price o) /\ is_u 32 (no_qty o) /\ is_u 32 (hdr_session_id (no_hdr o)).

Definition fill_typed (f : Fill) : Prop := out_typed (out_fill f).

Lemma spec_match_typed ix bid id idx n q l fs q' l' :
  is_u 64 id -> is_u 32 q -> Forall resting_typed l -> spec_match ix bid id idx n q l = (fs, q', l') ->
  Forall fill_typed fs /\ is_u 32 q' /\ Forall resting_typed l'.
Proof.
  intros Hid. revert n q fs q' l'. induction l as [|r l IH]; intros n q fs q' l' Hq Hl; cbn [spec_match].
  { by intros [= <- <- <-]. }
  destruct (_ && _ && _); [|by intros [= <- <- <-]].
  apply Forall_cons in Hl as [(H1 & H2 & H3 & H4) Hl]. unfold is_u in Hq, H3.
  assert (Hf : fill_typed (spec_fill id r (Z.min q (r_qty r)))).
  { do 2 (split; [done|]). split; [done|]. split; [done|]. split; [|done]. cbn. unfold is_u. lia. }
  destruct (_ =? 0).
  - destruct (spec_match _ _ _ _ _ _ l) as [[fs1 q1] l1] eqn:E. intros [= <- <- <-].
    destruct (IH (n - 1) (q - Z.min q (r_qty r)) fs1 q1 l1 ltac:(unfold is_u; lia) Hl E) as (? & ? & ?). split; [by constructor|]. done.
  - intros [= <- <- <-]. split; [by constructor|]. split; [unfold is_u; lia|]. constructor; [|done].
    split; [done|]. split; [done|]. split; [|done]. cbn. unfold is_u. lia.
Qed.

Lemma spec_insert_typed ix bid r l : resting_typed r -> Forall resting_typed l -> Forall resting_typed (spec_insert ix bid r l).
Proof.
  intros Hr Hl. induction Hl as [|x l Hx Hl IH]; cbn [spec_insert]; [by constructor|].
  destruct (at_least _ _ _); constructor; try done. by constructor.
Qed.

Lemma abook_typed_put bid ab l : abook_typed ab -> Forall resting_typed l -> abook_typed (aput bid ab l).
Proof. intros Hab Hl b. pose proof (Hab true). pose proof (Hab false). by destruct bid, b. Qed.

Lemma spec_add_typed ix ab o slot n rests fs ab' :
  order_typed o -> abook_typed ab -> spec_add ix ab o slot n = (rests, fs, ab') -> Forall fill_typed fs /\ abook_typed ab'.
Proof.
  intros (H1 & H2 & H3 & H4) Hab. unfold spec_add. destruct (spec_match _ _ _ _ _ _ _) as [[fs1 q] opp] eqn:E.
  destruct (spec_match_typed _ _ _ _ _ _ _ _ _ _ H1 H3 (Hab _) E) as (Hfs & Hq & Hopp).
  pose proof (abook_typed_put (negb (bool_decide (no_side o = BUY))) _ _ Hab Hopp) as Hab'. destruct (_ && _); intros [= _ <- <-]; (split; [done|]); [|done].
  apply abook_typed_put; [done|]. apply spec_insert_typed; [|apply Hab']. exact (conj H1 (conj H2 (conj Hq H4))).
Qed.

Lemma spec_cancel_typed bid slot ab : abook_typed ab -> abook_typed (aput bid ab (spec_cancel slot (aside bid ab))).
Proof.
  intros Hab. apply abook_typed_put; [done|]. apply Forall_forall. intros r [_ Hr]%list_elem_of_filter.
  pose proof (Hab bid) as Hl. rewrite Forall_forall in Hl. by apply Hl.
Qed.

(** ** Requests and their reports *)

Lemma formed_typed m : in_formed m ->
  order_typed (in_new_order m) /\ is_u 32 (hdr_session_id (in_hdr m)) /\ is_u 64 (co_order_token (in_cancel m)) /\
  hdr_session_id (no_hdr (in_new_order m)) = hdr_session_id (in_hdr m).
Proof.
  intros [Hl Hb].
  destruct (dec_ok (c := c_NewOrder) (in_raw m) ltac:(lia) Hb) as [([(_ & _ & _ & Hs) _] & Hid & Hp & Hq & _) _].
  assert (Hc : (csize c_CancelOrder <= length (in_raw m))%nat) by (rewrite Hl; vm_compute; lia).
  destruct (dec_ok (c := c_CancelOrder) (in_raw m) Hc Hb) as [(_ & Ht) _].
  assert (E : hdr_session_id (no_hdr (in_new_order m)) = hdr_session_id (in_hdr m)) by done.
  split; [|split; [|split; [exact Ht|done]]].
  - split; [exact Hid|]. split; [exact Hp|]. split; [exact Hq|]. exact Hs.
  - rewrite <- E. exact Hs.
Qed.

Lemma reports_typed sid fs : is_u 32 sid -> Forall fill_typed fs -> Forall out_typed (reports sid fs).
Proof.
  intros Hsid. unfold reports. induction 1 as [|f fs Hf _ IH]; [constructor|]. rewrite fmap_cons, concat_cons.
  apply Forall_app. split; [|done]. unfold fill_reports. constructor; [exact Hf|].
  destruct (_ =? _); constructor; [|constructor]. destruct Hf as ((A1 & A2 & A3 & _) & Hrest). split; [|exact Hrest]. by split.
Qed.

Lemma ack_typed id token sid : is_u 64 id -> is_u 64 token -> is_u 32 sid -> out_typed (ack_of id token sid).
Proof. intros Hi Ht Hs. split; [exact (conj eq_refl (conj eq_refl (conj eq_refl Hs)))|]. by split. Qed.

Lemma reject_typed id reason sid : is_u 64 id -> reason = UNKNOWN_SYMBOL \/ reason = UNKNOWN_ORDER -> is_u 32 sid ->
  out_typed (reject_of id reason sid).
Proof. intros Hi Hr Hs. split; [exact (conj eq_refl (conj eq_refl (conj eq_refl Hs)))|]. by split. Qed.

Lemma lor_range n a b : 0 <= n -> is_u n a -> is_u n b -> is_u n (Z.lor a b).
Proof.
  intros Hn Ha Hb. unfold is_u in *. assert (E : Z.lor a b = Z.lor a b mod 2 ^ n).
  { rewrite <- Z.land_ones, Z.land_lor_distr_l, !Z.land_ones, !Z.mod_small by done. done. }
  rewrite E. apply Z.mod_pos_bound. lia.
Qed.

Lemma to_token_range h shard : is_u 64 (to_token h shard).
Proof.
  unfold to_token. apply lor_range; [lia|apply lor_range; [lia|apply wrapU_bound; lia..]|].
  change 0xFFFFFF with (Z.ones 24). rewrite Z.land_ones by lia. pose proof (Z.mod_pos_bound (h_slot h) (2 ^ 24) ltac:(lia)). unfold is_u. lia.
Qed.

End ReportTypes.
