(* ===== verification/ShardProps.v ===== *)
(** * What a shard guarantees

    Construction, and the theorems on [Shard.tick] for each kind of request. *)

From S2P Require Import Prelude Messages Order LevelBitmap Pool PriceLevel OrderHandle OrderBook Spsc.
From S2P Require Import BookSpec BookInv BookMatch BookRefine BookLaws BookAbs BookProps Shard ShardWork ShardInv ReportTypes.

Module ShardProps.
Import PriceLevel OrderHandle OrderBook BookSpec BookInv BookRefine BookLaws BookAbs BookProps Shard ShardInv ReportTypes.

Section shard.
Context (CFG : ShardConfig) (HC : config_ok CFG).

(** ** Construction *)

(** Every entry of the symbol table is free or names a book. *)
Definition table_ok (local_of : list Z) : Prop :=
  zlen local_of = SYMBOL_SPACE CFG /\
  forall s b, local_of !! s = Some b -> b = NO_BOOK \/ 0 <= b < max_symbols CFG.

Lemma table_ok_set local_of s b : table_ok local_of -> 0 <= s < SYMBOL_SPACE CFG -> 0 <= b < max_symbols CFG ->
  aset local_of s b = Ok (<[s := b]> local_of) /\ table_ok (<[s := b]> local_of).
Proof.
  intros [Hl Ht] Hs Hb. split; [apply aset_Ok; lia|]. split; [by rewrite zlen_insertZ|].
  intros t c. rewrite lookupZ_insertZ by lia. case_decide; [intros [= <-]; by right|]. apply Ht.
Qed.

Lemma identity_map_ok fuel s local_of : table_ok local_of -> 0 <= s <= SYMBOL_SPACE CFG ->
  SYMBOL_SPACE CFG - s < Z.of_nat fuel ->
  exists t, identity_map CFG fuel s local_of = Ok t /\ table_ok t.
Proof.
  revert s local_of. induction fuel as [|fuel IH]; intros s t Ht H0 Hf; simpl; [lia|].
  destruct (_ && _) eqn:E; [|by exists t]. apply andb_true_iff in E as [E1%Z.ltb_lt E2%Z.ltb_lt].
  destruct (table_ok_set t s s Ht) as [-> Ht']; [lia|lia|]. simpl.
  pose proof (cf_symbols _ HC). unfold UINT16_MAX in *. rewrite wrapU_small by lia. apply IH; [done|lia|lia].
Qed.

Lemma assign_symbols_ok symbols next local_of : table_ok local_of ->
  Forall (fun s => 0 <= s < SYMBOL_SPACE CFG) symbols -> 0 <= next -> next + zlen symbols <= max_symbols CFG ->
  exists t, assign_symbols CFG symbols next local_of = Ok t /\ table_ok t.
Proof.
  intros Ht HF. revert next local_of Ht. induction HF as [|s symbols Hs _ IH]; intros next t Ht H0 Hle; simpl.
  { by exists t. }
  rewrite zlen_cons in Hle. pose proof (zlen_nonneg symbols). pose proof (cf_symbols _ HC).
  rewrite (proj2 (Z.ltb_lt _ _)) by lia. simpl.
  destruct (table_ok_set t s next Ht Hs) as [-> Ht']; [lia|]. simpl.
  unfold UINT16_MAX in *. rewrite wrapU_small by lia. apply IH; [done|lia|lia].
Qed.

Lemma table_ok_init : table_ok (replicate (Z.to_nat (SYMBOL_SPACE CFG)) NO_BOOK).
Proof.
  pose proof (cf_symbols _ HC). pose proof (cf_space _ HC). split.
  - rewrite zlen_replicate. unfold SYMBOL_SPACE. destruct (negb _); lia.
  - intros s b ->%replicate_inv. by left.
Qed.

(** Fresh books over a fresh arena share it. *)
Lemma sharing_init base tick_size : 0 < tick_size ->
  sharing (max_orders CFG) (ladder_size CFG) (arena_init (max_orders CFG)) (make_books CFG base tick_size).
Proof.
  intros Ht. pose proof (cf_book _ HC) as HP. destruct HP as [HN HL].
  set (ar := arena_init (max_orders CFG)). set (bk := book_init (ladder_size CFG) base tick_size).
  assert (Hpool : Pool.pool_wf (max_orders CFG) (pool_ ar) []) by (apply Pool.pool_init_wf; lia).
  assert (Hlen : zlen (order_session_ ar) = max_orders CFG)
    by (unfold ar, arena_init; simpl; rewrite zlen_replicate; lia).
  assert (HB : book_rel (max_orders CFG) (ladder_size CFG) (ladder_idx base tick_size) bk ar (mkABook [] []) [])
    by (by apply book_init_rel).
  assert (Eabs : book_abs bk ar = mkABook [] []) by (by eapply (book_abs_unique _ _ HN)).
  assert (Hall : forall x, x ∈ make_books CFG base tick_size -> x = bk)
    by (intros x Hx; unfold make_books in Hx; by apply elem_of_replicate in Hx as [-> _]).
  split; [|done|].
  - assert (live ar (make_books CFG base tick_size) = []) as ->; [|done].
    unfold live, make_books. fold bk. induction (Z.to_nat (max_symbols CFG)) as [|n IH]; [done|].
    simpl. by rewrite Eabs.
  - intros x ->%Hall. exists []. by eapply (book_rel_wf _ _ HN).
Qed.

Lemma shard_init_spec base tick_size shard_id symbols :
  0 < tick_size -> is_u 8 shard_id ->
  zlen symbols <= max_symbols CFG -> Forall (fun s => 0 <= s < SYMBOL_SPACE CFG) symbols ->
  exists sh, shard_init CFG base tick_size shard_id symbols = Ok sh /\ shard_wf CFG base tick_size sh /\
    Spsc.queue_repr (queue_depth CFG) (inbound_ sh) [] /\ Spsc.queue_repr (queue_depth CFG) (outbound_ sh) [] /\
    live (arena_ sh) (books_ sh) = [] /\ shard_id_ sh = shard_id.
Proof.
  intros Ht Hid Hle HF. pose proof (cf_symbols _ HC). pose proof (cf_space _ HC).
  assert (exists t, match symbols with
     | [] => identity_map CFG (S (Z.to_nat (SYMBOL_SPACE CFG))) 0 (replicate (Z.to_nat (SYMBOL_SPACE CFG)) NO_BOOK)
     | _ => _ ← assert_ (zlen symbols <=? max_symbols CFG);
            assign_symbols CFG symbols 0 (replicate (Z.to_nat (SYMBOL_SPACE CFG)) NO_BOOK)
     end = Ok t /\ table_ok t) as (t & Hrun & [Hlen Htab]).
  { destruct symbols as [|s symbols].
    - apply identity_map_ok; [apply table_ok_init| |]; unfold SYMBOL_SPACE; destruct (negb _); lia.
    - rewrite (proj2 (Z.leb_le _ _)) by done.
      destruct (assign_symbols_ok (s :: symbols) 0 _ table_ok_init HF) as (t & -> & ?); [lia|lia|by exists t]. }
  unfold shard_init. rewrite Hrun. simpl. pose proof (sharing_init base tick_size Ht) as Hsh.
  assert (Hlive : live (arena_init (max_orders CFG)) (make_books CFG base tick_size) = []).
  { pose proof (Pool.wf_free_count _ _ _ (sr_pool _ _ _ _ Hsh)) as C. simpl in C.
    pose proof (bp_max _ _ (cf_book _ HC)). apply length_zero_iff_nil. unfold zlen in C. lia. }
  eexists. split; [done|]. split; [|split; [apply Spsc.queue_init_repr, HC|split; [apply Spsc.queue_init_repr, HC|done]]].
  split; simpl; try done.
  - unfold make_books. rewrite zlen_replicate. lia.
  - intros x Hx. unfold make_books in Hx. by apply elem_of_replicate in Hx as [-> _].
  - intros i bk bid r Hi Hr. exfalso. assert (Hin : r_slot r ∈ live (arena_init (max_orders CFG)) (make_books CFG base tick_size)).
    { pose proof (lookupZ_range _ _ _ Hi). rewrite lookupZ_nat in Hi by lia.
      eapply live_elem; [by eapply list_elem_of_lookup_2|]. rewrite (aslots_sides bid).
      apply elem_of_app. left. by apply list_elem_of_fmap_2. }
    rewrite Hlive in Hin. by apply not_elem_of_nil in Hin.
Qed.

(** The constructor builds a well-formed shard with empty books and empty
    rings, for the identity assignment of symbols as for every list of
    distinct or repeated symbols that fits: its assertions hold and all its
    table accesses are in range. *)
Theorem shard_init_ok base tick_size shard_id symbols :
  0 < tick_size -> is_u 8 shard_id ->
  zlen symbols <= max_symbols CFG -> Forall (fun s => 0 <= s < SYMBOL_SPACE CFG) symbols ->
  exists sh, shard_init CFG base tick_size shard_id symbols = Ok sh /\ shard_wf CFG base tick_size sh /\
    Spsc.queue_repr (queue_depth CFG) (inbound_ sh) [] /\ Spsc.queue_repr (queue_depth CFG) (outbound_ sh) [] /\
    forall i bk, books_ sh !! i = Some bk -> book_abs bk (arena_ sh) = mkABook [] [].
Proof.
  intros Ht Hid Hle HF. destruct (shard_init_spec base tick_size shard_id symbols Ht Hid Hle HF)
    as (sh & Hrun & HS & Hi & Ho & Hl & _).
  exists sh. do 4 (split; [done|]). intros i bk Hb. pose proof (lookupZ_range _ _ _ Hb).
  rewrite lookupZ_nat in Hb by lia. apply list_elem_of_lookup_2 in Hb.
  destruct (book_abs bk (arena_ sh)) as [bids asks] eqn:E.
  assert (Hno : forall r, r ∈ bids ++ asks -> False).
  { intros r Hr. apply (not_elem_of_nil (r_slot r)). rewrite <- Hl. eapply live_elem; [done|].
    rewrite E. unfold aslots. simpl. rewrite <- slots_of_app. by apply list_elem_of_fmap_2. }
  destruct bids as [|r bids]; [|destruct (Hno r); constructor].
  destruct asks as [|r asks]; [done|destruct (Hno r); constructor].
Qed.

(** ** Requests *)

Context (base tick_size : Z).

Abbreviation shard_wf := (shard_wf CFG base tick_size).
Abbreviation holds := (Spsc.queue_repr (queue_depth CFG)).

(** The book of [symbol] and its contents. *)
Definition has_book (sh : Shard) (symbol b : Z) (bk : OrderBook) : Prop :=
  0 <= symbol /\ local_of_ sh !! symbol = Some b /\ books_ sh !! b = Some bk.

(** The other books are as they were. *)
Definition others_same (sh sh' : Shard) (b : Z) : Prop :=
  forall j bk, j <> b -> books_ sh !! j = Some bk ->
    books_ sh' !! j = Some bk /\ book_abs bk (arena_ sh') = book_abs bk (arena_ sh).

(** A new order for a hosted symbol, on the ladder and with a free slot, is
    matched in its symbol's book and in no other: the book changes as the
    reference book does, each fill is reported to the resting order's session
    and to the sender (once if they are the same), and a resting order is then
    acknowledged with a token that leads back to this shard, to its slot and to
    the slot's current generation.  All this happens within 129 outbound
    messages, so the shard does not block when the ring has room for them. *)
Theorem tick_new_order sh m li l b bk :
  shard_wf sh -> holds (inbound_ sh) (m :: li) -> holds (outbound_ sh) l -> zlen l + 129 <= queue_depth CFG ->
  hdr_type (in_hdr m) = NEW_ORDER -> has_book sh (no_symbol_id (in_new_order m)) b bk ->
  admissible (ladder_size CFG) bk (arena_ sh) (in_new_order m) MAX_FILLS_PER_ORDER ->
  let sid := hdr_session_id (in_hdr m) in
  exists sh' slot g (rests : bool) fs bk' token,
    tick CFG sh = Ok sh' /\ shard_wf sh' /\ holds (inbound_ sh') li /\
    holds (outbound_ sh') (l ++ reports sid fs ++
      if rests then [ack_of (no_order_id (in_new_order m)) token sid] else []) /\
    books_ sh' !! b = Some bk' /\
    spec_add (book_ix bk) (book_abs bk (arena_ sh)) (in_new_order m) slot MAX_FILLS_PER_ORDER
      = (rests, fs, book_abs bk' (arena_ sh')) /\
    others_same sh sh' b /\
    (rests = true -> from_token token = mkHandle slot g /\ token_shard token = shard_id_ sh /\
       Pool.gen_ (Pool.arena_ (pool_ (arena_ sh'))) !! slot = Some g).
Proof.
  intros HS Hin Hout Hroom Ht (H0 & Hsym & Hb) Ha sid.
  destruct (tick_dispatch CFG HC sh m li Hin) as (q & Hq & ->). rewrite Ht.
  destruct (handle_new_trades CFG base tick_size HC (set_inbound sh q) (in_new_order m) sid l b bk
    (shard_wf_inbound _ _ _ _ _ HS) Hout Hroom H0 Hsym Hb Ha)
    as (slot & g & rests & fs & bk' & ar' & token & Hadd & (q' & Hrun & Hq') & HS' & _ & Htok & Hoth & _).
  eexists _, slot, g, rests, fs, bk', token. split; [exact Hrun|].
  split; [by apply shard_wf_outbound|]. split; [done|]. split; [by rewrite app_assoc in Hq' |- *|].
  split; [simpl; apply lookupZ_insertZ_eq; by eapply lookupZ_range|].
  split; [done|]. split; [exact Hoth|]. intros Hr. by apply Htok.
Qed.

(** A new order for a symbol the shard does not host is rejected to its
    sender as an unknown symbol, and nothing else happens. *)
Theorem tick_unknown_symbol sh m li l :
  shard_wf sh -> holds (inbound_ sh) (m :: li) -> holds (outbound_ sh) l -> zlen l < queue_depth CFG ->
  hdr_type (in_hdr m) = NEW_ORDER -> 0 <= no_symbol_id (in_new_order m) ->
  default NO_BOOK (local_of_ sh !! no_symbol_id (in_new_order m)) = NO_BOOK ->
  exists sh', tick CFG sh = Ok sh' /\ shard_wf sh' /\ holds (inbound_ sh') li /\
    holds (outbound_ sh')
      (l ++ [reject_of (no_order_id (in_new_order m)) UNKNOWN_SYMBOL (hdr_session_id (in_hdr m))]) /\
    books_ sh' = books_ sh /\ arena_ sh' = arena_ sh.
Proof.
  intros HS Hin Hout Hroom Ht H0 Hsym. destruct (tick_dispatch CFG HC sh m li Hin) as (q & Hq & ->). rewrite Ht.
  destruct (handle_new_unknown CFG base tick_size HC (set_inbound sh q) (in_new_order m)
    (hdr_session_id (in_hdr m)) l (shard_wf_inbound _ _ _ _ _ HS) Hout Hroom H0 Hsym) as (q' & -> & Hq').
  eexists. split; [done|]. split; [by apply shard_wf_outbound, shard_wf_inbound|]. done.
Qed.

(** C34: A new order for a hosted symbol whose price is off the ladder, or that
    finds the arena full, is consumed without any report: no acknowledgement,
    no rejection, and the books unchanged. *)
Theorem tick_silent_drop sh m li l b bk :
  shard_wf sh -> holds (inbound_ sh) (m :: li) -> holds (outbound_ sh) l ->
  hdr_type (in_hdr m) = NEW_ORDER -> has_book sh (no_symbol_id (in_new_order m)) b bk ->
  is_i64 (no_price (in_new_order m) - base) ->
  ~ 0 <= book_ix bk (no_price (in_new_order m)) < ladder_size CFG \/ Pool.free_count (pool_ (arena_ sh)) = 0 ->
  exists q, tick CFG sh = Ok (set_inbound sh q) /\ holds q li.
Proof.
  intros HS Hin Hout Ht (H0 & Hsym & Hb) Hp Hno.
  destruct (tick_dispatch CFG HC sh m li Hin) as (q & Hq & ->). rewrite Ht.
  exists q. split; [|done]. eapply (handle_new_silent CFG base tick_size HC (set_inbound sh q));
    try done. by apply shard_wf_inbound.
Qed.

(** A cancel with the token of a resting order, whoever sends it, removes
    exactly that order from the book it rests in and is acknowledged with the
    token; all other orders of all books stay. *)
Theorem tick_cancel sh m li l b bk bid r g :
  shard_wf sh -> holds (inbound_ sh) (m :: li) -> holds (outbound_ sh) l -> zlen l < queue_depth CFG ->
  hdr_type (in_hdr m) = CANCEL_ORDER -> books_ sh !! b = Some bk -> r ∈ aside bid (book_abs bk (arena_ sh)) ->
  Pool.gen_ (Pool.arena_ (pool_ (arena_ sh))) !! r_slot r = Some g ->
  from_token (co_order_token (in_cancel m)) = mkHandle (r_slot r) g ->
  exists sh' bk', tick CFG sh = Ok sh' /\ shard_wf sh' /\ holds (inbound_ sh') li /\
    holds (outbound_ sh') (l ++ [ack_of 0 (co_order_token (in_cancel m)) (hdr_session_id (in_hdr m))]) /\
    books_ sh' !! b = Some bk' /\
    book_abs bk' (arena_ sh') = aput bid (book_abs bk (arena_ sh))
      (spec_cancel (r_slot r) (aside bid (book_abs bk (arena_ sh)))) /\
    others_same sh sh' b.
Proof.
  intros HS Hin Hout Hroom Ht Hb Hr Hg Htok.
  destruct (tick_dispatch CFG HC sh m li Hin) as (q & Hq & ->). rewrite Ht.
  destruct (handle_cancel_live CFG base tick_size HC (set_inbound sh q) (in_cancel m)
    (hdr_session_id (in_hdr m)) l b bk bid r g (shard_wf_inbound _ _ _ _ _ HS) Hout Hroom Hb Hr Hg Htok)
    as (bk' & ar' & (q' & Hrun & Hq') & HS' & Habs & Hoth & _).
  eexists _, bk'. split; [exact Hrun|]. split; [by apply shard_wf_outbound|]. do 2 (split; [done|]).
  split; [simpl; apply lookupZ_insertZ_eq; by eapply lookupZ_range|]. split; [done|exact Hoth].
Qed.

(** C27: A cancel whose token names a slot outside the arena, or a generation
    that is not the slot's current one, is rejected as an unknown order, and no
    book changes. *)
Theorem tick_stale_cancel sh m li l :
  let h := from_token (co_order_token (in_cancel m)) in
  shard_wf sh -> holds (inbound_ sh) (m :: li) -> holds (outbound_ sh) l -> zlen l < queue_depth CFG ->
  hdr_type (in_hdr m) = CANCEL_ORDER ->
  Pool.gen_ (Pool.arena_ (pool_ (arena_ sh))) !! h_slot h <> Some (h_gen h) ->
  exists sh', tick CFG sh = Ok sh' /\ shard_wf sh' /\ holds (inbound_ sh') li /\
    holds (outbound_ sh') (l ++ [reject_of 0 UNKNOWN_ORDER (hdr_session_id (in_hdr m))]) /\
    books_ sh' = books_ sh /\ arena_ sh' = arena_ sh.
Proof.
  intros h HS Hin Hout Hroom Ht Hg. destruct (tick_dispatch CFG HC sh m li Hin) as (q & Hq & ->). rewrite Ht.
  destruct (handle_cancel_stale CFG base tick_size HC (set_inbound sh q) (in_cancel m)
    (hdr_session_id (in_hdr m)) l (shard_wf_inbound _ _ _ _ _ HS) Hout Hroom Hg) as (q' & -> & Hq').
  eexists. split; [done|]. split; [by apply shard_wf_outbound, shard_wf_inbound|]. done.
Qed.

(** A message as the gateway queues it: 32 bytes, a price from which the base
    price can be subtracted, and no forged token. *)
Record msg_ok (sh : Shard) (m : InboundMsg) : Prop := {
  mo_len : length (in_raw m) = csize c_NewOrder;
  mo_bytes : Forall is_byte (in_raw m);
  mo_price : hdr_type (in_hdr m) = NEW_ORDER -> is_i64 (no_price (in_new_order m) - base);
  mo_token : hdr_type (in_hdr m) = CANCEL_ORDER -> not_forged sh (co_order_token (in_cancel m))
}.

Lemma order_widths m : length (in_raw m) = csize c_NewOrder -> Forall is_byte (in_raw m) ->
  0 <= no_symbol_id (in_new_order m) /\ is_u 32 (no_qty (in_new_order m)).
Proof.
  intros Hl Hb. destruct (dec_ok (c := c_NewOrder) (in_raw m) ltac:(lia) Hb) as [(_ & _ & _ & Hq & Hs & _) _].
  split; [apply Hs|exact Hq].
Qed.

(** Reports are whole frames. *)
Lemma spec_match_frames ix bid id idx n q l fs q' l' :
  spec_match ix bid id idx n q l = (fs, q', l') -> Forall (fun f => hdr_len (fill_hdr f) = sizeof_Fill) fs.
Proof.
  revert n q fs q' l'. induction l as [|r l IH]; intros n q fs q' l'; cbn [spec_match]; [by intros [= <- _ _]|].
  destruct (_ && _ && _); [|by intros [= <- _ _]]. destruct (_ =? 0).
  - destruct (spec_match _ _ _ _ _ _ l) as [[fs1 q1] l1] eqn:E. intros [= <- _ _]. constructor; [done|by eapply IH].
  - intros [= <- _ _]. by repeat constructor.
Qed.

Lemma spec_add_frames ix ab msg slot n rests fs ab' :
  spec_add ix ab msg slot n = (rests, fs, ab') -> Forall (fun f => hdr_len (fill_hdr f) = sizeof_Fill) fs.
Proof.
  unfold spec_add. destruct (spec_match _ _ _ _ _ _ _) as [[fs1 q] opp] eqn:E. apply spec_match_frames in E.
  destruct (_ && _); by intros [= _ <- _].
Qed.

Lemma zlen_fill f : zlen (out_enc (out_fill f)) = sizeof_Fill.
Proof. unfold zlen. cbn [out_enc]. by rewrite length_enc. Qed.

Lemma reports_wf sid fs : Forall (fun f => hdr_len (fill_hdr f) = sizeof_Fill) fs -> Forall out_wf (reports sid fs).
Proof.
  unfold reports. induction 1 as [|f fs Hf _ IH]; [constructor|]. rewrite fmap_cons, concat_cons.
  apply Forall_app. split; [|done]. unfold fill_reports, out_wf.
  constructor; [by rewrite zlen_fill|]. destruct (_ =? _); repeat constructor. by rewrite zlen_fill.
Qed.

Lemma ack_wf id token sid : out_wf (ack_of id token sid).
Proof. unfold out_wf, zlen. cbn [out_enc ack_of]. by rewrite length_enc. Qed.

Lemma reject_wf id reason sid : out_wf (reject_of id reason sid).
Proof. unfold out_wf, zlen. cbn [out_enc reject_of]. by rewrite length_enc. Qed.

(** The tokens a list of reports acknowledges. *)
Definition acked (m : OutboundMsg) : option Z :=
  match m with out_ack a => Some (ack_order_token a) | _ => None end.
Definition acked_tokens (outs : list OutboundMsg) : list Z := omap acked outs.

(** What a [tick] does to tokens: an order that leaves its book has its
    generation moved on once, and an acknowledged token is that of an order
    that now rests, or the one that was cancelled. *)
Record tick_effect (sh : Shard) (m : InboundMsg) (outs : list OutboundMsg) (sh' : Shard) : Prop := {
  te_gens : exists R, gens_bump R (pool_ (arena_ sh)) (pool_ (arena_ sh')) /\
    forall s, s ∈ live (arena_ sh) (books_ sh) -> s ∉ R -> s ∈ live (arena_ sh') (books_ sh');
  te_acked : forall t, t ∈ acked_tokens outs ->
    (h_slot (from_token t) ∈ live (arena_ sh') (books_ sh') /\
     Pool.gen_ (Pool.arena_ (pool_ (arena_ sh'))) !! h_slot (from_token t) = Some (h_gen (from_token t)) /\
     token_shard t = shard_id_ sh) \/
    (hdr_type (in_hdr m) = CANCEL_ORDER /\ t = co_order_token (in_cancel m));
  te_wf : Forall out_wf outs;
  te_typed : in_formed m -> books_typed sh -> books_typed sh' /\ Forall out_typed outs;
  te_id : shard_id_ sh' = shard_id_ sh;
  te_table : local_of_ sh' = local_of_ sh
}.

Lemma gens_bump_nil p : gens_bump [] p p.
Proof. intros s. rewrite bool_decide_false; [done|]. apply not_elem_of_nil. Qed.

Lemma effect_idle sh m outs q : (forall t, t ∉ acked_tokens outs) -> Forall out_wf outs -> (in_formed m -> Forall out_typed outs) ->
  tick_effect sh m outs (set_inbound sh q).
Proof.
  intros Hno Hwf Hty. split; [| |done| |done|done].
  - exists []. split; [apply gens_bump_nil|done].
  - intros t Ht. by destruct (Hno t).
  - intros Hm Hb. split; [exact Hb|by apply Hty].
Qed.

Lemma effect_outbound sh m outs sh' q : tick_effect sh m outs sh' -> tick_effect sh m outs (set_outbound sh' q).
Proof. by intros []. Qed.

Lemma acked_fills session fs : acked_tokens (reports session fs) = [].
Proof.
  induction fs as [|f fs IH]; [done|]. unfold acked_tokens, reports in *.
  rewrite fmap_cons, concat_cons, omap_app, IH. unfold fill_reports. by destruct (_ =? _).
Qed.

Lemma effect_book sh m outs b bk bk' ar' q :
  books_ sh !! b = Some bk -> retires bk (arena_ sh) bk' ar' ->
  (forall j bkj, j <> b -> books_ sh !! j = Some bkj ->
     books_ (with_book sh b bk' ar') !! j = Some bkj /\ book_abs bkj ar' = book_abs bkj (arena_ sh)) ->
  (forall t, t ∈ acked_tokens outs ->
    (h_slot (from_token t) ∈ aslots (book_abs bk' ar') /\
     Pool.gen_ (Pool.arena_ (pool_ ar')) !! h_slot (from_token t) = Some (h_gen (from_token t)) /\
     token_shard t = shard_id_ sh) \/
    (hdr_type (in_hdr m) = CANCEL_ORDER /\ t = co_order_token (in_cancel m))) -> Forall out_wf outs ->
  (in_formed m -> abook_typed (book_abs bk (arena_ sh)) -> abook_typed (book_abs bk' ar') /\ Forall out_typed outs) ->
  tick_effect sh m outs (with_book (set_inbound sh q) b bk' ar').
Proof.
  intros Hb (R & HR & Hkeep) Hoth Ht Hwf Hty. split; [| |done| |done|done].
  - exists R. split; [done|]. exact (live_with_book sh b bk bk' ar' R Hb Hkeep Hoth).
  - intros t [(Hs & Hg & Hid)|Hc]%Ht; [left|by right]. split; [|done]. apply (live_elem _ _ bk'); [|done].
    apply (elem_of_lookupZ _ b), lookupZ_insertZ_eq. by eapply lookupZ_range.
  - intros Hm HT. destruct (Hty Hm (HT _ _ Hb)) as [Hbk Houts]. split; [|done]. intros j bkj Hj.
    cbn [books_ with_book set_arena set_books set_inbound] in Hj. rewrite lookupZ_insertZ in Hj by (by eapply lookupZ_range).
    destruct (decide (b = j)) as [<-|Hne]; [by injection Hj as <-|]. destruct (Hoth j bkj (not_eq_sym Hne) Hj) as [_ E].
    cbn [arena_ with_book set_arena]. rewrite E. by apply (HT j).
Qed.

(** A request is worked on: the books stay well formed, the request is gone
    from its ring, there are at most 129 reports, and nothing else moved. *)
Record worked (sh : Shard) (m : InboundMsg) (li : list InboundMsg) (sh' : Shard) (outs : list OutboundMsg) : Prop := {
  wk_wf : shard_wf sh';
  wk_in : holds (inbound_ sh') li;
  wk_out : outbound_ sh' = outbound_ sh;
  wk_len : zlen outs <= 129;
  wk_running : running_ sh' = running_ sh;
  wk_effect : tick_effect sh m outs sh'
}.

Lemma worked_idle sh m li q outs : shard_wf sh -> holds q li -> zlen outs <= 129 ->
  (forall t, t ∉ acked_tokens outs) -> Forall out_wf outs -> (in_formed m -> Forall out_typed outs) -> worked sh m li (set_inbound sh q) outs.
Proof. intros HS Hq Hl Ht Hwf Hty. split; try done; [by apply shard_wf_inbound|by apply effect_idle]. Qed.

Lemma worked_reject sh m li q id reason : shard_wf sh -> holds q li ->
  (in_formed m -> is_u 64 id) -> reason = UNKNOWN_SYMBOL \/ reason = UNKNOWN_ORDER ->
  worked sh m li (set_inbound sh q) [reject_of id reason (hdr_session_id (in_hdr m))].
Proof.
  intros HS Hq Hid Hr. apply worked_idle; [done|done|done|intros t; apply not_elem_of_nil| |].
  - constructor; [apply reject_wf|constructor].
  - intros Hm. constructor; [|constructor]. apply reject_typed; [by apply Hid|done|apply (formed_typed m Hm)].
Qed.

Lemma work_new_spec sh m li :
  shard_wf sh -> holds (inbound_ sh) (m :: li) -> hdr_type (in_hdr m) = NEW_ORDER -> msg_ok sh m ->
  exists sh' outs, tick_work CFG sh = Ok (sh', outs) /\ worked sh m li sh' outs.
Proof.
  intros HS Hin Ht [Hlen Hby Hpr _]. specialize (Hpr Ht).
  destruct (order_widths m Hlen Hby) as [H0 Hqty].
  destruct (work_dispatch CFG HC sh m li Hin) as (q & Hq & ->). rewrite Ht.
  pose proof (shard_wf_inbound CFG base tick_size sh q HS) as HSq.
  destruct (decide (default NO_BOOK (local_of_ sh !! no_symbol_id (in_new_order m)) = NO_BOOK)) as [Hno|Hsome].
  { eexists _, _. split; [by eapply new_work_unknown|]. apply worked_reject; [done|done| |by left]. intros Hm. apply (formed_typed m Hm). }
  destruct (local_of_ sh !! no_symbol_id (in_new_order m)) as [b|] eqn:Hsym; [|done].
  destruct (book_of_symbol CFG base tick_size (set_inbound sh q) _ b HSq Hsym Hsome) as [bk Hb].
  destruct (book_in_shard CFG base tick_size _ b bk HSq Hb) as (F & _ & HB & Ebase & _).
  destruct (decide (0 <= book_ix bk (no_price (in_new_order m)) < ladder_size CFG /\
                    0 < Pool.free_count (pool_ (arena_ sh)))) as [[Hi Hr]|Hrej].
  - assert (Ha : admissible (ladder_size CFG) bk (arena_ (set_inbound sh q)) (in_new_order m) MAX_FILLS_PER_ORDER)
      by (split; try done; by rewrite Ebase).
    destruct (new_work_served CFG base tick_size HC _ _ (hdr_session_id (in_hdr m)) b bk HSq H0 Hsym Hb Ha)
      as (slot & g & rests & fs & bk' & ar' & token & Hadd & -> & HS' & Hn & Htok & Hoth & Hslot & Hret).
    eexists _, _. split; [done|]. split; try done; [by apply order_outs_bound|].
    apply (effect_book sh m _ b bk bk' ar' q Hb (recycles_retires _ _ _ _ _ Hret) Hoth).
    2:{ apply Forall_app. split; [eapply reports_wf, spec_add_frames, Hadd|].
        destruct rests; [constructor; [apply ack_wf|constructor]|constructor]. }
    2:{ intros Hm Hab. destruct (formed_typed m Hm) as (Ho & Hs & _). destruct (spec_add_typed _ _ _ _ _ _ _ _ Ho Hab Hadd) as [Hfs Hab'].
        split; [done|]. apply Forall_app. split; [by apply reports_typed|]. destruct rests; [|constructor].
        constructor; [|constructor]. apply ack_typed; [apply Ho| |done]. destruct (Htok eq_refl) as [-> _]. apply to_token_range. }
    intros t. unfold acked_tokens. rewrite omap_app. fold (acked_tokens (reports (hdr_session_id (in_hdr m)) fs)).
    rewrite acked_fills. destruct rests; [|by intros ?%not_elem_of_nil].
    intros Et%list_elem_of_singleton. change (t = token) in Et. subst t. destruct (Htok eq_refl) as (_ & -> & Hts & Hg). left. split; [by apply Hslot|done].
  - exists (set_inbound sh q), []. split.
    + eapply new_work_silent; try done. pose proof (Pool.wf_top _ _ _ (br_pool HB)).
      unfold Pool.free_count in *. simpl in *. lia.
    + apply worked_idle; [done|done|done|intros t; apply not_elem_of_nil|constructor|by constructor].
Qed.

Lemma work_spec sh m li :
  shard_wf sh -> holds (inbound_ sh) (m :: li) -> msg_ok sh m ->
  exists sh' outs, tick_work CFG sh = Ok (sh', outs) /\ worked sh m li sh' outs.
Proof.
  intros HS Hin Hm.
  destruct (decide (hdr_type (in_hdr m) = NEW_ORDER)) as [Ht|Hn]; [by apply (work_new_spec sh m)|].
  destruct (work_dispatch CFG HC sh m li Hin) as (q & Hq & ->).
  pose proof (shard_wf_inbound CFG base tick_size sh q HS) as HSq.
  destruct (decide (hdr_type (in_hdr m) = CANCEL_ORDER)) as [Ht|Hc].
  - rewrite Ht. set (h := from_token (co_order_token (in_cancel m))).
    destruct (decide (Pool.gen_ (Pool.arena_ (pool_ (arena_ sh))) !! h_slot h = Some (h_gen h))) as [Hg|Hg].
    + destruct (live_order sh _ (mo_token _ _ Hm Ht Hg)) as (b & bk & bid & r & Hb & Hr & Es).
      destruct (cancel_work_live CFG base tick_size HC (set_inbound sh q) (in_cancel m)
        (hdr_session_id (in_hdr m)) b bk bid r (h_gen h) HSq Hb Hr) as (bk' & ar' & -> & HS' & Habs & Hoth & Hret).
      * rewrite Es. exact Hg.
      * rewrite Es. fold h. by destruct h.
      * eexists _, _. split; [done|]. split; try done. apply (effect_book sh m _ b bk bk' ar' q Hb (recycles_retires _ _ _ _ _ Hret) Hoth).
        { intros t ->%list_elem_of_singleton. by right. }
        { constructor; [apply ack_wf|constructor]. }
        intros Hfm Hab. destruct (formed_typed m Hfm) as (_ & Hs & Htk & _). rewrite Habs. split; [by apply spec_cancel_typed|].
        constructor; [by apply ack_typed|constructor].
    + eexists _, _. split; [by eapply cancel_work_stale|]. apply worked_reject; [done|done|done|by right].
  - exists (set_inbound sh q), []. split; [by destruct (hdr_type (in_hdr m))|].
    apply worked_idle; [done|done|done|intros t; apply not_elem_of_nil|constructor|by constructor].
Qed.

(** With room for 129 reports the whole [tick] returns. *)
Lemma tick_spec sh m li l :
  shard_wf sh -> holds (inbound_ sh) (m :: li) -> holds (outbound_ sh) l -> zlen l + 129 <= queue_depth CFG ->
  msg_ok sh m ->
  exists sh' outs, tick CFG sh = Ok sh' /\ shard_wf sh' /\ holds (inbound_ sh') li /\
    holds (outbound_ sh') (l ++ outs) /\ zlen outs <= 129 /\ running_ sh' = running_ sh /\ tick_effect sh m outs sh'.
Proof.
  intros HS Hin Hout Hroom Hm. destruct (work_spec sh m li HS Hin Hm) as (sh' & outs & Hw & [W1 W2 W3 W4 W5 W6]).
  rewrite tick_pushes. destruct (work_emits CFG (cf_ring _ HC) _ sh' l outs Hw) as (q & -> & Hq); [by rewrite W3|lia|].
  exists (set_outbound sh' q), outs. split; [done|]. split; [by apply shard_wf_outbound|]. do 4 (split; [done|]). by apply effect_outbound.
Qed.

(** Messages that are in order when their turn comes. *)
Inductive requests_ok : Shard -> list InboundMsg -> Prop :=
| requests_nil sh : requests_ok sh []
| requests_cons sh m ms :
    msg_ok sh m -> (forall sh', tick CFG sh = Ok sh' -> requests_ok sh' ms) ->
    requests_ok sh (m :: ms).

(** No request brings a shard down: from every well-formed state, with room
    for 129 reports per message in the outbound ring, [run] works through any
    sequence of 32-byte messages (any type, any symbol, any quantity, a price
    that does not overflow against the base price, a token that is not forged):
    every [tick] returns, takes exactly its message, adds at most 129 reports
    and leaves the shard well formed. *)
Theorem run_safe ms sh li l :
  shard_wf sh -> running_ sh = true -> holds (inbound_ sh) (ms ++ li) -> holds (outbound_ sh) l ->
  zlen l + 129 * zlen ms <= queue_depth CFG -> requests_ok sh ms ->
  exists sh' outs, run CFG (length ms) sh = Ok sh' /\ shard_wf sh' /\ holds (inbound_ sh') li /\
    holds (outbound_ sh') (l ++ outs) /\ zlen outs <= 129 * zlen ms.
Proof.
  revert sh l. induction ms as [|m ms IH]; intros sh l HS Hrun Hin Hout Hroom Hok.
  { exists sh, []. rewrite app_nil_r. by split. }
  inversion Hok as [|? ? ? Hm Hnext]; subst. rewrite zlen_cons in *. pose proof (zlen_nonneg ms).
  destruct (tick_spec sh m (ms ++ li) l HS Hin Hout ltac:(lia) Hm)
    as (sh1 & outs1 & Htick & HS1 & Hin1 & Hout1 & Hn1 & Hr1 & _).
  destruct (IH sh1 (l ++ outs1)) as (sh' & outs & Hrest & HS' & Hin' & Hout' & Hn).
  - done.
  - congruence.
  - done.
  - done.
  - rewrite zlen_app. lia.
  - by apply Hnext.
  - exists sh', (outs1 ++ outs). cbn [length run]. rewrite Hrun, Htick. split; [done|]. split; [done|].
    split; [done|]. rewrite app_assoc. split; [done|]. rewrite zlen_app. lia.
Qed.

End shard.
(** ** A concrete shard

    Shard 1 hosts symbols 3 and 7, on ladders of sixteen levels from 1000 by 5. *)

Definition demo_cfg : ShardConfig := mkConfig 8 16 512 2 10.

Lemma demo_cfg_ok : config_ok demo_cfg.
Proof.
  split; simpl; [by split|done| |done|done]. exists 9. done.
Qed.

Definition demo_shard : Shard :=
  match shard_init demo_cfg 1000 5 1 [3; 7] with
  | Ok sh => sh
  | Err _ => mkShard (arena_init 8) [] [] (Spsc.queue_init 512 zero_inbound)
               (Spsc.queue_init 512 zero_outbound) true 1
  end.

Lemma demo_symbols_ok : Forall (fun s => 0 <= s < SYMBOL_SPACE demo_cfg) [3; 7].
Proof. repeat constructor; by vm_compute. Qed.

(** A well-formed shard of this configuration with nothing to do. *)
Definition idle (sh : Shard) (outs : list OutboundMsg) : Prop :=
  shard_wf demo_cfg 1000 5 sh /\ Spsc.queue_repr 512 (inbound_ sh) [] /\
  Spsc.queue_repr 512 (outbound_ sh) outs.

Lemma demo_shard_idle : idle demo_shard [].
Proof.
  destruct (shard_init_spec demo_cfg demo_cfg_ok 1000 5 1 [3; 7]) as (sh & Hrun & ? & ? & ? & _);
    [lia|by vm_compute|by vm_compute|apply demo_symbols_ok|].
  unfold demo_shard. rewrite Hrun. done.
Qed.

(** The shard after the gateway queued [m], and after it was handled. *)
Definition queued (sh : Shard) (m : InboundMsg) : Shard :=
  match Spsc.push 512 (inbound_ sh) m with Ok (_, q) => set_inbound sh q | Err _ => sh end.
Definition ticked (sh : Shard) : Shard := match tick demo_cfg sh with Ok sh' => sh' | Err _ => sh end.

Lemma queued_wf sh m outs : idle sh outs ->
  shard_wf demo_cfg 1000 5 (queued sh m) /\ Spsc.queue_repr 512 (inbound_ (queued sh m)) [m] /\
  Spsc.queue_repr 512 (outbound_ (queued sh m)) outs.
Proof.
  intros (HS & Hi & Ho). unfold queued.
  destruct (Spsc.push_spec 512 (cf_ring _ demo_cfg_ok) _ [] m Hi) as (q & -> & Hq).
  split; [by apply shard_wf_inbound|]. by split.
Qed.

Lemma ticked_idle sh m : idle sh [] -> msg_ok 1000 (queued sh m) m ->
  exists outs, idle (ticked (queued sh m)) outs /\ zlen outs <= 129.
Proof.
  intros Hidle Hm. destruct (queued_wf sh m [] Hidle) as (HS & Hi & Ho).
  destruct (tick_spec demo_cfg demo_cfg_ok 1000 5 (queued sh m) m [] [] HS Hi Ho) as
    (sh' & outs & Hrun & ? & ? & ? & ? & _); [by vm_compute|done|].
  exists outs. unfold ticked. rewrite Hrun. by split.
Qed.

Definition order_msg (o : NewOrder) : InboundMsg := mkInbound (cenc c_NewOrder o).
Definition cancel_msg (c : CancelOrder) : InboundMsg :=
  mkInbound (cenc c_CancelOrder c ++ replicate 16 0).

Lemma order_msg_ok sh o : is_i64 (no_price (in_new_order (order_msg o)) - 1000) ->
  hdr_type (in_hdr (order_msg o)) = NEW_ORDER -> msg_ok 1000 sh (order_msg o).
Proof.
  intros Hp Ht. split; cbn [in_raw order_msg].
  - apply length_enc.
  - apply bytes_enc.
  - done.
  - rewrite Ht. done.
Qed.

Definition sell7 : InboundMsg :=
  order_msg (mkNewOrder (mkHeader 32 NEW_ORDER 0 71) 1 1050 10 7 SELL GTC).
Definition buy7 : InboundMsg :=
  order_msg (mkNewOrder (mkHeader 32 NEW_ORDER 0 72) 2 1055 14 7 BUY GTC).
Lemma sell7_ok sh : msg_ok 1000 sh sell7.
Proof. apply order_msg_ok; by vm_compute. Qed.

Definition demo_resting : Shard := ticked (queued demo_shard sell7).

Lemma demo_resting_idle : exists outs, idle demo_resting outs /\ zlen outs <= 129.
Proof. apply ticked_idle; [apply demo_shard_idle|apply sell7_ok]. Qed.

Lemma shard_init_ok_witness :
  exists sh, shard_init demo_cfg 1000 5 1 [3; 7] = Ok sh /\ shard_wf demo_cfg 1000 5 sh.
Proof.
  destruct (shard_init_ok demo_cfg demo_cfg_ok 1000 5 1 [3; 7]) as (sh & H & H' & _);
    [lia|by vm_compute|by vm_compute|apply demo_symbols_ok|].
  exists sh. split; [exact H|exact H'].
Defined.

Definition demo_bk : OrderBook := default (book_init 16 1000 5) (books_ demo_resting !! 1).

Lemma tick_new_order_witness :
  exists sh' fs bk', tick demo_cfg (queued demo_resting buy7) = Ok sh' /\ books_ sh' !! 1 = Some bk' /\
    exists slot rests, spec_add (book_ix demo_bk) (book_abs demo_bk (arena_ (queued demo_resting buy7)))
      (in_new_order buy7) slot 64 = (rests, fs, book_abs bk' (arena_ sh')).
Proof.
  destruct demo_resting_idle as (outs & Hidle & Hn).
  destruct (queued_wf demo_resting buy7 outs Hidle) as (HS & Hi & Ho).
  destruct (tick_new_order demo_cfg demo_cfg_ok 1000 5 (queued demo_resting buy7) buy7 [] outs 1 demo_bk
    HS Hi Ho) as (sh' & slot & g & rests & fs & bk' & token & H1 & _ & _ & _ & H2 & H3 & _).
  - simpl. lia.
  - by vm_compute.
  - by vm_compute.
  - apply admissible_b_spec. by vm_compute.
  - exists sh', fs, bk'. split; [exact H1|]. split; [exact H2|]. exists slot, rests. exact H3.
Defined.

Definition buy4 : InboundMsg :=
  order_msg (mkNewOrder (mkHeader 32 NEW_ORDER 0 72) 3 1055 14 4 BUY GTC).

Lemma tick_unknown_symbol_witness :
  exists sh', tick demo_cfg (queued demo_shard buy4) = Ok sh' /\
    Spsc.queue_repr 512 (outbound_ sh') [reject_of 3 UNKNOWN_SYMBOL 72].
Proof.
  destruct (queued_wf demo_shard buy4 [] demo_shard_idle) as (HS & Hi & Ho).
  destruct (tick_unknown_symbol demo_cfg demo_cfg_ok 1000 5 (queued demo_shard buy4) buy4 [] [] HS Hi Ho)
    as (sh' & H1 & _ & _ & H2 & _); try (by vm_compute).
  exists sh'. split; [exact H1|exact H2].
Defined.

Definition high7 : InboundMsg :=
  order_msg (mkNewOrder (mkHeader 32 NEW_ORDER 0 72) 4 1080 14 7 BUY GTC).

Lemma tick_silent_drop_witness :
  exists q, tick demo_cfg (queued demo_resting high7) = Ok (set_inbound (queued demo_resting high7) q).
Proof.
  destruct demo_resting_idle as (outs & Hidle & Hn).
  destruct (queued_wf demo_resting high7 outs Hidle) as (HS & Hi & Ho).
  destruct (tick_silent_drop demo_cfg demo_cfg_ok 1000 5 (queued demo_resting high7) high7 [] outs 1 demo_bk HS Hi Ho)
    as (q & H & _).
  - by vm_compute.
  - by vm_compute.
  - by vm_compute.
  - left. vm_compute. intros [_ E]. discriminate E.
  - exists q. exact H.
Defined.

Definition demo_order7 : Resting := mkResting 7 1 1050 10 7 SELL GTC 71.
Definition cancel7 : InboundMsg :=
  cancel_msg (mkCancelOrder (mkHeader 16 CANCEL_ORDER 0 71) (to_token (mkHandle 7 0) 1)).
Definition stale7 : InboundMsg :=
  cancel_msg (mkCancelOrder (mkHeader 16 CANCEL_ORDER 0 71) (to_token (mkHandle 7 1) 1)).

Lemma tick_cancel_witness :
  exists sh' bk', tick demo_cfg (queued demo_resting cancel7) = Ok sh' /\ books_ sh' !! 1 = Some bk' /\
    asks (book_abs bk' (arena_ sh')) = [].
Proof.
  destruct demo_resting_idle as (outs & Hidle & Hn).
  destruct (queued_wf demo_resting cancel7 outs Hidle) as (HS & Hi & Ho).
  destruct (tick_cancel demo_cfg demo_cfg_ok 1000 5 (queued demo_resting cancel7) cancel7 [] outs 1 demo_bk false
    demo_order7 0 HS Hi Ho) as (sh' & bk' & H1 & _ & _ & _ & H2 & H3 & _).
  - simpl. lia.
  - by vm_compute.
  - by vm_compute.
  - vm_compute. left.
  - by vm_compute.
  - by vm_compute.
  - exists sh', bk'. split; [exact H1|]. split; [exact H2|]. rewrite H3. by vm_compute.
Defined.

Lemma tick_stale_cancel_witness :
  exists sh', tick demo_cfg (queued demo_resting stale7) = Ok sh' /\
    books_ sh' = books_ (queued demo_resting stale7).
Proof.
  destruct demo_resting_idle as (outs & Hidle & Hn).
  destruct (queued_wf demo_resting stale7 outs Hidle) as (HS & Hi & Ho).
  destruct (tick_stale_cancel demo_cfg demo_cfg_ok 1000 5 (queued demo_resting stale7) stale7 [] outs HS Hi Ho)
    as (sh' & H1 & _ & _ & _ & H2 & _).
  - simpl. lia.
  - by vm_compute.
  - by vm_compute.
  - exists sh'. split; [exact H1|exact H2].
Defined.

(** The order's thread: one turn for the request, one for its acknowledgement. *)
Lemma tick_splits_witness :
  exists sh1 outs, tick_work demo_cfg (queued demo_shard sell7) = Ok (sh1, outs) /\
    thread_run demo_cfg (S (length outs)) (mkThread (queued demo_shard sell7) []) = Ok (mkThread demo_resting []).
Proof.
  apply (proj2 (ShardWork.tick_splits demo_cfg (queued demo_shard sell7)) demo_resting); by vm_compute.
Defined.

Lemma run_safe_witness :
  exists sh', run demo_cfg 1 (queued demo_shard sell7) = Ok sh' /\ shard_wf demo_cfg 1000 5 sh'.
Proof.
  destruct (queued_wf demo_shard sell7 [] demo_shard_idle) as (HS & Hi & Ho).
  destruct (run_safe demo_cfg demo_cfg_ok 1000 5 [sell7] (queued demo_shard sell7) [] [] HS) as (sh' & _ & H & H' & _).
  - by vm_compute.
  - exact Hi.
  - exact Ho.
  - by vm_compute.
  - constructor; [apply sell7_ok|]. intros sh1 _. constructor.
  - exists sh'. split; [exact H|exact H'].
Defined.

End ShardProps.
