(* ===== verification/ShardTokens.v ===== *)
(** * Tokens over the life of a shard

    A shard between clients that only cancel with tokens they were sent: the
    requests that are pushed, the turns of the matching thread and the reports
    that are popped may interleave in any order, also between two reports of
    the same request.  Tokens hold generations of 32 bits, so the guarantee is
    for fewer than [2^32] requests. *)

From stdpp Require Import relations.
From S2P Require Import Prelude Messages Order LevelBitmap Pool PriceLevel OrderHandle OrderBook Spsc.
From S2P Require Import BookSpec BookInv BookMatch BookRefine BookLaws BookAbs BookProps BookSession Shard ShardWork ShardInv ReportTypes ShardProps.

Module ShardTokens.
Import PriceLevel OrderHandle OrderBook BookSpec BookInv BookRefine BookAbs BookProps BookSession Shard ShardInv ReportTypes ShardProps.

(** The thread of the shard, the tokens that were sent to clients, and the
    requests taken so far. *)
Record Serving : Type := mkServing {
  sv_thread : Thread;
  sv_sent : list Z;
  sv_taken : Z
}.

Section tokens.
Context (CFG : ShardConfig) (HC : config_ok CFG) (base tick_size : Z).

Abbreviation shard_wf := (shard_wf CFG base tick_size).
Abbreviation holds := (Spsc.queue_repr (queue_depth CFG)).
Abbreviation worked := (worked CFG base tick_size).

(** A request: 32 bytes, a price that does not overflow, a token that was sent. *)
Record request_ok (sent : list Z) (m : InboundMsg) : Prop := {
  rq_len : length (in_raw m) = csize c_NewOrder;
  rq_bytes : Forall is_byte (in_raw m);
  rq_price : hdr_type (in_hdr m) = NEW_ORDER -> is_i64 (no_price (in_new_order m) - base);
  rq_token : hdr_type (in_hdr m) = CANCEL_ORDER -> co_order_token (in_cancel m) ∈ sent
}.

(** The requests the next turn takes: one, if the thread is at the head of its
    loop and finds one. *)
Definition taking (th : Thread) : Z :=
  match th_outbox th, running_ (th_shard th), Spsc.pop (queue_depth CFG) (inbound_ (th_shard th)) with
  | [], true, Ok (Some _, _) => 1
  | _, _, _ => 0
  end.

(** The gateway queues a request or takes a report, the thread has a turn, or
    the shard is told to stop. *)
Inductive serve_step : Serving -> Serving -> Prop :=
| serve_push sh box sent n m q :
    request_ok sent m -> Spsc.push (queue_depth CFG) (inbound_ sh) m = Ok (true, q) ->
    serve_step (mkServing (mkThread sh box) sent n) (mkServing (mkThread (set_inbound sh q) box) sent n)
| serve_pop sh box sent n m q :
    Spsc.pop (queue_depth CFG) (outbound_ sh) = Ok (Some m, q) ->
    serve_step (mkServing (mkThread sh box) sent n) (mkServing (mkThread (set_outbound sh q) box) (sent ++ acked_tokens [m]) n)
| serve_turn th sent n th' :
    thread_turn CFG th = Ok th' ->
    serve_step (mkServing th sent n) (mkServing th' sent (n + taking th))
| serve_stop sh box sent n :
    serve_step (mkServing (mkThread sh box) sent n) (mkServing (mkThread (stop sh) box) sent n).

Definition token_rests (sh : Shard) (t : Z) : Prop :=
  held (live (arena_ sh) (books_ sh)) (arena_ sh) (from_token t).

Definition token_known (n : Z) (sh : Shard) (t : Z) : Prop :=
  token_rests sh t \/ gone_handle n (arena_ sh) (from_token t).

(** [li] and [l] are what waits in the rings. *)
Record serving_inv (st : Serving) (li : list InboundMsg) (l : list OutboundMsg) : Prop := {
  si_wf : shard_wf (th_shard (sv_thread st));
  si_in : holds (inbound_ (th_shard (sv_thread st))) li;
  si_out : holds (outbound_ (th_shard (sv_thread st))) l;
  si_wire : Forall out_wf (l ++ th_outbox (sv_thread st));
  si_taken : 0 <= sv_taken st;
  si_requests : Forall (request_ok (sv_sent st)) li;
  si_tokens : forall t, t ∈ sv_sent st ++ acked_tokens (l ++ th_outbox (sv_thread st)) ->
    token_known (sv_taken st) (th_shard (sv_thread st)) t
}.

Lemma gone_token n sh t : n < 2 ^ 32 -> gone_handle n (arena_ sh) (from_token t) ->
  Pool.gen_ (Pool.arena_ (pool_ (arena_ sh))) !! h_slot (from_token t) <> Some (h_gen (from_token t)).
Proof. intros Hn. apply gone_not_current; [|done]. apply wrapU_bound. lia. Qed.

Lemma known_not_forged n sh t : n < 2 ^ 32 -> token_known n sh t -> not_forged sh t.
Proof.
  intros Hn [[Hl _]|Hg]; [by intros _|]. intros Hc. by destruct (gone_token n sh t Hn Hg).
Qed.

Lemma request_msg_ok n sh sent m : n < 2 ^ 32 -> (forall t, t ∈ sent -> token_known n sh t) ->
  request_ok sent m -> msg_ok base sh m.
Proof.
  intros Hn Hk [Hlen Hby Hpr Htok]. split; try done. intros Ht. eapply known_not_forged; [done|]. by apply Hk, Htok.
Qed.

Lemma request_ok_more sent more m : request_ok sent m -> request_ok (sent ++ more) m.
Proof. intros [A B C D]. split; try done. intros Ht. apply elem_of_app. left. by apply D. Qed.

Lemma known_step n sh m outs sh' t : 0 <= n -> tick_effect sh m outs sh' -> token_known n sh t -> token_known (n + 1) sh' t.
Proof. intros Hn [(R & HR & Hkeep) _ _ _ _ _] Hk. exact (handle_step n _ _ _ _ R _ HR Hkeep Hn Hk). Qed.

Lemma known_later n k sh t : 0 <= k -> token_known n sh t -> token_known (n + k) sh t.
Proof. intros Hk [Hr|(j & ? & ?)]; [by left|right]. exists j. split; [lia|done]. Qed.

(** ** A turn *)

(** What a turn is: a push, a request, or nothing, because the ring is full,
    there is no request, or the thread is to stop. *)
Inductive turned (th : Thread) (li : list InboundMsg) (l : list OutboundMsg) :
    Thread -> list InboundMsg -> list OutboundMsg -> Prop :=
| turned_push m rest q :
    th_outbox th = m :: rest -> zlen l < queue_depth CFG -> holds q (l ++ [m]) ->
    turned th li l (mkThread (set_outbound (th_shard th) q) rest) li (l ++ [m])
| turned_work m li' sh' outs :
    th_outbox th = [] -> running_ (th_shard th) = true -> li = m :: li' -> worked (th_shard th) m li' sh' outs ->
    turned th li l (mkThread sh' outs) li' l
| turned_wait :
    (th_outbox th <> [] /\ zlen l = queue_depth CFG) \/ (th_outbox th = [] /\ (running_ (th_shard th) = false \/ li = [])) ->
    turned th li l th li l.

Lemma taking_turn th li l th' li' l' : holds (inbound_ (th_shard th)) li -> turned th li l th' li' l' ->
  taking th = zlen li - zlen li'.
Proof.
  intros Hi Ht. destruct (Spsc.pop_spec _ (cf_ring _ HC) _ _ Hi) as (q & Hpop & _). unfold taking. rewrite Hpop.
  destruct Ht as [m rest q' -> _ _|m li' sh' outs -> -> -> _|[[Hb _]|[-> [-> | ->]]]]; simpl; [lia|rewrite zlen_cons; lia| | |].
  - destruct (th_outbox th); [done|lia].
  - lia.
  - destruct (running_ _); simpl; lia.
Qed.

Lemma turn_spec th sent n li l : serving_inv (mkServing th sent n) li l -> n < 2 ^ 32 ->
  exists th' li' l', thread_turn CFG th = Ok th' /\ turned th li l th' li' l'.
Proof.
  intros [HS Hi Ho Hbox Hn Hreq Hk] Hlt. cbn [sv_thread sv_sent sv_taken] in *. unfold thread_turn.
  pose proof (Spsc.queue_repr_len _ _ _ Ho) as Hlen. destruct (th_outbox th) as [|m rest] eqn:Eb.
  - destruct (running_ (th_shard th)) eqn:Er; [|exists th, li, l; split; [done|]; apply turned_wait; right; split; [done|by left]].
    destruct li as [|m li].
    { rewrite (work_empty CFG HC _ Hi). exists th, [], l. destruct th as [sh box]. cbn [th_outbox] in Eb. rewrite Eb. split; [done|].
      apply turned_wait. right. split; [done|by right]. }
    apply Forall_cons in Hreq as [Hm _]. destruct (work_spec CFG HC base tick_size (th_shard th) m li HS Hi) as (sh' & outs & -> & Hw).
    { apply (request_msg_ok n _ sent); [done| |done]. intros t Ht. apply Hk, elem_of_app. by left. }
    exists (mkThread sh' outs), li, l. split; [done|]. by eapply turned_work.
  - destruct (Spsc.push_spec _ (cf_ring _ HC) _ _ m Ho) as (q & -> & Hq). cbn [mbind res_bind].
    destruct (Z.ltb_spec (zlen l) (queue_depth CFG)).
    + eexists _, li, (l ++ [m]). split; [done|]. by eapply turned_push.
    + exists th, li, l. split; [done|]. apply turned_wait. left. split; [by rewrite Eb|lia].
Qed.

Lemma acked_app l k : acked_tokens (l ++ k) = acked_tokens l ++ acked_tokens k.
Proof. apply omap_app. Qed.

Lemma turned_inv th sent n li l th' li' l' : serving_inv (mkServing th sent n) li l -> turned th li l th' li' l' ->
  serving_inv (mkServing th' sent (n + taking th)) li' l'.
Proof.
  intros HI Ht. pose proof (si_in _ _ _ HI) as Hq. cbn [sv_thread] in Hq. rewrite (taking_turn _ _ _ _ _ _ Hq Ht). clear Hq. pose proof HI as [HS Hi Ho Hbox Hn Hreq Hk].
  cbn [sv_thread sv_sent sv_taken] in *. destruct Ht as [m rest q Eb _ Hq|m li' sh' outs Eb Er -> [W1 W2 W3 W4 W5 W6]|_].
  - rewrite Z.sub_diag, Z.add_0_r. rewrite Eb in *.
    split; cbn [sv_thread sv_sent sv_taken th_shard th_outbox]; rewrite <- ?app_assoc; try done. by apply shard_wf_outbound.
  - rewrite Eb, app_nil_r in Hk, Hbox. apply Forall_cons in Hreq as [Hm Hreq].
    replace (n + (zlen (m :: li') - zlen li')) with (n + 1) by (rewrite zlen_cons; lia).
    split; cbn [sv_thread sv_sent sv_taken th_shard th_outbox]; try done; [by rewrite W3|apply Forall_app; split; [done|apply W6]|lia|].
    intros t Ht. rewrite acked_app, app_assoc in Ht.
    assert (Hold : t ∈ sent ++ acked_tokens l -> token_known (n + 1) sh' t) by (intros ?%Hk; by eapply known_step).
    apply elem_of_app in Ht as [Ht|Ht]; [by apply Hold|].
    destruct (te_acked _ _ _ _ W6 t Ht) as [(? & ? & _)|[Hc ->]]; [by left|]. apply Hold, elem_of_app. left. by apply (rq_token _ _ Hm).
  - by rewrite Z.sub_diag, Z.add_0_r.
Qed.

(** What a turn leaves alone, and the tokens it may add to those on their way. *)
Lemma turned_same th li l th' li' l' : turned th li l th' li' l' ->
  shard_id_ (th_shard th') = shard_id_ (th_shard th) /\ forall m, m ∈ li' -> m ∈ li.
Proof. destruct 1 as [| ? ? ? ? ? ? -> [_ _ _ _ _ He]|]; [done| |done]. split; [apply He|]. intros x. by right. Qed.

Lemma turned_acked th sent n li l th' li' l' : serving_inv (mkServing th sent n) li l -> turned th li l th' li' l' ->
  (forall t, t ∈ sent ++ acked_tokens (l ++ th_outbox th) -> token_shard t = shard_id_ (th_shard th)) ->
  forall t, t ∈ acked_tokens (l' ++ th_outbox th') -> token_shard t = shard_id_ (th_shard th).
Proof.
  intros HI Ht Hown t. assert (Hold : t ∈ acked_tokens (l ++ th_outbox th) -> token_shard t = shard_id_ (th_shard th)).
  { intros ?. apply Hown, elem_of_app. by right. }
  destruct Ht as [m rest q Eb _ _|m li' sh' outs Eb _ -> [_ _ _ _ _ He]|_]; cbn [th_outbox]; [| |done].
  - rewrite Eb in Hold. by rewrite <- app_assoc.
  - rewrite Eb, app_nil_r in Hold. rewrite acked_app, elem_of_app. intros [Hl|Hnew]; [by apply Hold|].
    destruct (te_acked _ _ _ _ He t Hnew) as [(_ & _ & E)|[Hc ->]]; [done|].
    pose proof (si_requests _ _ _ HI) as Hq. apply Forall_cons in Hq as [Hm _]. apply Hown, elem_of_app. left. by apply (rq_token _ _ Hm).
Qed.

(** ** The invariant over a life *)

Lemma queued_inv sh box sent n li l m q : serving_inv (mkServing (mkThread sh box) sent n) li l ->
  request_ok sent m -> Spsc.push (queue_depth CFG) (inbound_ sh) m = Ok (true, q) ->
  serving_inv (mkServing (mkThread (set_inbound sh q) box) sent n) (li ++ [m]) l.
Proof.
  intros [HS Hi Ho Hbox Hn Hreq Hk] Hm Hpush. cbn [sv_thread sv_sent sv_taken th_shard th_outbox] in *.
  destruct (Spsc.push_spec _ (cf_ring _ HC) _ _ m Hi) as (q' & Hp & Hq'). rewrite Hpush in Hp. injection Hp as Hb <-. rewrite <- Hb in Hq'.
  split; try done; [by apply shard_wf_inbound|]. apply Forall_app. split; [done|]. by constructor.
Qed.

Lemma popped_inv sh box sent n li l m q : serving_inv (mkServing (mkThread sh box) sent n) li l ->
  Spsc.pop (queue_depth CFG) (outbound_ sh) = Ok (Some m, q) ->
  exists l', l = m :: l' /\ serving_inv (mkServing (mkThread (set_outbound sh q) box) (sent ++ acked_tokens [m]) n) li l'.
Proof.
  intros [HS Hi Ho Hbox Hn Hreq Hk] Hpop. cbn [sv_thread sv_sent sv_taken th_shard th_outbox] in *.
  destruct (Spsc.pop_spec _ (cf_ring _ HC) _ _ Ho) as (q' & Hp & Hq'). rewrite Hpop in Hp. injection Hp as Hh <-.
  destruct l as [|m' l]; [done|]. injection Hh as <-. exists l. split; [done|].
  split; cbn [sv_thread sv_sent sv_taken th_shard th_outbox]; try done; [by apply shard_wf_outbound|by apply Forall_cons in Hbox as [_ Hbox]| |].
  - eapply Forall_impl; [exact Hreq|]. intros x. apply request_ok_more.
  - intros t Ht. apply Hk. rewrite <- app_assoc, <- acked_app in Ht. done.
Qed.

Lemma stopped_inv sh box sent n li l : serving_inv (mkServing (mkThread sh box) sent n) li l ->
  serving_inv (mkServing (mkThread (stop sh) box) sent n) li l.
Proof. intros [HS Hi Ho Hbox Hn Hreq Hk]. split; try done. by destruct HS. Qed.

(** Resting orders and reports on their way have fields of their widths. *)
Definition typed_inv (st : Serving) (l : list OutboundMsg) : Prop :=
  books_typed (th_shard (sv_thread st)) /\ Forall out_typed (l ++ th_outbox (sv_thread st)).

Lemma turned_typed th sent n li l th' li' l' : serving_inv (mkServing th sent n) li l -> turned th li l th' li' l' ->
  typed_inv (mkServing th sent n) l -> typed_inv (mkServing th' sent (n + taking th)) l'.
Proof.
  intros HI Ht [HB HO]. unfold typed_inv. cbn [sv_thread] in *.
  destruct Ht as [m rest q Eb _ _|m li' sh' outs Eb _ -> [_ _ _ _ _ He]|_]; cbn [th_shard th_outbox]; [| |done].
  - rewrite Eb in HO. by rewrite <- app_assoc.
  - rewrite Eb, app_nil_r in HO. pose proof (si_requests _ _ _ HI) as Hq. apply Forall_cons in Hq as [[Hl Hb _ _] _].
    destruct (te_typed _ _ _ _ He (conj Hl Hb) HB) as [HB' Ho]. split; [done|]. by apply Forall_app.
Qed.

Lemma serving_step st st' li l : serve_step st st' -> sv_taken st < 2 ^ 32 -> serving_inv st li l -> typed_inv st l ->
  exists li' l', serving_inv st' li' l' /\ typed_inv st' l'.
Proof.
  intros Hstep Hlt HI HT. destruct Hstep as [sh box sent n m q Hm Hpush|sh box sent n m q Hpop|th sent n th' Hturn|sh box sent n].
  - eexists _, _. split; [by eapply queued_inv|exact HT].
  - destruct (popped_inv _ _ _ _ _ _ _ _ HI Hpop) as (l' & -> & HI'). exists li, l'. split; [done|].
    destruct HT as [HB HO]. split; [exact HB|]. by apply Forall_cons in HO as [_ HO].
  - destruct (turn_spec _ _ _ _ _ HI Hlt) as (th1 & li' & l' & Hturn1 & Ht). rewrite Hturn in Hturn1. injection Hturn1 as <-.
    exists li', l'. split; [by apply (turned_inv _ _ _ _ _ _ _ _ HI)|by apply (turned_typed _ _ _ _ _ _ _ _ HI Ht)].
  - exists li, l. split; [by apply stopped_inv|exact HT].
Qed.

Lemma taking_range th : 0 <= taking th <= 1.
Proof. unfold taking. repeat case_match; lia. Qed.

Lemma taken_mono st st' : rtc serve_step st st' -> sv_taken st <= sv_taken st'.
Proof.
  induction 1 as [|st1 st2 st3 Hstep _ IH]; [done|].
  destruct Hstep as [| |th ? ? ? ?|]; cbn [sv_taken] in *; try pose proof (taking_range th); lia.
Qed.

Lemma serving_steps st st' : rtc serve_step st st' -> sv_taken st' < 2 ^ 32 ->
  (exists li l, serving_inv st li l /\ typed_inv st l) -> exists li l, serving_inv st' li l /\ typed_inv st' l.
Proof.
  induction 1 as [|st1 st2 st3 Hstep Hrest IH]; [done|]. intros Hlt (li & l & HI & HT). apply IH; [done|].
  pose proof (taken_mono _ _ (rtc_once _ _ Hstep)). pose proof (taken_mono _ _ Hrest).
  eapply serving_step; [exact Hstep|lia|exact HI|exact HT].
Qed.

(** From a fresh shard. *)
Lemma serving_reachable shard_id symbols sh0 st :
  0 < tick_size -> is_u 8 shard_id -> zlen symbols <= max_symbols CFG ->
  Forall (fun s => 0 <= s < SYMBOL_SPACE CFG) symbols ->
  shard_init CFG base tick_size shard_id symbols = Ok sh0 ->
  rtc serve_step (mkServing (mkThread sh0 []) [] 0) st -> sv_taken st < 2 ^ 32 ->
  exists li l, serving_inv st li l /\ typed_inv st l.
Proof.
  intros Htick Hid Hlen Hsym Hinit Hrun Hlt. apply (serving_steps _ _ Hrun Hlt).
  destruct (shard_init_spec CFG HC base tick_size shard_id symbols) as (sh' & Hinit' & HS & Hi & Ho & Hl & _); [done..|].
  rewrite Hinit in Hinit'. injection Hinit' as <-. exists [], []. split; [split; try done; by intros t ?%not_elem_of_nil|].
  split; [|constructor]. intros i bk Hb bid. apply Forall_forall. intros r Hr. exfalso.
  apply (not_elem_of_nil (r_slot r)). rewrite <- Hl. apply (live_elem _ _ bk); [by eapply elem_of_lookupZ|].
  rewrite (aslots_sides bid). apply elem_of_app. left. by apply list_elem_of_fmap_2.
Qed.

(** C11: Everything a shard says is well typed.  In every state of the life of a
    shard, the orders that rest have fields of their widths, and so has every
    report that waits in the outbound ring or in the thread's outbox: its length
    and type are those of the member that was written, its reason is one of the
    two the shard uses, and a client that reads its bytes by the type in the
    header gets exactly the report the shard meant. *)
Theorem reports_well_typed shard_id symbols sh0 st :
  0 < tick_size -> is_u 8 shard_id -> zlen symbols <= max_symbols CFG ->
  Forall (fun s => 0 <= s < SYMBOL_SPACE CFG) symbols ->
  shard_init CFG base tick_size shard_id symbols = Ok sh0 ->
  rtc serve_step (mkServing (mkThread sh0 []) [] 0) st -> sv_taken st < 2 ^ 32 ->
  let th := sv_thread st in
  books_typed (th_shard th) /\
  forall m, m ∈ Spsc.contents (queue_depth CFG) (outbound_ (th_shard th)) ++ th_outbox th ->
    out_typed m /\ client_read (out_enc m) = Some m.
Proof.
  intros Htick Hid Hlen Hsym Hinit Hrun Hlt th.
  destruct (serving_reachable shard_id symbols sh0 st Htick Hid Hlen Hsym Hinit Hrun Hlt) as (li & l & HI & HB & HO).
  split; [done|]. unfold th. rewrite (Spsc.contents_repr _ (cf_ring _ HC) _ _ (si_out _ _ _ HI)).
  intros m Hm. rewrite Forall_forall in HO. split; [by apply HO|by apply typed_read, HO].
Qed.

(** The books after exactly the order behind [t] was taken off. *)
Definition cancelled (sh : Shard) (t : Z) (sh' : Shard) : Prop :=
  exists b bk bid r bk', books_ sh !! b = Some bk /\ r ∈ aside bid (book_abs bk (arena_ sh)) /\
    r_slot r = h_slot (from_token t) /\ books_ sh' = <[b := bk']> (books_ sh) /\
    book_abs bk' (arena_ sh') = aput bid (book_abs bk (arena_ sh))
      (spec_cancel (r_slot r) (aside bid (book_abs bk (arena_ sh)))) /\
    forall j bkj, j <> b -> books_ sh !! j = Some bkj -> book_abs bkj (arena_ sh') = book_abs bkj (arena_ sh).

Lemma work_cancel sh sent n li m l (t := co_order_token (in_cancel m)) (sid := hdr_session_id (in_hdr m)) :
  serving_inv (mkServing (mkThread sh []) sent n) (m :: li) l -> n < 2 ^ 32 -> hdr_type (in_hdr m) = CANCEL_ORDER ->
  exists sh' outs, tick_work CFG sh = Ok (sh', outs) /\
    ((token_rests sh t /\ outs = [ack_of 0 t sid] /\ cancelled sh t sh') \/
     (~ token_rests sh t /\ outs = [reject_of 0 UNKNOWN_ORDER sid] /\ books_ sh' = books_ sh /\ arena_ sh' = arena_ sh)).
Proof.
  intros [HS Hi Ho Hbox Hn Hreq Hk] Hlt Ht. cbn [sv_thread sv_sent sv_taken th_shard] in *. apply Forall_cons in Hreq as [Hm _].
  destruct (work_dispatch CFG HC sh m li Hi) as (q & Hq & ->). rewrite Ht.
  pose proof (shard_wf_inbound CFG base tick_size sh q HS) as HSq.
  assert (Hkn : token_known n sh t) by (apply Hk, elem_of_app; left; by apply (rq_token _ _ Hm)).
  destruct Hkn as [[Hl Hg]|Hgone].
  - destruct (live_order sh _ Hl) as (b & bk & bid & r & Hb & Hr & Es).
    destruct (cancel_work_live CFG base tick_size HC (set_inbound sh q) (in_cancel m) sid b bk bid r
      (h_gen (from_token t)) HSq Hb Hr) as (bk' & ar' & Hrun & _ & Habs & Hoth & _).
    { by rewrite Es. }
    { rewrite Es. fold t. by destruct (from_token t). }
    eexists _, _. split; [exact Hrun|]. left. split; [by split|]. split; [done|].
    exists b, bk, bid, r, bk'. do 3 (split; [done|]). split; [done|]. split; [exact Habs|]. intros j bkj Hne Hj. by apply (Hoth j bkj).
  - eexists _, _. split; [eapply cancel_work_stale; [done..|exact (gone_token n sh t Hlt Hgone)]|].
    right. split; [|done]. intros [_ Hg]. by apply (gone_token n sh t Hlt Hgone).
Qed.

(** C9: Tokens are safe for the life of a shard: from a freshly constructed
    shard, in every interleaving of requests queued, reports taken, the turns
    of the matching thread (one request or one report each) and its stop, with
    fewer than [2^32] requests, where orders have any fields that do not
    overflow and cancels carry tokens that clients were sent before, the shard
    stays well formed and the next turn of its thread returns without undefined
    behaviour, however full its rings are; if it takes a cancel, the client is
    told success exactly when the order of the token still rests, which is then
    the only order taken off; otherwise it is told failure and nothing changes. *)
Theorem tokens_safe shard_id symbols sh0 st :
  0 < tick_size -> is_u 8 shard_id -> zlen symbols <= max_symbols CFG ->
  Forall (fun s => 0 <= s < SYMBOL_SPACE CFG) symbols ->
  shard_init CFG base tick_size shard_id symbols = Ok sh0 ->
  rtc serve_step (mkServing (mkThread sh0 []) [] 0) st -> sv_taken st < 2 ^ 32 ->
  let th := sv_thread st in
  let sh := th_shard th in
  exists li l, shard_wf sh /\ holds (inbound_ sh) li /\ holds (outbound_ sh) l /\
  exists th', thread_turn CFG th = Ok th' /\ shard_wf (th_shard th') /\
    forall m, th_outbox th = [] -> running_ sh = true -> head li = Some m -> hdr_type (in_hdr m) = CANCEL_ORDER ->
      let t := co_order_token (in_cancel m) in
      let sid := hdr_session_id (in_hdr m) in
      (token_rests sh t /\ th_outbox th' = [ack_of 0 t sid] /\ cancelled sh t (th_shard th')) \/
      (~ token_rests sh t /\ th_outbox th' = [reject_of 0 UNKNOWN_ORDER sid] /\
       books_ (th_shard th') = books_ sh /\ arena_ (th_shard th') = arena_ sh).
Proof.
  intros Htick Hid Hlen Hsym Hinit Hrun Hlt th sh.
  destruct (serving_reachable shard_id symbols sh0 st Htick Hid Hlen Hsym Hinit Hrun Hlt) as (li & l & HI & _).
  exists li, l. destruct st as [[sh1 box] sent n]. cbn [sv_thread sv_taken th_shard] in *. subst th sh. cbn [th_shard th_outbox].
  split; [apply HI|]. split; [apply HI|]. split; [apply HI|].
  destruct (turn_spec _ _ _ _ _ HI Hlt) as (th' & li' & l' & Hturn & Ht). exists th'. split; [done|].
  split; [apply (turned_inv _ _ _ _ _ _ _ _ HI Ht)|]. intros m -> Er Hhd Hc. destruct li as [|m' li]; [done|]. injection Hhd as ->.
  destruct (work_cancel _ _ _ _ _ _ HI Hlt Hc) as (sh' & outs & Hw & Hcase). unfold thread_turn in Hturn. cbn [th_outbox th_shard] in Hturn.
  rewrite Er, Hw in Hturn. injection Hturn as <-. exact Hcase.
Qed.

End tokens.

(** ** An order, its token, and a cancel *)

Definition sent7 : Z := to_token (mkHandle 7 0) 1.
Definition popped (sh : Shard) : Shard :=
  match Spsc.pop 512 (outbound_ sh) with Ok (_, q) => set_outbound sh q | Err _ => sh end.
Definition turns (n : nat) (th : Thread) : Thread :=
  match thread_run demo_cfg n th with Ok th' => th' | Err _ => th end.
Definition demo_rested : Shard := th_shard (turns 2 (mkThread (queued demo_shard sell7) [])).
(** The order rests and its acknowledgement is pushed. *)
Definition demo_acked : Serving := mkServing (mkThread demo_rested []) [] 1.

Lemma demo_acked_reachable : rtc (serve_step demo_cfg 1000) (mkServing (mkThread demo_shard []) [] 0) demo_acked.
Proof.
  eapply rtc_l; [|eapply rtc_l; [|apply rtc_once]].
  - apply (serve_push demo_cfg 1000 demo_shard [] [] 0 sell7 (inbound_ (queued demo_shard sell7))); [|by vm_compute].
    split; [apply length_enc|apply bytes_enc|intros _; by vm_compute|by vm_compute].
  - apply (serve_turn demo_cfg 1000 (mkThread (queued demo_shard sell7) []) [] 0 (turns 1 (mkThread (queued demo_shard sell7) []))). by vm_compute.
  - apply (serve_turn demo_cfg 1000 (turns 1 (mkThread (queued demo_shard sell7) [])) [] 1 (mkThread demo_rested [])). by vm_compute.
Qed.

Definition demo_life : Serving := mkServing (mkThread (queued (popped demo_rested) cancel7) []) [sent7] 1.

Lemma demo_life_reachable : rtc (serve_step demo_cfg 1000) (mkServing (mkThread demo_shard []) [] 0) demo_life.
Proof.
  transitivity demo_acked; [exact demo_acked_reachable|]. eapply rtc_l; [|apply rtc_once].
  - apply (serve_pop demo_cfg 1000 demo_rested [] [] 1 (ack_of 1 sent7 71) (outbound_ (popped demo_rested))). by vm_compute.
  - apply (serve_push demo_cfg 1000 (popped demo_rested) [] [sent7] 1 cancel7 (inbound_ (th_shard (sv_thread demo_life)))); [|by vm_compute].
    split; [by vm_compute|repeat constructor; by vm_compute|intros Ht; vm_compute in Ht; discriminate Ht|].
    intros _. apply list_elem_of_singleton. by vm_compute.
Qed.

Lemma tokens_safe_witness :
  exists th', thread_turn demo_cfg (sv_thread demo_life) = Ok th' /\ shard_wf demo_cfg 1000 5 (th_shard th').
Proof.
  destruct (tokens_safe demo_cfg demo_cfg_ok 1000 5 1 [3; 7] demo_shard demo_life) as (li & l & _ & _ & _ & th' & H1 & H2 & _).
  - lia.
  - by vm_compute.
  - by vm_compute.
  - apply demo_symbols_ok.
  - by vm_compute.
  - exact demo_life_reachable.
  - by vm_compute.
  - exists th'. split; [exact H1|exact H2].
Defined.

Lemma reports_well_typed_witness : client_read (out_enc (ack_of 1 sent7 71)) = Some (ack_of 1 sent7 71).
Proof.
  destruct (reports_well_typed demo_cfg demo_cfg_ok 1000 5 1 [3; 7] demo_shard demo_acked) as [_ H].
  - lia.
  - by vm_compute.
  - by vm_compute.
  - apply demo_symbols_ok.
  - by vm_compute.
  - exact demo_acked_reachable.
  - by vm_compute.
  - apply (H (ack_of 1 sent7 71)). vm_compute. left.
Defined.

End ShardTokens.
