(* ===== verification/ShardDrain.v ===== *)
(** * A running shard serves what it is sent

    The matching thread and the consumer of its reports under any fair
    schedule: every request that is queued is worked on, every report is
    pushed and taken, within a number of rounds that the backlog determines. *)

From stdpp Require Import relations.
From S2P Require Import Prelude Messages Order LevelBitmap Pool PriceLevel OrderHandle OrderBook Spsc.
From S2P Require Import BookSpec BookInv BookMatch BookRefine BookLaws BookAbs BookProps BookSession Shard ShardWork ShardInv ShardProps ShardTokens.

Module ShardDrain.
Import OrderHandle OrderBook Shard ShardInv ShardProps ShardTokens.

(** A schedule: turns of the thread and attempts of the consumer to take a report. *)
Inductive Move := Turn | Take.

#[export] Instance Move_eq_dec : EqDecision Move.
Proof. solve_decision. Defined.

Section drain.
Context (CFG : ShardConfig) (HC : config_ok CFG) (base tick_size : Z).

Abbreviation serving_inv := (serving_inv CFG base tick_size).

Definition move_step (mv : Move) (st : Serving) : res Serving :=
  let '(mkServing th sent n) := st in
  match mv with
  | Turn => th' ← thread_turn CFG th; Ok (mkServing th' sent (n + taking CFG th))
  | Take =>
      '(m, q) ← Spsc.pop (queue_depth CFG) (outbound_ (th_shard th));
      Ok (match m with
          | None => st
          | Some m => mkServing (mkThread (set_outbound (th_shard th) q) (th_outbox th)) (sent ++ acked_tokens [m]) n
          end)
  end.

Fixpoint moves_run (mvs : list Move) (st : Serving) : res Serving :=
  match mvs with
  | [] => Ok st
  | mv :: mvs => st ← move_step mv st; moves_run mvs st
  end.

(** The turns and takes that are left: a request costs its turn and at most 129
    reports, a report in the outbox a push and a take. *)
Definition rank (st : Serving) (li : list InboundMsg) (l : list OutboundMsg) : Z :=
  260 * zlen li + 2 * zlen (th_outbox (sv_thread st)) + zlen l.

(** A shard that runs and whose tokens do not run out on what is queued,
    [total] requests in the end. *)
Definition able (total : Z) (st : Serving) (li : list InboundMsg) (l : list OutboundMsg) : Prop :=
  serving_inv st li l /\ running_ (th_shard (sv_thread st)) = true /\ sv_taken st + zlen li = total /\ total < 2 ^ 32.

(** When a move has nothing to do. *)
Definition idles (mv : Move) (st : Serving) (li : list InboundMsg) (l : list OutboundMsg) : Prop :=
  match mv with
  | Turn => (th_outbox (sv_thread st) <> [] /\ zlen l = queue_depth CFG) \/ (th_outbox (sv_thread st) = [] /\ li = [])
  | Take => l = []
  end.

Lemma turn_move total th sent n li l : able total (mkServing th sent n) li l ->
  exists st' li' l', move_step Turn (mkServing th sent n) = Ok st' /\ able total st' li' l' /\
    ((idles Turn (mkServing th sent n) li l /\ st' = mkServing th sent n /\ li' = li /\ l' = l) \/
     rank st' li' l' < rank (mkServing th sent n) li l).
Proof.
  intros (HI & Hr & Hn & Htot). cbn [sv_thread sv_taken] in *. pose proof (zlen_nonneg li).
  destruct (turn_spec CFG HC base tick_size _ _ _ _ _ HI ltac:(lia)) as (th' & li' & l' & Hturn & Ht).
  pose proof (turned_inv CFG HC base tick_size _ _ _ _ _ _ _ _ HI Ht) as HI'.
  pose proof (taking_turn CFG HC base tick_size _ _ _ _ _ _ (si_in _ _ _ _ _ _ HI) Ht) as Etake. cbn [sv_thread] in Etake.
  exists (mkServing th' sent (n + taking CFG th)), li', l'. cbn [move_step]. rewrite Hturn. split; [done|]. unfold able, rank.
  cbn [sv_thread sv_taken] in *. rewrite Etake in *.
  destruct Ht as [m rest q Eb _ Hq|m li' sh' outs Eb Er -> [W1 W2 W3 W4 W5 W6]|Hwait].
  - split; [split; [done|split; [done|split; lia]]|]. right. cbn [th_outbox]. rewrite Eb, zlen_app, !zlen_cons. change (zlen []) with 0. lia.
  - split; [split; [done|split; [exact (eq_trans W5 Hr)|split; lia]]|]. right. cbn [th_outbox]. rewrite Eb, zlen_cons. change (zlen []) with 0. lia.
  - split; [split; [done|split; [done|split; lia]]|]. left. rewrite Z.sub_diag, Z.add_0_r. split; [|done].
    destruct Hwait as [?|[? [Hno|?]]]; [by left|congruence|by right].
Qed.

Lemma take_move total th sent n li l : able total (mkServing th sent n) li l ->
  exists st' li' l', move_step Take (mkServing th sent n) = Ok st' /\ able total st' li' l' /\
    ((idles Take (mkServing th sent n) li l /\ st' = mkServing th sent n /\ li' = li /\ l' = l) \/
     rank st' li' l' < rank (mkServing th sent n) li l).
Proof.
  intros (HI & Hr & Hn & Htot). cbn [sv_thread sv_taken] in *. destruct th as [sh box]. cbn [move_step th_shard th_outbox].
  destruct (Spsc.pop_spec _ (cf_ring _ HC) _ _ (si_out _ _ _ _ _ _ HI)) as (q & Hpop & _). cbn [sv_thread th_shard] in Hpop.
  rewrite Hpop. cbn [mbind res_bind]. destruct l as [|m l]; cbn [head].
  { eexists _, li, []. split; [done|]. split; [done|]. by left. }
  destruct (popped_inv CFG HC base tick_size _ _ _ _ _ _ _ _ HI Hpop) as (l' & [= <-] & HI').
  eexists _, li, l. split; [done|]. split; [done|]. right. unfold rank. cbn [sv_thread th_outbox]. rewrite zlen_cons. lia.
Qed.

Lemma move_once total mv st li l : able total st li l ->
  exists st' li' l', move_step mv st = Ok st' /\ able total st' li' l' /\
    ((idles mv st li l /\ st' = st /\ li' = li /\ l' = l) \/ rank st' li' l' < rank st li l).
Proof. destruct st as [th sent n]. destruct mv; [apply turn_move|apply take_move]. Qed.

Lemma moves_ok total mvs st li l : able total st li l ->
  exists st' li' l', moves_run mvs st = Ok st' /\ able total st' li' l' /\
    (((forall mv, mv ∈ mvs -> idles mv st li l) /\ rank st' li' l' = rank st li l) \/ rank st' li' l' < rank st li l).
Proof.
  revert st li l. induction mvs as [|mv mvs IH]; intros st li l HA.
  { exists st, li, l. split; [done|]. split; [done|]. left. split; [by intros mv ?%not_elem_of_nil|done]. }
  cbn [moves_run]. destruct (move_once total mv st li l HA) as (st1 & li1 & l1 & -> & HA1 & Hstep). cbn [mbind res_bind].
  destruct (IH st1 li1 l1 HA1) as (st2 & li2 & l2 & -> & HA2 & Hrest). exists st2, li2, l2. split; [done|]. split; [done|].
  destruct Hstep as [(Hidle & -> & -> & ->)|Hlt]; [|right; destruct Hrest as [[_ ?]|?]; lia].
  destruct Hrest as [[Hall ?]|?]; [|by right]. left. split; [|done]. intros x [->|Hx]%elem_of_cons; [done|by apply Hall].
Qed.

(** In a round that has both moves something happens, if there is anything to do. *)
Lemma round_ok total r st li l : Turn ∈ r -> Take ∈ r -> able total st li l ->
  exists st' li' l', moves_run r st = Ok st' /\ able total st' li' l' /\ rank st' li' l' <= Z.max 0 (rank st li l - 1).
Proof.
  intros HT HK HA. destruct (moves_ok total r st li l HA) as (st' & li' & l' & Hrun & HA' & Hcase). exists st', li', l'.
  split; [done|]. split; [done|]. destruct Hcase as [[Hidle Er]|Hlt]; [|lia]. pose proof (Hidle _ HT) as HT'. pose proof (Hidle _ HK) as HK'.
  cbn [idles] in HT', HK'. subst l. destruct (cf_ring _ HC) as (d & Hd & Ed).
  destruct HT' as [[_ Hfull]|[Eb Ei]].
  - change (zlen []) with 0 in Hfull. pose proof (Z.pow_pos_nonneg 2 d). lia.
  - rewrite Er. unfold rank. rewrite Eb, Ei. change (zlen []) with 0. lia.
Qed.

Lemma moves_app r k st : moves_run (r ++ k) st = st ← moves_run r st; moves_run k st.
Proof. revert st. induction r as [|mv r IH]; intros st; cbn [moves_run app]; [done|]. destruct (move_step mv st); cbn [mbind res_bind]; [apply IH|done]. Qed.

Lemma rounds_ok total rounds st li l : Forall (fun r => Turn ∈ r /\ Take ∈ r) rounds -> able total st li l ->
  exists st' li' l', moves_run (concat rounds) st = Ok st' /\ able total st' li' l' /\ rank st' li' l' <= Z.max 0 (rank st li l - zlen rounds).
Proof.
  intros HF. revert st li l. induction HF as [|r rounds [HT HK] _ IH]; intros st li l HA.
  { exists st, li, l. split; [done|]. split; [done|]. change (zlen []) with 0. lia. }
  rewrite concat_cons, moves_app, zlen_cons. destruct (round_ok total r st li l HT HK HA) as (st1 & li1 & l1 & -> & HA1 & H1). cbn [mbind res_bind].
  destruct (IH st1 li1 l1 HA1) as (st2 & li2 & l2 & -> & HA2 & H2). exists st2, li2, l2. split; [done|]. split; [done|]. pose proof (zlen_nonneg rounds). lia.
Qed.

Abbreviation waiting q := (Spsc.contents (queue_depth CFG) q).

(** C10: A running shard serves everything it was sent.  From any state of its
    life, under every schedule that goes through enough rounds with at least
    one turn of the thread and one attempt of the consumer each, in any order
    and number, the thread never fails, every queued request is worked on,
    and every report of theirs is pushed and taken: both rings and the
    thread's outbox end empty. *)
Theorem requests_drain shard_id symbols sh0 st rounds :
  0 < tick_size -> is_u 8 shard_id -> zlen symbols <= max_symbols CFG ->
  Forall (fun s => 0 <= s < SYMBOL_SPACE CFG) symbols ->
  shard_init CFG base tick_size shard_id symbols = Ok sh0 ->
  rtc (serve_step CFG base) (mkServing (mkThread sh0 []) [] 0) st ->
  let sh := th_shard (sv_thread st) in
  running_ sh = true -> sv_taken st + zlen (waiting (inbound_ sh)) < 2 ^ 32 ->
  Forall (fun r => Turn ∈ r /\ Take ∈ r) rounds ->
  260 * zlen (waiting (inbound_ sh)) + 2 * zlen (th_outbox (sv_thread st)) + zlen (waiting (outbound_ sh)) <= zlen rounds ->
  exists st', moves_run (concat rounds) st = Ok st' /\ th_outbox (sv_thread st') = [] /\
    waiting (inbound_ (th_shard (sv_thread st'))) = [] /\ waiting (outbound_ (th_shard (sv_thread st'))) = [] /\
    sv_taken st' = sv_taken st + zlen (waiting (inbound_ sh)).
Proof.
  intros Htick Hid Hlen Hsym Hinit Hreach sh Hr Hn HF Hrank. pose proof (zlen_nonneg (waiting (inbound_ sh))).
  destruct (serving_reachable CFG HC base tick_size shard_id symbols sh0 st Htick Hid Hlen Hsym Hinit Hreach ltac:(lia)) as (li & l & HI & _).
  pose proof (si_in _ _ _ _ _ _ HI) as Hi. pose proof (si_out _ _ _ _ _ _ HI) as Ho. fold sh in Hi, Ho.
  rewrite (Spsc.contents_repr _ (cf_ring _ HC) _ _ Hi) in *. rewrite (Spsc.contents_repr _ (cf_ring _ HC) _ _ Ho) in *.
  destruct (rounds_ok (sv_taken st + zlen li) rounds st li l HF) as (st' & li' & l' & Hrun & (HI' & _ & Etot & _) & Hle); [done|].
  exists st'. split; [done|]. unfold rank in Hle. pose proof (zlen_nonneg li'). pose proof (zlen_nonneg l').
  pose proof (zlen_nonneg (th_outbox (sv_thread st'))).
  assert (li' = []) as -> by (apply nil_of_zlen; lia). assert (l' = []) as -> by (apply nil_of_zlen; lia).
  split; [apply nil_of_zlen; lia|]. split; [apply (Spsc.contents_repr _ (cf_ring _ HC)), HI'|].
  split; [apply (Spsc.contents_repr _ (cf_ring _ HC)), HI'|]. change (zlen []) with 0 in Etot. lia.
Qed.

End drain.

(** The cancel of [demo_life] is served: the thread takes it, rejects or
    acknowledges it, and the consumer reads the report. *)
Lemma requests_drain_witness :
  exists st', moves_run demo_cfg (concat (replicate 260 [Take; Turn])) demo_life = Ok st' /\ sv_taken st' = 2.
Proof.
  destruct (requests_drain demo_cfg demo_cfg_ok 1000 5 1 [3; 7] demo_shard demo_life (replicate 260 [Take; Turn]))
    as (st' & H1 & _ & _ & _ & H2).
  - lia.
  - by vm_compute.
  - by vm_compute.
  - apply demo_symbols_ok.
  - by vm_compute.
  - exact demo_life_reachable.
  - by vm_compute.
  - by vm_compute.
  - apply Forall_replicate. split; [right; left|left].
  - by vm_compute.
  - exists st'. split; [exact H1|]. rewrite H2. by vm_compute.
Defined.

End ShardDrain.
