(* ===== verification/Market.v ===== *)
(** * What a shard promises: a market

    The specification of a shard over its whole life, without slots,
    generations, rings or threads.  A market has one reference book per symbol
    it hosts and takes one request after the other; the tag of a resting order
    is the cancel token its client was given.  Which token a new order gets is
    left open, but for that it was never given out before.  [ShardMarket] shows
    that a shard implements this; here are the machine and its laws. *)

From S2P Require Import Prelude Messages Order PriceLevel BookSpec BookInv Shard ShardWork.

Module Market.
Import PriceLevel BookSpec BookInv Shard ShardWork.

Record Market : Type := mkMarket {
  mk_books : list ABook;
  mk_issued : list Z;        (* tokens given out so far *)
  mk_trades : list Fill      (* trades so far *)
}.

(** The tokens of all resting orders. *)
Definition resting_tokens (mk : Market) : list Z := concat (aslots <$> mk_books mk).

Section market.
(** The level of a price, the number of levels, the room for orders, and the
    book of a symbol. *)
Context (ix : Z -> Z) (levels room : Z) (book_of : Z -> option Z).

Inductive serves (mk : Market) (m : InboundMsg) : Market -> list OutboundMsg -> Prop :=
| serves_order o b ab token rests fs ab' :
    hdr_type (in_hdr m) = NEW_ORDER -> in_new_order m = o ->
    book_of (no_symbol_id o) = Some b -> mk_books mk !! b = Some ab ->
    0 <= ix (no_price o) < levels -> zlen (resting_tokens mk) < room -> token ∉ mk_issued mk ->
    spec_add ix ab o token MAX_FILLS_PER_ORDER = (rests, fs, ab') ->
    serves mk m
      (mkMarket (<[b := ab']> (mk_books mk)) (if rests then mk_issued mk ++ [token] else mk_issued mk) (mk_trades mk ++ fs))
      (order_reports (hdr_session_id (in_hdr m)) (no_order_id o) rests fs token)
| serves_nowhere o b :
    hdr_type (in_hdr m) = NEW_ORDER -> in_new_order m = o -> book_of (no_symbol_id o) = Some b ->
    ~ 0 <= ix (no_price o) < levels \/ room <= zlen (resting_tokens mk) ->
    serves mk m mk []
| serves_no_symbol o :
    hdr_type (in_hdr m) = NEW_ORDER -> in_new_order m = o -> book_of (no_symbol_id o) = None ->
    serves mk m mk [reject_of (no_order_id o) UNKNOWN_SYMBOL (hdr_session_id (in_hdr m))]
| serves_cancel b ab bid r :
    hdr_type (in_hdr m) = CANCEL_ORDER ->
    mk_books mk !! b = Some ab -> r ∈ aside bid ab -> r_slot r = co_order_token (in_cancel m) ->
    serves mk m
      (mkMarket (<[b := aput bid ab (spec_cancel (r_slot r) (aside bid ab))]> (mk_books mk)) (mk_issued mk) (mk_trades mk))
      [ack_of 0 (r_slot r) (hdr_session_id (in_hdr m))]
| serves_no_order :
    hdr_type (in_hdr m) = CANCEL_ORDER -> co_order_token (in_cancel m) ∉ resting_tokens mk ->
    serves mk m mk [reject_of 0 UNKNOWN_ORDER (hdr_session_id (in_hdr m))]
| serves_other :
    hdr_type (in_hdr m) <> NEW_ORDER -> hdr_type (in_hdr m) <> CANCEL_ORDER ->
    serves mk m mk [].

(** A run: the requests it took and all the reports it made. *)
Inductive market_run (mk0 : Market) : list InboundMsg -> Market -> list OutboundMsg -> Prop :=
| run_nil : market_run mk0 [] mk0 []
| run_next ms mk outs m mk' more :
    market_run mk0 ms mk outs -> serves mk m mk' more -> market_run mk0 (ms ++ [m]) mk' (outs ++ more).

End market.

Definition empty_market (n : Z) : Market := mkMarket (replicate (Z.to_nat n) (mkABook [] [])) [] [].

(** ** Quantities under an order id *)

Definition when (b : bool) (q : Z) : Z := if b then q else 0.

(** Traded, resting and placed under [id]; a trade counts for both orders. *)
Definition fill_under (id : Z) (f : Fill) : Z :=
  when (fill_aggressor_id f =? id) (fill_qty f) + when (fill_resting_id f =? id) (fill_qty f).
Definition rests_under (id : Z) (r : Resting) : Z := when (r_id r =? id) (r_qty r).
Definition places_under (id : Z) (m : InboundMsg) : Z :=
  match hdr_type (in_hdr m) with
  | NEW_ORDER => when (no_order_id (in_new_order m) =? id) (no_qty (in_new_order m))
  | _ => 0
  end.
Definition filled (id : Z) (fs : list Fill) : Z := sumZ (fill_under id <$> fs).
Definition rested (id : Z) (l : list Resting) : Z := sumZ (rests_under id <$> l).
Definition book_rested (id : Z) (ab : ABook) : Z := rested id (bids ab) + rested id (asks ab).
Definition placed (id : Z) (ms : list InboundMsg) : Z := sumZ (places_under id <$> ms).

(** What the session [sid] was told of trades under [id]. *)
Definition tells (sid id : Z) (m : OutboundMsg) : Z :=
  match m with
  | out_fill f => when ((hdr_session_id (fill_hdr f) =? sid) && ((fill_aggressor_id f =? id) || (fill_resting_id f =? id))) (fill_qty f)
  | _ => 0
  end.
Definition told (sid id : Z) (outs : list OutboundMsg) : Z := sumZ (tells sid id <$> outs).

(** ** Laws *)

Section laws.
Context (ix : Z -> Z).

Lemma spec_match_under id bid agg i n q l fs q' l' : spec_match ix bid agg i n q l = (fs, q', l') ->
  filled id fs + rested id l' + when (agg =? id) q' = rested id l + when (agg =? id) q.
Proof.
  revert n q fs q' l'. induction l as [|r l IH]; intros n q fs q' l'; cbn [spec_match]; [by intros [= <- <- <-]|].
  destruct (_ && _); [|by intros [= <- <- <-]]. destruct (Z.eqb_spec (r_qty r - Z.min q (r_qty r)) 0) as [E|E].
  - destruct (spec_match _ _ _ _ _ _ l) as [[fs1 q1] l1] eqn:Em. intros [= <- <- <-]. specialize (IH _ _ _ _ _ Em).
    unfold filled, rested in *. rewrite !sum_cons.
    change (fill_under id (spec_fill agg r ?q)) with (when (agg =? id) q + when (r_id r =? id) q). change (rests_under id r) with (when (r_id r =? id) (r_qty r)).
    unfold when in *. cbn [spec_fill fill_aggressor_id fill_resting_id fill_qty]. destruct (agg =? id), (r_id r =? id); lia.
  - intros [= <- <- <-]. unfold filled, rested. rewrite !sum_cons. change (sumZ (fill_under id <$> [])) with 0.
    unfold fill_under, rests_under, when. cbn [spec_fill with_qty fill_aggressor_id fill_resting_id fill_qty r_id r_qty].
    destruct (agg =? id), (r_id r =? id); lia.
Qed.

Definition qty_ok (l : list Resting) : Prop := Forall (fun r => 0 <= r_qty r) l.
Definition fills_ok (fs : list Fill) : Prop := Forall (fun f => 0 <= fill_qty f) fs.

Lemma spec_match_qty bid agg i n q l fs q' l' : spec_match ix bid agg i n q l = (fs, q', l') -> 0 <= q -> qty_ok l ->
  0 <= q' /\ fills_ok fs /\ qty_ok l'.
Proof.
  intros Hm Hq Hl. revert n q fs q' l' Hm Hq. induction Hl as [|r l Hr Hl IH]; intros n q fs q' l'; cbn [spec_match]; [intros [= <- <- <-] Hq; by repeat constructor|].
  destruct (_ && _); [|intros [= <- <- <-] Hq; split; [done|]; split; [constructor|by constructor]]. destruct (Z.eqb_spec (r_qty r - Z.min q (r_qty r)) 0) as [E|E].
  - destruct (spec_match _ _ _ _ _ _ l) as [[fs1 q1] l1] eqn:Em. intros [= <- <- <-] Hq.
    destruct (IH _ _ _ _ _ Em ltac:(lia)) as (? & ? & ?). split; [done|]. split; [|done]. constructor; [cbn; lia|done].
  - intros [= <- <- <-] Hq. split; [lia|]. split; constructor; [cbn; lia|constructor|cbn; lia|done].
Qed.

Lemma spec_insert_under id bid r l : rested id (spec_insert ix bid r l) = rests_under id r + rested id l.
Proof. unfold rested. induction l as [|x l IH]; cbn [spec_insert]; [done|]. destruct (at_least _ _ _); rewrite !sum_cons, ?IH; [lia|done]. Qed.

Lemma spec_insert_qty bid r l : 0 <= r_qty r -> qty_ok l -> qty_ok (spec_insert ix bid r l).
Proof. intros Hr Hl. induction Hl as [|x l Hx Hl IH]; cbn [spec_insert]; [by repeat constructor|]. destruct (at_least _ _ _); by repeat constructor. Qed.

Definition book_ok (ab : ABook) : Prop := qty_ok (bids ab) /\ qty_ok (asks ab).

Lemma book_rested_sides id bid ab : book_rested id ab = rested id (aside bid ab) + rested id (aside (negb bid) ab).
Proof. unfold book_rested. destruct bid; cbn [aside aput negb bids asks]; lia. Qed.
Lemma book_rested_put id bid ab l : book_rested id (aput bid ab l) = rested id l + rested id (aside (negb bid) ab).
Proof. unfold book_rested. destruct bid; cbn [aside aput negb bids asks]; lia. Qed.
Lemma book_ok_put bid ab l : book_ok ab -> qty_ok l -> book_ok (aput bid ab l).
Proof. intros [? ?] ?. by destruct bid. Qed.
Lemma book_ok_side bid ab : book_ok ab -> qty_ok (aside bid ab).
Proof. intros [? ?]. by destruct bid. Qed.

(** No order is filled for more than it was placed for: what it traded and
    what rests of it after a new order is at most what was there before. *)
Lemma spec_add_under ab o token n rests fs ab' : spec_add ix ab o token n = (rests, fs, ab') -> 0 <= no_qty o -> book_ok ab ->
  fills_ok fs /\ book_ok ab' /\
  forall id, filled id fs + book_rested id ab' <= book_rested id ab + when (no_order_id o =? id) (no_qty o).
Proof.
  unfold spec_add. set (buy := bool_decide (no_side o = BUY)). destruct (spec_match _ _ _ _ _ _ _) as [[fs1 q] opp] eqn:Em.
  intros Hs Hq Hab. destruct (spec_match_qty _ _ _ _ _ _ _ _ _ Em Hq (book_ok_side _ _ Hab)) as (Hq' & Hfs & Hopp).
  assert (Hput : book_ok (aput (negb buy) ab opp)) by (by apply book_ok_put).
  assert (Hun : forall id, filled id fs1 + book_rested id (aput (negb buy) ab opp) + when (no_order_id o =? id) q =
    book_rested id ab + when (no_order_id o =? id) (no_qty o)).
  { intros id. pose proof (spec_match_under id _ _ _ _ _ _ _ _ _ Em). rewrite book_rested_put, (book_rested_sides id (negb buy)). lia. }
  assert (Hw : forall id, 0 <= when (no_order_id o =? id) q) by (intros id; unfold when; destruct (_ =? _); lia).
  destruct ((0 <? q) && _); injection Hs as <- <- <-; (split; [done|]); (split; [|intros id; specialize (Hun id); specialize (Hw id)]).
  - apply book_ok_put; [done|]. apply spec_insert_qty; [done|by apply book_ok_side].
  - rewrite book_rested_put, spec_insert_under. rewrite (book_rested_sides id buy) in Hun.
    change (rests_under id (resting_of o token q)) with (when (no_order_id o =? id) q). lia.
  - done.
  - lia.
Qed.

Lemma spec_cancel_under id token ab bid : book_ok ab ->
  book_ok (aput bid ab (spec_cancel token (aside bid ab))) /\
  book_rested id (aput bid ab (spec_cancel token (aside bid ab))) <= book_rested id ab.
Proof.
  intros Hab. pose proof (book_ok_side bid ab Hab) as Hl.
  assert (H : qty_ok (spec_cancel token (aside bid ab)) /\ rested id (spec_cancel token (aside bid ab)) <= rested id (aside bid ab)).
  { unfold spec_cancel, rested. clear Hab. revert Hl. generalize (aside bid ab) as l0. induction 1 as [|r l Hr Hl [IH1 IH2]]; [by split; [apply Forall_nil_2|]|]. rewrite filter_cons.
    assert (0 <= rests_under id r) by (unfold rests_under, when; destruct (_ =? _); lia).
    destruct (decide _); rewrite !sum_cons; (split; [|lia]); [by constructor|done]. }
  destruct H as [H1 H2]. split; [by apply book_ok_put|]. rewrite book_rested_put, (book_rested_sides id bid). lia.
Qed.

End laws.

(** ** What clients are told *)

Lemma tells_fill sid id f : 0 <= fill_qty f -> 0 <= tells sid id (out_fill f) <= fill_under id f.
Proof.
  intros Hq. unfold tells, fill_under, when. destruct (_ =? sid), (fill_aggressor_id f =? id), (fill_resting_id f =? id); cbn; lia.
Qed.

(** A session gets one report of a trade at most. *)
Lemma told_fill sid id session f : 0 <= fill_qty f -> told sid id (fill_reports session f) <= fill_under id f.
Proof.
  intros Hq. unfold fill_reports, told. rewrite sum_cons. pose proof (tells_fill sid id f Hq) as Hf.
  destruct (Z.eqb_spec session (hdr_session_id (fill_hdr f))) as [E|Hne]; cbn [fmap list_fmap sumZ foldr]; [lia|].
  set (f' := mkFill _ _ _ _ _ _). pose proof (tells_fill sid id f' Hq) as Hf'. change (fill_under id f') with (fill_under id f) in Hf'.
  destruct (decide (session = sid)) as [->|Hns].
  - assert (tells sid id (out_fill f) = 0) as ->; [|lia]. unfold tells. by rewrite (proj2 (Z.eqb_neq _ sid)) by congruence.
  - assert (tells sid id (out_fill f') = 0) as ->; [|lia]. unfold tells. cbn [f' fill_hdr set_session hdr_session_id]. by rewrite (proj2 (Z.eqb_neq session sid)).
Qed.

Lemma told_app sid id l k : told sid id (l ++ k) = told sid id l + told sid id k.
Proof. apply sum_app. Qed.

Lemma told_order sid id session oid rests fs token : fills_ok fs -> told sid id (order_reports session oid rests fs token) <= filled id fs.
Proof.
  intros Hfs. unfold order_reports. rewrite told_app. assert (told sid id (if rests then [ack_of oid token session] else []) = 0) as -> by (by destruct rests).
  rewrite Z.add_0_r. unfold reports, filled. induction Hfs as [|f fs Hf _ IH]; [done|]. rewrite fmap_cons, concat_cons, told_app, sum_cons.
  pose proof (told_fill sid id session f Hf). lia.
Qed.

(** ** Over a run *)

Section runs.
Context (ix : Z -> Z) (levels room : Z) (book_of : Z -> option Z).

Definition market_rested (id : Z) (mk : Market) : Z := sumZ (book_rested id <$> mk_books mk).

Record market_ok (ms : list InboundMsg) (mk : Market) (outs : list OutboundMsg) : Prop := {
  mo_books : Forall book_ok (mk_books mk);
  mo_trades : fills_ok (mk_trades mk);
  mo_placed : forall id, filled id (mk_trades mk) + market_rested id mk <= placed id ms;
  mo_told : forall sid id, told sid id outs <= filled id (mk_trades mk)
}.

Lemma placed_next id ms m : placed id (ms ++ [m]) = placed id ms + places_under id m.
Proof. unfold placed. rewrite sum_app, sum_cons. cbn. lia. Qed.

Lemma market_ok_quiet ms m mk outs more : market_ok ms mk outs -> 0 <= no_qty (in_new_order m) ->
  (forall sid id, told sid id more = 0) -> market_ok (ms ++ [m]) mk (outs ++ more).
Proof.
  intros [B T P O] Hq Hm. split; try done.
  - intros id. rewrite placed_next. specialize (P id). unfold places_under, when. repeat case_match; lia.
  - intros sid id. rewrite told_app, Hm, Z.add_0_r. apply O.
Qed.

Lemma market_ok_step ms mk outs m mk' more : market_ok ms mk outs -> 0 <= no_qty (in_new_order m) ->
  serves ix levels room book_of mk m mk' more -> market_ok (ms ++ [m]) mk' (outs ++ more).
Proof.
  intros HM Hq Hs. destruct Hs as [o b ab token rests fs ab' Ht Eo _ Hb _ _ _ Hadd|o b _ _ _ _|o _ _ _|b ab bid r Ht Hb Hr _|_ _|_ _];
    try (by apply market_ok_quiet).
  - subst o. destruct HM as [B T P O]. pose proof (proj1 (Forall_forall _ _) B ab (elem_of_lookupZ _ _ _ Hb)) as Hab.
    destruct (spec_add_under ix _ _ _ _ _ _ _ Hadd Hq Hab) as (Hfs & Hab' & Hun). split; cbn [mk_books mk_trades].
    + by apply Forall_insertZ.
    + by apply Forall_app.
    + intros id. rewrite placed_next. specialize (P id). specialize (Hun id). unfold filled, market_rested in *. cbn [mk_books].
      rewrite sum_app, (sum_insert _ _ _ _ _ Hb). unfold places_under. rewrite Ht. lia.
    + intros sid id. rewrite told_app. specialize (O sid id). pose proof (told_order sid id (hdr_session_id (in_hdr m)) (no_order_id (in_new_order m)) rests fs token Hfs).
      unfold filled in *. rewrite sum_app. lia.
  - destruct HM as [B T P O]. pose proof (proj1 (Forall_forall _ _) B ab (elem_of_lookupZ _ _ _ Hb)) as Hab. split; cbn [mk_books mk_trades].
    + apply Forall_insertZ; [done|]. by apply (spec_cancel_under 0).
    + done.
    + intros id. rewrite placed_next. specialize (P id). unfold market_rested in *. cbn [mk_books]. rewrite (sum_insert _ _ _ _ _ Hb).
      destruct (spec_cancel_under id (r_slot r) ab bid Hab) as [_ Hle]. unfold places_under. rewrite Ht. lia.
    + intros sid id. rewrite told_app. specialize (O sid id). change (told sid id [ack_of _ _ _]) with 0. lia.
Qed.

Lemma market_run_ok n ms mk outs : market_run ix levels room book_of (empty_market n) ms mk outs ->
  Forall (fun m => 0 <= no_qty (in_new_order m)) ms -> market_ok ms mk outs.
Proof.
  intros Hrun. induction Hrun as [|ms mk outs m mk' more _ IH Hs]; intros Hq.
  - split; cbn; try done; [|by repeat constructor|].
    + apply Forall_replicate. by repeat constructor.
    + intros id. unfold market_rested. cbn [mk_books empty_market]. rewrite (sum_const _ _ 0); [unfold placed, filled; cbn; lia|].
      intros i ab Hi%elem_of_lookupZ. by apply elem_of_replicate in Hi as [-> _].
  - apply Forall_app in Hq as [Hq Hm]. apply Forall_cons in Hm as [Hm _]. eapply market_ok_step; [by apply IH|done|done].
Qed.

End runs.

(** ** Who is told *)

(** Reports go to sessions that placed requests: whatever holds of the sessions
    of the requests holds of those of the orders and of the reports. *)
Section sessions.
Context (ix : Z -> Z) (P : Z -> Prop).

Definition owned (l : list Resting) : Prop := Forall (fun r => P (r_session r)) l.
Definition book_owned (ab : ABook) : Prop := forall bid, owned (aside bid ab).
Definition fill_to (f : Fill) : Prop := P (hdr_session_id (fill_hdr f)).
Definition out_to (m : OutboundMsg) : Prop := P (hdr_session_id (out_hdr m)).

Lemma spec_match_owned bid agg i n q l fs q' l' : owned l -> spec_match ix bid agg i n q l = (fs, q', l') -> Forall fill_to fs /\ owned l'.
Proof.
  intros Hl. revert n q fs q' l'. induction Hl as [|r l Hr Hl IH]; intros n q fs q' l'; cbn [spec_match]; [intros [= <- <- <-]; by repeat constructor|].
  destruct (_ && _ && _); [|intros [= <- <- <-]; split; [constructor|by constructor]]. destruct (_ =? 0).
  - destruct (spec_match _ _ _ _ _ _ l) as [[fs1 q1] l1] eqn:E. intros [= <- <- <-]. destruct (IH _ _ _ _ _ E). split; [by constructor|done].
  - intros [= <- <- <-]. split; by repeat constructor.
Qed.

Lemma book_owned_put bid ab l : book_owned ab -> owned l -> book_owned (aput bid ab l).
Proof. intros Hab Hl b. specialize (Hab b). by destruct bid, b. Qed.

Lemma spec_add_owned ab o token n rests fs ab' : P (hdr_session_id (no_hdr o)) -> book_owned ab ->
  spec_add ix ab o token n = (rests, fs, ab') -> Forall fill_to fs /\ book_owned ab'.
Proof.
  intros Ho Hab. unfold spec_add. destruct (spec_match _ _ _ _ _ _ _) as [[fs1 q] opp] eqn:E. destruct (spec_match_owned _ _ _ _ _ _ _ _ _ (Hab _) E) as [Hfs Hopp].
  pose proof (book_owned_put (negb (bool_decide (no_side o = BUY))) _ _ Hab Hopp) as Hab'. destruct (_ && _); intros [= _ <- <-]; (split; [done|]); [|done].
  apply book_owned_put; [done|]. unfold owned. rewrite spec_insert_perm. constructor; [done|apply Hab'].
Qed.

Lemma order_reports_to sid oid rests fs token : P sid -> Forall fill_to fs -> Forall out_to (order_reports sid oid rests fs token).
Proof.
  intros Hs Hfs. apply Forall_app. split; [|destruct rests; by repeat constructor]. unfold reports.
  induction Hfs as [|f fs Hf _ IH]; [constructor|]. rewrite fmap_cons, concat_cons. apply Forall_app. split; [|done].
  constructor; [done|]. destruct (_ =? _); by repeat constructor.
Qed.

Lemma market_run_to levels room book_of n ms mk outs : market_run ix levels room book_of (empty_market n) ms mk outs ->
  Forall (fun m => P (hdr_session_id (in_hdr m))) ms -> Forall book_owned (mk_books mk) /\ Forall out_to outs.
Proof.
  intros Hrun. induction Hrun as [|ms mk outs m mk' more _ IH Hs]; intros HP.
  - split; [|constructor]. apply Forall_replicate. intros bid. destruct bid; constructor.
  - apply Forall_app in HP as [HP Hm]. apply Forall_cons in Hm as [Hm _]. destruct (IH HP) as [HB HO].
    assert (Hb : forall b ab, mk_books mk !! b = Some ab -> book_owned ab) by (intros b ab Hab; rewrite Forall_forall in HB; by eapply HB, elem_of_lookupZ).
    destruct Hs as [o b ab token rests fs ab' Ht Eo _ Hab _ _ _ Hadd|o b _ _ _ _|o _ _ _|b ab bid r Ht Hab Hr _|_ _|_ _];
      try (split; [done|apply Forall_app; split; [done|by repeat constructor]]).
    + subst o. destruct (spec_add_owned ab (in_new_order m) token _ _ _ _ Hm (Hb b ab Hab) Hadd) as [Hfs Hab']. split; [by apply Forall_insertZ|].
      apply Forall_app. split; [done|by apply order_reports_to].
    + cbn [mk_books]. split; [|apply Forall_app; split; [done|by repeat constructor]]. apply Forall_insertZ; [done|].
      apply book_owned_put; [by eapply Hb|]. apply Forall_forall. intros x [_ Hx]%list_elem_of_filter. pose proof (Hb b ab Hab bid) as HF.
      unfold owned in HF. rewrite Forall_forall in HF. by apply HF.
Qed.

End sessions.

End Market.
