(* ===== verification/ShardMarket.v ===== *)
(** * A shard implements a market

    The trace refinement between a shard and [Market]: whatever requests are
    queued, reports taken and turns of the thread interleave, the reports that
    came out are those of a market that took the requests in their order, one
    at a time.  The tag of a resting order in the market is its token, which the
    shard packs from its number, the slot of the order and the slot's
    generation. *)

From stdpp Require Import relations.
From S2P Require Import Prelude Messages Order LevelBitmap Pool PriceLevel OrderHandle OrderBook Spsc.
From S2P Require Import BookSpec BookInv BookMatch BookRefine BookLaws BookAbs BookProps BookSession.
From S2P Require Import Shard ShardWork ShardInv ReportTypes ShardProps ShardTokens Market.

Module ShardMarket.
Import PriceLevel OrderHandle OrderBook BookSpec BookInv BookRefine BookAbs BookProps BookSession.
Import Shard ShardInv ReportTypes ShardProps ShardTokens Market.

(** ** Tags *)

Definition retag (f : Z -> Z) (r : Resting) : Resting :=
  mkResting (f (r_slot r)) (r_id r) (r_price r) (r_qty r) (r_symbol r) (r_side r) (r_tif r) (r_session r).
Definition relabel (f : Z -> Z) (ab : ABook) : ABook := mkABook (retag f <$> bids ab) (retag f <$> asks ab).

Section tags.
Context (ix f : Z -> Z).

Lemma aside_relabel bid ab : aside bid (relabel f ab) = retag f <$> aside bid ab.
Proof. by destruct bid. Qed.

Lemma aput_relabel bid ab l : aput bid (relabel f ab) (retag f <$> l) = relabel f (aput bid ab l).
Proof. by destruct bid. Qed.

Lemma aslots_relabel ab : aslots (relabel f ab) = f <$> aslots ab.
Proof. unfold aslots, slots_of. cbn [relabel bids asks]. by rewrite fmap_app, <- !list_fmap_compose. Qed.

Lemma spec_match_retag bid agg i n q l :
  spec_match ix bid agg i n q (retag f <$> l) =
  let '(fs, q', l') := spec_match ix bid agg i n q l in (fs, q', retag f <$> l').
Proof.
  revert n q. induction l as [|r l IH]; intros n q; [done|]. rewrite fmap_cons. cbn [spec_match].
  change (r_ix ix (retag f r)) with (r_ix ix r). change (r_qty (retag f r)) with (r_qty r).
  change (spec_fill agg (retag f r) ?x) with (spec_fill agg r x). destruct (_ && _); [|done]. destruct (_ =? 0); [|done].
  rewrite IH. by destruct (spec_match _ _ _ _ _ _ l) as [[fs q'] l'].
Qed.

Lemma spec_insert_retag bid r l : spec_insert ix bid (retag f r) (retag f <$> l) = retag f <$> spec_insert ix bid r l.
Proof.
  induction l as [|x l IH]; [done|]. rewrite fmap_cons. cbn [spec_insert]. change (r_ix ix (retag f ?y)) with (r_ix ix y).
  destruct (at_least _ _ _); [|done]. rewrite fmap_cons. by f_equal.
Qed.

(** Matching does not look at the tags. *)
Lemma spec_add_relabel ab o slot n rests fs ab' : spec_add ix ab o slot n = (rests, fs, ab') ->
  spec_add ix (relabel f ab) o (f slot) n = (rests, fs, relabel f ab').
Proof.
  unfold spec_add. rewrite aside_relabel, spec_match_retag. destruct (spec_match _ _ _ _ _ _ _) as [[fs1 q] opp].
  rewrite aput_relabel. destruct (_ && _); [|by intros [= <- <- <-]]. intros [= <- <- <-].
  rewrite aside_relabel. change (resting_of o (f slot) q) with (retag f (resting_of o slot q)). by rewrite spec_insert_retag, aput_relabel.
Qed.

Lemma spec_cancel_retag slot l : (forall r, r ∈ l -> f (r_slot r) = f slot -> r_slot r = slot) ->
  spec_cancel (f slot) (retag f <$> l) = retag f <$> spec_cancel slot l.
Proof.
  unfold spec_cancel. induction l as [|r l IH]; intros Hinj; [done|]. rewrite fmap_cons, !filter_cons.
  change (r_slot (retag f r)) with (f (r_slot r)). assert (IH' := IH (fun x Hx => Hinj x (list_elem_of_further _ _ _ Hx))).
  destruct (decide (r_slot r <> slot)) as [Hne|Heq].
  - rewrite decide_True by (intros E; apply Hne, Hinj; [constructor|done]). by rewrite fmap_cons, IH'.
  - assert (r_slot r = slot) as -> by (by destruct (decide (r_slot r = slot))). by rewrite decide_False by (by intros []).
Qed.

End tags.

Lemma relabel_ext f g ab : (forall s, s ∈ aslots ab -> f s = g s) -> relabel f ab = relabel g ab.
Proof.
  intros H. unfold relabel. f_equal; apply list_fmap_ext; intros i r Hr; unfold retag; f_equal; apply H; apply elem_of_app;
    [left|right]; apply list_elem_of_fmap_2; by eapply list_elem_of_lookup_2.
Qed.

(** ** Tokens as tags *)

Definition gen_at (ar : Arena) (slot : Z) : Z := default 0 (Pool.gen_ (Pool.arena_ (pool_ ar)) !! slot).
Definition label (sh : Shard) (slot : Z) : Z := to_token (mkHandle slot (gen_at (arena_ sh) slot)) (shard_id_ sh).

(** The books of the market that a shard stands for. *)
Definition market_books (sh : Shard) : list ABook := (fun bk => relabel (label sh) (book_abs bk (arena_ sh))) <$> books_ sh.

Definition hosted (local_of : list Z) (symbol : Z) : option Z :=
  match local_of !! symbol with Some b => if b =? NO_BOOK then None else Some b | None => None end.

(** ** What went through a queue *)

(** What was added at the end of a queue that nothing left, and what left the
    front of a queue to which nothing was added. *)
Definition came {A} (l l' : list A) : list A := drop (length l) l'.
Definition gone {A} (l l' : list A) : list A := take (length l - length l') l.

Lemma came_app {A} (l more : list A) : came l (l ++ more) = more.
Proof. apply drop_app_length. Qed.

Lemma came_none {A} (l l' : list A) : (length l' <= length l)%nat -> came l l' = [].
Proof. apply drop_ge. Qed.

Lemma gone_all {A} (l : list A) : gone l [] = l.
Proof. apply take_ge. cbn. lia. Qed.

Lemma gone_none {A} (l l' : list A) : (length l <= length l')%nat -> gone l l' = [].
Proof. intros Hl. unfold gone. by replace (length l - length l')%nat with 0%nat by lia. Qed.

Section refinement.
Context (CFG : ShardConfig) (HC : config_ok CFG) (base tick_size : Z).

Abbreviation shard_wf := (shard_wf CFG base tick_size).
Abbreviation holds := (Spsc.queue_repr (queue_depth CFG)).
Abbreviation serving_inv := (serving_inv CFG base tick_size).
Abbreviation worked := (worked CFG base tick_size).

Lemma shard_pool sh : shard_wf sh -> Pool.pool_wf (max_orders CFG) (pool_ (arena_ sh)) (live (arena_ sh) (books_ sh)).
Proof. intros HS. apply (sr_pool _ _ _ _ (sh_sharing _ _ _ _ HS)). Qed.

Lemma gen_at_Some sh s : shard_wf sh -> 0 <= s < max_orders CFG ->
  Pool.gen_ (Pool.arena_ (pool_ (arena_ sh))) !! s = Some (gen_at (arena_ sh) s).
Proof.
  intros HS Hs. destruct (lookupZ_is_Some (Pool.gen_ (Pool.arena_ (pool_ (arena_ sh)))) s) as [g Hg].
  - by rewrite (Pool.wf_gen_len _ _ _ (shard_pool sh HS)).
  - unfold gen_at. by rewrite Hg.
Qed.

Lemma from_label sh s : shard_wf sh -> 0 <= s < max_orders CFG -> from_token (label sh s) = mkHandle s (gen_at (arena_ sh) s).
Proof.
  intros HS Hs. pose proof (cf_token _ HC). apply token_round_trip; cbn [h_slot h_gen].
  - unfold is_u. lia.
  - eapply (Pool.wf_gen _ _ _ (shard_pool sh HS)), gen_at_Some; done.
  - apply (sh_id _ _ _ _ HS).
Qed.

Lemma live_range sh s : shard_wf sh -> s ∈ live (arena_ sh) (books_ sh) -> 0 <= s < max_orders CFG.
Proof. intros HS. eapply Pool.wf_live_range, shard_pool, HS. Qed.

Lemma free_range sh s : shard_wf sh -> s ∈ Pool.free_stack (pool_ (arena_ sh)) ->
  0 <= s < max_orders CFG /\ s ∉ live (arena_ sh) (books_ sh).
Proof.
  intros HS Hs. pose proof (shard_pool sh HS) as HP. split; [apply (Pool.wf_in_range _ _ _ s HP), elem_of_app; by left|].
  pose proof (Pool.wf_NoDup _ _ _ HP) as ND. apply NoDup_app in ND as (_ & Hd & _). by apply Hd.
Qed.

Lemma label_inj sh s s' : shard_wf sh -> 0 <= s < max_orders CFG -> 0 <= s' < max_orders CFG -> label sh s = label sh s' -> s = s'.
Proof. intros HS Hs Hs' E. apply (f_equal from_token) in E. rewrite !from_label in E by done. by injection E. Qed.

(** ** The resting orders of both *)

Lemma resting_of_shard sh issued trades :
  resting_tokens (mkMarket (market_books sh) issued trades) = label sh <$> live (arena_ sh) (books_ sh).
Proof.
  unfold resting_tokens, market_books, live. cbn [mk_books]. rewrite <- list_fmap_compose.
  induction (books_ sh) as [|bk bks IH]; [done|]. rewrite !fmap_cons, !concat_cons, fmap_app, IH. f_equal. apply aslots_relabel.
Qed.

Lemma market_book sh b bk : books_ sh !! b = Some bk -> market_books sh !! b = Some (relabel (label sh) (book_abs bk (arena_ sh))).
Proof. intros Hb. unfold market_books. by rewrite lookupZ_fmap, Hb. Qed.

(** A token is the tag of a resting order when it names its slot and the
    generation of the slot. *)
Lemma token_rests_label sh t : shard_wf sh -> t = to_token (from_token t) (shard_id_ sh) ->
  token_rests sh t <-> t ∈ label sh <$> live (arena_ sh) (books_ sh).
Proof.
  intros HS Et. split.
  - intros [Hl Hg]. apply list_elem_of_fmap. exists (h_slot (from_token t)). split; [|done]. unfold label, gen_at. rewrite Hg. cbn [default from_option].
    destruct (from_token t). exact Et.
  - intros (s & -> & Hs)%list_elem_of_fmap. pose proof (live_range sh s HS Hs) as Rs. unfold token_rests, held. rewrite from_label by done.
    split; [exact Hs|by apply gen_at_Some].
Qed.

(** ** What a request does to the tags *)

Lemma recycles_labels sh fresh b bk bk' ar' : shard_wf sh -> books_ sh !! b = Some bk -> recycles sh fresh bk bk' ar' -> NoDup fresh ->
  (forall s, s ∈ aslots (book_abs bk' ar') -> gen_at ar' s = gen_at (arena_ sh) s) /\
  (forall j bkj s, j <> b -> books_ sh !! j = Some bkj -> s ∈ aslots (book_abs bkj (arena_ sh)) -> gen_at ar' s = gen_at (arena_ sh) s).
Proof.
  intros HS Hb (Hfree & R & HR & Hp) ND. rewrite Forall_forall in Hfree.
  assert (Hfresh : forall s, s ∈ fresh -> s ∉ live (arena_ sh) (books_ sh)) by (intros s Hs%Hfree; by apply (free_range sh s HS)).
  assert (Hkeep : forall s, s ∉ R -> gen_at ar' s = gen_at (arena_ sh) s) by (intros s Hs; unfold gen_at; by rewrite HR, bool_decide_false).
  assert (Hin : forall s, s ∈ aslots (book_abs bk (arena_ sh)) -> s ∈ live (arena_ sh) (books_ sh))
    by (intros s; apply live_elem; by eapply elem_of_lookupZ).
  split.
  - intros s Hs. apply Hkeep. intros Hr.
    assert (ND' : NoDup (fresh ++ aslots (book_abs bk (arena_ sh)))).
    { apply NoDup_app. split; [done|]. split; [intros x Hx%Hfresh Hx'; by apply Hx, Hin|].
      pose proof (Pool.wf_live_NoDup _ _ _ (shard_pool sh HS)) as NL. apply lookupZ_split in Hb as (l1 & l2 & E & _). rewrite E, live_mid in NL.
      by apply NoDup_app in NL as (NL & _). }
    rewrite Hp in ND'. apply NoDup_app in ND' as (_ & Hd & _). by apply (Hd s).
  - intros j bkj s Hne Hj Hs. apply Hkeep. intros Hr.
    assert (Hs' : s ∈ fresh ++ aslots (book_abs bk (arena_ sh))) by (rewrite Hp; apply elem_of_app; by left).
    apply elem_of_app in Hs' as [Hs'%Hfresh|Hs'].
    + apply Hs'. eapply live_elem; [by eapply elem_of_lookupZ|exact Hs].
    + exact (sharing_disjoint _ _ _ _ j bkj b bk s (sh_sharing _ _ _ _ HS) Hne Hj Hb Hs Hs').
Qed.

Lemma market_books_step sh fresh b bk bk' ar' : shard_wf sh -> books_ sh !! b = Some bk -> recycles sh fresh bk bk' ar' -> NoDup fresh ->
  (forall j bkj, j <> b -> books_ sh !! j = Some bkj ->
     books_ (with_book sh b bk' ar') !! j = Some bkj /\ book_abs bkj ar' = book_abs bkj (arena_ sh)) ->
  market_books (with_book sh b bk' ar') = <[b := relabel (label sh) (book_abs bk' ar')]> (market_books sh).
Proof.
  intros HS Hb HR ND Hoth. destruct (recycles_labels sh fresh b bk bk' ar' HS Hb HR ND) as [Hthis Hothers].
  pose proof (lookupZ_range _ _ _ Hb) as Rb. unfold market_books. cbn [with_book set_arena set_books books_ arena_].
  apply listZ_eq; [by rewrite zlen_insertZ, !zlen_fmap, zlen_insertZ|]. rewrite zlen_fmap, zlen_insertZ. intros j Rj.
  rewrite lookupZ_fmap, !lookupZ_insertZ by (rewrite ?zlen_fmap; done). destruct (decide (b = j)) as [<-|Hne].
  - cbn [fmap option_fmap option_map]. f_equal. apply relabel_ext. intros s Hs. unfold label. cbn [with_book shard_id_ arena_ set_arena set_books]. by rewrite Hthis.
  - rewrite lookupZ_fmap. destruct (lookupZ_is_Some (books_ sh) j) as [bkj Hj]; [done|]. rewrite Hj. cbn [fmap option_fmap option_map]. f_equal.
    destruct (Hoth j bkj (not_eq_sym Hne) Hj) as [_ ->]. apply relabel_ext. intros s Hs. unfold label. cbn [with_book shard_id_ arena_ set_arena set_books].
    by rewrite (Hothers j bkj s (not_eq_sym Hne) Hj Hs).
Qed.

(** ** A request *)

(** [known] are the tokens clients have or are about to get. *)
Record implements (n : Z) (sh : Shard) (known : list Z) (mk : Market) : Prop := {
  im_books : mk_books mk = market_books sh;
  im_issued : forall t, t ∈ mk_issued mk -> token_known n sh t /\ t = to_token (from_token t) (shard_id_ sh);
  im_known : forall t, t ∈ known -> t ∈ mk_issued mk
}.

Abbreviation market_serves sh := (serves (ladder_idx base tick_size) (ladder_size CFG) (max_orders CFG) (hosted (local_of_ sh))).

Lemma implements_resting n sh known mk : implements n sh known mk -> resting_tokens mk = label sh <$> live (arena_ sh) (books_ sh).
Proof. intros [E _ _]. destruct mk as [bs issued trades]. cbn [mk_books] in E. subst bs. apply resting_of_shard. Qed.

(** Tokens that were issued stay known, and there may be new ones. *)
Lemma implements_step n sh known mk m outs sh' mk' new more : 0 <= n -> implements n sh known mk -> tick_effect sh m outs sh' ->
  mk_books mk' = market_books sh' -> mk_issued mk' = mk_issued mk ++ new ->
  (forall t, t ∈ new -> token_rests sh' t /\ t = to_token (from_token t) (shard_id_ sh)) ->
  (forall t, t ∈ more -> t ∈ known ++ new) -> implements (n + 1) sh' (known ++ more) mk'.
Proof.
  intros Hn [_ HI HK] He Eb Ei Hnew Hmore. split; [done| |].
  - intros t. rewrite Ei, (te_id _ _ _ _ He). intros [[Hk Et]%HI|[Hr Et]%Hnew]%elem_of_app; (split; [|done]); [by eapply known_step|by left].
  - intros t. rewrite Ei. intros [Ht%HK|[Ht%HK|Ht]%Hmore%elem_of_app]%elem_of_app; apply elem_of_app; auto.
Qed.

(** No request reached the books. *)
Lemma implements_idle n sh known mk m outs q more : 0 <= n -> implements n sh known mk -> tick_effect sh m outs (set_inbound sh q) ->
  (forall t, t ∈ more -> t ∈ known) -> implements (n + 1) (set_inbound sh q) (known ++ more) mk.
Proof.
  intros Hn HI He Hmore. apply (implements_step n sh known mk m outs _ mk [] more Hn HI He); [apply HI|by rewrite app_nil_r|by intros t ?%not_elem_of_nil|].
  intros t Ht%Hmore. by rewrite app_nil_r.
Qed.

(** The tag of a free slot is a token that no client has. *)
Lemma free_label_fresh n sh known mk slot : shard_wf sh -> n < 2 ^ 32 -> implements n sh known mk ->
  0 <= slot < max_orders CFG -> slot ∉ live (arena_ sh) (books_ sh) -> label sh slot ∉ mk_issued mk.
Proof.
  intros HS Hn HI Rs Hfree [[[Hl _]|Hgone] _]%(im_issued _ _ _ _ HI).
  - rewrite from_label in Hl by done. by apply Hfree.
  - apply (gone_token n sh _ Hn Hgone). rewrite from_label by done. by apply gen_at_Some.
Qed.

Lemma hosted_Some sh symbol b : local_of_ sh !! symbol = Some b -> b <> NO_BOOK -> hosted (local_of_ sh) symbol = Some b.
Proof. intros E Hb. unfold hosted. rewrite E. by destruct (Z.eqb_spec b NO_BOOK). Qed.

Lemma hosted_None sh symbol : default NO_BOOK (local_of_ sh !! symbol) = NO_BOOK -> hosted (local_of_ sh) symbol = None.
Proof. unfold hosted. destruct (_ !! _) as [b|]; [|done]. cbn. by intros ->. Qed.

Lemma acked_order sid id (rests : bool) fs token : acked_tokens (order_reports sid id rests fs token) = if rests then [token] else [].
Proof. unfold order_reports. rewrite acked_app, acked_fills. by destruct rests. Qed.

(** A new order that is matched: the token of its slot is the tag. *)
Lemma served_market n sh known mk m b bk slot g (rests : bool) fs bk' ar' token q
    (outs := order_reports (hdr_session_id (in_hdr m)) (no_order_id (in_new_order m)) rests fs token) :
  0 <= n < 2 ^ 32 -> implements n sh known mk -> shard_wf sh -> hdr_type (in_hdr m) = NEW_ORDER ->
  hosted (local_of_ sh) (no_symbol_id (in_new_order m)) = Some b -> books_ sh !! b = Some bk ->
  admissible (ladder_size CFG) bk (arena_ sh) (in_new_order m) MAX_FILLS_PER_ORDER ->
  spec_add (book_ix bk) (book_abs bk (arena_ sh)) (in_new_order m) slot MAX_FILLS_PER_ORDER = (rests, fs, book_abs bk' ar') ->
  trade_facts CFG base tick_size sh b bk slot g rests fs bk' ar' token ->
  tick_effect sh m outs (with_book (set_inbound sh q) b bk' ar') ->
  exists mk', market_serves sh mk m mk' outs /\ implements (n + 1) (with_book (set_inbound sh q) b bk' ar') (known ++ acked_tokens outs) mk'.
Proof.
  intros Hn HI HS Ht Hh Hb Ha Hadd (_ & _ & Htok & Hoth & Hslot & HR) He.
  destruct (sh_params _ _ _ _ HS bk (elem_of_lookupZ _ _ _ Hb)) as [E1 E2].
  assert (Eix : book_ix bk = ladder_idx base tick_size) by (unfold book_ix; by rewrite E1, E2).
  pose proof HR as (Hfree & _). apply Forall_cons in Hfree as [Hfree _]. destruct (free_range sh slot HS Hfree) as [Rs Hnew].
  pose proof (recycles_labels sh [slot] b bk bk' ar' HS Hb HR (NoDup_singleton slot)) as [Hgen _].
  assert (Et : rests = true -> token = label sh slot).
  { intros Hr. destruct (Htok Hr) as (-> & _ & _ & Hg). unfold label. rewrite <- Hgen by (by apply Hslot). unfold gen_at. by rewrite Hg. }
  pose proof (spec_add_relabel (book_ix bk) (label sh) _ _ _ _ _ _ _ Hadd) as Hspec. rewrite Eix in Hspec.
  assert (Eouts : outs = order_reports (hdr_session_id (in_hdr m)) (no_order_id (in_new_order m)) rests fs (label sh slot)).
  { unfold outs, order_reports. destruct rests; [by rewrite Et|done]. }
  rewrite Eouts in *. pose proof (im_books _ _ _ _ HI) as Emk. eexists. split.
  - eapply (serves_order _ _ _ _ mk m (in_new_order m) b _ (label sh slot) rests fs); [done|done|done| | | | |exact Hspec].
    + rewrite Emk. by apply market_book.
    + rewrite <- Eix. apply Ha.
    + rewrite (implements_resting _ _ _ _ HI), zlen_fmap. pose proof (Pool.wf_free_count _ _ _ (shard_pool sh HS)). pose proof (ad_room _ _ _ _ _ Ha).
      unfold Pool.free_count in *. lia.
    + apply (free_label_fresh n sh known mk slot HS); [lia|done..].
  - apply (implements_step n sh known mk m _ _ _ (if rests then [label sh slot] else []) _ (proj1 Hn) HI He); cbn [mk_books mk_issued].
    + rewrite Emk. symmetry. exact (market_books_step sh [slot] b bk bk' ar' HS Hb HR (NoDup_singleton slot) Hoth).
    + destruct rests; [done|by rewrite app_nil_r].
    + destruct rests; [|by intros t ?%not_elem_of_nil]. intros t ->%list_elem_of_singleton. unfold token_rests, held.
      rewrite from_label by done. cbn [h_slot h_gen]. split; [split|done].
      * apply (live_elem _ _ bk'); [apply (elem_of_lookupZ _ b), lookupZ_insertZ_eq; by eapply lookupZ_range|by apply Hslot].
      * destruct (Htok eq_refl) as (_ & _ & _ & Hg). rewrite <- Hgen by (by apply Hslot). unfold gen_at. by rewrite Hg.
    + rewrite acked_order. intros t Hr. apply elem_of_app. by right.
Qed.

Lemma new_market n sh sent known mk m q sh' outs : 0 <= n < 2 ^ 32 -> implements n sh known mk -> shard_wf sh ->
  request_ok base sent m -> hdr_type (in_hdr m) = NEW_ORDER ->
  new_work CFG (set_inbound sh q) (in_new_order m) (hdr_session_id (in_hdr m)) = Ok (sh', outs) -> tick_effect sh m outs sh' ->
  exists mk', market_serves sh mk m mk' outs /\ implements (n + 1) sh' (known ++ acked_tokens outs) mk'.
Proof.
  intros Hn HI HS [Hlen Hby Hpr _] Ht Hrun He. specialize (Hpr Ht). destruct (order_widths m Hlen Hby) as [H0 Hqty].
  pose proof (shard_wf_inbound CFG base tick_size sh q HS) as HSq.
  destruct (decide (default NO_BOOK (local_of_ sh !! no_symbol_id (in_new_order m)) = NO_BOOK)) as [Hno|Hsome].
  { rewrite (new_work_unknown CFG base tick_size _ _ _ HSq H0 Hno) in Hrun. injection Hrun as <- <-. exists mk.
    split; [apply (serves_no_symbol _ _ _ _ mk m (in_new_order m) Ht eq_refl), hosted_None, Hno|].
    apply (implements_idle n sh known mk m _ q _ (proj1 Hn) HI He). by intros t ?%not_elem_of_nil. }
  destruct (local_of_ sh !! no_symbol_id (in_new_order m)) as [b|] eqn:Hsym; [|done].
  destruct (book_of_symbol CFG base tick_size sh _ b HS Hsym Hsome) as [bk Hb].
  destruct (sh_params _ _ _ _ HS bk (elem_of_lookupZ _ _ _ Hb)) as [E1 E2].
  pose proof (hosted_Some sh _ b Hsym Hsome) as Hh.
  destruct (decide (0 <= book_ix bk (no_price (in_new_order m)) < ladder_size CFG /\ 0 < Pool.free_count (pool_ (arena_ sh)))) as [[Hi Hr]|Hrej].
  - assert (Ha : admissible (ladder_size CFG) bk (arena_ sh) (in_new_order m) MAX_FILLS_PER_ORDER) by (split; try done; by rewrite E1).
    destruct (new_work_served CFG base tick_size HC (set_inbound sh q) (in_new_order m) (hdr_session_id (in_hdr m)) b bk HSq H0 Hsym Hb Ha)
      as (slot & g & rests & fs & bk' & ar' & token & Hadd & Hrun' & HS' & Hfacts). rewrite Hrun in Hrun'. injection Hrun' as -> ->.
    apply (served_market n sh known mk m b bk slot g rests fs bk' ar' token q Hn HI HS Ht Hh Hb Ha Hadd); [|exact He].
    split; [|exact Hfacts]. exact (shard_wf_inbound CFG base tick_size _ (inbound_ sh) HS').
  - pose proof (Pool.wf_top _ _ _ (shard_pool sh HS)) as Htop. unfold Pool.free_count in *.
    assert (Hno : ~ 0 <= book_ix bk (no_price (in_new_order m)) < ladder_size CFG \/ Pool.free_top_ (pool_ (arena_ sh)) = 0) by lia.
    rewrite (new_work_silent CFG base tick_size HC (set_inbound sh q) _ _ b bk HSq H0 Hsym Hb Hpr Hno) in Hrun. injection Hrun as <- <-. exists mk. split.
    + apply (serves_nowhere _ _ _ _ mk m (in_new_order m) b Ht eq_refl Hh). unfold book_ix in Hno. rewrite E1, E2 in Hno.
      rewrite (implements_resting _ _ _ _ HI), zlen_fmap. pose proof (Pool.wf_free_count _ _ _ (shard_pool sh HS)). lia.
    + apply (implements_idle n sh known mk m _ q _ (proj1 Hn) HI He). by intros t ?%not_elem_of_nil.
Qed.

(** A cancel whose token is the tag of a resting order. *)
Lemma taken_off_market n sh known mk m b bk bid r bk' ar' q
    (t := co_order_token (in_cancel m)) (outs := [ack_of 0 t (hdr_session_id (in_hdr m))]) :
  0 <= n -> implements n sh known mk -> shard_wf sh -> hdr_type (in_hdr m) = CANCEL_ORDER -> t ∈ known ->
  books_ sh !! b = Some bk -> r ∈ aside bid (book_abs bk (arena_ sh)) -> t = label sh (r_slot r) ->
  cancel_facts CFG base tick_size sh b bk bid r bk' ar' ->
  tick_effect sh m outs (with_book (set_inbound sh q) b bk' ar') ->
  exists mk', market_serves sh mk m mk' outs /\ implements (n + 1) (with_book (set_inbound sh q) b bk' ar') (known ++ acked_tokens outs) mk'.
Proof.
  intros Hn HI HS Ht Hkn Hb Hr Et (_ & Habs & Hoth & HR) He. pose proof (im_books _ _ _ _ HI) as Emk.
  assert (Hrange : forall x, x ∈ aside bid (book_abs bk (arena_ sh)) -> 0 <= r_slot x < max_orders CFG).
  { intros x Hx. apply (live_range sh _ HS). apply (live_elem _ _ bk); [by eapply elem_of_lookupZ|]. rewrite (aslots_sides bid).
    apply elem_of_app. left. by apply list_elem_of_fmap_2. }
  eexists. split.
  - unfold outs. rewrite Et. change (label sh (r_slot r)) with (r_slot (retag (label sh) r)).
    apply (serves_cancel _ _ _ _ mk m b (relabel (label sh) (book_abs bk (arena_ sh))) bid (retag (label sh) r) Ht); [|rewrite aside_relabel; by apply list_elem_of_fmap_2|].
    + rewrite Emk. by apply market_book.
    + symmetry. exact Et.
  - apply (implements_step n sh known mk m _ _ _ [] _ Hn HI He); cbn [mk_books mk_issued].
    + rewrite Emk, aside_relabel. change (r_slot (retag (label sh) r)) with (label sh (r_slot r)).
      rewrite spec_cancel_retag by (intros x Hx Ex; apply (label_inj sh _ _ HS (Hrange x Hx) (Hrange r Hr) Ex)).
      rewrite aput_relabel, <- Habs. symmetry. exact (market_books_step sh [] b bk bk' ar' HS Hb HR (NoDup_nil_2) Hoth).
    + by rewrite app_nil_r.
    + by intros x ?%not_elem_of_nil.
    + intros x ->%list_elem_of_singleton. by rewrite app_nil_r.
Qed.

Lemma cancel_market n sh sent known mk m q sh' outs : 0 <= n < 2 ^ 32 -> implements n sh known mk -> shard_wf sh ->
  request_ok base sent m -> (forall t, t ∈ sent -> t ∈ known) -> hdr_type (in_hdr m) = CANCEL_ORDER ->
  cancel_work CFG (set_inbound sh q) (in_cancel m) (hdr_session_id (in_hdr m)) = Ok (sh', outs) -> tick_effect sh m outs sh' ->
  exists mk', market_serves sh mk m mk' outs /\ implements (n + 1) sh' (known ++ acked_tokens outs) mk'.
Proof.
  intros Hn HI HS Hm Hsent Ht Hrun He. pose proof (Hsent _ (rq_token _ _ _ Hm Ht)) as Hkn. set (t := co_order_token (in_cancel m)) in *.
  pose proof (shard_wf_inbound CFG base tick_size sh q HS) as HSq.
  destruct (im_issued _ _ _ _ HI t (im_known _ _ _ _ HI t Hkn)) as [Hknown Et]. destruct Hknown as [[Hl Hg]|Hgone].
  - destruct (live_order sh _ Hl) as (b & bk & bid & r & Hb & Hr & Es).
    destruct (cancel_work_live CFG base tick_size HC (set_inbound sh q) (in_cancel m) (hdr_session_id (in_hdr m)) b bk bid r
      (h_gen (from_token t)) HSq Hb Hr) as (bk' & ar' & Hrun' & HS' & Hfacts).
    { by rewrite Es. }
    { rewrite Es. fold t. by destruct (from_token t). }
    rewrite Hrun in Hrun'. injection Hrun' as -> ->. apply (taken_off_market n sh known mk m b bk bid r bk' ar' q (proj1 Hn) HI HS Ht Hkn Hb Hr); [| |exact He].
    + fold t. rewrite Es. unfold label, gen_at. rewrite Hg. cbn [default from_option]. by destruct (from_token t).
    + split; [|exact Hfacts]. exact (shard_wf_inbound CFG base tick_size _ (inbound_ sh) HS').
  - rewrite (cancel_work_stale CFG base tick_size _ _ _ HSq (gone_token n sh t (proj2 Hn) Hgone)) in Hrun. injection Hrun as <- <-. exists mk. split.
    + apply (serves_no_order _ _ _ _ mk m Ht). fold t. rewrite (implements_resting _ _ _ _ HI). intros [_ Hg]%(token_rests_label sh t HS Et).
      by apply (gone_token n sh t (proj2 Hn) Hgone).
    + apply (implements_idle n sh known mk m _ q _ (proj1 Hn) HI He). by intros x ?%not_elem_of_nil.
Qed.

(** Whatever the request, the market does the same. *)
Lemma work_market n sh sent known mk m li sh' outs : 0 <= n < 2 ^ 32 -> implements n sh known mk -> shard_wf sh ->
  holds (inbound_ sh) (m :: li) -> request_ok base sent m -> (forall t, t ∈ sent -> t ∈ known) ->
  tick_work CFG sh = Ok (sh', outs) -> tick_effect sh m outs sh' ->
  exists mk', market_serves sh mk m mk' outs /\ implements (n + 1) sh' (known ++ acked_tokens outs) mk'.
Proof.
  intros Hn HI HS Hin Hm Hsent Hw He. destruct (work_dispatch CFG HC sh m li Hin) as (q & _ & Hd). rewrite Hw in Hd.
  destruct (hdr_type (in_hdr m)) eqn:Ht; try (injection Hd as -> ->; exists mk; split;
    [apply serves_other; by rewrite Ht|apply (implements_idle n sh known mk m _ q _ (proj1 Hn) HI He); by intros x ?%not_elem_of_nil]).
  - by apply (new_market n sh sent known mk m q).
  - by apply (cancel_market n sh sent known mk m q).
Qed.

(** ** A life *)

(** What was queued and what was taken out since the start. *)
Record Life : Type := mkLife {
  lf_serving : Serving;
  lf_in : list InboundMsg;
  lf_out : list OutboundMsg
}.

Inductive life_step : Life -> Life -> Prop :=
| life_push sh box sent n ins outs m q :
    request_ok base sent m -> Spsc.push (queue_depth CFG) (inbound_ sh) m = Ok (true, q) ->
    life_step (mkLife (mkServing (mkThread sh box) sent n) ins outs)
              (mkLife (mkServing (mkThread (set_inbound sh q) box) sent n) (ins ++ [m]) outs)
| life_pop sh box sent n ins outs m q :
    Spsc.pop (queue_depth CFG) (outbound_ sh) = Ok (Some m, q) ->
    life_step (mkLife (mkServing (mkThread sh box) sent n) ins outs)
              (mkLife (mkServing (mkThread (set_outbound sh q) box) (sent ++ acked_tokens [m]) n) ins (outs ++ [m]))
| life_turn th sent n ins outs th' :
    thread_turn CFG th = Ok th' ->
    life_step (mkLife (mkServing th sent n) ins outs) (mkLife (mkServing th' sent (n + taking CFG th)) ins outs)
| life_stop sh box sent n ins outs :
    life_step (mkLife (mkServing (mkThread sh box) sent n) ins outs) (mkLife (mkServing (mkThread (stop sh) box) sent n) ins outs).

Definition born (sh : Shard) : Life := mkLife (mkServing (mkThread sh []) [] 0) [] [].

Lemma life_serves a b : life_step a b -> serve_step CFG base (lf_serving a) (lf_serving b).
Proof. destruct 1; by econstructor. Qed.

(** A market took the requests that left the inbound ring, and its reports are
    out, in the outbound ring or still with the thread. *)
Record refines (table : list Z) (lf : Life) (li : list InboundMsg) (l : list OutboundMsg)
    (taken : list InboundMsg) (mk : Market) (outs : list OutboundMsg) : Prop := {
  rf_inv : serving_inv (lf_serving lf) li l;
  rf_typed : typed_inv (lf_serving lf) l;
  rf_table : local_of_ (th_shard (sv_thread (lf_serving lf))) = table;
  rf_run : market_run (ladder_idx base tick_size) (ladder_size CFG) (max_orders CFG) (hosted table)
    (empty_market (max_symbols CFG)) taken mk outs;
  rf_in : lf_in lf = taken ++ li;
  rf_out : outs = lf_out lf ++ l ++ th_outbox (sv_thread (lf_serving lf));
  rf_formed : Forall in_formed (lf_in lf);
  rf_market : implements (sv_taken (lf_serving lf)) (th_shard (sv_thread (lf_serving lf)))
    (sv_sent (lf_serving lf) ++ acked_tokens (l ++ th_outbox (sv_thread (lf_serving lf)))) mk
}.

(** Two shards with the same books. *)
Definition same_books (sh sh' : Shard) : Prop :=
  books_ sh' = books_ sh /\ arena_ sh' = arena_ sh /\ shard_id_ sh' = shard_id_ sh /\ local_of_ sh' = local_of_ sh.

Lemma implements_same n n' sh sh' known known' mk : implements n sh known mk -> same_books sh sh' -> n <= n' ->
  (forall t, t ∈ known' -> t ∈ known) -> implements n' sh' known' mk.
Proof.
  intros [A B C] (E1 & E2 & E3 & _) Hn Hsub. split; [|intros t [Hk Et]%B|by intros t Ht%Hsub%C].
  - rewrite A. unfold market_books, label. by rewrite E1, E2, E3.
  - split; [|by rewrite E3]. apply (known_later n (n' - n)) in Hk; [|lia]. replace (n + (n' - n)) with n' in Hk by lia.
    unfold token_known, token_rests in *. by rewrite E1, E2.
Qed.

(** Nothing on the books of the market moves with the rings: more requests may
    come, and [gone] may be taken out. *)
Lemma refines_move table sh box sent n ins outs li l taken mk all sh' sent' n' more gone l' :
  refines table (mkLife (mkServing (mkThread sh box) sent n) ins outs) li l taken mk all ->
  serving_inv (mkServing (mkThread sh' box) sent' n') (li ++ more) l' -> same_books sh sh' -> n <= n' ->
  Forall in_formed more -> l = gone ++ l' -> (forall t, t ∈ sent' -> t ∈ sent ++ acked_tokens gone) ->
  refines table (mkLife (mkServing (mkThread sh' box) sent' n') (ins ++ more) (outs ++ gone)) (li ++ more) l' taken mk all.
Proof.
  intros [_ [HB HO] Htab Hrun Ein Eout HF HM] HI' Hsame Hn Hmore -> Hsent. pose proof Hsame as (E1 & E2 & _ & E4).
  cbn [lf_serving lf_in lf_out sv_thread sv_taken sv_sent th_shard th_outbox] in *.
  split; cbn [lf_serving lf_in lf_out sv_thread sv_taken sv_sent th_shard th_outbox]; try done.
  - split; cbn [sv_thread th_shard th_outbox] in *; [unfold books_typed in *; by rewrite E1, E2|]. rewrite <- app_assoc in HO. by apply Forall_app in HO as [_ HO].
  - by rewrite E4.
  - by rewrite Ein, app_assoc.
  - by rewrite Eout, <- !app_assoc.
  - by apply Forall_app.
  - apply (implements_same n n' sh sh' _ _ _ HM Hsame Hn). intros t. rewrite <- (app_assoc gone), (acked_app gone), app_assoc.
    intros [Ht%Hsent|Ht]%elem_of_app; apply elem_of_app; auto.
Qed.

Lemma holds_inj {A} (q : Spsc.SpscQueue A) l l' : Spsc.queue_repr (queue_depth CFG) q l -> Spsc.queue_repr (queue_depth CFG) q l' -> l = l'.
Proof. intros Hl Hl'. by rewrite <- (Spsc.contents_repr _ (cf_ring _ HC) _ _ Hl), <- (Spsc.contents_repr _ (cf_ring _ HC) _ _ Hl'). Qed.

(** A turn takes at most one request and adds at most one report. *)
Lemma turned_queues th li l th' li' l' : turned CFG base tick_size th li l th' li' l' -> came li li' = [] /\ gone l l' = [].
Proof.
  destruct 1 as [m rest q _ _ _|m li' sh' os _ _ -> _|_]; (split; [apply came_none|apply gone_none]); rewrite ?length_app; cbn; lia.
Qed.

Lemma refines_turn table th sent n ins outs li l taken mk all th' : n < 2 ^ 32 -> thread_turn CFG th = Ok th' ->
  refines table (mkLife (mkServing th sent n) ins outs) li l taken mk all ->
  exists li' l' taken' mk' all', turned CFG base tick_size th li l th' li' l' /\
    refines table (mkLife (mkServing th' sent (n + taking CFG th)) ins outs) li' l' taken' mk' all'.
Proof.
  intros Hlt Hturn [HI HT Htab Hrun Ein Eout HF HM]. cbn [lf_serving lf_in lf_out sv_thread sv_taken sv_sent] in *.
  destruct (turn_spec CFG HC base tick_size _ _ _ _ _ HI Hlt) as (th1 & li' & l' & Hturn1 & Ht). rewrite Hturn in Hturn1. injection Hturn1 as <-.
  pose proof (turned_inv CFG HC base tick_size _ _ _ _ _ _ _ _ HI Ht) as HI'. pose proof (turned_typed CFG base tick_size _ _ _ _ _ _ _ _ HI Ht HT) as HT'.
  pose proof (taking_turn CFG HC base tick_size _ _ _ _ _ _ (si_in _ _ _ _ _ _ HI) Ht) as Etk. exists li', l'. revert HI' HT'. cbn [sv_thread] in Etk. rewrite Etk. intros HI' HT'.
  assert (Hex : exists taken' mk' all', refines table (mkLife (mkServing th' sent (n + (zlen li - zlen li'))) ins outs) li' l' taken' mk' all');
    [|destruct Hex as (taken' & mk' & all' & ?); by exists taken', mk', all'].
  destruct Ht as [m rest q Eb _ _|m li' sh' os Eb Er -> [_ _ _ _ _ He]|_].
  - rewrite Eb in *. exists taken, mk, all. rewrite Z.sub_diag, Z.add_0_r in *.
    split; cbn [lf_serving lf_in lf_out sv_thread sv_taken sv_sent th_shard th_outbox]; rewrite <- ?app_assoc; try done.
    by apply (implements_same n n (th_shard th) _ _ _ _ HM).
  - rewrite Eb, app_nil_r in *. unfold thread_turn in Hturn. rewrite Eb, Er in Hturn.
    destruct (tick_work CFG (th_shard th)) as [[sh1 os1]|] eqn:Hw; [|done]. injection Hturn as -> ->.
    pose proof (si_requests _ _ _ _ _ _ HI) as Hq. apply Forall_cons in Hq as [Hm _]. cbn [sv_sent] in Hm.
    destruct (work_market n (th_shard th) sent _ mk m li' sh' os (conj (si_taken _ _ _ _ _ _ HI) Hlt) HM (si_wf _ _ _ _ _ _ HI) (si_in _ _ _ _ _ _ HI) Hm)
      as (mk' & Hs & HM'); [intros t Ht; apply elem_of_app; by left|done|done|].
    exists (taken ++ [m]), mk', (all ++ os). replace (zlen (m :: li') - zlen li') with 1 in * by (rewrite zlen_cons; lia).
    split; cbn [lf_serving lf_in lf_out sv_thread sv_taken sv_sent th_shard th_outbox]; try done.
    + by rewrite (te_table _ _ _ _ He).
    + rewrite <- Htab in *. by eapply run_next.
    + by rewrite <- app_assoc.
    + by rewrite Eout, <- app_assoc.
    + by rewrite acked_app, app_assoc.
  - exists taken, mk, all. rewrite Z.sub_diag, Z.add_0_r in *. done.
Qed.

Lemma refines_step table a b li l taken mk all : life_step a b -> sv_taken (lf_serving a) < 2 ^ 32 -> refines table a li l taken mk all ->
  exists li' l' taken' mk' all', refines table b li' l' taken' mk' all'.
Proof.
  intros Hstep Hlt HR. destruct Hstep as [sh box sent n ins outs m q Hm Hpush|sh box sent n ins outs m q Hpop|th sent n ins outs th' Hturn|sh box sent n ins outs].
  - exists (li ++ [m]), l, taken, mk, all. replace outs with (outs ++ []) by (by rewrite app_nil_r).
    eapply refines_move; [exact HR| |done|lia| |done|intros t; by rewrite app_nil_r].
    + apply (queued_inv CFG HC base tick_size _ _ _ _ _ _ _ _ (rf_inv _ _ _ _ _ _ _ HR) Hm Hpush).
    + constructor; [by destruct Hm|constructor].
  - destruct (popped_inv CFG HC base tick_size _ _ _ _ _ _ _ _ (rf_inv _ _ _ _ _ _ _ HR) Hpop) as (l' & -> & HI'). exists li, l', taken, mk, all.
    pose proof (refines_move table _ _ _ _ _ _ _ _ _ _ _ (set_outbound sh q) (sent ++ acked_tokens [m]) n [] [m] l' HR) as Hmove.
    rewrite !app_nil_r in Hmove. by apply Hmove.
  - destruct (refines_turn table th sent n ins outs li l taken mk all th' Hlt Hturn HR) as (li' & l' & taken' & mk' & all' & _ & HR').
    by exists li', l', taken', mk', all'.
  - exists li, l, taken, mk, all. pose proof (refines_move table _ _ _ _ _ _ _ _ _ _ _ (stop sh) sent n [] [] l HR) as Hmove.
    rewrite !app_nil_r in Hmove. apply Hmove; try done. apply stopped_inv, (rf_inv _ _ _ _ _ _ _ HR).
Qed.

Lemma refines_steps table a b : rtc life_step a b -> sv_taken (lf_serving b) < 2 ^ 32 ->
  (exists li l taken mk all, refines table a li l taken mk all) -> exists li l taken mk all, refines table b li l taken mk all.
Proof.
  induction 1 as [|a b c Hstep Hrest IH]; [done|]. intros Hlt (li & l & taken & mk & all & HR). apply IH; [done|].
  assert (Hmono : sv_taken (lf_serving a) <= sv_taken (lf_serving c)); [|eapply refines_step; [exact Hstep|lia|exact HR]].
  apply (taken_mono CFG base). eapply rtc_l; [by apply life_serves|]. clear - Hrest. induction Hrest; [done|]. eapply rtc_l; [by apply life_serves|done].
Qed.

Lemma refines_born shard_id symbols sh0 :
  0 < tick_size -> is_u 8 shard_id -> zlen symbols <= max_symbols CFG -> Forall (fun s => 0 <= s < SYMBOL_SPACE CFG) symbols ->
  shard_init CFG base tick_size shard_id symbols = Ok sh0 ->
  refines (local_of_ sh0) (born sh0) [] [] [] (empty_market (max_symbols CFG)) [].
Proof.
  intros Htick Hid Hlen Hsym Hinit. destruct (shard_init_ok CFG HC base tick_size shard_id symbols) as (sh' & Hinit' & HS & Hi & Ho & Hempty); [done..|].
  rewrite Hinit in Hinit'. injection Hinit' as <-. split; cbn [lf_serving lf_in lf_out born sv_thread sv_sent sv_taken th_shard th_outbox]; try done.
  - split; try done. by intros t ?%not_elem_of_nil.
  - split; [|constructor]. intros i bk Hb bid. cbn [sv_thread th_shard]. rewrite (Hempty i bk Hb). by destruct bid.
  - constructor.
  - split; [|by intros t ?%not_elem_of_nil..]. pose proof (sh_books _ _ _ _ HS) as Hz. pose proof (cf_symbols _ HC).
    apply listZ_eq; cbn [mk_books empty_market]; [unfold market_books; rewrite zlen_replicate, zlen_fmap; lia|]. rewrite zlen_replicate. intros i Ri.
    rewrite lookupZ_replicate by lia. destruct (lookupZ_is_Some (books_ sh0) i) as [bk Hb]; [lia|]. by rewrite (market_book sh0 i bk Hb), (Hempty i bk Hb).
Qed.

Lemma refines_reachable shard_id symbols sh0 st :
  0 < tick_size -> is_u 8 shard_id -> zlen symbols <= max_symbols CFG -> Forall (fun s => 0 <= s < SYMBOL_SPACE CFG) symbols ->
  shard_init CFG base tick_size shard_id symbols = Ok sh0 ->
  rtc life_step (born sh0) st -> sv_taken (lf_serving st) < 2 ^ 32 ->
  exists li l taken mk all, refines (local_of_ sh0) st li l taken mk all.
Proof.
  intros Htick Hid Hlen Hsym Hinit Hrun Hlt. apply (refines_steps _ _ _ Hrun Hlt). eexists _, _, _, _, _.
  by apply (refines_born shard_id symbols sh0).
Qed.

(** C8: A shard is a market over its whole life.  From a freshly constructed
    shard, however requests queued, reports taken out, turns of the matching
    thread and a stop interleave, with fewer than [2^32] requests, of which orders
    have any fields that do not overflow and cancels carry tokens that clients
    were sent before (see [life_step]; a forged token is undefined behaviour:
    [Findings.forged_token_undefined]), there is a run of the abstract market that took the requests one by one in the order
    they were queued, up to those still in the inbound ring, and whose reports
    are, in this order, those taken out, those in the outbound ring and those
    the thread has still to push: none is lost, repeated, reordered or made up.
    The reference books of that run are the books of the shard, with the cancel
    tokens for tags, and every token it gives out is new. *)
Theorem shard_refines shard_id symbols sh0 st :
  0 < tick_size -> is_u 8 shard_id -> zlen symbols <= max_symbols CFG -> Forall (fun s => 0 <= s < SYMBOL_SPACE CFG) symbols ->
  shard_init CFG base tick_size shard_id symbols = Ok sh0 ->
  rtc life_step (born sh0) st -> sv_taken (lf_serving st) < 2 ^ 32 ->
  let th := sv_thread (lf_serving st) in
  let sh := th_shard th in
  exists taken mk outs,
    market_run (ladder_idx base tick_size) (ladder_size CFG) (max_orders CFG) (hosted (local_of_ sh0))
      (empty_market (max_symbols CFG)) taken mk outs /\
    lf_in st = taken ++ Spsc.contents (queue_depth CFG) (inbound_ sh) /\
    outs = lf_out st ++ Spsc.contents (queue_depth CFG) (outbound_ sh) ++ th_outbox th /\
    mk_books mk = market_books sh.
Proof.
  intros Htick Hid Hlen Hsym Hinit Hrun Hlt th sh.
  destruct (refines_reachable shard_id symbols sh0 st Htick Hid Hlen Hsym Hinit Hrun Hlt) as (li & l & taken & mk & all & [HI _ _ HR Ein Eout _ HM]).
  exists taken, mk, all. unfold sh, th.
  rewrite (Spsc.contents_repr _ (cf_ring _ HC) _ _ (si_in _ _ _ _ _ _ HI)), (Spsc.contents_repr _ (cf_ring _ HC) _ _ (si_out _ _ _ _ _ _ HI)).
  split; [done|]. split; [done|]. split; [done|apply HM].
Qed.

(** What rests under an order id on all books of a shard. *)
Definition shard_rested (id : Z) (sh : Shard) : Z := sumZ ((fun bk => book_rested id (book_abs bk (arena_ sh))) <$> books_ sh).

Lemma rested_retag f id l : rested id (retag f <$> l) = rested id l.
Proof. unfold rested. by rewrite <- list_fmap_compose. Qed.

Lemma market_rested_shard id sh issued trades : market_rested id (mkMarket (market_books sh) issued trades) = shard_rested id sh.
Proof.
  unfold market_rested, shard_rested, market_books. cbn [mk_books]. rewrite <- list_fmap_compose. f_equal. apply list_fmap_ext. intros i bk _.
  unfold compose, book_rested. cbn [relabel bids asks]. by rewrite !rested_retag.
Qed.

Lemma told_nonneg sid id l : Forall out_typed l -> 0 <= told sid id l.
Proof.
  intros HF. apply sum_pos. eapply Forall_impl; [exact HF|]. intros m Hm. destruct m as [a|r|f]; [done|done|]. apply tells_fill. apply Hm.
Qed.

Lemma formed_qty m : in_formed m -> 0 <= no_qty (in_new_order m).
Proof. intros [Hl Hb]. apply (order_widths m Hl Hb). Qed.

Lemma placed_taken id taken rest : Forall in_formed rest -> placed id taken <= placed id (taken ++ rest).
Proof.
  intros HF. unfold placed. rewrite sum_app. assert (0 <= sumZ (places_under id <$> rest)); [|lia].
  apply sum_pos. eapply Forall_impl; [exact HF|]. intros m Hm%formed_qty. unfold places_under, when. repeat case_match; lia.
Qed.

(** No one trades more than they asked for: what a session was told in the
    fills it got about trades under an order id, together with what still rests
    under that id, is at most what all new orders with that id asked for. *)
Lemma refines_told table st li l taken mk all sid id : refines table st li l taken mk all ->
  told sid id (lf_out st) + shard_rested id (th_shard (sv_thread (lf_serving st))) <= placed id (lf_in st).
Proof.
  intros [_ [_ HO] _ HR Ein Eout HF HM]. rewrite Ein in HF. apply Forall_app in HF as [HFt HFl].
  destruct (market_run_ok _ _ _ _ _ _ _ _ HR) as [_ _ HP HT]; [eapply Forall_impl; [exact HFt|apply formed_qty]|].
  specialize (HP id). specialize (HT sid id). rewrite Eout, told_app in HT. pose proof (told_nonneg sid id _ HO).
  pose proof (placed_taken id taken li HFl). rewrite Ein. destruct HM as [Eb _ _]. destruct mk as [bs issued trades]. cbn [mk_books mk_trades] in *. subst bs.
  rewrite market_rested_shard in HP. lia.
Qed.

End refinement.

(** ** A sell order of ten, a buy order of fourteen *)

Definition demo_start : Thread := mkThread (queued (queued demo_shard sell7) buy7) [].
Definition demo_busy (k : nat) (n : Z) : Life := mkLife (mkServing (turns k demo_start) [] n) [sell7; buy7] [].

(** Both were matched, and all but the last report are pushed. *)
Lemma demo_turn k n n' : thread_turn demo_cfg (turns k demo_start) = Ok (turns (S k) demo_start) -> n' = n + taking demo_cfg (turns k demo_start) ->
  life_step demo_cfg 1000 (demo_busy k n) (demo_busy (S k) n').
Proof. intros Ht ->. by apply life_turn. Qed.

Lemma demo_busy_reachable : rtc (life_step demo_cfg 1000) (born demo_shard) (demo_busy 5 2).
Proof.
  assert (Hpush : forall m, m = sell7 \/ m = buy7 -> request_ok 1000 [] m).
  { intros m [-> | ->]; (split; [apply length_enc|apply bytes_enc|intros _; by vm_compute|by vm_compute]). }
  eapply rtc_l; [apply (life_push demo_cfg 1000 demo_shard [] [] 0 [] [] sell7 (inbound_ (queued demo_shard sell7))); [by apply Hpush; left|by vm_compute]|].
  transitivity (demo_busy 0 0); [apply rtc_once; apply (life_push demo_cfg 1000 (queued demo_shard sell7) [] [] 0 [sell7] [] buy7 (inbound_ (th_shard demo_start))); [by apply Hpush; right|by vm_compute]|].
  apply (rtc_l _ _ (demo_busy 1 1)); [apply demo_turn; by vm_compute|]. apply (rtc_l _ _ (demo_busy 2 1)); [apply demo_turn; by vm_compute|].
  apply (rtc_l _ _ (demo_busy 3 2)); [apply demo_turn; by vm_compute|]. apply (rtc_l _ _ (demo_busy 4 2)); [apply demo_turn; by vm_compute|].
  apply rtc_once. apply demo_turn; by vm_compute.
Qed.

Definition trade7 (sid : Z) : OutboundMsg := out_fill (mkFill (mkHeader sizeof_Fill FILL 0 sid) 2 1 1050 10 0).

(** The seller has its acknowledgement and its fill, the buyer its fill. *)
Definition demo_traded : Life :=
  let th := turns 5 demo_start in
  mkLife (mkServing (mkThread (popped (popped (popped (th_shard th)))) (th_outbox th)) [sent7] 2)
    [sell7; buy7] [ack_of 1 sent7 71; trade7 71; trade7 72].

Lemma demo_pop sh box sent n ins outs m :
  Spsc.pop (queue_depth demo_cfg) (outbound_ sh) = Ok (Some m, outbound_ (popped sh)) ->
  life_step demo_cfg 1000 (mkLife (mkServing (mkThread sh box) sent n) ins outs)
    (mkLife (mkServing (mkThread (popped sh) box) (sent ++ acked_tokens [m]) n) ins (outs ++ [m])).
Proof.
  intros Hpop. assert (popped sh = set_outbound sh (outbound_ (popped sh))) as -> by (unfold popped; by destruct (Spsc.pop 512 (outbound_ sh)) as [[x q]|]; destruct sh).
  by apply life_pop.
Qed.

Lemma demo_traded_reachable : rtc (life_step demo_cfg 1000) (born demo_shard) demo_traded.
Proof.
  etrans; [exact demo_busy_reachable|]. unfold demo_busy, demo_traded. destruct (turns 5 demo_start) as [sh box] eqn:E. cbn [th_shard th_outbox].
  assert (sh = th_shard (turns 5 demo_start)) as -> by (by rewrite E). clear E.
  eapply rtc_l; [apply (demo_pop _ box [] 2 [sell7; buy7] [] (ack_of 1 sent7 71)); by vm_compute|].
  eapply rtc_l; [apply (demo_pop _ box [sent7] 2 [sell7; buy7] [ack_of 1 sent7 71] (trade7 71)); by vm_compute|].
  apply rtc_once. apply (demo_pop _ box [sent7] 2 [sell7; buy7] [ack_of 1 sent7 71; trade7 71] (trade7 72)). by vm_compute.
Qed.

Lemma shard_refines_witness : exists taken mk outs,
  market_run (ladder_idx 1000 5) (ladder_size demo_cfg) (max_orders demo_cfg) (hosted (local_of_ demo_shard))
    (empty_market (max_symbols demo_cfg)) taken mk outs /\
  mk_books mk = market_books (th_shard (sv_thread (lf_serving demo_traded))).
Proof.
  destruct (shard_refines demo_cfg demo_cfg_ok 1000 5 1 [3; 7] demo_shard demo_traded) as (taken & mk & outs & H1 & _ & _ & H2).
  - lia.
  - by vm_compute.
  - by vm_compute.
  - apply demo_symbols_ok.
  - by vm_compute.
  - exact demo_traded_reachable.
  - by vm_compute.
  - exists taken, mk, outs. split; [exact H1|exact H2].
Defined.

(** Ten of the buyer's fourteen are filled, and four rest. *)
Example demo_traded_told : told 72 2 (lf_out demo_traded) = 10 /\ placed 2 (lf_in demo_traded) = 14 /\
  shard_rested 2 (th_shard (sv_thread (lf_serving demo_traded))) = 4.
Proof. by vm_compute. Qed.

End ShardMarket.
