(* ===== verification/ShardRouter.v ===== *)
(** * Routing ([include/lx/engine/shard_router.hpp], [shard_set.hpp])

    The router spreads the inbound messages over [N] shards: new orders by
    symbol, cancels by the shard number in their token.  It is the queue that
    [Session::consume] pushes into. *)

From S2P Require Import Prelude Messages OrderHandle OrderBook Spsc Sink Codec Session Shard.

Module ShardRouter.
Import OrderHandle Shard.

Section router.
Context (CFG : ShardConfig) (N : Z).

(** The shards the router points to. *)
Abbreviation Shards := (list Shard).

(** The target of a message; [None] for the types that are skipped. *)
Definition route (msg : InboundMsg) : option Z :=
  match hdr_type (in_hdr msg) with
  | NEW_ORDER => Some (no_symbol_id (in_new_order msg) mod N)
  | CANCEL_ORDER => Some (token_shard (co_order_token (in_cancel msg)) mod N)
  | _ => None
  end.

Definition router_push (shards : Shards) (msg : InboundMsg) : res (bool * Shards) :=
  match route msg with
  | None => Ok (true, shards)
  | Some s =>
      sh ← aget shards s;
      '(ok, q) ← Spsc.push (queue_depth CFG) (inbound_ sh) msg;
      shards ← aset shards s (set_inbound sh q);
      Ok (ok, shards)
  end.

(** [ShardSet::outbound] *)
Definition outbound (shards : Shards) (shard_id : Z) : res (Spsc.SpscQueue OutboundMsg) :=
  sh ← aget shards shard_id; Ok (outbound_ sh).

#[export] Instance router_sink : Sink Shards := router_push.

(** ** The sink it implements: one bounded FIFO per shard *)

Abbreviation Fifos := (list (list InboundMsg)).

Definition fifos_push (v : Fifos) (msg : InboundMsg) : option Fifos :=
  match route msg with
  | None => Some v
  | Some s =>
      match v !! s with
      | Some l => if zlen l <? queue_depth CFG then Some (<[s := l ++ [msg]]> v) else None
      | None => None
      end
  end.

Record router_rel (shards : Shards) (v : Fifos) : Prop := {
  rr_shards : zlen shards = N;
  rr_fifos : zlen v = N;
  rr_ring : forall s sh l, shards !! s = Some sh -> v !! s = Some l ->
    Spsc.queue_repr (queue_depth CFG) (inbound_ sh) l
}.

Context (HN : 0 < N) (HQ : Spsc.pow2 (queue_depth CFG)).

Lemma route_range msg s : route msg = Some s -> 0 <= s < N.
Proof.
  unfold route. destruct (hdr_type (in_hdr msg)); try done; intros [= <-]; by apply Z.mod_pos_bound.
Qed.

#[export] Instance router_sink_laws : SinkLaws Shards Fifos router_rel fifos_push.
Proof.
  intros shards v m [L1 L2 Hr]. unfold fifos_push, sink_push, router_sink, router_push.
  destruct (route m) as [s|] eqn:Er; [|by exists shards].
  pose proof (route_range m s Er) as Rs.
  destruct (lookupZ_is_Some shards s) as [sh Hsh]; [by rewrite L1|].
  destruct (lookupZ_is_Some v s) as [l Hl]; [by rewrite L2|].
  rewrite Hl, (aget_Ok _ _ _ Hsh). simpl.
  pose proof (@sink_push_ok _ _ (ring_sink (queue_depth CFG)) _ _ (ring_sink_laws _ HQ) _ _ m (Hr _ _ _ Hsh Hl)) as Hp.
  unfold sink_push, ring_sink, fifo_push in Hp. destruct (zlen l <? queue_depth CFG).
  - destruct Hp as (q & -> & Hq). simpl. rewrite (aset_Some _ _ _ _ Hsh). simpl. eexists. split; [done|].
    split; [by rewrite zlen_insertZ|by rewrite zlen_insertZ|]. intros t sh' l'.
    rewrite !lookupZ_insertZ by lia. destruct (decide (s = t)) as [<-|]; [|apply Hr].
    by intros [= <-] [= <-].
  - rewrite Hp. simpl. rewrite (aset_Some _ _ _ _ Hsh). simpl.
    assert (set_inbound sh (inbound_ sh) = sh) as -> by (by destruct sh). by rewrite insertZ_id.
Qed.

(** ** Guarantees *)

(** Push a sequence until one message is refused. *)
Fixpoint push_all (shards : Shards) (ms : list InboundMsg) : res (bool * Shards) :=
  match ms with
  | [] => Ok (true, shards)
  | m :: ms =>
      '(ok, shards) ← router_push shards m;
      if (ok : bool) then push_all shards ms else Ok (false, shards)
  end.

Definition routed_to (s : Z) (ms : list InboundMsg) : list InboundMsg :=
  filter (fun m => route m = Some s) ms.

Lemma routed_to_app s ms1 ms2 : routed_to s (ms1 ++ ms2) = routed_to s ms1 ++ routed_to s ms2.
Proof. apply filter_app. Qed.

(** Every ring grew by its messages of [ms], in their order. *)
Definition pushes (v : Fifos) (ms : list InboundMsg) (v' : Fifos) : Prop :=
  zlen v' = zlen v /\ forall s l, v !! s = Some l -> v' !! s = Some (l ++ routed_to s ms).

Lemma pushes_nil v : pushes v [] v.
Proof. split; [done|]. intros s l Hl. by rewrite app_nil_r. Qed.

Lemma pushes_app v1 ms1 v2 ms2 v3 : pushes v1 ms1 v2 -> pushes v2 ms2 v3 -> pushes v1 (ms1 ++ ms2) v3.
Proof.
  intros [L1 P1] [L2 P2]. split; [by rewrite L2|]. intros s l Hl.
  rewrite routed_to_app, app_assoc. by apply P2, P1.
Qed.

Lemma fifos_push_pushes v m v' : fifos_push v m = Some v' -> pushes v [m] v'.
Proof.
  unfold fifos_push. destruct (route m) as [t|] eqn:Er.
  - destruct (v !! t) as [l|] eqn:Hl; [|done]. destruct (_ <? _); [|done]. intros [= <-].
    pose proof (lookupZ_range _ _ _ Hl). split; [by rewrite zlen_insertZ|].
    intros s l' Hl'. rewrite lookupZ_insertZ by done. unfold routed_to. rewrite filter_cons.
    destruct (decide (t = s)) as [->|Hne].
    + rewrite decide_True by done. rewrite Hl in Hl'. by injection Hl' as <-.
    + rewrite decide_False by congruence. by rewrite app_nil_r.
  - intros [= <-]. split; [done|]. intros s l Hl. unfold routed_to.
    rewrite filter_cons, decide_False by congruence. by rewrite app_nil_r.
Qed.

(** The rings were fed with whole messages of sessions below [hi], each in the
    ring of its shard. *)
Definition fed (hi : Z) (v v' : Fifos) : Prop :=
  exists ms, Forall (fun m => in_formed m /\ hdr_session_id (in_hdr m) < hi) ms /\ pushes v ms v'.

Lemma fed_more hi hi' v v' : hi <= hi' -> fed hi v v' -> fed hi' v v'.
Proof. intros Hle (ms & HF & Hp). exists ms. split; [|done]. eapply Forall_impl; [exact HF|]. intros m [? ?]. split; [done|lia]. Qed.

#[export] Instance fed_preorder hi : PreOrder (fed hi).
Proof.
  split.
  - intros v. exists []. split; [constructor|apply pushes_nil].
  - intros v1 v2 v3 (ms1 & F1 & P1) (ms2 & F2 & P2). exists (ms1 ++ ms2). split; [by apply Forall_app|].
    by eapply pushes_app.
Qed.

Lemma spec_consume_fed fuel hi sid v bs n v' r b : is_u 32 sid -> sid < hi -> Forall is_byte bs ->
  Session.spec_consume fifos_push fuel sid v bs = (n, v', r, b) -> fed hi v v'.
Proof.
  intros Hsid Hlt. apply (Session.spec_consume_grows fifos_push (fed hi)); [|done]. intros v0 m v1 Hm Hs Hp. exists [m].
  split; [constructor; [split; [done|lia]|constructor]|by apply fifos_push_pushes].
Qed.

Lemma fifos_push_full shards v m : router_rel shards v -> fifos_push v m = None ->
  exists s l, route m = Some s /\ v !! s = Some l /\ zlen l = queue_depth CFG.
Proof.
  intros Hr Hv. unfold fifos_push in Hv. destruct (route m) as [s|] eqn:Er; [|done]. pose proof (route_range m s Er) as Rs.
  destruct (lookupZ_is_Some v s) as [l Hl]; [by rewrite (rr_fifos _ _ Hr)|]. rewrite Hl in Hv.
  destruct (Z.ltb_spec (zlen l) (queue_depth CFG)) as [|Hge]; [done|]. exists s, l. do 2 (split; [done|]).
  destruct (lookupZ_is_Some shards s) as [sh Hsh]; [by rewrite (rr_shards _ _ Hr)|].
  pose proof (Spsc.queue_repr_len _ _ _ (rr_ring _ _ Hr _ _ _ Hsh Hl)). lia.
Qed.

(** C28: Routing keeps the order per shard: when the router takes a sequence of
    messages, the inbound ring of every shard grows by exactly the messages for
    that shard, in their order.  A message is refused only when the ring of its
    own shard is full, whatever the other rings hold; the shards are then exactly
    what they were before it, so that every ring has grown by its share of the
    messages in front of the refused one and by nothing else. *)
Theorem router_keeps_order ms shards v :
  router_rel shards v ->
  exists ok shards' v', push_all shards ms = Ok (ok, shards') /\ router_rel shards' v' /\
    if ok then pushes v ms v'
    else exists ms1 m ms2 s l, ms = ms1 ++ m :: ms2 /\
      push_all shards ms1 = Ok (true, shards') /\ pushes v ms1 v' /\
      router_push shards' m = Ok (false, shards') /\
      route m = Some s /\ v' !! s = Some l /\ zlen l = queue_depth CFG.
Proof.
  revert shards v. induction ms as [|m ms IH]; intros shards v Hr; simpl.
  { exists true, shards, v. do 2 (split; [done|]). apply pushes_nil. }
  pose proof (sink_push_ok shards v m Hr) as Hp. unfold sink_push, router_sink in Hp.
  destruct (fifos_push v m) as [v1|] eqn:Hv.
  - destruct Hp as (shards1 & Hpush & Hr1). rewrite Hpush. simpl. apply fifos_push_pushes in Hv.
    destruct (IH shards1 v1 Hr1) as (ok & shards' & v' & Hrun & Hr' & Hok). exists ok, shards', v'. do 2 (split; [done|]).
    destruct ok; [by apply (pushes_app v [m] v1 ms v')|].
    destruct Hok as (ms1 & m' & ms2 & s & l & -> & Hrun1 & Hp1 & ?). exists (m :: ms1), m', ms2, s, l. split; [done|].
    split; [simpl; by rewrite Hpush|]. split; [by apply (pushes_app v [m] v1 ms1 v')|done].
  - rewrite Hp. simpl. exists false, shards, v. do 2 (split; [done|]). destruct (fifos_push_full _ _ _ Hr Hv) as (s & l & ?).
    exists [], m, ms, s, l. do 2 (split; [done|]). split; [apply pushes_nil|]. by split.
Qed.

(** A cancel finds its way back: a token that the shard at position [k]
    packed with its own number, for an order in any slot and generation, is
    routed to that shard again, and it unpacks to the same slot and
    generation. *)
Theorem cancel_routed_home msg h k :
  hdr_type (in_hdr msg) = CANCEL_ORDER -> co_order_token (in_cancel msg) = to_token h k ->
  is_u 24 (h_slot h) -> is_u 32 (h_gen h) -> 0 <= k < N -> N <= 256 ->
  route msg = Some k /\ from_token (co_order_token (in_cancel msg)) = h.
Proof.
  intros Ht Htok Hs Hg Hk HN2. destruct (token_round_trip h k Hs Hg) as [E1 E2]; [unfold is_u; lia|].
  unfold route. rewrite Ht, Htok, E2. split; [|done]. by rewrite Z.mod_small.
Qed.

(** A session connected to the router: [consume] over the router terminates
    without undefined behaviour and hands the complete frames, in order, to the
    shards they belong to; a full ring of one shard stops the session at that
    frame, which stays buffered. *)
Theorem consume_routes s shards v :
  Session.session_wf s -> Session.closed_ s = false -> router_rel shards v ->
  exists s' shards' n v' r b,
    Session.spec_consume fifos_push Session.consume_fuel (Session.session_id s) v (Session.pending s)
      = (n, v', r, b) /\
    Session.consume s shards = Ok (n, s', shards') /\ Session.session_wf s' /\ router_rel shards' v' /\
    Session.pending s' = r /\ Session.closed_ s' = b.
Proof.
  intros HS Hcl Hr. pose proof (Session.consume_spec router_rel fifos_push s shards v HS Hcl Hr) as H.
  destruct (Session.spec_consume _ _ _ _ _) as [[[n v'] r] b].
  destruct H as (s' & shards' & ? & ? & ? & ? & ? & _). by exists s', shards', n, v', r, b.
Qed.

End router.

(** ** Two shards *)

Definition demo_cfg2 : ShardConfig := mkConfig 8 16 4 1 4.
Definition demo_shard0 : Shard :=
  mkShard (OrderBook.arena_init 8) [] [] (Spsc.queue_init 4 zero_inbound)
    (Spsc.queue_init 4 zero_outbound) true 0.

Lemma demo_shards_rel : router_rel demo_cfg2 2 [demo_shard0; demo_shard0] [[]; []].
Proof.
  split; [done|done|]. intros s sh l Hs Hl. pose proof (lookupZ_range _ _ _ Hs) as R.
  change (zlen [demo_shard0; demo_shard0]) with 2 in R.
  assert (s = 0 \/ s = 1) as [-> | ->] by lia; injection Hs as <-; injection Hl as <-;
    apply (Spsc.queue_init_repr 4 Spsc.pow2_4).
Qed.

Definition demo_msgs : list InboundMsg :=
  [mkInbound (cenc c_NewOrder (mkNewOrder (mkHeader 32 NEW_ORDER 0 7) 1 1050 10 3 SELL GTC));
   mkInbound (cenc c_NewOrder (mkNewOrder (mkHeader 32 NEW_ORDER 0 7) 2 1050 10 2 SELL GTC));
   mkInbound (cenc c_CancelOrder (mkCancelOrder (mkHeader 16 CANCEL_ORDER 0 7) (to_token (mkHandle 5 9) 1)))].

Lemma router_keeps_order_witness :
  exists shards' v', push_all demo_cfg2 2 [demo_shard0; demo_shard0] demo_msgs = Ok (true, shards') /\
    router_rel demo_cfg2 2 shards' v' /\ v' !! 1 = Some (routed_to 2 1 demo_msgs).
Proof.
  destruct (router_keeps_order demo_cfg2 2 ltac:(lia) Spsc.pow2_4 demo_msgs _ _ demo_shards_rel)
    as (ok & shards' & v' & Hrun & Hr & Hok).
  assert (ok = true) as -> by (vm_compute in Hrun; by injection Hrun as <- _).
  exists shards', v'. split; [exact Hrun|]. split; [exact Hr|]. exact (proj2 Hok 1 [] eq_refl).
Defined.

Lemma cancel_routed_home_witness :
  route 2 (mkInbound (cenc c_CancelOrder (mkCancelOrder (mkHeader 16 CANCEL_ORDER 0 7)
    (to_token (mkHandle 5 9) 1)))) = Some 1.
Proof.
  refine (proj1 (cancel_routed_home 2 _ (mkHandle 5 9) 1 _ _ _ _ _ _)); by vm_compute.
Defined.

Lemma consume_routes_witness :
  exists s' shards', @Session.consume _ (router_sink demo_cfg2 2) Session.demo_session [demo_shard0; demo_shard0]
    = Ok (1, s', shards').
Proof.
  destruct (consume_routes demo_cfg2 2 ltac:(lia) Spsc.pow2_4 Session.demo_session _ _
    Session.demo_session_wf eq_refl demo_shards_rel) as (s' & shards' & n & v' & r & b & Hs & Hrun & _).
  exists s', shards'. vm_compute in Hs. injection Hs as <- _ _ _. exact Hrun.
Defined.

End ShardRouter.
