(* ===== verification/Findings.v ===== *)
(** * Where the code does less than it says

    Concrete runs outside the hypotheses of the theorems of [BookProps] and
    [ShardProps]: they show that those hypotheses are needed, and what
    happens without them. *)

From S2P Require Import Prelude Messages Order LevelBitmap Pool PriceLevel OrderHandle OrderBook Spsc.
From S2P Require Import BookSpec BookInv BookRefine BookAbs BookProps Shard ShardInv ShardProps.

Module Findings.
Import PriceLevel OrderHandle OrderBook BookSpec BookInv BookAbs BookProps Shard ShardProps.

(** A cancel with token 0: slot 0, generation 0, shard 0. *)
Definition forged : InboundMsg :=
  cancel_msg (mkCancelOrder (mkHeader 16 CANCEL_ORDER 0 71) 0).

Definition fresh_shard (base : Z) : Shard :=
  match shard_init demo_cfg base 5 0 [] with Ok sh => sh | Err _ => demo_shard end.

(** A forged token is not rejected: on a fresh shard no order was ever
    accepted, yet the token 0 passes the generation check (every generation is
    0), and the cancel of the never-used slot 0 runs outside an array. *)
Theorem forged_token_undefined :
  tick demo_cfg (queued (fresh_shard 1000) forged) = Err OutOfBounds /\
  tick demo_cfg (queued (fresh_shard 0) forged) = Err OutOfBounds.
Proof. split; vm_compute; reflexivity. Qed.

(** The fills of [second] after [first] on a fresh book, and the book then. *)
Definition two_orders (first second : NewOrder) (n : Z) : res (OrderHandle * list Fill * ABook) :=
  '(_, _, bk, ar) ← add_order 8 16 (book_init 16 1000 5) (arena_init 8) first [] n;
  '(h, fs, bk, ar) ← add_order 8 16 bk ar second [] n;
  Ok (h, fs, book_abs bk ar).

(** Limit prices are only respected up to the tick: with a tick of 5, a sell
    at 1054 and a buy at 1051 share a level and trade at 1054, above the
    buyer's limit. *)
Theorem off_tick_limit_exceeded :
  exists h f ab, two_orders (new_order 1 SELL 1054 10 GTC 71) (new_order 2 BUY 1051 10 GTC 72) 64
    = Ok (h, [f], ab) /\ fill_price f = 1054 /\ fill_qty f = 10.
Proof. do 3 eexists. vm_compute. done. Qed.

(** The ladder index of a price is computed in 64 bits and cut to 32, so
    prices [2^32] ticks apart share a level: the range check of [add_order]
    does not see the difference. *)
Lemma price_aliases bk price :
  0 < tick_size_ bk -> base_price_ bk <= price ->
  is_i64 (price + 2 ^ 32 * tick_size_ bk - base_price_ bk) ->
  price_to_idx bk (price + 2 ^ 32 * tick_size_ bk) = price_to_idx bk price.
Proof.
  intros Ht Hp Hi. assert (Hi' : is_i64 (price - base_price_ bk)).
  { unfold is_i64, INT64_MIN, INT64_MAX in *. lia. }
  rewrite !BookRefine.price_to_idx_Ok by done. f_equal. unfold ladder_idx.
  replace (price + 2 ^ 32 * tick_size_ bk - base_price_ bk)
    with (price - base_price_ bk + 2 ^ 32 * tick_size_ bk) by lia.
  rewrite !Z.quot_div_nonneg by lia. rewrite Z.div_add by lia. unfold wrapS.
  replace (_ + 2 ^ 32 + 2 ^ (32 - 1)) with ((price - base_price_ bk) / tick_size_ bk + 2 ^ (32 - 1) + 1 * 2 ^ 32) by lia.
  by rewrite Z_mod_plus_full.
Qed.

(** Prices alias on the ladder: a buy at 1000 trades at a price of more than 21 billion:
    the sell far above the ladder was accepted on its lowest level. *)
Theorem aliased_trade :
  exists h f ab, two_orders (new_order 1 SELL (1000 + 2 ^ 32 * 5) 10 GTC 71) (new_order 2 BUY 1000 10 GTC 72) 64
    = Ok (h, [f], ab) /\ fill_price f = 21474837480.
Proof. do 3 eexists. vm_compute. done. Qed.

(** A price near the end of the 64-bit range overflows the subtraction of
    the base price, which is undefined for signed integers; the wire format
    allows every 64-bit price. *)
Theorem extreme_price_undefined MAX_ORDERS LADDER_SIZE bk ar msg fills n :
  0 < base_price_ bk -> no_price msg = INT64_MIN ->
  add_order MAX_ORDERS LADDER_SIZE bk ar msg fills n = Err SignedOverflow.
Proof.
  intros Hb E. unfold add_order, price_to_idx, i64_sub, i64_checked. rewrite E.
  rewrite (proj2 (Z.leb_gt _ _)) by lia. done.
Qed.

Lemma extreme_price_undefined_witness :
  add_order 8 16 (book_init 16 1000 5) (arena_init 8) (new_order 1 SELL INT64_MIN 10 GTC 71) [] 64
    = Err SignedOverflow.
Proof. apply extreme_price_undefined; reflexivity. Defined.

(** Two sells of 5 at 1050, then a buy of 10 at 1055 that may make one fill. *)
Definition fill_limit_run : res (OrderHandle * list Fill * ABook) :=
  '(_, _, bk, ar) ← add_order 8 16 (book_init 16 1000 5) (arena_init 8) (new_order 1 SELL 1050 5 GTC 71) [] 1;
  '(_, _, bk, ar) ← add_order 8 16 bk ar (new_order 2 SELL 1050 5 GTC 72) [] 1;
  '(h, fs, bk, ar) ← add_order 8 16 bk ar (new_order 3 BUY 1055 10 GTC 73) [] 1;
  Ok (h, fs, book_abs bk ar).

(** Past the fill limit the book is left crossed: when matching stops because
    the fill array is full, the rest of the order is put on the book above the
    best opposite order. *)
Theorem fill_limit_crosses_book :
  exists h f ab, fill_limit_run = Ok (h, [f], ab) /\ valid h = true /\
    ~ uncrossed (ladder_idx 1000 5) ab.
Proof.
  do 3 eexists. split; [vm_compute; reflexivity|]. split; [done|]. intros H.
  specialize (H _ _ ltac:(left) ltac:(left)). vm_compute in H. discriminate H.
Qed.

End Findings.
