(* ===== verification/Util.v ===== *)
(** * Memory, threads and time ([include/lx/util])

    The mapping behind an arena and its elements ([huge_page.hpp]), padding to
    cache lines ([cache.hpp]), pinning of threads ([affinity.hpp]), and the
    arithmetic on time stamps and clock readings ([tsc.hpp]).  [mmap],
    [pthread_setaffinity_np], the clock and the [rdtscp] instruction are
    parameters. *)

From S2P Require Import Prelude.

Module Util.

(** ** Huge pages *)

Definition HUGE_PAGE_SIZE : Z := 2 * 1024 * 1024.

(** [size_t] arithmetic; [~] complements 64 bits. *)
Definition align_up (n align : Z) : Z := Z.land (u64 (n + align - 1)) (u64 (Z.lnot (u64 (align - 1)))).

Record HugePage : Type := mkPage { ptr_ : Z; bytes_ : Z }.

(** The constructor of [HugePage<T, N>].  [mmap] takes the size and whether to
    use huge pages; [None] is [MAP_FAILED], and the result is [None] when
    [std::bad_alloc] is thrown. *)
Definition huge_page (mmap : Z -> bool -> option Z) (N sizeof_T : Z) : option HugePage :=
  let bytes := align_up (u64 (N * sizeof_T)) HUGE_PAGE_SIZE in
  match mmap bytes true with
  | Some ptr => Some (mkPage ptr bytes)
  | None => match mmap bytes false with
            | Some ptr => Some (mkPage ptr bytes)
            | None => None
            end
  end.

(** [operator[]]: the address of element [i]. *)
Definition element (p : HugePage) (sizeof_T i : Z) : Z := ptr_ p + i * sizeof_T.

(** The range that the destructor hands to [munmap]. *)
Definition unmaps (p : HugePage) : Z * Z := (ptr_ p, bytes_ p).

Lemma land_wrap x y : is_u 64 x -> Z.land x (u64 y) = Z.land x y.
Proof.
  intros Hx. unfold wrapU. rewrite <- Z.land_ones by lia. rewrite (Z.land_comm y), Z.land_assoc.
  by rewrite Z.land_ones, Z.mod_small by (lia || exact Hx).
Qed.

(** [align_up] rounds up to a multiple of a power of two. *)
Lemma align_up_spec n k : 0 <= k < 64 -> 0 <= n -> n + 2 ^ k <= 2 ^ 64 ->
  align_up n (2 ^ k) = (n + 2 ^ k - 1) / 2 ^ k * 2 ^ k.
Proof.
  intros Hk Hn Hfit. pose proof (Z.pow_pos_nonneg 2 k ltac:(lia) ltac:(lia)) as Hp.
  assert (2 ^ k < 2 ^ 64) by (apply Z.pow_lt_mono_r; lia).
  unfold align_up. rewrite land_wrap by (apply wrapU_bound; lia). rewrite !wrapU_small by lia.
  replace (2 ^ k - 1) with (Z.ones k) by (rewrite Z.ones_equiv; lia).
  rewrite <- Z.ldiff_land, Z.ldiff_ones_r by lia. by rewrite Z.shiftl_mul_pow2, Z.shiftr_div_pow2 by lia.
Qed.

(** C35: The mapping behind an arena fits: whatever [mmap] does, when the
    constructor of [HugePage<T, N>] returns, the mapping is a whole number of
    huge pages, every element below [N] lies inside it apart from every other,
    less than one huge page is wasted, and the destructor unmaps exactly what
    was mapped; it throws exactly when both attempts to map fail. *)
Theorem huge_page_fits mmap N sizeof_T :
  is_u 32 N -> 0 < sizeof_T < 2 ^ 31 ->
  let bytes := align_up (u64 (N * sizeof_T)) HUGE_PAGE_SIZE in
  (huge_page mmap N sizeof_T = None <-> mmap bytes true = None /\ mmap bytes false = None) /\
  forall p, huge_page mmap N sizeof_T = Some p ->
    (exists huge, mmap bytes huge = Some (ptr_ p)) /\ unmaps p = (ptr_ p, bytes) /\
    bytes mod HUGE_PAGE_SIZE = 0 /\ bytes < N * sizeof_T + HUGE_PAGE_SIZE /\
    (forall i, 0 <= i < N -> ptr_ p <= element p sizeof_T i /\ element p sizeof_T i + sizeof_T <= ptr_ p + bytes) /\
    (forall i j, 0 <= i < j -> element p sizeof_T i + sizeof_T <= element p sizeof_T j).
Proof.
  intros HN HT bytes. unfold is_u in HN.
  assert (Hm : 0 <= N * sizeof_T < 2 ^ 63) by nia.
  assert (Hb : bytes = (N * sizeof_T + 2 ^ 21 - 1) / 2 ^ 21 * 2 ^ 21).
  { unfold bytes. rewrite wrapU_small by lia. change HUGE_PAGE_SIZE with (2 ^ 21). apply align_up_spec; lia. }
  pose proof (Z.div_mod (N * sizeof_T + 2 ^ 21 - 1) (2 ^ 21) ltac:(lia)) as Hd.
  pose proof (Z.mod_pos_bound (N * sizeof_T + 2 ^ 21 - 1) (2 ^ 21) ltac:(lia)) as Hr.
  split.
  - unfold huge_page. fold bytes. destruct (mmap bytes true), (mmap bytes false); intuition congruence.
  - intros p Hp. assert ((exists huge, mmap bytes huge = Some (ptr_ p)) /\ bytes_ p = bytes) as [Hmap Eb].
    { revert Hp. unfold huge_page. fold bytes. destruct (mmap bytes true) eqn:E1; [intros [= <-]; by split; [exists true|]|].
      destruct (mmap bytes false) eqn:E2; [intros [= <-]; by split; [exists false|]|done]. }
    split; [done|]. unfold unmaps, element. rewrite Eb. split; [done|].
    rewrite Hb. change HUGE_PAGE_SIZE with (2 ^ 21). split; [apply Z.mod_mul; lia|]. split; [lia|]. split.
    + intros i Hi. assert (i * sizeof_T + sizeof_T <= N * sizeof_T) by nia. split; [nia|lia].
    + intros i j Hij. nia.
Qed.

Lemma huge_page_fits_witness :
  exists p, huge_page (fun _ huge => if huge : bool then None else Some 4096) 65536 48 = Some p /\
    element p 48 65535 + 48 <= 4096 + 4194304.
Proof.
  destruct (huge_page_fits (fun _ huge => if huge : bool then None else Some 4096) 65536 48) as [_ H];
    [split; reflexivity || discriminate|split; reflexivity|].
  exists (mkPage 4096 4194304). split; [vm_compute; reflexivity|]. destruct (H (mkPage 4096 4194304)) as (_ & _ & _ & _ & Hi & _); [by vm_compute|].
  apply (Hi 65535). split; [discriminate|reflexivity].
Defined.

(** ** Cache lines *)

Definition kCacheLine : Z := 64.

(** [alignas(kCacheLine)] rounds the size of [CachePadded<T>] up. *)
Definition sizeof_CachePadded (sizeof_T : Z) : Z := align_up sizeof_T kCacheLine.

(** [static_assert(sizeof(CachePadded<char>) == kCacheLine)]; two members that
    follow each other, as the counters of a ring do, share no cache line. *)
Lemma padded_apart sizeof_T addr : 0 < sizeof_T < 2 ^ 63 -> addr mod kCacheLine = 0 ->
  sizeof_CachePadded 1 = kCacheLine /\ sizeof_T <= sizeof_CachePadded sizeof_T /\
  forall x y, addr <= x < addr + sizeof_T -> addr + sizeof_CachePadded sizeof_T <= y -> x / kCacheLine < y / kCacheLine.
Proof.
  intros HT Ha. unfold sizeof_CachePadded. change kCacheLine with (2 ^ 6) in *. split; [done|].
  rewrite align_up_spec by lia. set (q := (sizeof_T + 2 ^ 6 - 1) / 2 ^ 6).
  pose proof (Z.div_mod (sizeof_T + 2 ^ 6 - 1) (2 ^ 6) ltac:(lia)) as Hd. fold q in Hd.
  pose proof (Z.mod_pos_bound (sizeof_T + 2 ^ 6 - 1) (2 ^ 6) ltac:(lia)) as Hr. split; [lia|].
  intros x y Hx Hy. pose proof (Z.div_mod addr (2 ^ 6) ltac:(lia)) as Hda.
  apply Z.lt_le_trans with (addr / 2 ^ 6 + q).
  - apply Z.div_lt_upper_bound; lia.
  - apply Z.div_le_lower_bound; lia.
Qed.

(** ** Pinning *)

(** [cpu_set_t] is a mask of [CPU_SETSIZE] bits; [CPU_SET] leaves out a core
    beyond it. *)
Definition CPU_SETSIZE : Z := 1024.
Definition CPU_SET (core cpuset : Z) : Z := if core <? CPU_SETSIZE then Z.setbit cpuset core else cpuset.

(** [setaffinity] is [pthread_setaffinity_np]; [false] when [pin_thread]
    throws [std::runtime_error]. *)
Definition pin_thread (setaffinity : Z -> Z -> Z) (thread core : Z) : bool :=
  let cpuset := CPU_SET core 0 in
  if negb (setaffinity thread cpuset =? 0) then false else true.
Definition pin_current_thread (setaffinity : Z -> Z -> Z) (pthread_self core : Z) : bool :=
  pin_thread setaffinity pthread_self core.

(** The thread is asked to run on [core] and on no other; no core beyond
    [CPU_SETSIZE] can be asked for. *)
Lemma pin_thread_mask core cpu : 0 <= core -> 0 <= cpu ->
  Z.testbit (CPU_SET core 0) cpu = (core <? CPU_SETSIZE) && (cpu =? core).
Proof.
  intros Hc Hp. unfold CPU_SET. destruct (core <? CPU_SETSIZE); [|apply Z.bits_0].
  cbn [andb]. rewrite Z.setbit_eqb by done. by rewrite Z.bits_0, orb_false_r, Z.eqb_sym.
Qed.

(** ** Time *)

Definition NS_PER_SEC : Z := 1000000000.
Definition SAMPLE_NS : Z := 100000000.

(** The two halves that [rdtscp] returns. *)
Definition rdtscp (lo hi : Z) : Z := Z.lor (u64 (Z.shiftl hi 32)) lo.

(** A clock reading, [tv_sec] and [tv_nsec]. *)
Record timespec : Type := mkTime { tv_sec : Z; tv_nsec : Z }.

(** The signed differences are converted to [uint64_t]. *)
Definition elapsed_ns (t0 t1 : timespec) : Z :=
  u64 (u64 (u64 (tv_sec t1 - tv_sec t0) * NS_PER_SEC) + u64 (tv_nsec t1 - tv_nsec t0)).

(** The loop reads the clock until the sample is long enough; [None] when the
    readings end before. *)
Fixpoint sample (t0 : timespec) (readings : list timespec) : option timespec :=
  match readings with
  | [] => None
  | t1 :: readings => if elapsed_ns t0 t1 <? SAMPLE_NS then sample t0 readings else Some t1
  end.

Definition tsc_hz (t0 : timespec) (c0 : Z) (readings : list timespec) (c1 : Z) : option Z :=
  t1 ← sample t0 readings;
  Some (u64 (u64 (c1 - c0) * NS_PER_SEC) / elapsed_ns t0 t1).

Definition tsc_to_ns (ticks hz : Z) : res Z :=
  if hz =? 0 then Err DivByZero else Ok (u64 (ticks * NS_PER_SEC) / hz).

Definition in_ns (t : timespec) : Z := tv_sec t * NS_PER_SEC + tv_nsec t.

Lemma elapsed_ns_exact t0 t1 : in_ns t0 <= in_ns t1 -> in_ns t1 - in_ns t0 < 2 ^ 64 ->
  elapsed_ns t0 t1 = in_ns t1 - in_ns t0.
Proof.
  intros Hle Hlt. unfold elapsed_ns, wrapU. rewrite Zmult_mod_idemp_l, <- Zplus_mod.
  unfold in_ns in *. rewrite Z.mod_small; lia.
Qed.

(** The division never sees zero: a sample is long enough. *)
Lemma sample_long t0 readings t1 : sample t0 readings = Some t1 -> SAMPLE_NS <= elapsed_ns t0 t1.
Proof.
  induction readings as [|t readings IH]; cbn [sample]; [done|].
  destruct (Z.ltb_spec (elapsed_ns t0 t) SAMPLE_NS); [done|]. by intros [= <-].
Qed.

Lemma rdtscp_value lo hi : is_u 32 lo -> is_u 32 hi -> rdtscp lo hi = hi * 2 ^ 32 + lo.
Proof.
  intros Hl Hh. unfold is_u in *. unfold rdtscp. rewrite Z.shiftl_mul_pow2, wrapU_small by lia. by apply lor_low.
Qed.

(** Durations are exact, rounded down, as long as the product fits. *)
Lemma tsc_to_ns_exact ticks hz : 0 <= ticks -> 0 < hz -> ticks * NS_PER_SEC < 2 ^ 64 ->
  exists ns, tsc_to_ns ticks hz = Ok ns /\ ns * hz <= ticks * NS_PER_SEC < (ns + 1) * hz.
Proof.
  intros Ht Hz Hfit. unfold tsc_to_ns. rewrite (proj2 (Z.eqb_neq hz 0)) by lia. eexists. split; [done|].
  assert (0 <= ticks * NS_PER_SEC) by (unfold NS_PER_SEC; lia). rewrite wrapU_small by lia.
  pose proof (Z.mul_div_le (ticks * NS_PER_SEC) hz Hz). pose proof (Z.mul_succ_div_gt (ticks * NS_PER_SEC) hz Hz). lia.
Qed.

(** Ten seconds at 3 GHz are reported as less than four. *)
Lemma tsc_to_ns_wraps : tsc_to_ns 30000000000 3000000000 = Ok 3851085308.
Proof. by vm_compute. Qed.

End Util.
