(* ===== verification/Harness.v ===== *)
(** * A shard under a driver

    What the load generators of [bench/] see of a shard: the reference books
    of its symbols and what waits in its two rings.  [view_order] is one
    [tick] at that level, for any order a driver sends. *)

From stdpp Require Import relations.
From S2P Require Import Prelude Messages Order LevelBitmap Pool PriceLevel OrderHandle OrderBook Spsc.
From S2P Require Import BookSpec BookInv BookMatch BookRefine BookLaws BookAbs BookProps Shard ShardInv ShardProps.

Module Harness.
Import PriceLevel OrderHandle OrderBook BookSpec BookInv BookRefine BookAbs BookProps Shard ShardInv ShardProps.

Definition order_ok (o : NewOrder) : Prop := cok c_NewOrder o.

Lemma order_msg_reads o : order_ok o -> in_new_order (order_msg o) = o /\ in_hdr (order_msg o) = no_hdr o.
Proof.
  intros Ho. pose proof (dec_enc (c := c_NewOrder) o Ho) as E. split; [exact E|].
  assert (Hh : forall l, no_hdr (cdec c_NewOrder l) = cdec c_Header l) by done.
  unfold in_hdr. cbn [in_raw order_msg]. by rewrite <- Hh, E.
Qed.

Section view.
Context (CFG : ShardConfig) (HC : config_ok CFG) (base tick_size : Z).

Abbreviation holds := (Spsc.queue_repr (queue_depth CFG)).
Abbreviation ix := (ladder_idx base tick_size).

Record engine_view (sh : Shard) (local : list Z) (abs : list ABook) (li : list InboundMsg) (l : list OutboundMsg) : Prop := {
  ev_wf : shard_wf CFG base tick_size sh;
  ev_local : local_of_ sh = local;
  ev_abs : (fun bk => book_abs bk (arena_ sh)) <$> books_ sh = abs;
  ev_in : holds (inbound_ sh) li;
  ev_out : holds (outbound_ sh) l
}.

(** The slots in use. *)
Definition view_slots (abs : list ABook) : list Z := concat (aslots <$> abs).

Lemma view_live sh local abs li l : engine_view sh local abs li l -> live (arena_ sh) (books_ sh) = view_slots abs.
Proof. intros []. unfold live, view_slots. by rewrite <- ev_abs0, <- list_fmap_compose. Qed.

(** A driver pushes a request and pops a report. *)
Lemma view_push sh local abs li l m : engine_view sh local abs li l -> zlen li < queue_depth CFG ->
  exists q, Spsc.push (queue_depth CFG) (inbound_ sh) m = Ok (true, q) /\
    engine_view (set_inbound sh q) local abs (li ++ [m]) l.
Proof.
  intros [] Hr. destruct (Spsc.push_spec _ (cf_ring _ HC) _ _ m ev_in0) as (q & Hp & Hq).
  rewrite (proj2 (Z.ltb_lt _ _)) in Hp, Hq by done. exists q. split; [done|]. split; try done. by apply shard_wf_inbound.
Qed.

Lemma view_pop sh local abs li l : engine_view sh local abs li l ->
  exists q, Spsc.pop (queue_depth CFG) (outbound_ sh) = Ok (head l, q) /\
    engine_view (set_outbound sh q) local abs li (tail l).
Proof.
  intros []. destruct (Spsc.pop_spec _ (cf_ring _ HC) _ _ ev_out0) as (q & Hp & Hq).
  exists q. split; [done|]. split; try done. by apply shard_wf_outbound.
Qed.

Lemma view_tick_idle sh local abs l : engine_view sh local abs [] l -> tick CFG sh = Ok sh.
Proof. intros []. by apply tick_empty. Qed.

Lemma view_stop sh local abs li l : engine_view sh local abs li l -> engine_view (stop sh) local abs li l.
Proof. intros [V1 V2 V3 V4 V5]. split; try done. destruct V1. by split. Qed.

(** An order that the ladder and the arena have room for. *)
Record order_fits (local : list Z) (abs : list ABook) (o : NewOrder) (b : Z) (ab : ABook) : Prop := {
  of_ok : order_ok o;
  of_type : hdr_type (no_hdr o) = NEW_ORDER;
  of_symbol : local !! no_symbol_id o = Some b;
  of_book : abs !! b = Some ab;
  of_price : is_i64 (no_price o - base);
  of_ladder : 0 <= ix (no_price o) < ladder_size CFG;
  of_room : zlen (view_slots abs) < max_orders CFG
}.

(** The work on such an order. *)
Lemma view_works sh local abs o li l b ab :
  engine_view sh local abs (order_msg o :: li) l -> order_fits local abs o b ab ->
  exists sh' slot (rests : bool) fs ab' token,
    tick_work CFG sh = Ok (sh', order_reports (hdr_session_id (no_hdr o)) (no_order_id o) rests fs token) /\
    spec_add ix ab o slot MAX_FILLS_PER_ORDER = (rests, fs, ab') /\ zlen fs <= MAX_FILLS_PER_ORDER /\
    engine_view sh' local (<[b := ab']> abs) li l /\ running_ sh' = running_ sh.
Proof.
  intros [HS Hloc Habs Hi Ho] [F1 F2 F3 F4 F5 F6 F7].
  destruct (order_msg_reads o F1) as [Eo Eh]. pose proof (work_dispatch CFG HC sh (order_msg o) li Hi) as (q & Hq & Hd).
  rewrite Eo, Eh, F2 in Hd. rewrite Hd.
  assert (exists bk, books_ sh !! b = Some bk /\ book_abs bk (arena_ sh) = ab) as (bk & Hb & Eab).
  { rewrite <- Habs, lookupZ_fmap in F4. by destruct (books_ sh !! b) as [bk|]; [exists bk; injection F4|]. }
  destruct (sh_params _ _ _ _ HS bk (elem_of_lookupZ _ _ _ Hb)) as [Eb Et].
  assert (Ha : admissible (ladder_size CFG) bk (arena_ (set_inbound sh q)) o MAX_FILLS_PER_ORDER).
  { split; [by rewrite Eb|unfold book_ix; by rewrite Eb, Et| | |done].
    - destruct F1 as [(_ & _ & _ & Hqty & _) _]. exact Hqty.
    - pose proof (Pool.wf_free_count _ _ _ (sr_pool _ _ _ _ (sh_sharing _ _ _ _ HS))) as Hf. unfold Pool.free_count.
      change (arena_ (set_inbound sh q)) with (arena_ sh). unfold live, view_slots in *. rewrite <- Habs, <- list_fmap_compose in F7.
      unfold compose in F7. lia. }
  assert (H0 : 0 <= no_symbol_id o) by (by apply lookupZ_range in F3; lia). rewrite <- Hloc in F3.
  destruct (new_work_served CFG base tick_size HC (set_inbound sh q) o (hdr_session_id (no_hdr o)) b bk (shard_wf_inbound _ _ _ _ _ HS) H0 F3 Hb Ha)
    as (slot & g & rests & fs & bk' & ar' & token & Hadd & Hrun & HS' & Hn & _ & Hoth & _).
  exists (with_book (set_inbound sh q) b bk' ar'), slot, rests, fs, (book_abs bk' ar'), token.
  rewrite <- Eab. unfold book_ix in Hadd. rewrite Eb, Et in Hadd. split; [exact Hrun|]. split; [exact Hadd|]. split; [done|]. split; [|done].
  split; [done|done| |done|done]. rewrite <- Habs. cbn [books_ arena_ with_book set_arena set_books set_inbound].
  apply listZ_eq; [by rewrite zlen_fmap, !zlen_insertZ, zlen_fmap|]. intros j Hj. rewrite zlen_fmap, zlen_insertZ in Hj.
  pose proof (lookupZ_range _ _ _ Hb) as Rb. rewrite lookupZ_fmap, !lookupZ_insertZ by (rewrite ?zlen_fmap; done).
  destruct (decide (b = j)) as [<-|Hne]; [done|]. rewrite lookupZ_fmap.
  destruct (lookupZ_is_Some (books_ sh) j Hj) as [bkj Hbj]. rewrite Hbj. cbn.
  destruct (Hoth j bkj (not_eq_sym Hne) Hbj) as [_ ->]. done.
Qed.

(** What a whole tick makes of it; when the reports do not fit in the
    outbound ring it waits for the consumer. *)
Lemma view_serves sh local abs o li l b ab :
  engine_view sh local abs (order_msg o :: li) l -> order_fits local abs o b ab ->
  let sid := hdr_session_id (no_hdr o) in
  exists slot (rests : bool) fs ab' token,
    spec_add ix ab o slot MAX_FILLS_PER_ORDER = (rests, fs, ab') /\ zlen fs <= MAX_FILLS_PER_ORDER /\
    let outs := order_reports sid (no_order_id o) rests fs token in
    if decide (zlen l + zlen outs <= queue_depth CFG) then
      exists sh', tick CFG sh = Ok sh' /\ engine_view sh' local (<[b := ab']> abs) li (l ++ outs) /\ running_ sh' = running_ sh
    else tick CFG sh = Err Spin.
Proof.
  intros HV HF sid. destruct (view_works sh local abs o li l b ab HV HF) as (sh1 & slot & rests & fs & ab' & token & Hw & Hadd & Hn & HV1 & Hr).
  exists slot, rests, fs, ab', token. split; [done|]. split; [done|]. rewrite tick_pushes.
  pose proof (work_tries CFG (cf_ring _ HC) _ _ _ _ Hw (ev_out _ _ _ _ _ HV1)) as Ht. unfold tries in Ht. fold sid in Ht.
  cbv zeta. destruct (decide _); [|done]. destruct Ht as (q & -> & Hq). exists (set_outbound sh1 q). split; [done|]. split; [|done].
  destruct HV1. split; try done. by apply shard_wf_outbound.
Qed.

Lemma view_order sh local abs o li l b ab :
  engine_view sh local abs (order_msg o :: li) l -> order_fits local abs o b ab -> zlen l + 129 <= queue_depth CFG ->
  let sid := hdr_session_id (no_hdr o) in
  exists sh' slot (rests : bool) fs ab' token,
    tick CFG sh = Ok sh' /\ spec_add ix ab o slot MAX_FILLS_PER_ORDER = (rests, fs, ab') /\
    engine_view sh' local (<[b := ab']> abs) li (l ++ order_reports sid (no_order_id o) rests fs token) /\
    running_ sh' = running_ sh.
Proof.
  intros HV HF Hroom sid. destruct (view_serves sh local abs o li l b ab HV HF) as (slot & rests & fs & ab' & token & Hadd & Hn & Hrun).
  cbv zeta in Hrun. rewrite decide_True in Hrun.
  - destruct Hrun as (sh' & ? & ? & ?). by exists sh', slot, rests, fs, ab', token.
  - unfold order_reports. rewrite zlen_app. pose proof (reports_bound sid fs). unfold MAX_FILLS_PER_ORDER, sid in *.
    destruct rests; unfold zlen in *; simpl; lia.
Qed.

(** A turn of the thread that has a report to push. *)
Lemma view_pushes sh local abs li l m rest : engine_view sh local abs li l ->
  exists th', thread_turn CFG (mkThread sh (m :: rest)) = Ok th' /\
    if decide (zlen l < queue_depth CFG) then
      th_outbox th' = rest /\ running_ (th_shard th') = running_ sh /\ engine_view (th_shard th') local abs li (l ++ [m])
    else th' = mkThread sh (m :: rest).
Proof.
  intros []. destruct (Spsc.push_spec _ (cf_ring _ HC) _ _ m ev_out0) as (q & Hp & Hq). unfold thread_turn. cbn [th_shard th_outbox].
  rewrite Hp. cbn [mbind res_bind]. destruct (decide _) as [Hlt|Hge].
  - rewrite (proj2 (Z.ltb_lt _ _)) in * by done. eexists. split; [done|]. split; [done|]. split; [done|]. split; try done. by apply shard_wf_outbound.
  - rewrite (proj2 (Z.ltb_ge _ _)) by lia. by eexists.
Qed.

(** A freshly constructed shard. *)
Lemma view_init shard_id symbols sh : 0 < tick_size -> is_u 8 shard_id -> zlen symbols <= max_symbols CFG ->
  Forall (fun s => 0 <= s < SYMBOL_SPACE CFG) symbols -> shard_init CFG base tick_size shard_id symbols = Ok sh ->
  engine_view sh (local_of_ sh) (replicate (Z.to_nat (max_symbols CFG)) (mkABook [] [])) [] [].
Proof.
  intros Ht Hid Hle HF Hinit.
  destruct (shard_init_spec CFG HC base tick_size shard_id symbols Ht Hid Hle HF) as (sh' & Hrun & HS & Hi & Ho & Hlive & _).
  rewrite Hinit in Hrun. injection Hrun as <-. split; try done.
  pose proof (sh_books _ _ _ _ HS) as HL. pose proof (cf_symbols _ HC).
  apply listZ_eq; [rewrite zlen_fmap, zlen_replicate; lia|]. rewrite zlen_fmap. intros i Hi'.
  rewrite lookupZ_fmap, lookupZ_replicate by lia. destruct (lookupZ_is_Some (books_ sh) i Hi') as [bk Hbk]. rewrite Hbk. cbn. f_equal.
  assert (E : forall s, s ∉ aslots (book_abs bk (arena_ sh))).
  { intros s Hs. apply (not_elem_of_nil s). rewrite <- Hlive. eapply live_elem; [|exact Hs]. by eapply elem_of_lookupZ. }
  destruct (book_abs bk (arena_ sh)) as [[|r b] [|r' a]]; [done|..]; [|by destruct (E (r_slot r)); left..].
  destruct (E (r_slot r')). left.
Qed.

End view.

(** ** Closed loops end

    When from every state of an invariant with work left some step leads to a
    state of the invariant with less work, the work can be done. *)
Lemma reaches_end {S} (step : relation S) (inv : S -> Prop) (work : S -> Z) :
  (forall st, inv st -> 0 <= work st) ->
  (forall st, inv st -> 0 < work st -> exists st', step st st' /\ inv st' /\ work st' < work st) ->
  forall st, inv st -> exists st', rtc step st st' /\ inv st' /\ work st' = 0.
Proof.
  intros Hpos Hprog st. remember (Z.to_nat (work st)) as n eqn:E. revert st E.
  induction n as [n IH] using lt_wf_ind. intros st -> HI. pose proof (Hpos st HI).
  destruct (decide (work st = 0)) as [|Hne]; [by exists st|].
  destruct (Hprog st HI ltac:(lia)) as (st1 & Hstep & HI1 & Hlt). pose proof (Hpos st1 HI1).
  destruct (IH (Z.to_nat (work st1)) ltac:(lia) st1 eq_refl HI1) as (st' & Hrest & ?).
  exists st'. split; [by eapply rtc_l|done].
Qed.

End Harness.
