(* ===== verification/BenchLatency.v ===== *)
(** * The order-to-fill benchmark ([bench/latency.cc])

    A driver thread and a shard thread: the driver rests a sell and waits for
    its acknowledgement, then times a buy until its fill arrives.  Both busy
    waits go round until the other thread has moved, so the two run as a
    transition system: a step is one round of the driver's loop or one [tick]. *)

From stdpp Require Import relations.
From S2P Require Import Prelude Messages Order LevelBitmap Pool PriceLevel OrderHandle OrderBook Spsc.
From S2P Require Import BookSpec BookInv BookMatch BookRefine BookLaws BookAbs BookProps Shard ShardInv ShardProps.
From S2P Require Import Util Harness.

Module BenchLatency.
Import PriceLevel OrderHandle OrderBook BookSpec BookInv BookAbs BookProps Shard ShardInv ShardProps Harness.

Definition SHARD_CFG : ShardConfig := mkConfig 65536 2048 4096 1 0.

Definition new_order (oid : Z) (side : Side) : NewOrder :=
  mkNewOrder (mkHeader sizeof_NewOrder NEW_ORDER 0 0) oid 1000 1 0 side GTC.

Definition make_order (oid : Z) (side : Side) : InboundMsg := order_msg (new_order oid side).
Definition make_sell (oid : Z) : InboundMsg := make_order oid SELL.
Definition make_buy (oid : Z) : InboundMsg := make_order oid BUY.

Definition WARMUP : Z := 10000.
Definition MEASURE : Z := 200000.
Definition TOTAL : Z := WARMUP + MEASURE.

(** Where the driver is: its four busy waits, and the end of [main]. *)
Inductive Pc : Type := PushSell | PopAck | PushBuy | PopFill | Stop | Joined.

Record Main : Type := mkMain {
  m_shard : Shard;
  m_pc : Pc;
  m_i : Z;               (* int i *)
  m_t0 : Z;              (* uint64_t t0 *)
  m_reads : Z;           (* rdtscp() calls of this thread so far *)
  m_hist : list Z        (* the values handed to hdr_record_value *)
}.

Section bench.
(** The readings of the time stamp counter, in order, and its frequency. *)
Context (tsc : Z -> Z) (hz : Z).

Definition with_shard (st : Main) (sh : Shard) (pc : Pc) : Main :=
  mkMain sh pc (m_i st) (m_t0 st) (m_reads st) (m_hist st).

(** One round of the busy wait the driver is in. *)
Definition driver (st : Main) : res Main :=
  let sh := m_shard st in
  match m_pc st with
  | PushSell =>
      '(ok, q) ← Spsc.push (queue_depth SHARD_CFG) (inbound_ sh) (make_sell (m_i st));
      if (ok : bool) then Ok (with_shard st (set_inbound sh q) PopAck) else Ok st
  | PopAck =>
      '(out, q) ← Spsc.pop (queue_depth SHARD_CFG) (outbound_ sh);
      match out with
      | None => Ok st
      | Some _ => Ok (mkMain (set_outbound sh q) PushBuy (m_i st) (tsc (m_reads st)) (m_reads st + 1) (m_hist st))
      end
  | PushBuy =>
      '(ok, q) ← Spsc.push (queue_depth SHARD_CFG) (inbound_ sh) (make_buy (TOTAL + m_i st));
      if (ok : bool) then Ok (with_shard st (set_inbound sh q) PopFill) else Ok st
  | PopFill =>
      '(out, q) ← Spsc.pop (queue_depth SHARD_CFG) (outbound_ sh);
      match out with
      | None => Ok st
      | Some _ =>
          let t1 := tsc (m_reads st) in
          hist ← (if WARMUP <=? m_i st
                  then ns ← Util.tsc_to_ns (u64 (t1 - m_t0 st)) hz; Ok (m_hist st ++ [i64 ns])
                  else Ok (m_hist st));
          let i := m_i st + 1 in
          Ok (mkMain (set_outbound sh q) (if i <? TOTAL then PushSell else Stop) i (m_t0 st) (m_reads st + 1) hist)
      end
  | Stop => Ok (with_shard st (stop sh) Joined)
  | Joined => Ok st
  end.

(** The driver, or the thread that is in [shard.run()]. *)
Inductive step : Main -> Main -> Prop :=
| step_driver st st' : driver st = Ok st' -> step st st'
| step_shard st sh' : running_ (m_shard st) = true -> tick SHARD_CFG (m_shard st) = Ok sh' ->
    step st (with_shard st sh' (m_pc st)).

Definition main_init (sh : Shard) : Main := mkMain sh PushSell 0 0 0 [].

(** ** What the two threads are doing *)

Abbreviation view := (engine_view SHARD_CFG 900 1).
Abbreviation ix := (ladder_idx 900 1).
Definition empty_book : ABook := mkABook [] [].
Definition primed (slot i : Z) : ABook := mkABook [] [resting_of (new_order i SELL) slot 1].
Definition ack (token i : Z) : OutboundMsg := ack_of i token 0.
Definition fill (i : Z) : OutboundMsg :=
  out_fill (mkFill (mkHeader sizeof_Fill FILL 0 0) (TOTAL + i) i 1000 1 0).

(** The nanoseconds recorded for round [j]. *)
Definition sample (j : Z) : Z := i64 (u64 (u64 (tsc (2 * j + 1) - tsc (2 * j)) * Util.NS_PER_SEC) / hz).
Definition samples (i : Z) : list Z := sample <$> seqZ WARMUP (i - WARMUP).

Definition phase (st : Main) : Prop :=
  let sh := m_shard st in let i := m_i st in
  match m_pc st with
  | PushSell => view sh [0] [empty_book] [] []
  | PopAck => view sh [0] [empty_book] [make_sell i] [] \/
      exists slot token, view sh [0] [primed slot i] [] [ack token i]
  | PushBuy => exists slot, view sh [0] [primed slot i] [] []
  | PopFill => (exists slot, view sh [0] [primed slot i] [make_buy (TOTAL + i)] []) \/
      view sh [0] [empty_book] [] [fill i]
  | Stop | Joined => view sh [0] [empty_book] [] []
  end.

Definition over (pc : Pc) : bool := match pc with Stop | Joined => true | _ => false end.
Definition timing (pc : Pc) : bool := match pc with PushBuy | PopFill => true | _ => false end.

Record main_inv (st : Main) : Prop := {
  mi_phase : phase st;
  mi_running : running_ (m_shard st) = true \/ m_pc st = Joined;
  mi_i : if over (m_pc st) then m_i st = TOTAL else 0 <= m_i st < TOTAL;
  mi_reads : m_reads st = 2 * m_i st + (if timing (m_pc st) then 1 else 0);
  mi_t0 : timing (m_pc st) = true -> m_t0 st = tsc (2 * m_i st);
  mi_hist : m_hist st = samples (m_i st)
}.

(** Rounds of the two threads that are left, busy waiting not counted: six for
    each order pair, and [stop]. *)
Definition rounds_left (st : Main) : Z :=
  let waiting := if bool_decide (Spsc.contents (queue_depth SHARD_CFG) (outbound_ (m_shard st)) = []) then 1 else 0 in
  match m_pc st with
  | PushSell => 6 * (TOTAL - m_i st) + 1
  | PopAck => 6 * (TOTAL - m_i st) - 1 + waiting
  | PushBuy => 6 * (TOTAL - m_i st) - 2
  | PopFill => 6 * (TOTAL - m_i st) - 4 + waiting
  | Stop => 1
  | Joined => 0
  end.

Lemma cfg_ok : config_ok SHARD_CFG.
Proof. split; simpl; [by split|done| |done|done]. exists 12. done. Qed.

Lemma view_waiting sh local abs li l : view sh local abs li l ->
  bool_decide (Spsc.contents (queue_depth SHARD_CFG) (outbound_ sh) = []) = bool_decide (l = []).
Proof. intros HV. by rewrite (Spsc.contents_repr _ (cf_ring _ cfg_ok) _ _ (ev_out _ _ _ _ _ _ _ _ HV)). Qed.

Lemma order_fits_bench oid side ab : is_u 64 oid -> side = SELL \/ side = BUY -> zlen (aslots ab) < 65536 ->
  order_fits SHARD_CFG 900 1 [0] [ab] (new_order oid side) 0 ab.
Proof.
  intros Hoid Hside Hslots. split; try done.
  - split; [|done]. destruct Hside as [-> | ->]; repeat (split; try done); apply Hoid.
  - unfold view_slots. cbn [fmap list_fmap concat]. by rewrite app_nil_r.
Qed.

(** The shard serves the sell: it rests and is acknowledged. *)
Lemma tick_sell sh i : 0 <= i < TOTAL -> view sh [0] [empty_book] [make_sell i] [] ->
  exists sh' slot token, tick SHARD_CFG sh = Ok sh' /\ view sh' [0] [primed slot i] [] [ack token i] /\
    running_ sh' = running_ sh.
Proof.
  intros Hi HV. destruct (view_order SHARD_CFG cfg_ok 900 1 sh [0] [empty_book] (new_order i SELL) [] [] 0 empty_book HV)
    as (sh' & slot & rests & fs & ab' & token & Hrun & Hadd & HV' & Hr).
  - apply order_fits_bench; [unfold is_u, TOTAL, WARMUP, MEASURE in *; lia|by left|done].
  - done.
  - assert (Hspec : spec_add ix empty_book (new_order i SELL) slot MAX_FILLS_PER_ORDER = (true, [], primed slot i)) by done.
    rewrite Hspec in Hadd. injection Hadd as <- <- <-. by exists sh', slot, token.
Qed.

(** The shard serves the buy: it fills the sell and is reported once, the two
    sides being the same session. *)
Lemma tick_buy sh slot i : 0 <= i < TOTAL -> view sh [0] [primed slot i] [make_buy (TOTAL + i)] [] ->
  exists sh', tick SHARD_CFG sh = Ok sh' /\ view sh' [0] [empty_book] [] [fill i] /\ running_ sh' = running_ sh.
Proof.
  intros Hi HV. destruct (view_order SHARD_CFG cfg_ok 900 1 sh [0] [primed slot i] (new_order (TOTAL + i) BUY) [] [] 0 (primed slot i) HV)
    as (sh' & slot' & rests & fs & ab' & token & Hrun & Hadd & HV' & Hr).
  - apply order_fits_bench; [unfold is_u, TOTAL, WARMUP, MEASURE in *; lia|by right|done].
  - done.
  - assert (Hspec : spec_add ix (primed slot i) (new_order (TOTAL + i) BUY) slot' MAX_FILLS_PER_ORDER =
      (false, [mkFill (mkHeader sizeof_Fill FILL 0 0) (TOTAL + i) i 1000 1 0], empty_book)) by done.
    rewrite Hspec in Hadd. injection Hadd as <- <- <-. by exists sh'.
Qed.

Context (Hhz : 0 < hz).

Lemma samples_next i : 0 <= i ->
  samples (i + 1) = samples i ++ (if WARMUP <=? i then [sample i] else []).
Proof.
  intros Hi. unfold samples. destruct (Z.leb_spec WARMUP i).
  - replace (i + 1 - WARMUP) with (i - WARMUP + 1) by lia. rewrite seqZ_app by lia. rewrite fmap_app. f_equal.
    replace (WARMUP + (i - WARMUP)) with i by lia. done.
  - by rewrite !seqZ_nil, app_nil_r by lia.
Qed.

(** The driver waits for the shard to serve its request. *)
Definition waits (st : Main) : Prop :=
  m_pc st = PopAck /\ view (m_shard st) [0] [empty_book] [make_sell (m_i st)] [] \/
  m_pc st = PopFill /\ exists slot, view (m_shard st) [0] [primed slot (m_i st)] [make_buy (TOTAL + m_i st)] [].

(** A round of the driver waits for the shard, is over, or gets on. *)
Lemma driver_round st : main_inv st ->
  exists st', driver st = Ok st' /\ main_inv st' /\
    (st' = st /\ (waits st \/ m_pc st = Joined) \/ rounds_left st' = rounds_left st - 1).
Proof.
  intros HI. pose proof HI as [HP HR Hi Hreads Ht0 Hh]. unfold phase in HP.
  destruct st as [sh [] i t0 reads hist]; cbn [m_shard m_pc m_i m_t0 m_reads m_hist over timing] in *; unfold driver; cbn [m_shard m_pc m_i m_t0 m_reads m_hist].
  - destruct (view_push _ cfg_ok _ _ _ _ _ _ _ (make_sell i) HP ltac:(done)) as (q & -> & HV). cbn [mbind res_bind].
    eexists. split; [done|]. split; [split; try done; [by left|left; by destruct HR]|]. right. unfold rounds_left. cbn [m_pc m_shard m_i with_shard].
    rewrite (view_waiting _ _ _ _ _ HV). simpl. lia.
  - destruct HP as [HV|(slot & token & HV)]; destruct (view_pop _ cfg_ok _ _ _ _ _ _ _ HV) as (q & -> & HV'); cbn [mbind res_bind head tail].
    + eexists. split; [done|]. split; [done|]. left. split; [done|]. left. by left.
    + eexists. split; [done|]. split; [split; cbn; try done; [by exists slot|left; by destruct HR|lia|intros _; f_equal; lia]|].
      right. unfold rounds_left. cbn [m_pc m_shard m_i]. rewrite (view_waiting _ _ _ _ _ HV). simpl. lia.
  - destruct HP as (slot & HV). destruct (view_push _ cfg_ok _ _ _ _ _ _ _ (make_buy (TOTAL + i)) HV ltac:(done)) as (q & -> & HV').
    cbn [mbind res_bind]. eexists. split; [done|]. split; [split; try done; [left; by exists slot|left; by destruct HR]|].
    right. unfold rounds_left. cbn [m_pc m_shard m_i with_shard]. rewrite (view_waiting _ _ _ _ _ HV'). simpl. lia.
  - destruct HP as [(slot & HV)|HV]; destruct (view_pop _ cfg_ok _ _ _ _ _ _ _ HV) as (q & -> & HV'); cbn [mbind res_bind head tail].
    + eexists. split; [done|]. split; [done|]. left. split; [done|]. left. right. split; [done|]. by exists slot.
    + cbn [m_i m_t0 m_reads m_hist]. specialize (Ht0 eq_refl). subst t0 reads hist.
      assert (Hns : (if WARMUP <=? i then ns ← Util.tsc_to_ns (u64 (tsc (2 * i + 1) - tsc (2 * i))) hz; Ok (samples i ++ [i64 ns])
                     else Ok (samples i)) = Ok (samples (i + 1))).
      { rewrite samples_next by lia. unfold Util.tsc_to_ns. rewrite (proj2 (Z.eqb_neq hz 0)) by lia.
        destruct (WARMUP <=? i); [done|by rewrite app_nil_r]. }
      rewrite Hns. cbn [mbind res_bind]. eexists. split; [done|].
      destruct (Z.ltb_spec (i + 1) TOTAL); (split; [split; cbn; try done; try lia; left; by destruct HR|]);
        right; unfold rounds_left; cbn [m_pc m_shard m_i]; rewrite (view_waiting _ _ _ _ _ HV); simpl; lia.
  - eexists. split; [done|]. split; [|right; done]. split; cbn; try done; [|by right].
    by apply view_stop.
  - eexists. split; [done|]. split; [done|]. left. split; [done|by right].
Qed.

(** A tick serves the request the driver waits for. *)
Lemma request_served st : main_inv st -> waits st ->
  exists sh', tick SHARD_CFG (m_shard st) = Ok sh' /\
    let st' := with_shard st sh' (m_pc st) in main_inv st' /\ rounds_left st' = rounds_left st - 1.
Proof.
  intros [_ HR Hi Hreads Ht0 Hh] Hw. unfold waits in Hw. destruct st as [sh pc i t0 reads hist]; cbn [m_shard m_pc m_i m_t0 m_reads m_hist] in *.
  destruct Hw as [[-> HV]|[-> (slot & HV)]]; cbn [over timing] in *.
  - destruct (tick_sell sh i Hi HV) as (sh' & slot & token & Hrun & HV' & Hr). exists sh'. split; [done|].
    split; [split; cbn; try done; [right; by exists slot, token|left; rewrite Hr; by destruct HR]|].
    unfold rounds_left. cbn [m_pc m_shard m_i with_shard]. rewrite (view_waiting _ _ _ _ _ HV), (view_waiting _ _ _ _ _ HV'). simpl. lia.
  - destruct (tick_buy sh slot i Hi HV) as (sh' & Hrun & HV' & Hr). exists sh'. split; [done|].
    split; [split; cbn; try done; [by right|left; rewrite Hr; by destruct HR]|].
    unfold rounds_left. cbn [m_pc m_shard m_i with_shard]. rewrite (view_waiting _ _ _ _ _ HV), (view_waiting _ _ _ _ _ HV'). simpl. lia.
Qed.

Lemma shard_round st : main_inv st ->
  exists sh', tick SHARD_CFG (m_shard st) = Ok sh' /\
    let st' := with_shard st sh' (m_pc st) in main_inv st' /\ (st' = st \/ rounds_left st' = rounds_left st - 1).
Proof.
  intros HI. assert (waits st \/ exists abs l, view (m_shard st) [0] abs [] l) as [Hw|(abs & l & HV)].
  { pose proof (mi_phase _ HI) as HP. unfold phase, waits in *.
    destruct (m_pc st); try (right; by eexists _, _); [| |]; [destruct HP as [|(? & ? & ?)]|destruct HP as [? ?]|destruct HP as [|]]; eauto 6. }
  - destruct (request_served st HI Hw) as (sh' & ? & ? & ?). exists sh'. split; [done|]. split; [done|by right].
  - exists (m_shard st). split; [eapply view_tick_idle, HV; apply cfg_ok|].
    assert (with_shard st (m_shard st) (m_pc st) = st) as -> by (by destruct st). split; [done|by left].
Qed.

Lemma main_inv_step st st' : step st st' -> main_inv st ->
  main_inv st' /\ (st' = st \/ rounds_left st' = rounds_left st - 1).
Proof.
  intros [st1 st2 Hrun|st1 sh' _ Hrun] HI.
  - destruct (driver_round st1 HI) as (st3 & Hrun' & ? & Hc). rewrite Hrun in Hrun'. injection Hrun' as <-.
    split; [done|]. destruct Hc as [[-> _]|]; [by left|by right].
  - destruct (shard_round st1 HI) as (sh1 & Hrun' & ? & ?). rewrite Hrun in Hrun'. by injection Hrun' as <-.
Qed.

Lemma main_inv_reachable st st' : rtc step st st' -> main_inv st -> main_inv st'.
Proof. induction 1 as [|st1 st2 st3 Hstep _ IH]; [done|]. intros HI. by apply IH, (main_inv_step _ _ Hstep). Qed.

Lemma main_inv_init sh : shard_init SHARD_CFG 900 1 0 [] = Ok sh -> main_inv (main_init sh).
Proof.
  intros Hinit. pose proof (view_init SHARD_CFG cfg_ok 900 1 0 [] sh ltac:(lia) ltac:(done) ltac:(done) ltac:(constructor) Hinit) as HV.
  unfold shard_init in Hinit. change (identity_map SHARD_CFG _ _ _) with (Ok [0]) in Hinit. cbn [mbind res_bind] in Hinit.
  assert (local_of_ sh = [0] /\ running_ sh = true) as [El Er] by (by injection Hinit as <-).
  rewrite El in HV. split; cbn; try done. by left.
Qed.

Lemma rounds_left_nonneg st : main_inv st -> 0 <= rounds_left st.
Proof.
  intros [_ _ Hi _ _ _]. unfold rounds_left. destruct (m_pc st); cbn [over] in Hi; try lia; destruct (bool_decide _); lia.
Qed.

(** While there is work, one of the threads can get on with it. *)
Lemma rounds_progress st : main_inv st -> 0 < rounds_left st ->
  exists st', step st st' /\ main_inv st' /\ rounds_left st' < rounds_left st.
Proof.
  intros HI Hpos. destruct (driver_round st HI) as (st1 & Hd & HI1 & [(-> & [Hw|Hj])|Hlt]).
  - destruct (request_served st HI Hw) as (sh' & Hs & HI2 & Hlt). exists (with_shard st sh' (m_pc st)).
    split; [|split; [done|lia]]. constructor; [|done]. destruct (mi_running _ HI) as [|Hj]; [done|].
    unfold waits in Hw. rewrite Hj in Hw. by destruct Hw as [[? _]|[? _]].
  - unfold rounds_left in Hpos. rewrite Hj in Hpos. lia.
  - exists st1. split; [by constructor|]. split; [done|lia].
Qed.

(** C38: The order-to-fill benchmark measures what it says: in every
    interleaving of its two threads neither meets undefined behaviour; the
    report that ends the wait for round [i]'s sell is its acknowledgement, and
    the one that ends the timed wait is the fill of that sell by round [i]'s buy
    and nothing else, after which the book is empty again ([phase]); and the
    values recorded so far are, in order, the times between the two stamps
    around the buy of each round after the warm-up. *)
Theorem latency_measures sh st :
  shard_init SHARD_CFG 900 1 0 [] = Ok sh -> rtc step (main_init sh) st ->
  (exists st', driver st = Ok st') /\ (exists sh', tick SHARD_CFG (m_shard st) = Ok sh') /\
  phase st /\ m_hist st = samples (m_i st).
Proof.
  intros Hinit Hrun. pose proof (main_inv_reachable _ _ Hrun (main_inv_init sh Hinit)) as HI.
  destruct (driver_round st HI) as (st' & ? & _), (shard_round st HI) as (sh' & ? & _).
  split; [by exists st'|]. split; [by exists sh'|]. split; apply HI.
Qed.

(** The order-to-fill benchmark ends: from every state the two threads can
    reach, each step is a round of busy waiting that changes nothing or does one
    of the [rounds_left] rounds of work, and some schedule finishes: the driver
    has stopped the shard and recorded exactly [MEASURE] values. *)
Theorem latency_ends sh st :
  shard_init SHARD_CFG 900 1 0 [] = Ok sh -> rtc step (main_init sh) st ->
  0 <= rounds_left st /\
  (forall st', step st st' -> st' = st \/ rounds_left st' = rounds_left st - 1) /\
  exists st', rtc step st st' /\ m_pc st' = Joined /\ m_hist st' = samples TOTAL /\ zlen (m_hist st') = MEASURE.
Proof.
  intros Hinit Hrun. pose proof (main_inv_reachable _ _ Hrun (main_inv_init sh Hinit)) as HI.
  split; [by apply rounds_left_nonneg|]. split; [intros st' Hstep; by apply main_inv_step|].
  destruct (reaches_end step main_inv rounds_left rounds_left_nonneg rounds_progress st HI) as (st' & Hrest & HI' & Hz).
  exists st'. split; [done|]. pose proof (mi_i _ HI') as Hi. pose proof (mi_hist _ HI') as Hh.
  assert (Hpc : m_pc st' = Joined).
  { unfold rounds_left in Hz. destruct (m_pc st'); cbn [over] in Hi; try done; try lia; destruct (bool_decide _); lia. }
  rewrite Hpc in Hi. cbn [over] in Hi. rewrite Hi in Hh. split; [done|]. split; [done|].
  rewrite Hh. unfold samples. rewrite zlen_fmap. unfold zlen. rewrite length_seqZ. unfold TOTAL, WARMUP, MEASURE. lia.
Qed.

End bench.

(** The shard of [main], and a counter that ticks at 3 GHz. *)
Definition bench_shard : Shard :=
  match shard_init SHARD_CFG 900 1 0 [] with
  | Ok sh => sh
  | Err _ => mkShard (arena_init 65536) [] [] (Spsc.queue_init 4096 zero_inbound) (Spsc.queue_init 4096 zero_outbound) true 0
  end.

Lemma bench_shard_init : shard_init SHARD_CFG 900 1 0 [] = Ok bench_shard.
Proof.
  destruct (shard_init_spec SHARD_CFG cfg_ok 900 1 0 []) as (sh & Hrun & _); [lia|done|done|constructor|].
  unfold bench_shard. by rewrite Hrun.
Qed.

Definition demo_tsc (j : Z) : Z := 1000 + 300 * j.

Lemma latency_measures_witness :
  exists st', driver demo_tsc 3000000000 (main_init bench_shard) = Ok st' /\ phase (main_init bench_shard).
Proof.
  destruct (latency_measures demo_tsc 3000000000 ltac:(lia) bench_shard (main_init bench_shard) bench_shard_init ltac:(apply rtc_refl))
    as ((st' & H1) & _ & H2 & _).
  exists st'. split; [exact H1|exact H2].
Defined.

Lemma latency_ends_witness :
  exists st', rtc (step demo_tsc 3000000000) (main_init bench_shard) st' /\ zlen (m_hist st') = 200000.
Proof.
  destruct (latency_ends demo_tsc 3000000000 ltac:(lia) bench_shard (main_init bench_shard) bench_shard_init ltac:(apply rtc_refl))
    as (_ & _ & st' & H1 & _ & _ & H2).
  exists st'. split; [exact H1|exact H2].
Defined.

End BenchLatency.
