(* ===== verification/BenchBreakdown.v ===== *)
(** * The round-trip breakdown benchmark ([bench/latency_breakdown.cc])

    The benchmark has a shard thread of its own, a loop over one book that
    stamps every order when it is popped, when [add_order] has returned and
    before its answer is pushed.  The driver rests a sell, then times a buy,
    and splits its time with the stamps it finds in the answer.  As in
    [BenchLatency] a step is one round of a busy wait. *)

From stdpp Require Import relations.
From S2P Require Import Prelude Messages Order LevelBitmap Pool PriceLevel OrderHandle OrderBook Spsc.
From S2P Require Import BookSpec BookInv BookMatch BookRefine BookLaws BookAbs BookProps Util Harness.

Module BenchBreakdown.
Import PriceLevel OrderHandle OrderBook BookSpec BookInv BookRefine BookAbs BookProps Harness.

Definition MAX_ORDERS : Z := 65536.
Definition LADDER_SIZE : Z := 2048.
Definition QUEUE : Z := 4096.

Record StampedFill : Type := mkStamped {
  sf_fill : Fill;
  sf_t1 : Z;   (* uint64_t, shard: after pop(inbound) *)
  sf_t2 : Z;   (* shard: after add_order *)
  sf_t3 : Z    (* shard: before push(outbound) *)
}.

(** [StampedFill sf{}]: all zero. *)
Definition zero_fill : Fill := mkFill (mkHeader 0 (MsgType_raw 0) 0 0) 0 0 0 0 0.
Definition zero_stamped : StampedFill := mkStamped zero_fill 0 0 0.

Definition make_order (oid : Z) (side : Side) : NewOrder :=
  mkNewOrder (mkHeader sizeof_NewOrder NEW_ORDER 0 0) oid 1000 1 0 side GTC.
Definition zero_order : NewOrder := mkNewOrder (mkHeader 0 (MsgType_raw 0) 0 0) 0 0 0 0 (Side_raw 0) (TimeInForce_raw 0).

Definition WARMUP : Z := 10000.
Definition MEASURE : Z := 200000.
Definition TOTAL : Z := WARMUP + MEASURE.

Inductive Pc : Type := PushSell | PopAck | PushBuy | PopFill | Stop | Joined.

Record Main : Type := mkMain {
  m_inbound : Spsc.SpscQueue NewOrder;
  m_outbound : Spsc.SpscQueue StampedFill;
  m_running : bool;
  m_book : OrderBook;
  m_arena : Arena;                 (* pool and order_session *)
  m_answer : option StampedFill;   (* what the shard thread is pushing *)
  m_pc : Pc;                       (* where the driver is *)
  m_i : Z;
  m_t0 : Z;
  m_reads : Z;                     (* rdtscp() calls of both threads so far *)
  h_in : list Z; h_match : list Z; h_out : list Z; h_total : list Z
}.

Section bench.
(** The readings of the time stamp counter by either thread, in order. *)
Context (tsc : Z -> Z) (hz : Z).

(** One round of the shard thread: of the loop over [inbound], or of the wait
    for room in [outbound].  The driver takes no stamp while an order is under
    way, so the three stamps of an order are consecutive. *)
Definition shard_thread (st : Main) : res Main :=
  let '(mkMain inb outb run bk ar answer pc i t0 n a b c d) := st in
  match answer with
  | Some sf =>
      '(ok, q) ← Spsc.push QUEUE outb sf;
      if (ok : bool) then Ok (mkMain inb q run bk ar None pc i t0 n a b c d) else Ok st
  | None =>
      if run then
        '(m, q) ← Spsc.pop QUEUE inb;
        match m with
        | None => Ok st
        | Some msg =>
            let t1 := tsc n in
            '(_, fills, bk, ar) ← add_order MAX_ORDERS LADDER_SIZE bk ar msg [] 64;
            let t2 := tsc (n + 1) in
            let f := match fills with [] => zero_fill | f :: _ => f end in
            let t3 := tsc (n + 2) in
            Ok (mkMain q outb run bk ar (Some (mkStamped f t1 t2 t3)) pc i t0 (n + 3) a b c d)
        end
      else Ok st
  end.

Definition record_ns (h : list Z) (ticks : Z) : res (list Z) :=
  ns ← Util.tsc_to_ns (u64 ticks) hz; Ok (h ++ [i64 ns]).

(** One round of the busy wait the driver is in. *)
Definition driver (st : Main) : res Main :=
  let '(mkMain inb outb run bk ar answer pc i t0 n a b c d) := st in
  match pc with
  | PushSell =>
      '(ok, q) ← Spsc.push QUEUE inb (make_order i SELL);
      if (ok : bool) then Ok (mkMain q outb run bk ar answer PopAck i t0 n a b c d) else Ok st
  | PopAck =>
      '(m, q) ← Spsc.pop QUEUE outb;
      match m with
      | None => Ok st
      | Some _ => Ok (mkMain inb q run bk ar answer PushBuy i (tsc n) (n + 1) a b c d)
      end
  | PushBuy =>
      '(ok, q) ← Spsc.push QUEUE inb (make_order (TOTAL + i) BUY);
      if (ok : bool) then Ok (mkMain q outb run bk ar answer PopFill i t0 n a b c d) else Ok st
  | PopFill =>
      '(m, q) ← Spsc.pop QUEUE outb;
      match m with
      | None => Ok st
      | Some sf =>
          let t4 := tsc n in
          '(a, b, c, d) ←
            (if WARMUP <=? i then
               a ← record_ns a (sf_t1 sf - t0);
               b ← record_ns b (sf_t2 sf - sf_t1 sf);
               c ← record_ns c (t4 - sf_t3 sf);
               d ← record_ns d (t4 - t0);
               Ok (a, b, c, d)
             else Ok (a, b, c, d));
          let i := i + 1 in
          Ok (mkMain inb q run bk ar answer (if i <? TOTAL then PushSell else Stop) i t0 (n + 1) a b c d)
      end
  | Stop => Ok (mkMain inb outb false bk ar answer Joined i t0 n a b c d)
  | Joined => Ok st
  end.

Inductive step : Main -> Main -> Prop :=
| step_driver st st' : driver st = Ok st' -> step st st'
| step_shard st st' : shard_thread st = Ok st' -> step st st'.

Definition main_start (inb : Spsc.SpscQueue NewOrder) (outb : Spsc.SpscQueue StampedFill) (bk : OrderBook) (ar : Arena) : Main :=
  mkMain inb outb true bk ar None PushSell 0 0 0 [] [] [] [].
Definition main_init : Main :=
  main_start (Spsc.queue_init QUEUE zero_order) (Spsc.queue_init QUEUE zero_stamped)
    (book_init LADDER_SIZE 900 1) (arena_init MAX_ORDERS).

(** ** What the two threads are doing *)

Abbreviation ix := (ladder_idx 900 1).
Definition empty_book : ABook := mkABook [] [].
Definition primed (slot i : Z) : ABook := mkABook [] [resting_of (make_order i SELL) slot 1].

(** The answer to the buy of round [i]. *)
Definition stamped (i : Z) : StampedFill :=
  mkStamped (mkFill (mkHeader sizeof_Fill FILL 0 0) (TOTAL + i) i 1000 1 0)
    (tsc (8 * i + 4)) (tsc (8 * i + 5)) (tsc (8 * i + 6)).

Record view (st : Main) (li : list NewOrder) (l : list StampedFill) (answer : option StampedFill) (ab : ABook) (n : Z) : Prop := {
  v_in : Spsc.queue_repr QUEUE (m_inbound st) li;
  v_out : Spsc.queue_repr QUEUE (m_outbound st) l;
  v_answer : m_answer st = answer;
  v_wf : book_wf MAX_ORDERS LADDER_SIZE (m_book st) (m_arena st) [];
  v_params : base_price_ (m_book st) = 900 /\ tick_size_ (m_book st) = 1;
  v_abs : book_abs (m_book st) (m_arena st) = ab;
  v_reads : m_reads st = 8 * m_i st + n
}.

Definition phase (st : Main) : Prop :=
  let i := m_i st in
  match m_pc st with
  | PushSell | Stop | Joined => view st [] [] None empty_book 0
  | PopAck =>
      view st [make_order i SELL] [] None empty_book 0 \/
      exists slot sf, view st [] [] (Some sf) (primed slot i) 3 \/ view st [] [sf] None (primed slot i) 3
  | PushBuy => exists slot, view st [] [] None (primed slot i) 4
  | PopFill =>
      (exists slot, view st [make_order (TOTAL + i) BUY] [] None (primed slot i) 4) \/
      view st [] [] (Some (stamped i)) empty_book 7 \/ view st [] [stamped i] None empty_book 7
  end.

Definition ns (ticks : Z) : Z := i64 (u64 (u64 ticks * Util.NS_PER_SEC) / hz).
Definition rounds (i : Z) : list Z := seqZ WARMUP (i - WARMUP).
Definition transit_in (j : Z) : Z := ns (tsc (8 * j + 4) - tsc (8 * j + 3)).
Definition compute (j : Z) : Z := ns (tsc (8 * j + 5) - tsc (8 * j + 4)).
Definition transit_out (j : Z) : Z := ns (tsc (8 * j + 7) - tsc (8 * j + 6)).
Definition round_trip (j : Z) : Z := ns (tsc (8 * j + 7) - tsc (8 * j + 3)).

Definition over (pc : Pc) : bool := match pc with Stop | Joined => true | _ => false end.
Definition timing (pc : Pc) : bool := match pc with PushBuy | PopFill => true | _ => false end.

Record main_inv (st : Main) : Prop := {
  mi_phase : phase st;
  mi_running : m_running st = true \/ m_pc st = Joined;
  mi_i : if over (m_pc st) then m_i st = TOTAL else 0 <= m_i st < TOTAL;
  mi_t0 : timing (m_pc st) = true -> m_t0 st = tsc (8 * m_i st + 3);
  mi_hist : h_in st = transit_in <$> rounds (m_i st) /\ h_match st = compute <$> rounds (m_i st) /\
    h_out st = transit_out <$> rounds (m_i st) /\ h_total st = round_trip <$> rounds (m_i st)
}.

(** Rounds of work that are left: eight for each order pair, and the stop. *)
Definition rounds_left (st : Main) : Z :=
  let left := 8 * (TOTAL - m_i st) in
  let served := match m_answer st with
    | Some _ => 1
    | None => if bool_decide (Spsc.contents QUEUE (m_outbound st) = []) then 0 else 2
    end in
  match m_pc st with
  | PushSell => left + 1
  | PopAck => left - served
  | PushBuy => left - 3
  | PopFill => left - 4 - served
  | Stop => 1
  | Joined => 0
  end.

Lemma params : book_params MAX_ORDERS LADDER_SIZE.
Proof. by split. Qed.

Lemma ring_ok : Spsc.pow2 QUEUE.
Proof. by exists 12. Qed.

Lemma book_takes bk ar ab oid side : book_wf MAX_ORDERS LADDER_SIZE bk ar [] ->
  base_price_ bk = 900 /\ tick_size_ bk = 1 -> book_abs bk ar = ab -> zlen (aslots ab) < MAX_ORDERS ->
  exists slot h (rests : bool) fs ab' bk' ar',
    add_order MAX_ORDERS LADDER_SIZE bk ar (make_order oid side) [] 64 = Ok (h, fs, bk', ar') /\
    spec_add ix ab (make_order oid side) slot 64 = (rests, fs, ab') /\ book_abs bk' ar' = ab' /\
    book_wf MAX_ORDERS LADDER_SIZE bk' ar' [] /\ base_price_ bk' = 900 /\ tick_size_ bk' = 1.
Proof.
  intros HB [Eb Et] <- Hslots.
  assert (Ha : admissible LADDER_SIZE bk ar (make_order oid side) 64).
  { split; [by rewrite Eb|unfold book_ix; by rewrite Eb, Et|done| |done].
    pose proof (Pool.wf_free_count _ _ _ (br_pool HB)) as Hf. unfold Pool.free_count. rewrite app_nil_r in Hf. lia. }
  destruct (add_order_run _ _ params _ _ _ _ _ HB Ha) as (slot & g & rests & fs & bk' & ar' & Hrun & Hacc & HB').
  destruct Hacc as (_ & _ & _ & Hadd & _ & [E1 E2] & _). unfold book_ix in Hadd. rewrite Eb, Et in Hadd.
  eexists slot, _, rests, fs, _, bk', ar'. split; [done|]. split; [done|]. split; [done|]. split; [done|]. split; congruence.
Qed.

Lemma stamped_view_waiting st li l answer ab n : view st li l answer ab n ->
  bool_decide (Spsc.contents QUEUE (m_outbound st) = []) = bool_decide (l = []).
Proof. intros HV. by rewrite (Spsc.contents_repr _ ring_ok _ _ (v_out _ _ _ _ _ _ HV)). Qed.

(** The driver waits: its order is queued, or its answer is not pushed yet. *)
Definition waits (st : Main) : Prop :=
  let i := m_i st in
  m_pc st = PopAck /\ (view st [make_order i SELL] [] None empty_book 0 \/
    exists slot sf, view st [] [] (Some sf) (primed slot i) 3) \/
  m_pc st = PopFill /\ ((exists slot, view st [make_order (TOTAL + i) BUY] [] None (primed slot i) 4) \/
    view st [] [] (Some (stamped i)) empty_book 7).

Context (Hhz : 0 < hz).

Lemma record_ns_Ok h ticks : record_ns h ticks = Ok (h ++ [ns ticks]).
Proof. unfold record_ns, Util.tsc_to_ns. by rewrite (proj2 (Z.eqb_neq hz 0)) by lia. Qed.

Lemma rounds_next {A} (f : Z -> A) i : 0 <= i ->
  f <$> rounds (i + 1) = (f <$> rounds i) ++ (if WARMUP <=? i then [f i] else []).
Proof.
  intros Hi. unfold rounds. destruct (Z.leb_spec WARMUP i).
  - replace (i + 1 - WARMUP) with (i - WARMUP + 1) by lia. rewrite seqZ_app by lia. rewrite fmap_app. f_equal.
    replace (WARMUP + (i - WARMUP)) with i by lia. done.
  - by rewrite !seqZ_nil, app_nil_r by lia.
Qed.

(** The rounds of the driver one by one. *)
Lemma wait_round st li answer ab n : main_inv st -> m_pc st = PopAck \/ m_pc st = PopFill -> view st li [] answer ab n -> driver st = Ok st.
Proof.
  intros HI Hpc HV. destruct (Spsc.pop_spec _ ring_ok _ _ (v_out _ _ _ _ _ _ HV)) as (q & Hq & _).
  destruct st as [inb outb run bk ar ans pc i t0 m a b c d]. cbn [m_outbound m_pc] in *. unfold driver.
  destruct Hpc as [-> | ->]; rewrite Hq; done.
Qed.

(** Work done by a round. *)
Definition advances (st st' : Main) : Prop := main_inv st' /\ rounds_left st' = rounds_left st - 1.

Lemma push_round st : main_inv st -> m_pc st = PushSell \/ m_pc st = PushBuy ->
  exists st', driver st = Ok st' /\ advances st st'.
Proof.
  intros [HP HR Hi Ht0 Hh] Hpc. unfold phase in HP. destruct st as [inb outb run bk ar answer pc i t0 n a b c d].
  cbn [m_pc m_i] in *. unfold driver, advances, rounds_left. destruct Hpc as [-> | ->]; cbn [over timing] in *.
  - destruct HP as [V1 V2 V3 V4 V5 V6 V7]. destruct (Spsc.push_spec _ ring_ok _ _ (make_order i SELL) V1) as (q & Hq & Hq').
    cbn [m_inbound] in Hq. rewrite Hq. cbn [mbind res_bind]. eexists. split; [done|].
    split; [split; try done; [left; by split|left; by destruct HR]|]. cbn [m_pc m_i m_answer m_outbound] in *.
    rewrite V3, (Spsc.contents_repr _ ring_ok _ _ V2). simpl. lia.
  - destruct HP as (slot & [V1 V2 V3 V4 V5 V6 V7]). destruct (Spsc.push_spec _ ring_ok _ _ (make_order (TOTAL + i) BUY) V1) as (q & Hq & Hq').
    cbn [m_inbound] in Hq. rewrite Hq. cbn [mbind res_bind]. eexists. split; [done|].
    split; [split; try done; [left; exists slot; by split|left; by destruct HR]|]. cbn [m_pc m_i m_answer m_outbound] in *.
    rewrite V3, (Spsc.contents_repr _ ring_ok _ _ V2). simpl. lia.
Qed.

Lemma ack_round st slot sf : main_inv st -> m_pc st = PopAck -> view st [] [sf] None (primed slot (m_i st)) 3 ->
  exists st', driver st = Ok st' /\ advances st st'.
Proof.
  intros [_ HR Hi _ Hh] Hpc [V1 V2 V3 V4 V5 V6 V7]. destruct st as [inb outb run bk ar answer pc i t0 n a b c d].
  cbn [m_pc m_i m_answer m_outbound m_reads] in *. subst pc n. unfold driver, advances, rounds_left.
  destruct (Spsc.pop_spec _ ring_ok _ _ V2) as (q & Hq & Hq'). rewrite Hq. cbn [mbind res_bind head tail] in *. eexists. split; [done|].
  split; [split; try done; [exists slot; split; try done; cbn; lia|left; by destruct HR]|].
  cbn [m_pc m_i m_answer m_outbound] in *. rewrite V3, (Spsc.contents_repr _ ring_ok _ _ V2). simpl. lia.
Qed.

Lemma fill_round st : main_inv st -> m_pc st = PopFill -> view st [] [stamped (m_i st)] None empty_book 7 ->
  exists st', driver st = Ok st' /\ advances st st'.
Proof.
  intros [_ HR Hi Ht0 (H1 & H2 & H3 & H4)] Hpc [V1 V2 V3 V4 V5 V6 V7]. destruct st as [inb outb run bk ar answer pc i t0 n a b c d].
  cbn [m_pc m_i m_answer m_outbound m_reads m_t0 h_in h_match h_out h_total] in *. subst pc. cbn [over timing] in *.
  specialize (Ht0 eq_refl). subst n t0 a b c d. unfold driver, advances, rounds_left.
  destruct (Spsc.pop_spec _ ring_ok _ _ V2) as (q & Hq & Hq'). rewrite Hq. cbn [mbind res_bind head tail] in *.
  rewrite !record_ns_Ok. cbn [mbind res_bind sf_t1 sf_t2 sf_t3 stamped].
  assert (Hhist : (if WARMUP <=? i then
      a ← record_ns (transit_in <$> rounds i) (tsc (8 * i + 4) - tsc (8 * i + 3));
      b ← record_ns (compute <$> rounds i) (tsc (8 * i + 5) - tsc (8 * i + 4));
      c ← record_ns (transit_out <$> rounds i) (tsc (8 * i + 7) - tsc (8 * i + 6));
      d ← record_ns (round_trip <$> rounds i) (tsc (8 * i + 7) - tsc (8 * i + 3)); Ok (a, b, c, d)
     else Ok (transit_in <$> rounds i, compute <$> rounds i, transit_out <$> rounds i, round_trip <$> rounds i)) =
    Ok (transit_in <$> rounds (i + 1), compute <$> rounds (i + 1), transit_out <$> rounds (i + 1), round_trip <$> rounds (i + 1))).
  { rewrite !rounds_next, !record_ns_Ok by lia. destruct (WARMUP <=? i); [done|by rewrite !app_nil_r]. }
  rewrite !record_ns_Ok in Hhist. cbn [mbind res_bind] in Hhist. rewrite Hhist. cbn [mbind res_bind]. eexists. split; [done|].
  cbn [m_pc m_i m_answer m_outbound]. rewrite (Spsc.contents_repr _ ring_ok _ _ V2).
  destruct (Z.ltb_spec (i + 1) TOTAL); (split; [split; cbn; try done; try lia; try (left; by destruct HR); split; try done; cbn; lia|subst answer; simpl; lia]).
Qed.

Lemma stop_round st : main_inv st -> m_pc st = Stop -> exists st', driver st = Ok st' /\ advances st st'.
Proof.
  intros [HP HR Hi Ht0 Hh] Hpc. unfold phase in HP. destruct st as [inb outb run bk ar answer pc i t0 n a b c d].
  cbn [m_pc] in *. subst pc. eexists. split; [done|]. split; [|done]. destruct HP. split; try done; by right.
Qed.

(** The driver waits for the other thread, is done, or gets on. *)
Lemma stamped_driver_round st : main_inv st -> exists st', driver st = Ok st' /\
  (st' = st /\ (waits st \/ m_pc st = Joined) \/ advances st st').
Proof.
  intros HI. pose proof (mi_phase _ HI) as HP. unfold phase in HP. destruct (m_pc st) eqn:Hpc.
  - destruct (push_round st HI) as (st' & ? & ?); [by left|]. exists st'. split; [done|by right].
  - destruct HP as [HV|(slot & sf & [HV|HV])].
    + exists st. split; [by eapply wait_round; [|left|]|]. left. split; [done|]. left. left. by split; [|left].
    + exists st. split; [by eapply wait_round; [|left|]|]. left. split; [done|]. left. left. split; [done|]. right. by exists slot, sf.
    + destruct (ack_round st slot sf HI Hpc HV) as (st' & ? & ?). exists st'. split; [done|by right].
  - destruct (push_round st HI) as (st' & ? & ?); [by right|]. exists st'. split; [done|by right].
  - destruct HP as [(slot & HV)|[HV|HV]].
    + exists st. split; [by eapply wait_round; [|right|]|]. left. split; [done|]. left. right. split; [done|]. left. by exists slot.
    + exists st. split; [by eapply wait_round; [|right|]|]. left. split; [done|]. left. right. split; [done|]. by right.
    + destruct (fill_round st HI Hpc HV) as (st' & ? & ?). exists st'. split; [done|by right].
  - destruct (stop_round st HI Hpc) as (st' & ? & ?). exists st'. split; [done|by right].
  - exists st. split; [by destruct st; cbn in Hpc; subst|]. left. split; [done|by right].
Qed.

(** The shard thread takes the sell, or the buy. *)
Lemma take_sell st : main_inv st -> m_pc st = PopAck -> view st [make_order (m_i st) SELL] [] None empty_book 0 ->
  exists st', shard_thread st = Ok st' /\ advances st st'.
Proof.
  intros [_ HR Hi _ Hh] Hpc [V1 V2 V3 V4 V5 V6 V7]. destruct st as [inb outb run bk ar answer pc i t0 n a b c d].
  cbn [m_pc m_i m_answer m_inbound m_outbound m_reads m_running m_book m_arena] in *. subst pc n answer. cbn [over] in Hi.
  destruct (Spsc.pop_spec _ ring_ok _ _ V1) as (q & Hq & Hq'). assert (run = true) as -> by (by destruct HR).
  destruct (book_takes bk ar empty_book i SELL V4 V5 V6 ltac:(done)) as (slot & h & rests & fs & ab' & bk' & ar' & Hrun & Hadd & Habs & HB & HP).
  assert (Hspec : spec_add ix empty_book (make_order i SELL) slot 64 = (true, [], primed slot i)) by done.
  rewrite Hspec in Hadd. injection Hadd as <- <- <-. unfold shard_thread, advances, rounds_left. rewrite Hq. cbn [mbind res_bind head].
  rewrite Hrun. cbn [mbind res_bind]. eexists. split; [done|]. cbn [m_pc m_i m_answer m_outbound] in *.
  rewrite (Spsc.contents_repr _ ring_ok _ _ V2). split; [|simpl; lia].
  split; try done. right. exists slot. eexists. left. split; try done; cbn; lia.
Qed.

Lemma take_buy st slot : main_inv st -> m_pc st = PopFill -> view st [make_order (TOTAL + m_i st) BUY] [] None (primed slot (m_i st)) 4 ->
  exists st', shard_thread st = Ok st' /\ advances st st'.
Proof.
  intros [_ HR Hi Ht0 Hh] Hpc [V1 V2 V3 V4 V5 V6 V7]. destruct st as [inb outb run bk ar answer pc i t0 n a b c d].
  cbn [m_pc m_i m_answer m_inbound m_outbound m_reads m_running m_book m_arena m_t0] in *. subst pc n answer. cbn [over timing] in *.
  destruct (Spsc.pop_spec _ ring_ok _ _ V1) as (q & Hq & Hq'). assert (run = true) as -> by (by destruct HR).
  destruct (book_takes bk ar (primed slot i) (TOTAL + i) BUY V4 V5 V6 ltac:(done)) as (slot' & h & rests & fs & ab' & bk' & ar' & Hrun & Hadd & Habs & HB & HP).
  assert (Hspec : spec_add ix (primed slot i) (make_order (TOTAL + i) BUY) slot' 64 = (false, [sf_fill (stamped i)], empty_book)) by done.
  rewrite Hspec in Hadd. injection Hadd as <- <- <-. unfold shard_thread, advances, rounds_left. rewrite Hq. cbn [mbind res_bind head].
  rewrite Hrun. cbn [mbind res_bind]. eexists. split; [done|]. cbn [m_pc m_i m_answer m_outbound] in *.
  rewrite (Spsc.contents_repr _ ring_ok _ _ V2). split; [|simpl; lia].
  split; try done. right. left. split; try done; cbn; [|lia]. unfold stamped. do 2 f_equal; f_equal; lia.
Qed.

(** It pushes its answer. *)
Lemma answer_round st sf ab n : main_inv st -> view st [] [] (Some sf) ab n ->
  m_pc st = PopAck /\ n = 3 /\ (exists slot, ab = primed slot (m_i st)) \/
    m_pc st = PopFill /\ n = 7 /\ ab = empty_book /\ sf = stamped (m_i st) ->
  exists st', shard_thread st = Ok st' /\ advances st st'.
Proof.
  intros [_ HR Hi Ht0 Hh] [V1 V2 V3 V4 V5 V6 V7] Hcase. destruct st as [inb outb run bk ar answer pc i t0 m a b c d].
  cbn [m_pc m_i m_answer m_inbound m_outbound m_reads m_running m_book m_arena m_t0] in *. subst answer.
  destruct (Spsc.push_spec _ ring_ok _ _ sf V2) as (q & Hq & Hq'). change (zlen [] <? QUEUE) with true in Hq, Hq'.
  unfold shard_thread, advances, rounds_left. rewrite Hq. cbn [mbind res_bind]. eexists. split; [done|].
  cbn [m_pc m_i m_answer m_outbound app] in *. rewrite (Spsc.contents_repr _ ring_ok _ _ Hq').
  destruct Hcase as [(-> & -> & slot & ->)|(-> & -> & -> & ->)]; cbn [over timing] in *; (split; [|simpl; lia]).
  - split; try done. right. exists slot, sf. right. by split.
  - split; try done. right. right. by split.
Qed.

Lemma serve_round st : main_inv st -> waits st -> exists st', shard_thread st = Ok st' /\ advances st st'.
Proof.
  intros HI [[Hpc [HV|(slot & sf & HV)]]|[Hpc [(slot & HV)|HV]]].
  - by apply take_sell.
  - apply (answer_round st sf _ _ HI HV). left. split; [done|]. split; [done|by exists slot].
  - by apply (take_buy st slot).
  - apply (answer_round st _ _ _ HI HV). by right.
Qed.

Lemma stamped_shard_round st : main_inv st -> exists st', shard_thread st = Ok st' /\ (st' = st \/ advances st st').
Proof.
  intros HI. assert (waits st \/ exists l ab n, view st [] l None ab n) as [Hw|(l & ab & n & HV)].
  { pose proof (mi_phase _ HI) as HP. unfold phase, waits in *. destruct (m_pc st).
    - eauto 10.
    - destruct HP as [HV|(slot & sf & [HV|HV])]; eauto 10.
    - destruct HP as (slot & HV). eauto 10.
    - destruct HP as [(slot & HV)|[HV|HV]]; eauto 10.
    - eauto 10.
    - eauto 10. }
  - destruct (serve_round st HI Hw) as (st' & ? & ?). exists st'. split; [done|by right].
  - exists st. split; [|by left]. destruct HV as [V1 V2 V3 V4 V5 V6 V7]. destruct (Spsc.pop_spec _ ring_ok _ _ V1) as (q & Hq & _).
    destruct st as [inb outb run bk ar answer pc i t0 m a b c d]. cbn [m_answer m_inbound] in *. subst answer.
    unfold shard_thread. rewrite Hq. by destruct run.
Qed.

Lemma stamped_main_inv_step st st' : step st st' -> main_inv st -> main_inv st' /\ (st' = st \/ rounds_left st' = rounds_left st - 1).
Proof.
  intros [st1 st2 Hrun|st1 st2 Hrun] HI.
  - destruct (stamped_driver_round st1 HI) as (st3 & Hrun' & Hc). rewrite Hrun in Hrun'. injection Hrun' as <-.
    destruct Hc as [[-> _]|[? ?]]; [split; [done|by left]|split; [done|by right]].
  - destruct (stamped_shard_round st1 HI) as (st3 & Hrun' & Hc). rewrite Hrun in Hrun'. injection Hrun' as <-.
    destruct Hc as [->|[? ?]]; [split; [done|by left]|split; [done|by right]].
Qed.

Lemma stamped_main_inv_reachable st st' : rtc step st st' -> main_inv st -> main_inv st'.
Proof. induction 1 as [|st1 st2 st3 Hstep _ IH]; [done|]. intros HI. by apply IH, (stamped_main_inv_step _ _ Hstep). Qed.

Lemma main_inv_start inb outb bk ar : Spsc.queue_repr QUEUE inb [] -> Spsc.queue_repr QUEUE outb [] ->
  book_wf MAX_ORDERS LADDER_SIZE bk ar [] -> base_price_ bk = 900 -> tick_size_ bk = 1 -> book_abs bk ar = empty_book ->
  main_inv (main_start inb outb bk ar).
Proof.
  intros Hi Ho HB Eb Et Habs. split; [by split|by left|done|done|].
  cbn [m_i h_in h_match h_out h_total main_start]. unfold rounds. by rewrite seqZ_nil by (unfold WARMUP; lia).
Qed.

Lemma stamped_main_inv_init : main_inv main_init.
Proof.
  destruct (book_init_wf MAX_ORDERS LADDER_SIZE 900 1 params eq_refl) as [HB Habs].
  apply main_inv_start; [apply (Spsc.queue_init_repr _ ring_ok)..|exact HB| | |exact Habs].
  - unfold book_init. cbn [base_price_]. reflexivity.
  - unfold book_init. cbn [tick_size_]. reflexivity.
Qed.

Lemma stamped_rounds_left_nonneg st : main_inv st -> 0 <= rounds_left st.
Proof.
  intros [_ _ Hi _ _]. unfold rounds_left.
  destruct (m_pc st); cbn [over] in Hi; try lia; destruct (m_answer st); try lia; destruct (bool_decide _); lia.
Qed.

(** While there is work, one of the threads can get on with it. *)
Lemma stamped_rounds_progress st : main_inv st -> 0 < rounds_left st ->
  exists st', step st st' /\ main_inv st' /\ rounds_left st' < rounds_left st.
Proof.
  intros HI Hpos. destruct (stamped_driver_round st HI) as (st1 & Hd & [(-> & [Hw|Hj])|[HI1 Hlt]]).
  - destruct (serve_round st HI Hw) as (st2 & Hs & HI2 & Hlt). exists st2. split; [by apply step_shard|]. split; [done|lia].
  - unfold rounds_left in Hpos. rewrite Hj in Hpos. lia.
  - exists st1. split; [by apply step_driver|]. split; [done|lia].
Qed.

(** A duration in nanoseconds, when the product fits. *)
Lemma ns_exact ticks : 0 <= ticks -> ticks * Util.NS_PER_SEC < 2 ^ 63 -> ns ticks = ticks * Util.NS_PER_SEC / hz.
Proof.
  intros H0 Hfit. unfold ns. assert (ticks < 2 ^ 63) by (unfold Util.NS_PER_SEC in Hfit; lia).
  rewrite (wrapU_small 64 ticks) by lia. assert (0 <= ticks * Util.NS_PER_SEC) by (unfold Util.NS_PER_SEC; lia).
  rewrite wrapU_small by lia. apply wrapS_small; [lia|].
  pose proof (Z.div_pos (ticks * Util.NS_PER_SEC) hz ltac:(lia) Hhz).
  pose proof (Z.div_le_upper_bound (ticks * Util.NS_PER_SEC) hz (ticks * Util.NS_PER_SEC) Hhz ltac:(nia)). lia.
Qed.

(** Rounding four parts of a sum down loses at most three. *)
Lemma div_parts a b c d : let q x := x / hz in
  q a + q b + q c + q d <= q (a + b + c + d) <= q a + q b + q c + q d + 3.
Proof.
  intros q. unfold q. pose proof (Z.div_mod a hz ltac:(lia)). pose proof (Z.mod_pos_bound a hz Hhz).
  pose proof (Z.div_mod b hz ltac:(lia)). pose proof (Z.mod_pos_bound b hz Hhz).
  pose proof (Z.div_mod c hz ltac:(lia)). pose proof (Z.mod_pos_bound c hz Hhz).
  pose proof (Z.div_mod d hz ltac:(lia)). pose proof (Z.mod_pos_bound d hz Hhz).
  pose proof (Z.div_mod (a + b + c + d) hz ltac:(lia)). pose proof (Z.mod_pos_bound (a + b + c + d) hz Hhz).
  split; nia.
Qed.

(** The readings of round [j] do not run backwards, and its time in
    nanoseconds times the frequency fits in 63 bits. *)
Definition round_timed (j : Z) : Prop :=
  tsc (8 * j + 3) <= tsc (8 * j + 4) <= tsc (8 * j + 5) /\ tsc (8 * j + 5) <= tsc (8 * j + 6) <= tsc (8 * j + 7) /\
  (tsc (8 * j + 7) - tsc (8 * j + 3)) * Util.NS_PER_SEC < 2 ^ 63.

Definition stamping (j : Z) : Z := ns (tsc (8 * j + 6) - tsc (8 * j + 5)).

Lemma parts_add_up j : round_timed j ->
  0 <= transit_in j /\ 0 <= compute j /\ 0 <= transit_out j /\
  transit_in j + compute j + transit_out j + stamping j <= round_trip j <=
    transit_in j + compute j + transit_out j + stamping j + 3.
Proof.
  intros ([? ?] & [? ?] & Hfit). unfold transit_in, compute, transit_out, stamping, round_trip.
  assert (Hn : 0 < Util.NS_PER_SEC) by done.
  rewrite !ns_exact by (lia || nia).
  pose proof (div_parts ((tsc (8 * j + 4) - tsc (8 * j + 3)) * Util.NS_PER_SEC) ((tsc (8 * j + 5) - tsc (8 * j + 4)) * Util.NS_PER_SEC)
    ((tsc (8 * j + 7) - tsc (8 * j + 6)) * Util.NS_PER_SEC) ((tsc (8 * j + 6) - tsc (8 * j + 5)) * Util.NS_PER_SEC)) as Hd.
  cbv zeta in Hd. rewrite <- !Z.mul_add_distr_r in Hd.
  replace (tsc (8 * j + 4) - tsc (8 * j + 3) + (tsc (8 * j + 5) - tsc (8 * j + 4)) + (tsc (8 * j + 7) - tsc (8 * j + 6)) +
    (tsc (8 * j + 6) - tsc (8 * j + 5))) with (tsc (8 * j + 7) - tsc (8 * j + 3)) in Hd by lia.
  split; [apply Z.div_pos; nia|]. split; [apply Z.div_pos; nia|]. split; [apply Z.div_pos; nia|]. exact Hd.
Qed.

(** The breakdown benchmark splits the time it means to split: in every
    interleaving of its two threads neither meets undefined behaviour, the
    answer that ends a timed wait carries the fill of round [i]'s sell and the
    stamps of round [i]'s buy and never those of another order ([phase]); the
    four histograms hold, for the same rounds in the same order, the inbound
    transit, the matching, the outbound transit and the round trip; and for a
    round whose stamps do not run backwards the parts add up to the round trip
    up to the time between the shard's last two stamps and 3 ns of rounding. *)
Theorem breakdown_adds_up st : rtc step main_init st ->
  (exists st', driver st = Ok st') /\ (exists st', shard_thread st = Ok st') /\ phase st /\
  h_in st = transit_in <$> rounds (m_i st) /\ h_match st = compute <$> rounds (m_i st) /\
  h_out st = transit_out <$> rounds (m_i st) /\ h_total st = round_trip <$> rounds (m_i st) /\
  forall j, j ∈ rounds (m_i st) -> round_timed j ->
    0 <= transit_in j /\ 0 <= compute j /\ 0 <= transit_out j /\
    transit_in j + compute j + transit_out j + stamping j <= round_trip j <=
      transit_in j + compute j + transit_out j + stamping j + 3.
Proof.
  intros Hrun. pose proof (stamped_main_inv_reachable _ _ Hrun stamped_main_inv_init) as HI.
  destruct (stamped_driver_round st HI) as (st' & ? & _), (stamped_shard_round st HI) as (st2 & ? & _), (mi_hist _ HI) as (? & ? & ? & ?).
  split; [by exists st'|]. split; [by exists st2|]. split; [apply HI|]. do 4 (split; [done|]).
  intros j _. apply parts_add_up.
Qed.

(** The breakdown benchmark ends: each step of its two threads changes
    nothing or does one of the [rounds_left] rounds of work, and from every
    state some schedule stops the shard thread with [MEASURE] values in each
    histogram. *)
Theorem breakdown_ends st : rtc step main_init st ->
  0 <= rounds_left st /\
  (forall st', step st st' -> st' = st \/ rounds_left st' = rounds_left st - 1) /\
  exists st', rtc step st st' /\ m_pc st' = Joined /\
    zlen (h_in st') = MEASURE /\ zlen (h_match st') = MEASURE /\ zlen (h_out st') = MEASURE /\ zlen (h_total st') = MEASURE.
Proof.
  intros Hrun. pose proof (stamped_main_inv_reachable _ _ Hrun stamped_main_inv_init) as HI.
  split; [by apply stamped_rounds_left_nonneg|]. split; [intros st' Hstep; by apply stamped_main_inv_step|].
  destruct (reaches_end step main_inv rounds_left stamped_rounds_left_nonneg stamped_rounds_progress st HI) as (st' & Hrest & HI' & Hz).
  exists st'. split; [done|]. pose proof (mi_i _ HI') as Hi. destruct (mi_hist _ HI') as (-> & -> & -> & ->).
  assert (Hpc : m_pc st' = Joined).
  { unfold rounds_left in Hz. destruct (m_pc st'); cbn [over] in Hi; try done; try lia;
      destruct (m_answer st'); try lia; destruct (bool_decide _); lia. }
  rewrite Hpc in Hi. cbn [over] in Hi. rewrite Hi. split; [done|].
  assert (HL : zlen (rounds TOTAL) = MEASURE) by (unfold zlen, rounds; rewrite length_seqZ; unfold TOTAL, WARMUP, MEASURE; lia).
  assert (HF : forall f : Z -> Z, zlen (f <$> rounds TOTAL) = MEASURE) by (intros f; rewrite zlen_fmap; exact HL).
  do 3 (split; [apply HF|]). apply HF.
Qed.

End bench.

Definition demo_tsc (j : Z) : Z := 1000 + 300 * j.

Lemma breakdown_adds_up_witness :
  exists st', driver demo_tsc 3000000000 main_init = Ok st' /\ phase demo_tsc main_init.
Proof.
  destruct (breakdown_adds_up demo_tsc 3000000000 ltac:(lia) main_init ltac:(apply rtc_refl)) as ((st' & H1) & _ & H2 & _).
  exists st'. split; [exact H1|exact H2].
Defined.

Lemma breakdown_ends_witness :
  exists st', rtc (step demo_tsc 3000000000) main_init st' /\ zlen (h_total st') = 200000.
Proof.
  destruct (breakdown_ends demo_tsc 3000000000 ltac:(lia) main_init ltac:(apply rtc_refl)) as (_ & _ & st' & H1 & _ & _ & _ & _ & H2).
  exists st'. split; [exact H1|exact H2].
Defined.

End BenchBreakdown.
