(* ===== verification/BenchScaling.v ===== *)
(** * The shards of the scaling benchmark ([bench/shard_scaling.cc])

    The load of [run<N>] and what one shard makes of its part: the symbols each
    shard is given, the cycle of orders that rests one sell per symbol and then
    matches it, and the shard under the turns of its thread.  The threads of a
    run are in [BenchScalingRun]. *)

From stdpp Require Import relations.
From S2P Require Import Prelude Messages Order LevelBitmap Pool PriceLevel OrderHandle OrderBook Spsc.
From S2P Require Import BookSpec BookInv BookMatch BookRefine BookLaws BookAbs BookProps Shard ShardInv ShardProps ShardRouter.
From S2P Require Import Harness.

Module BenchScaling.
Import PriceLevel OrderHandle OrderBook BookSpec BookInv BookAbs BookProps Shard ShardInv ShardProps ShardRouter Harness.

Definition SYMBOL_COUNT : Z := 32.
Definition MAX_ORDERS : Z := 65536.
Definition LADDER_SIZE : Z := 2048.
Definition QUEUE_DEPTH : Z := 8192.
Definition BASE_PRICE : Z := 900.
Definition TICK_SIZE : Z := 1.
Definition ORDER_PRICE : Z := 1000.
Definition ORDER_QTY : Z := 1.

Definition SHARD_CFG (N : Z) : ShardConfig :=
  mkConfig MAX_ORDERS LADDER_SIZE QUEUE_DEPTH (u16 (SYMBOL_COUNT / N)) SYMBOL_COUNT.

Definition cycle_order (i : Z) : NewOrder :=
  mkNewOrder (mkHeader sizeof_NewOrder NEW_ORDER 0 0) i ORDER_PRICE ORDER_QTY (u16 (i mod SYMBOL_COUNT))
    (if i <? SYMBOL_COUNT then SELL else BUY) GTC.

Definition build_cycle : list InboundMsg := (fun i => order_msg (cycle_order i)) <$> seqZ 0 (SYMBOL_COUNT * 2).

Section bench.
Context (N : Z).

(** [for (uint16_t s = i; s < SYMBOL_COUNT; s += N) symbols.push_back(s)]; with
    [1 <= N] the loop ends within [SYMBOL_COUNT] rounds. *)
Fixpoint symbols_from (fuel : nat) (s : Z) : list Z :=
  match fuel with
  | O => []
  | S fuel => if s <? SYMBOL_COUNT then s :: symbols_from fuel (u16 (s + N)) else []
  end.
Definition symbols (i : Z) : list Z := symbols_from (Z.to_nat SYMBOL_COUNT) (u16 i).

(** [owned] and [ptrs]: the shards [i], [i + 1], ..., [n] of them. *)
Fixpoint make_shards (n : nat) (i : Z) : res (list Shard) :=
  match n with
  | O => Ok []
  | S n =>
      sh ← shard_init (SHARD_CFG N) BASE_PRICE TICK_SIZE (u8 i) (symbols i);
      shards ← make_shards n (i + 1);
      Ok (sh :: shards)
  end.

(** ** The orders of one shard *)

(** The shard counts that divide the symbols evenly; [main] runs 1 and 2. *)
Definition splits : Prop := N = 1 \/ N = 2 \/ N = 4 \/ N = 8 \/ N = 16 \/ N = 32.

Definition M : Z := SYMBOL_COUNT / N.

(** The [j]-th order that shard [i] gets, as an index of the cycle; it sells
    in the first half of the shard's own cycle and buys in the second. *)
Definition nth_order (i j : Z) : Z := (i + N * j) mod (SYMBOL_COUNT * 2).
Definition position (j : Z) : Z := j mod (2 * M).
Definition book_no (j : Z) : Z := if position j <? M then position j else position j - M.

(** How many of the first [n] orders are for shard [i]. *)
Definition pushed (i n : Z) : Z := n / N + (if i <? n mod N then 1 else 0).

Definition requests (i k p : Z) : list InboundMsg := (fun j => order_msg (cycle_order (nth_order i j))) <$> seqZ k (p - k).

(** The books of shard [i] after its first [k] orders. *)
Definition resting (k b : Z) : bool := (b <? position k) && (position k <=? M + b).
Definition book_at (i k b : Z) (ab : ABook) : Prop :=
  if resting k b then exists slot, ab = mkABook [] [resting_of (cycle_order (i + N * b)) slot 1] else ab = mkABook [] [].

(** The report of shard [i]'s [j]-th order. *)
Definition answers (i j : Z) (m : OutboundMsg) : Prop :=
  let c := nth_order i j in
  if c <? SYMBOL_COUNT then exists token, m = ack_of c token 0
  else m = out_fill (mkFill (mkHeader sizeof_Fill FILL 0 0) c (c - SYMBOL_COUNT) ORDER_PRICE ORDER_QTY 0).

Definition locals (i : Z) : list Z := (fun s => if s mod N =? i then s / N else NO_BOOK) <$> seqZ 0 SYMBOL_COUNT.

(** Shard [i], with the reports its thread has still to push, when [n] orders
    were pushed: it served [k] of its own in order, one report each, of which
    the drainer took [d]. *)
Definition serving (i n : Z) (sh : Shard) (box : list OutboundMsg) : Prop := exists d k abs l,
  0 <= d <= k /\ k <= pushed i n /\
  engine_view (SHARD_CFG N) BASE_PRICE TICK_SIZE sh (locals i) abs (requests i k (pushed i n)) l /\
  (forall b, 0 <= b < M -> exists ab, abs !! b = Some ab /\ book_at i k b ab) /\ zlen abs = M /\
  Forall2 (answers i) (seqZ d (k - d)) (l ++ box) /\ zlen box <= 1.

End bench.

(** ** The shards of one run *)

Ltac each_split H := destruct H as [-> | [-> | [-> | [-> | [-> | ->]]]]].

Lemma divides N : splits N -> 0 < N /\ 0 < M N /\ N * M N = SYMBOL_COUNT.
Proof. intros HN. by each_split HN. Qed.

Lemma scaling_cfg_ok N : splits N -> config_ok (SHARD_CFG N).
Proof. intros HN. each_split HN; (split; [by split|done|by exists 13|done|done]). Qed.

Lemma max_symbols_M N : splits N -> max_symbols (SHARD_CFG N) = M N.
Proof. intros HN. by each_split HN. Qed.

(** The symbols handed to shard [i] are those that the router sends there. *)
Definition hosts (N i : Z) : bool :=
  match assign_symbols (SHARD_CFG N) (symbols N i) 0 (replicate (Z.to_nat SYMBOL_COUNT) NO_BOOK) with
  | Ok local_of => bool_decide (local_of = locals N i) | Err _ => false end &&
  (0 <? zlen (symbols N i)) && (zlen (symbols N i) <=? M N) && forallb (fun s => (0 <=? s) && (s <? SYMBOL_COUNT)) (symbols N i).

Lemma hosts_all N i : splits N -> 0 <= i < N -> hosts N i = true.
Proof.
  intros HN Hi. assert (Hall : forallb (hosts N) (seqZ 0 N) = true) by (by each_split HN; vm_compute).
  rewrite forallb_forall in Hall. apply Hall. apply list_elem_of_In, elem_of_seqZ. lia.
Qed.

Abbreviation view N := (engine_view (SHARD_CFG N) BASE_PRICE TICK_SIZE).

Lemma shard_starts N i : splits N -> 0 <= i < N ->
  exists sh, shard_init (SHARD_CFG N) BASE_PRICE TICK_SIZE (u8 i) (symbols N i) = Ok sh /\ running_ sh = true /\
    view N sh (locals N i) (replicate (Z.to_nat (M N)) (mkABook [] [])) [] [].
Proof.
  intros HN Hi. pose proof (hosts_all N i HN Hi) as Hh. unfold hosts in Hh. rewrite !andb_true_iff in Hh.
  destruct Hh as [[[Hl H1] H2] H3]. apply Z.ltb_lt in H1. apply Z.leb_le in H2.
  assert (HF : Forall (fun s => 0 <= s < SYMBOL_SPACE (SHARD_CFG N)) (symbols N i)).
  { apply Forall_forall. intros s Hs. rewrite forallb_forall in H3. apply list_elem_of_In, H3 in Hs.
    apply andb_true_iff in Hs as [?%Z.leb_le ?%Z.ltb_lt]. by change (SYMBOL_SPACE (SHARD_CFG N)) with SYMBOL_COUNT. }
  destruct (assign_symbols _ _ _ _) as [local_of|] eqn:Ea; [|done]. apply bool_decide_eq_true in Hl. subst local_of.
  pose proof (scaling_cfg_ok N HN) as HC. pose proof (max_symbols_M N HN) as EM.
  assert (Hid : is_u 8 (u8 i)) by (apply wrapU_bound; lia).
  destruct (shard_init_spec (SHARD_CFG N) HC BASE_PRICE TICK_SIZE (u8 i) (symbols N i)) as (sh & Hrun & _); [done|done|lia|done|].
  exists sh. split; [done|]. pose proof (view_init _ HC BASE_PRICE TICK_SIZE (u8 i) (symbols N i) sh ltac:(done) Hid ltac:(lia) HF Hrun) as HV.
  rewrite EM in HV. assert (local_of_ sh = locals N i /\ running_ sh = true) as [<- ?]; [|done].
  unfold shard_init in Hrun. change (Z.to_nat (SYMBOL_SPACE (SHARD_CFG N))) with (Z.to_nat SYMBOL_COUNT) in Hrun.
  destruct (symbols N i) as [|s0 ss] eqn:Es; [done|]. rewrite Ea in Hrun.
  unfold assert_ in Hrun. rewrite EM, (proj2 (Z.leb_le _ _) H2) in Hrun. cbn [mbind res_bind] in Hrun. by injection Hrun as <-.
Qed.

(** ** The stream of one shard *)

Section shard_stream.
Context (N : Z) (HN : splits N).

Lemma position_range j : 0 <= position N j < 2 * M N.
Proof. destruct (divides N HN) as (_ & HM & _). apply Z.mod_pos_bound. lia. Qed.

Lemma position_next j : position N (j + 1) = if position N j + 1 <? 2 * M N then position N j + 1 else 0.
Proof.
  destruct (divides N HN) as (_ & HM & _). pose proof (position_range j) as Hp. unfold position in *.
  pose proof (Z.div_mod j (2 * M N) ltac:(lia)) as Hd. symmetry.
  destruct (Z.ltb_spec (j mod (2 * M N) + 1) (2 * M N)).
  - apply (Z.mod_unique_pos _ _ (j / (2 * M N))); lia.
  - apply (Z.mod_unique_pos _ _ (j / (2 * M N) + 1)); lia.
Qed.

Lemma book_no_range j : 0 <= book_no N j < M N.
Proof.
  pose proof (position_range j). unfold book_no. destruct (Z.ltb_spec (position N j) (M N)); lia.
Qed.

Lemma nth_order_position i j : 0 <= i < N -> nth_order N i j = i + N * position N j.
Proof.
  intros Hi. destruct (divides N HN) as (HN0 & HM & E). pose proof (position_range j) as Hp. unfold nth_order, position in *.
  pose proof (Z.div_mod j (2 * M N) ltac:(lia)) as Hd. symmetry.
  apply (Z.mod_unique_pos _ _ (j / (2 * M N))); [nia|]. rewrite <- E. rewrite Hd at 1. ring.
Qed.

(** The first half of a cycle sells, the second buys; both go through the
    books of the shard one by one. *)
Lemma nth_order_half i j : 0 <= i < N ->
  (nth_order N i j <? SYMBOL_COUNT) = (position N j <? M N) /\
  nth_order N i j = i + N * book_no N j + (if position N j <? M N then 0 else SYMBOL_COUNT) /\
  0 <= i + N * book_no N j < SYMBOL_COUNT.
Proof.
  intros Hi. destruct (divides N HN) as (HN0 & HM & E). pose proof (position_range j) as Hp. pose proof (book_no_range j) as Hb.
  rewrite nth_order_position by done. unfold book_no in *. rewrite <- E.
  destruct (Z.ltb_spec (position N j) (M N)); [split; [apply Z.ltb_lt; nia|]|split; [apply Z.ltb_ge; nia|]]; (split; [ring|nia]).
Qed.

Lemma nth_order_symbol i j : 0 <= i < N -> no_symbol_id (cycle_order (nth_order N i j)) = i + N * book_no N j.
Proof.
  intros Hi. destruct (nth_order_half i j Hi) as (_ & E & R). cbn [no_symbol_id cycle_order].
  assert (nth_order N i j mod SYMBOL_COUNT = i + N * book_no N j) as ->.
  { symmetry. rewrite E. destruct (_ <? _).
    - rewrite Z.add_0_r. by rewrite Z.mod_small.
    - apply (Z.mod_unique_pos _ _ 1); [done|]. ring. }
  apply wrapU_small. unfold SYMBOL_COUNT in R. lia.
Qed.

Lemma locals_hosted i b : 0 <= i < N -> 0 <= b < M N -> locals N i !! (i + N * b) = Some b.
Proof.
  intros Hi Hb. destruct (divides N HN) as (HN0 & HM & E). unfold locals. rewrite lookupZ_fmap, lookupZ_nat by nia.
  rewrite lookup_seqZ_lt by (rewrite <- E; nia). cbn. rewrite Z.add_0_l, Z2Nat.id by nia.
  rewrite (Z.mul_comm N), Z.mod_add, Z.mod_small, Z.eqb_refl, Z.div_add, Z.div_small by lia. done.
Qed.

(** Order [j] changes book [book_no j] and no other. *)
Lemma resting_served j : resting N j (book_no N j) = negb (position N j <? M N) /\
  resting N (j + 1) (book_no N j) = (position N j <? M N).
Proof.
  destruct (divides N HN) as (_ & HM & _). pose proof (position_range j) as Hp. unfold resting. rewrite position_next.
  unfold book_no. destruct (Z.ltb_spec (position N j) (M N)) as [Hl|Hl]; cbn [negb].
  - rewrite (proj2 (Z.ltb_lt _ (2 * M N))) by lia. split.
    + rewrite Z.ltb_irrefl. done.
    + rewrite (proj2 (Z.ltb_lt _ _)), (proj2 (Z.leb_le _ _)) by lia. done.
  - split; [rewrite (proj2 (Z.ltb_lt _ _)), (proj2 (Z.leb_le _ _)) by lia; done|].
    destruct (Z.ltb_spec (position N j + 1) (2 * M N)).
    + rewrite (proj2 (Z.leb_gt _ _)) by lia. by rewrite andb_false_r.
    + rewrite (proj2 (Z.ltb_ge _ _)) by lia. done.
Qed.

Lemma resting_other j b : 0 <= b < M N -> b <> book_no N j -> resting N (j + 1) b = resting N j b.
Proof.
  intros Hb Hne. pose proof (position_range j) as Hp. unfold resting. rewrite position_next. unfold book_no in Hne.
  destruct (Z.ltb_spec (position N j) (M N)), (Z.ltb_spec (position N j + 1) (2 * M N)); try lia;
    repeat match goal with
    | |- context [?x <? ?y] => destruct (Z.ltb_spec x y)
    | |- context [?x <=? ?y] => destruct (Z.leb_spec x y)
    end; try done; lia.
Qed.

(** The [n]-th order of the producer is the next one of shard [n mod N]. *)
Lemma pushed_next i n : 0 <= n -> 0 <= i < N -> pushed N i (n + 1) = pushed N i n + (if decide (i = n mod N) then 1 else 0).
Proof.
  intros Hn Hi. pose proof (Z.div_mod n N ltac:(lia)) as Hd. pose proof (Z.mod_pos_bound n N ltac:(lia)) as Hr. unfold pushed.
  destruct (Z.lt_ge_cases (n mod N + 1) N) as [Hlt|Hge].
  - assert ((n + 1) / N = n / N) as -> by (symmetry; apply (Z.div_unique_pos _ _ _ (n mod N + 1)); lia).
    assert ((n + 1) mod N = n mod N + 1) as -> by (symmetry; apply (Z.mod_unique_pos _ _ (n / N)); lia).
    destruct (Z.ltb_spec i (n mod N + 1)), (Z.ltb_spec i (n mod N)), (decide (i = n mod N)); lia.
  - assert ((n + 1) / N = n / N + 1) as -> by (symmetry; apply (Z.div_unique_pos _ _ _ 0); lia).
    assert ((n + 1) mod N = 0) as -> by (symmetry; apply (Z.mod_unique_pos _ _ (n / N + 1)); lia).
    destruct (Z.ltb_spec i 0), (Z.ltb_spec i (n mod N)), (decide (i = n mod N)); lia.
Qed.

Lemma pushed_order n : 0 <= n -> nth_order N (n mod N) (pushed N (n mod N) n) = n mod (SYMBOL_COUNT * 2).
Proof.
  intros Hn. destruct (divides N HN) as (HN0 & _ & _). unfold pushed, nth_order. rewrite Z.ltb_irrefl, Z.add_0_r.
  pose proof (Z.div_mod n N ltac:(lia)) as Hd. f_equal. lia.
Qed.

Lemma pushed_0 i : 0 <= i < N -> pushed N i 0 = 0.
Proof.
  intros Hi. unfold pushed. rewrite Z.div_0_l, Z.mod_0_l by lia. by rewrite (proj2 (Z.ltb_ge i 0)) by lia.
Qed.

Lemma requests_next i k p : k <= p -> requests N i k (p + 1) = requests N i k p ++ [order_msg (cycle_order (nth_order N i p))].
Proof.
  intros Hk. unfold requests. replace (p + 1 - k) with (p - k + 1) by lia. rewrite seqZ_app by lia. rewrite fmap_app.
  by replace (k + (p - k)) with p by lia.
Qed.

Lemma requests_take i k p : k < p -> requests N i k p = order_msg (cycle_order (nth_order N i k)) :: requests N i (k + 1) p.
Proof.
  intros Hk. unfold requests. rewrite seqZ_cons by lia. rewrite fmap_cons. do 2 f_equal. f_equal; lia.
Qed.

(** ** Serving it *)

Abbreviation ix := (ladder_idx BASE_PRICE TICK_SIZE).

Lemma sell_rests c slot : 0 <= c < SYMBOL_COUNT ->
  spec_add ix (mkABook [] []) (cycle_order c) slot MAX_FILLS_PER_ORDER = (true, [], mkABook [] [resting_of (cycle_order c) slot 1]).
Proof. intros Hc. unfold cycle_order. by rewrite (proj2 (Z.ltb_lt c SYMBOL_COUNT)) by lia. Qed.

Lemma buy_fills c slot slot' : 0 <= c < SYMBOL_COUNT ->
  spec_add ix (mkABook [] [resting_of (cycle_order c) slot 1]) (cycle_order (c + SYMBOL_COUNT)) slot' MAX_FILLS_PER_ORDER =
    (false, [mkFill (mkHeader sizeof_Fill FILL 0 0) (c + SYMBOL_COUNT) c ORDER_PRICE ORDER_QTY 0], mkABook [] []).
Proof.
  intros Hc. unfold cycle_order. rewrite (proj2 (Z.ltb_lt c SYMBOL_COUNT)) by lia.
  by rewrite (proj2 (Z.ltb_ge (c + SYMBOL_COUNT) SYMBOL_COUNT)) by lia.
Qed.

Lemma cycle_order_ok c : 0 <= c < 64 -> order_ok (cycle_order c).
Proof.
  intros Hc. unfold order_ok, cycle_order. split; [|done].
  assert (Hs : is_u 16 (u16 (c mod SYMBOL_COUNT))) by (apply wrapU_bound; lia).
  assert (Hu : is_u 64 c) by (unfold is_u; lia).
  destruct (c <? SYMBOL_COUNT); repeat (split; try done); first [apply Hs|apply Hu].
Qed.

(** A shard keeps at most one order per symbol. *)
Lemma slots_bound i k abs : (forall b, 0 <= b < M N -> exists ab, abs !! b = Some ab /\ book_at N i k b ab) -> zlen abs = M N ->
  zlen (view_slots abs) <= M N.
Proof.
  intros Hb HL. rewrite <- HL in Hb |- *. assert (HF : Forall (fun ab => zlen (aslots ab) <= 1) abs).
  { apply Forall_forall. intros ab Hab. apply list_elem_of_lookup_1 in Hab as [b Hab].
    rewrite <- lookupZ_of_nat in Hab. pose proof (lookupZ_range _ _ _ Hab) as Rb.
    destruct (Hb _ Rb) as (ab' & E & Hat). rewrite Hab in E. injection E as <-. unfold book_at in Hat.
    destruct (resting N k _); [destruct Hat as [slot ->]; done|by subst]. }
  unfold view_slots. clear Hb HL. induction HF as [|ab abs Hx _ IH]; [done|].
  rewrite fmap_cons, concat_cons, zlen_app, zlen_cons. lia.
Qed.

Lemma answers_next i d k l m : d <= k -> Forall2 (answers N i) (seqZ d (k - d)) l -> answers N i k m ->
  Forall2 (answers N i) (seqZ d (k + 1 - d)) (l ++ [m]).
Proof.
  intros Hd HF Hm. replace (k + 1 - d) with (k - d + 1) by lia. rewrite seqZ_app by lia. apply Forall2_app; [done|].
  replace (d + (k - d)) with k by lia. by repeat constructor.
Qed.

(** Order [k] is served: the sell of a symbol rests, its buy fills it. *)
Lemma book_served i k ab : 0 <= i < N -> 0 <= k -> book_at N i k (book_no N k) ab ->
  let c := nth_order N i k in
  forall slot rests fs ab', spec_add ix ab (cycle_order c) slot MAX_FILLS_PER_ORDER = (rests, fs, ab') ->
  book_at N i (k + 1) (book_no N k) ab' /\
  forall token, exists m, order_reports 0 c rests fs token = [m] /\ answers N i k m.
Proof.
  intros Hi Hk Hat c slot rests fs ab' Hadd. destruct (nth_order_half i k Hi) as (Hh & E & R).
  destruct (resting_served k) as [E1 E2]. unfold book_at, answers in *. rewrite E1 in Hat. rewrite E2. fold c in Hh, E |- *. rewrite Hh.
  destruct (position N k <? M N); cbn [negb] in Hat.
  - subst ab. rewrite Z.add_0_r in E. rewrite sell_rests in Hadd by lia. injection Hadd as <- <- <-. rewrite E.
    split; [by exists slot|]. intros token. exists (ack_of (i + N * book_no N k) token 0). split; [done|]. by exists token.
  - destruct Hat as [slot0 ->]. rewrite E, buy_fills in Hadd by lia. injection Hadd as <- <- <-. split; [done|].
    intros token. eexists. split; [done|]. rewrite E. do 3 f_equal. lia.
Qed.

Lemma shard_fits i k abs : 0 <= i < N ->
  (forall b, 0 <= b < M N -> exists ab, abs !! b = Some ab /\ book_at N i k b ab) -> zlen abs = M N ->
  exists ab, book_at N i k (book_no N k) ab /\
    order_fits (SHARD_CFG N) BASE_PRICE TICK_SIZE (locals N i) abs (cycle_order (nth_order N i k)) (book_no N k) ab.
Proof.
  intros Hi Hbk HL. destruct (Hbk _ (book_no_range k)) as (ab & Hab & Hat). exists ab. split; [done|].
  pose proof (slots_bound i k abs Hbk HL) as Hs. destruct (divides N HN) as (HN0 & HM & EM).
  assert (HM32 : M N <= 32) by (unfold SYMBOL_COUNT in EM; nia).
  split; try done.
  - apply cycle_order_ok. unfold nth_order. by apply Z.mod_pos_bound.
  - rewrite nth_order_symbol by done. by apply locals_hosted; [|apply book_no_range].
  - change (max_orders (SHARD_CFG N)) with 65536. lia.
Qed.

Abbreviation waiting q := (Spsc.contents QUEUE_DEPTH q).

(** Turns and pops that a shard is good for. *)
Definition shard_rank (sh : Shard) (box : list OutboundMsg) : Z :=
  3 * zlen (waiting (inbound_ sh)) + 2 * zlen box + zlen (waiting (outbound_ sh)).

Lemma scaling_waiting sh local abs li l : view N sh local abs li l -> waiting (inbound_ sh) = li /\ waiting (outbound_ sh) = l.
Proof.
  intros HV. pose proof (cf_ring _ (scaling_cfg_ok N HN)) as HQ. change (queue_depth (SHARD_CFG N)) with QUEUE_DEPTH in HQ.
  split; apply Spsc.contents_repr; [done|apply HV|done|apply HV].
Qed.

(** Why a turn of the thread of a shard may change nothing. *)
Definition turn_waits (sh : Shard) (box : list OutboundMsg) : Prop :=
  (box <> [] /\ zlen (waiting (outbound_ sh)) = QUEUE_DEPTH) \/
  (box = [] /\ (running_ sh = false \/ waiting (inbound_ sh) = [])).

(** A turn of the thread takes the next order or pushes the report of the last. *)
Lemma scaling_turn i n sh box : 0 <= i < N -> serving N i n sh box ->
  exists th, thread_turn (SHARD_CFG N) (mkThread sh box) = Ok th /\ serving N i n (th_shard th) (th_outbox th) /\
    running_ (th_shard th) = running_ sh /\
    ((th = mkThread sh box /\ turn_waits sh box) \/ shard_rank (th_shard th) (th_outbox th) < shard_rank sh box).
Proof.
  intros Hi (d & k & abs & l & Hd & Hk & HV & Hbk & HL & HF & Hbox). pose proof (scaling_cfg_ok N HN) as HC.
  destruct (scaling_waiting _ _ _ _ _ HV) as [Ein Eout]. destruct box as [|m rest].
  - destruct (running_ sh) eqn:Er.
    2:{ exists (mkThread sh []). unfold thread_turn. cbn [th_shard th_outbox]. rewrite Er. split; [done|].
        split; [by exists d, k, abs, l|]. split; [done|]. left. split; [done|]. right. split; [done|by left]. }
    destruct (decide (k = pushed N i n)) as [Hdone|Hmore].
    { assert (Enil : requests N i k (pushed N i n) = []) by (unfold requests; by rewrite seqZ_nil by lia). rewrite Enil in *.
      exists (mkThread sh []). unfold thread_turn. cbn [th_shard th_outbox]. rewrite Er, (work_empty _ HC sh (ev_in _ _ _ _ _ _ _ _ HV)). split; [done|].
      split; [exists d, k, abs, l; by rewrite Enil|]. split; [done|]. left. split; [done|]. right. split; [done|by right]. }
    rewrite requests_take in HV by lia. destruct (shard_fits i k abs Hi Hbk HL) as (ab & Hat & Hfit).
    destruct (view_works _ HC _ _ _ _ _ _ _ _ _ _ HV Hfit) as (sh' & slot & rests & fs & ab' & token & Hw & Hadd & _ & HV' & Hr).
    destruct (book_served i k ab Hi ltac:(lia) Hat slot rests fs ab' Hadd) as [Hat' Hrep].
    destruct (Hrep token) as (m & Em & Hm). cbn [no_order_id no_hdr hdr_session_id cycle_order] in Hw. rewrite Em in Hw.
    exists (mkThread sh' [m]). unfold thread_turn. cbn [th_shard th_outbox]. rewrite Er, Hw. split; [done|]. split; [|split; [congruence|]].
    + exists d, (k + 1), (<[book_no N k := ab']> abs), l. split; [lia|]. split; [lia|]. split; [done|].
      split; [|split; [by rewrite zlen_insertZ|split; [rewrite app_nil_r in HF; by apply answers_next; [lia|..]|done]]].
      intros b Hb. rewrite lookupZ_insertZ by (rewrite HL; apply book_no_range). destruct (decide (book_no N k = b)) as [<-|Hne]; [by exists ab'|].
      destruct (Hbk b Hb) as (ab0 & ? & Hat0). exists ab0. split; [done|]. unfold book_at in *. by rewrite resting_other by (done || congruence).
    + right. destruct (scaling_waiting _ _ _ _ _ HV') as [Ein' Eout']. unfold shard_rank. cbn [th_shard th_outbox]. rewrite Ein, Eout, Ein', Eout'.
      rewrite (requests_take i k) by lia. rewrite !zlen_cons. change (zlen [m]) with 1. change (zlen []) with 0. lia.
  - destruct (view_pushes _ HC _ _ _ _ _ _ _ m rest HV) as (th & Ht & Hcase). exists th. split; [done|].
    change (queue_depth (SHARD_CFG N)) with QUEUE_DEPTH in Hcase. destruct (decide _) as [Hlt|Hge].
    + destruct Hcase as (Eb & Hr & HV'). destruct (scaling_waiting _ _ _ _ _ HV') as [Ein' Eout']. rewrite zlen_cons in Hbox. pose proof (zlen_nonneg rest).
      split; [exists d, k, abs, (l ++ [m]); rewrite Eb, <- app_assoc; split_and!; try done; lia|]. split; [done|]. right.
      unfold shard_rank. rewrite Ein, Eout, Ein', Eout', Eb, zlen_app, !zlen_cons. change (zlen []) with 0. lia.
    + subst th. split; [by exists d, k, abs, l|]. split; [done|]. left. split; [done|]. left. split; [done|]. rewrite Eout.
      pose proof (Spsc.queue_repr_len _ _ _ (ev_out _ _ _ _ _ _ _ _ HV)). change (queue_depth (SHARD_CFG N)) with QUEUE_DEPTH in *. lia.
Qed.

(** ** What the other threads do to a shard *)

Lemma serving_popped i n sh box : serving N i n sh box ->
  exists out q, Spsc.pop QUEUE_DEPTH (outbound_ sh) = Ok (out, q) /\ serving N i n (set_outbound sh q) box /\
    match out with
    | None => waiting (outbound_ sh) = []
    | Some _ => shard_rank (set_outbound sh q) box < shard_rank sh box
    end.
Proof.
  intros (d & k & abs & l & Hd & Hk & HV & Hbk & HL & HF & Hbox). destruct (scaling_waiting _ _ _ _ _ HV) as [Ein Eout].
  destruct (view_pop _ (scaling_cfg_ok N HN) _ _ _ _ _ _ _ HV) as (q & Hp & HV'). exists (head l), q. split; [done|].
  destruct l as [|m l]; [split; [exists d, k, abs, []; split_and!; try done; lia|done]|]. cbn [head tail] in *.
  destruct (scaling_waiting _ _ _ _ _ HV') as [Ein' Eout']. split.
  - assert (d < k) by (pose proof (Forall2_length _ _ _ HF) as HL'; rewrite length_seqZ in HL'; simpl in HL'; lia).
    rewrite seqZ_cons in HF by lia. apply Forall2_cons in HF as [_ HF].
    exists (d + 1), k, abs, l. split_and!; try done; [lia..|]. by replace (k - (d + 1)) with (Z.pred (k - d)) by lia.
  - unfold shard_rank. rewrite Ein, Ein', Eout, Eout', zlen_cons. lia.
Qed.

Lemma serving_stopped i n sh box : serving N i n sh box -> serving N i n (stop sh) box.
Proof. intros (d & k & abs & l & ? & ? & HV & ?). exists d, k, abs, l. do 2 (split; [done|]). split; [by apply view_stop|done]. Qed.

(** The producer pushes its [n]-th order, which only concerns shard [n mod N]. *)
Lemma serving_other i n sh box : 0 <= n -> 0 <= i < N -> i <> n mod N -> serving N i n sh box -> serving N i (n + 1) sh box.
Proof. intros Hn Hi Hne HS. unfold serving. rewrite pushed_next, decide_False, Z.add_0_r by done. exact HS. Qed.

Lemma cycle_lookup n : 0 <= n -> aget build_cycle (n mod zlen build_cycle) = Ok (order_msg (cycle_order (n mod (SYMBOL_COUNT * 2)))).
Proof.
  intros Hn. change (zlen build_cycle) with (SYMBOL_COUNT * 2). pose proof (Z.mod_pos_bound n (SYMBOL_COUNT * 2) ltac:(done)) as Hr.
  apply aget_Ok. unfold build_cycle. rewrite lookupZ_fmap, lookupZ_nat, lookup_seqZ_lt by lia. cbn. by rewrite Z.add_0_l, Z2Nat.id by lia.
Qed.

Lemma order_route n : 0 <= n -> route N (order_msg (cycle_order (n mod (SYMBOL_COUNT * 2)))) = Some (n mod N).
Proof.
  intros Hn. destruct (divides N HN) as (HN0 & HM & EM). pose proof (Z.mod_pos_bound n N HN0) as Hi.
  destruct (order_msg_reads (cycle_order (n mod (SYMBOL_COUNT * 2)))) as [Eo Eh]; [apply cycle_order_ok; by apply Z.mod_pos_bound|].
  unfold route. rewrite Eo, Eh. cbn [hdr_type no_hdr cycle_order]. f_equal. rewrite <- pushed_order by done.
  rewrite nth_order_symbol by done. rewrite (Z.mul_comm N), Z.mod_add, Z.mod_small by lia. done.
Qed.

(** It finds the ring full only when the shard has orders to take. *)
Lemma serving_pushed n sh box : 0 <= n -> serving N (n mod N) n sh box ->
  exists (ok : bool) q, Spsc.push QUEUE_DEPTH (inbound_ sh) (order_msg (cycle_order (n mod (SYMBOL_COUNT * 2)))) = Ok (ok, q) /\
    serving N (n mod N) (if ok then n + 1 else n) (set_inbound sh q) box /\
    if ok then shard_rank (set_inbound sh q) box = shard_rank sh box + 3 else q = inbound_ sh /\ waiting (inbound_ sh) <> [].
Proof.
  intros Hn (d & k & abs & l & Hd & Hk & HV & Hrest). destruct (divides N HN) as (HN0 & _ & _). pose proof (scaling_cfg_ok N HN) as HC.
  pose proof (ev_in _ _ _ _ _ _ _ _ HV) as Hin. destruct (scaling_waiting _ _ _ _ _ HV) as [Ein Eout].
  destruct (Spsc.push_spec QUEUE_DEPTH (cf_ring _ HC) _ _ (order_msg (cycle_order (n mod (SYMBOL_COUNT * 2)))) Hin) as (q & Hp & Hq).
  eexists _, q. split; [exact Hp|]. destruct (Z.ltb_spec (zlen (requests N (n mod N) k (pushed N (n mod N) n))) QUEUE_DEPTH) as [Hlt|Hge].
  - assert (HV' : view N (set_inbound sh q) (locals N (n mod N)) abs (requests N (n mod N) k (pushed N (n mod N) (n + 1))) l).
    { rewrite pushed_next, decide_True by (done || by apply Z.mod_pos_bound). rewrite requests_next, pushed_order by lia.
      destruct HV as [V1 V2 V3 V4 V5]. split; try done. by apply shard_wf_inbound. }
    destruct (scaling_waiting _ _ _ _ _ HV') as [Ein' Eout']. split.
    + exists d, k, abs, l. split; [done|]. rewrite pushed_next, decide_True in * by (done || by apply Z.mod_pos_bound). split; [lia|done].
    + unfold shard_rank. rewrite Ein, Eout, Ein', Eout'. rewrite pushed_next, decide_True by (done || by apply Z.mod_pos_bound).
      rewrite requests_next, zlen_app by lia. change (zlen [_]) with 1. lia.
  - split; [exists d, k, abs, l; split; [done|]; split; [done|]; split; [|done]; destruct HV as [V1 V2 V3 V4 V5]; split; try done; by apply shard_wf_inbound|].
    rewrite Ein. split; [|intros E; by rewrite E in Hge].
    unfold Spsc.push, mbind, res_bind in Hp. by repeat case_match; simplify_eq.
Qed.

(** Starting with no orders. *)
Lemma serving_init i sh : 0 <= i < N -> view N sh (locals N i) (replicate (Z.to_nat (M N)) (mkABook [] [])) [] [] -> serving N i 0 sh [].
Proof.
  intros Hi HV. destruct (divides N HN) as (_ & HM & _). exists 0, 0, (replicate (Z.to_nat (M N)) (mkABook [] [])), [].
  rewrite pushed_0 by done. split_and!; try done; [|rewrite zlen_replicate; lia].
  intros b Hb. exists (mkABook [] []). rewrite lookupZ_replicate by lia. split; [done|]. unfold book_at, resting.
  change (position N 0) with (0 mod (2 * M N)). rewrite Z.mod_0_l by lia. by rewrite (proj2 (Z.ltb_ge b 0)) by lia.
Qed.

Lemma make_shards_Ok m i : 0 <= i -> i + Z.of_nat m <= N ->
  exists shards, make_shards N m i = Ok shards /\ zlen shards = Z.of_nat m /\
    forall j sh, shards !! j = Some sh -> serving N (i + j) 0 sh [] /\ running_ sh = true.
Proof.
  revert i. induction m as [|m IH]; intros i H0 Hle.
  { exists []. split; [done|]. split; [done|]. intros j sh Hj%lookupZ_range. change (zlen []) with 0 in Hj. lia. }
  destruct (shard_starts N i HN ltac:(lia)) as (sh & Hrun & Hr & HV).
  destruct (IH (i + 1) ltac:(lia) ltac:(lia)) as (shards & Hrest & HL & HS).
  exists (sh :: shards). cbn [make_shards]. rewrite Hrun. cbn [mbind res_bind]. rewrite Hrest. cbn [mbind res_bind].
  split; [done|]. split; [rewrite zlen_cons; lia|]. intros j sh' Hj. pose proof (lookupZ_range _ _ _ Hj) as Rj.
  rewrite zlen_cons in Rj. destruct (decide (j = 0)) as [->|Hne].
  - injection Hj as <-. rewrite Z.add_0_r. split; [|done]. by apply serving_init; [lia|].
  - replace (i + j) with (i + 1 + (j - 1)) by lia. apply HS. rewrite lookupZ_nat in Hj |- * by lia.
    by replace (Z.to_nat j) with (S (Z.to_nat (j - 1))) in Hj by lia.
Qed.

(** The arena of a shard is at its steady state. *)
Lemma serving_steady i n sh box : 0 <= i < N -> 0 <= n -> serving N i n sh box ->
  zlen (live (arena_ sh) (books_ sh)) <= SYMBOL_COUNT / N /\
  (Spsc.contents QUEUE_DEPTH (inbound_ sh) = [] -> n mod (SYMBOL_COUNT * 2) = 0 -> live (arena_ sh) (books_ sh) = []).
Proof.
  intros Hi Hn (d & k & abs & l & Hd & Hk & HV & Hbk & HL & _). rewrite (view_live _ _ _ _ _ _ _ _ HV).
  split; [by eapply slots_bound|]. rewrite (Spsc.contents_repr QUEUE_DEPTH (cf_ring _ (scaling_cfg_ok N HN)) _ _ (ev_in _ _ _ _ _ _ _ _ HV)).
  intros Hnil Hmod. destruct (divides N HN) as (HN0 & HM & EM).
  assert (Ek : k = pushed N i n).
  { apply (f_equal length) in Hnil. unfold requests in Hnil. rewrite length_fmap, length_seqZ in Hnil. simpl in Hnil. lia. }
  pose proof (Z.div_mod n (SYMBOL_COUNT * 2) ltac:(done)) as Hdm. rewrite Hmod in Hdm. set (c := n / (SYMBOL_COUNT * 2)) in Hdm.
  assert (Ek' : k = 2 * M N * c).
  { rewrite Ek. unfold pushed. assert (En : n = 2 * M N * c * N) by lia. rewrite En, Z.mod_mul, Z.div_mul by lia.
    rewrite (proj2 (Z.ltb_ge i 0)) by lia. lia. }
  assert (Hp : position N k = 0) by (unfold position; rewrite Ek', Z.mul_comm, Z.mod_mul by lia; done).
  assert (HE : Forall (fun ab => ab = mkABook [] []) abs).
  { apply Forall_forall. intros ab Hab. apply list_elem_of_lookup_1 in Hab as [b Hab]. rewrite <- lookupZ_of_nat in Hab.
    pose proof (lookupZ_range _ _ _ Hab) as Rb. rewrite HL in Rb. destruct (Hbk _ Rb) as (ab' & E & Hat).
    rewrite Hab in E. injection E as <-. unfold book_at, resting in Hat. rewrite Hp, (proj2 (Z.ltb_ge _ 0)) in Hat by lia. done. }
  unfold view_slots. clear -HE. induction HE as [|ab abs -> _ IH]; [done|]. by rewrite fmap_cons, concat_cons, IH.
Qed.

End shard_stream.

End BenchScaling.
