(* ===== verification/BenchScalingRun.v ===== *)
(** * The threads of the scaling benchmark ([bench/shard_scaling.cc])

    [run<N>]: a producer pushes the cycle of orders through the router, [N]
    shards match them and a drainer empties their outbound rings; then the
    producer's thread stops the shards, joins them and only then stops the
    drainer, so that a shard that waits for room can finish.  A step is one
    round of one of the loops or one turn of a shard's thread. *)

From stdpp Require Import relations.
From S2P Require Import Prelude Messages Order LevelBitmap Pool PriceLevel OrderHandle OrderBook Spsc.
From S2P Require Import BookSpec BookInv BookMatch BookRefine BookLaws BookAbs BookProps Shard ShardWork ShardInv ShardProps ShardRouter.
From S2P Require Import Harness BenchScaling.

Module BenchScalingRun.
Import OrderBook BookSpec BookAbs Shard ShardInv ShardProps ShardRouter Harness BenchScaling.

(** Where [run] is. *)
Inductive Pc : Type :=
| Producing            (* for (n ...) while (!shards.router().push(msg)) *)
| Stopping (j : Z)     (* for (auto& s : owned) s->stop() *)
| Joining (j : Z)      (* for (auto& t : shard_threads) t.join() *)
| StopDrainer          (* draining.store(false) *)
| JoinDrainer          (* drainer.join() *)
| Done.

#[export] Instance scaling_pc_eq_dec : EqDecision Pc.
Proof. solve_decision. Defined.

(** Where the drainer is: its loop condition, or at the ring of a shard. *)
Inductive DrainPc : Type := Loop | Sweep (s : Z) | Returned.

Record Run : Type := mkRun {
  r_shards : list Shard;
  r_boxes : list (list OutboundMsg);   (* reports the shards' threads have still to push *)
  r_pc : Pc;
  r_n : Z;                             (* uint64_t n *)
  r_stalls : Z;                        (* uint64_t stalls *)
  r_draining : bool;
  r_drain : DrainPc
}.

Section bench.
Context (N total_orders : Z).

Definition producer (st : Run) : res Run :=
  let '(mkRun shards boxes pc n stalls draining dr) := st in
  match pc with
  | Producing =>
      if n <? total_orders then
        msg ← aget build_cycle (n mod zlen build_cycle);
        '(ok, shards) ← router_push (SHARD_CFG N) N shards msg;
        if (ok : bool) then Ok (mkRun shards boxes Producing (u64 (n + 1)) stalls draining dr)
        else Ok (mkRun shards boxes Producing n (u64 (stalls + 1)) draining dr)
      else Ok (mkRun shards boxes (Stopping 0) n stalls draining dr)
  | Stopping j =>
      if j <? N then
        sh ← aget shards j;
        shards ← aset shards j (stop sh);
        Ok (mkRun shards boxes (Stopping (j + 1)) n stalls draining dr)
      else Ok (mkRun shards boxes (Joining 0) n stalls draining dr)
  | Joining j =>
      if j <? N then
        sh ← aget shards j;
        box ← aget boxes j;
        (* the thread returns from run() when it is at the head of its loop *)
        Ok (if running_ sh || negb (zlen box =? 0) then st else mkRun shards boxes (Joining (j + 1)) n stalls draining dr)
      else Ok (mkRun shards boxes StopDrainer n stalls draining dr)
  | StopDrainer => Ok (mkRun shards boxes JoinDrainer n stalls false dr)
  | JoinDrainer => Ok (match dr with Returned => mkRun shards boxes Done n stalls draining dr | _ => st end)
  | Done => Ok st
  end.

Definition drainer (st : Run) : res Run :=
  let '(mkRun shards boxes pc n stalls draining dr) := st in
  match dr with
  | Loop => Ok (mkRun shards boxes pc n stalls draining (if draining then Sweep 0 else Returned))
  | Sweep s =>
      if s <? N then
        sh ← aget shards s;
        '(out, q) ← Spsc.pop QUEUE_DEPTH (outbound_ sh);
        match out with
        | Some _ => shards ← aset shards s (set_outbound sh q); Ok (mkRun shards boxes pc n stalls draining (Sweep s))
        | None => Ok (mkRun shards boxes pc n stalls draining (Sweep (s + 1)))
        end
      else Ok (mkRun shards boxes pc n stalls draining Loop)
  | Returned => Ok st
  end.

(** A turn of the thread of shard [i]. *)
Definition shard_turn (i : Z) (st : Run) : res Run :=
  let '(mkRun shards boxes pc n stalls draining dr) := st in
  sh ← aget shards i;
  box ← aget boxes i;
  th ← thread_turn (SHARD_CFG N) (mkThread sh box);
  shards ← aset shards i (th_shard th);
  boxes ← aset boxes i (th_outbox th);
  Ok (mkRun shards boxes pc n stalls draining dr).

Inductive step : Run -> Run -> Prop :=
| step_producer st st' : producer st = Ok st' -> step st st'
| step_drainer st st' : drainer st = Ok st' -> step st st'
| step_shard i st st' : 0 <= i < N -> shard_turn i st = Ok st' -> step st st'.

Definition run_init (shards : list Shard) : Run :=
  mkRun shards (replicate (Z.to_nat N) []) Producing 0 0 true Loop.

(** ** The invariant *)

(** Shards that were stopped, and threads that were joined. *)
Definition stopped (pc : Pc) : Z := match pc with Producing => 0 | Stopping j => j | _ => N end.
Definition joined (pc : Pc) : Z := match pc with Producing | Stopping _ => 0 | Joining j => j | _ => N end.

Record run_inv (st : Run) : Prop := {
  ri_shards : zlen (r_shards st) = N;
  ri_boxes : zlen (r_boxes st) = N;
  ri_serving : forall i sh box, r_shards st !! i = Some sh -> r_boxes st !! i = Some box -> serving N i (r_n st) sh box;
  ri_n : 0 <= r_n st <= total_orders;
  ri_all : r_pc st <> Producing -> r_n st = total_orders;
  ri_pc : match r_pc st with Stopping j | Joining j => 0 <= j <= N | _ => True end;
  ri_running : forall i sh, r_shards st !! i = Some sh -> running_ sh = (stopped (r_pc st) <=? i);
  ri_joined : forall i box, r_boxes st !! i = Some box -> i < joined (r_pc st) -> box = [];
  ri_draining : r_draining st = match r_pc st with JoinDrainer | Done => false | _ => true end;
  ri_drain : match r_drain st with Sweep s => 0 <= s | Loop => True | Returned => r_draining st = false end;
  ri_done : r_pc st = Done -> r_drain st = Returned
}.

(** Steps that are left, busy waiting and sweeps over empty rings not counted. *)
Definition pc_left (pc : Pc) : Z :=
  match pc with
  | Producing => 2 * N + 6
  | Stopping j => 2 * N - j + 5
  | Joining j => N - j + 4
  | StopDrainer => 3
  | JoinDrainer => 2
  | Done => 0
  end.
Definition ring_rank (sh : Shard) : Z := shard_rank sh [].
Definition box_rank (box : list OutboundMsg) : Z := 2 * zlen box.
Definition ranks (st : Run) : Z := sumZ (ring_rank <$> r_shards st) + sumZ (box_rank <$> r_boxes st).
Definition work (st : Run) : Z :=
  match r_pc st with
  | Done => 0
  | pc => 4 * (total_orders - r_n st) + ranks st + pc_left pc + match r_drain st with Returned => 0 | _ => 1 end
  end.

(** Two states that differ in [stalls] and in where the drainer is only. *)
Definition alike (st st' : Run) : Prop :=
  r_shards st' = r_shards st /\ r_boxes st' = r_boxes st /\ r_pc st' = r_pc st /\ r_n st' = r_n st /\
  r_draining st' = r_draining st /\ (r_drain st' = Returned <-> r_drain st = Returned).

Definition advances (st st' : Run) : Prop := run_inv st' /\ (alike st st' \/ work st' < work st).

End bench.

Section run.
Context (N : Z) (HN : splits N) (total_orders : Z) (Htotal : is_u 64 total_orders).

Abbreviation run_inv := (run_inv N total_orders).
Abbreviation work := (work N total_orders).
Abbreviation advances := (advances N total_orders).
Abbreviation producer := (producer N total_orders).
Abbreviation drainer := (drainer N).
Abbreviation shard_turn := (shard_turn N).
Abbreviation step := (step N total_orders).

Lemma rank_split sh box : shard_rank sh box = ring_rank sh + box_rank box.
Proof. unfold ring_rank, box_rank, shard_rank. change (zlen []) with 0. lia. Qed.

Lemma scaling_work_live st : r_pc st <> Done -> work st =
  4 * (total_orders - r_n st) + ranks st + pc_left N (r_pc st) + match r_drain st with Returned => 0 | _ => 1 end.
Proof. unfold BenchScalingRun.work. by destruct (r_pc st). Qed.

Lemma shard_at st i : run_inv st -> 0 <= i < N -> exists sh box, r_shards st !! i = Some sh /\ r_boxes st !! i = Some box /\ serving N i (r_n st) sh box.
Proof.
  intros HI Hi. destruct (lookupZ_is_Some (r_shards st) i) as [sh Hsh]; [by rewrite (ri_shards _ _ _ HI)|].
  destruct (lookupZ_is_Some (r_boxes st) i) as [box Hbox]; [by rewrite (ri_boxes _ _ _ HI)|].
  exists sh, box. do 2 (split; [done|]). by apply (ri_serving _ _ _ HI).
Qed.

Lemma alike_refl st : alike st st.
Proof. by repeat split. Qed.

(** ** The thread of a shard *)

Lemma scaling_shard_advances st i : run_inv st -> 0 <= i < N -> exists st', shard_turn i st = Ok st' /\ run_inv st' /\
  ((st' = st /\ exists sh box, r_shards st !! i = Some sh /\ r_boxes st !! i = Some box /\ turn_waits sh box) \/ work st' < work st).
Proof.
  intros HI Hi. destruct (shard_at st i HI Hi) as (sh & box & Hsh & Hbox & HS). destruct st as [shards boxes pc n stalls draining dr].
  cbn [r_shards r_boxes r_n] in *. destruct (scaling_turn N HN i n sh box Hi HS) as (th & Hturn & HS' & Hr & Hcase).
  unfold BenchScalingRun.shard_turn. rewrite (aget_Ok _ _ _ Hsh), (aget_Ok _ _ _ Hbox). cbn [mbind res_bind]. rewrite Hturn. cbn [mbind res_bind].
  rewrite (aset_Some _ _ _ _ Hsh), (aset_Some _ _ _ _ Hbox). cbn [mbind res_bind]. eexists. split; [done|].
  destruct Hcase as [[-> Hw]|Hlt].
  { cbn [th_shard th_outbox]. rewrite !insertZ_id by done. split; [done|]. left. split; [done|]. by exists sh, box. }
  assert (Hnj : ~ i < joined N pc).
  { intros Hj. pose proof (ri_joined _ _ _ HI i box Hbox Hj) as ->.
    assert (Hf : running_ sh = false).
    { rewrite (ri_running _ _ _ HI i sh Hsh). apply Z.leb_gt. cbn [r_pc]. destruct pc; cbn [joined stopped] in *; lia. }
    unfold thread_turn in Hturn. cbn [th_shard th_outbox] in Hturn. rewrite Hf in Hturn. injection Hturn as <-. cbn [th_shard th_outbox] in Hlt. lia. }
  destruct HI as [I1 I2 I3 I4 I5 I6 I7 I8 I9 I10 I11]. cbn [r_shards r_boxes r_n r_pc r_draining r_drain] in *. split.
  - split; cbn [r_shards r_boxes r_n r_pc r_draining r_drain]; rewrite ?zlen_insertZ; try done.
    + intros j sh' box'. rewrite !lookupZ_insertZ by lia. destruct (decide (i = j)) as [<-|]; [by intros [= <-] [= <-]|apply I3].
    + intros j sh'. rewrite lookupZ_insertZ by lia. destruct (decide (i = j)) as [<-|]; [intros [= <-]; rewrite Hr; by apply I7|apply I7].
    + intros j box'. rewrite lookupZ_insertZ by lia. destruct (decide (i = j)) as [<-|]; [done|apply I8].
  - right. rewrite !scaling_work_live by (intros E; cbn in E; subst pc; cbn [joined] in Hnj; lia).
    unfold ranks. cbn [r_shards r_boxes r_n r_pc r_drain]. rewrite (sum_insert _ _ _ _ _ Hsh), (sum_insert _ _ _ _ _ Hbox).
    rewrite !rank_split in Hlt. lia.
Qed.

(** ** The drainer *)

Abbreviation waiting q := (Spsc.contents QUEUE_DEPTH q).

(** At the ring of a shard: it takes a report, or the ring is empty. *)
Lemma sweep_turn st s : run_inv st -> r_drain st = Sweep s -> exists st', drainer st = Ok st' /\ run_inv st' /\
  (work st' < work st \/
   alike st st' /\ r_drain st' = (if s <? N then Sweep (s + 1) else Loop) /\ forall sh, r_shards st !! s = Some sh -> waiting (outbound_ sh) = []).
Proof.
  destruct st as [shards boxes pc n stalls draining dr]. intros HI Edr. cbn in Edr. subst dr. unfold BenchScalingRun.drainer.
  pose proof (ri_drain _ _ _ HI) as Hs. cbn in Hs. destruct (Z.ltb_spec s N) as [Hlt|Hge].
  2:{ eexists. split; [done|]. destruct HI. cbn in *. split; [split; try done; intros E; by specialize (ri_done0 E)|]. right. split; [by repeat split|].
      split; [done|]. intros sh Hsh%lookupZ_range. lia. }
  destruct (shard_at _ s HI ltac:(lia)) as (sh & box & Hsh & Hbox & HS). cbn [r_shards r_boxes r_n] in *.
  rewrite (aget_Ok _ _ _ Hsh). cbn [mbind res_bind]. destruct (serving_popped N HN s n sh box HS) as (out & q & -> & HS' & Hout). cbn [mbind res_bind].
  destruct HI as [I1 I2 I3 I4 I5 I6 I7 I8 I9 I10 I11]. cbn [r_shards r_boxes r_n r_pc r_draining r_drain] in *. destruct out as [m|].
  - rewrite (aset_Some _ _ _ _ Hsh). cbn [mbind res_bind]. eexists. split; [done|]. split.
    + split; cbn [r_shards r_boxes r_n r_pc r_draining r_drain]; rewrite ?zlen_insertZ; try done.
      * intros j sh' box'. rewrite lookupZ_insertZ by lia. destruct (decide (s = j)) as [<-|]; [|apply I3].
        intros [= <-] Hb. rewrite Hbox in Hb. by injection Hb as <-.
      * intros j sh'. rewrite lookupZ_insertZ by lia. destruct (decide (s = j)) as [<-|]; [|apply I7]. intros [= <-]. exact (I7 _ _ Hsh).
    + left. rewrite !scaling_work_live by (cbn; intros E; by specialize (I11 E)). unfold ranks. cbn [r_shards r_boxes r_n r_pc r_drain].
      rewrite (sum_insert _ _ _ _ _ Hsh). rewrite !rank_split in Hout. lia.
  - eexists. split; [done|]. split; [split; cbn; try done; [lia|intros E; by specialize (I11 E)]|]. right. split; [by repeat split|]. split; [done|].
    intros sh' Hsh'. rewrite Hsh in Hsh'. by injection Hsh' as <-.
Qed.

(** At its loop condition it starts over or returns. *)
Lemma loop_turn st : run_inv st -> r_drain st = Loop -> exists st', drainer st = Ok st' /\ run_inv st' /\
  if r_draining st then alike st st' /\ r_drain st' = Sweep 0 else work st' < work st.
Proof.
  destruct st as [shards boxes pc n stalls draining dr]. intros HI Edr. cbn in Edr. subst dr. eexists. split; [done|].
  destruct HI as [I1 I2 I3 I4 I5 I6 I7 I8 I9 I10 I11]. cbn [r_shards r_boxes r_n r_pc r_draining r_drain] in *.
  assert (Hnd : pc <> Done) by (intros E; by specialize (I11 E)). split; [split; cbn; try done; by destruct draining|].
  destruct draining; [by repeat split|]. rewrite !scaling_work_live by done. unfold ranks. cbn. lia.
Qed.

Lemma drainer_advances st : run_inv st -> exists st', drainer st = Ok st' /\ advances st st'.
Proof.
  intros HI. destruct (r_drain st) as [|s|] eqn:Edr.
  - destruct (loop_turn st HI Edr) as (st' & ? & ? & Hcase). exists st'. split; [done|]. split; [done|]. destruct (r_draining st); [left; apply Hcase|by right].
  - destruct (sweep_turn st s HI Edr) as (st' & ? & ? & [?|[? _]]); exists st'; (split; [done|]; split; [done|]; auto).
  - exists st. split; [destruct st; cbn in Edr; by subst|]. split; [done|left; apply alike_refl].
Qed.

(** ** The producer's thread *)

(** The router pushes the [n]-th order or finds the ring of its shard full. *)
Lemma producer_pushes st : run_inv st -> r_pc st = Producing -> r_n st < total_orders -> exists st', producer st = Ok st' /\ run_inv st' /\
  (work st' < work st \/
   alike st st' /\ exists sh, r_shards st !! (r_n st mod N) = Some sh /\ Spsc.contents QUEUE_DEPTH (inbound_ sh) <> []).
Proof.
  intros HI Epc Hlt. destruct (divides N HN) as (HN0 & _ & _). pose proof (Z.mod_pos_bound (r_n st) N HN0) as Hi.
  destruct (shard_at st _ HI Hi) as (sh & box & Hsh & Hbox & HS). destruct st as [shards boxes pc n stalls draining dr].
  destruct HI as [I1 I2 I3 I4 I5 I6 I7 I8 I9 I10 I11]. cbn [r_shards r_boxes r_n r_pc r_draining r_drain] in *. subst pc.
  unfold BenchScalingRun.producer. rewrite (proj2 (Z.ltb_lt _ _)), (cycle_lookup n) by lia. cbn [mbind res_bind].
  destruct (serving_pushed N HN n sh box ltac:(lia) HS) as (ok & q & Hp & HS' & Hok).
  unfold router_push. rewrite (order_route N HN) by lia. rewrite (aget_Ok _ _ _ Hsh). cbn [mbind res_bind].
  change (queue_depth (SHARD_CFG N)) with QUEUE_DEPTH. rewrite Hp. cbn [mbind res_bind]. rewrite (aset_Some _ _ _ _ Hsh). cbn [mbind res_bind].
  unfold is_u in Htotal. destruct ok.
  - rewrite (wrapU_small 64 (n + 1)) by lia. eexists. split; [done|]. split.
    + split; cbn [r_shards r_boxes r_n r_pc r_draining r_drain]; rewrite ?zlen_insertZ; try done; try lia.
      * intros j sh' box'. rewrite lookupZ_insertZ by lia. destruct (decide (n mod N = j)) as [<-|Hne].
        -- intros [= <-] Hb. rewrite Hbox in Hb. by injection Hb as <-.
        -- intros Hj Hb. pose proof (lookupZ_range _ _ _ Hj) as Rj. apply serving_other; [lia|lia|congruence|by apply I3].
      * intros j sh'. rewrite lookupZ_insertZ by lia. destruct (decide (n mod N = j)) as [<-|]; [|apply I7]. intros [= <-]. exact (I7 _ _ Hsh).
    + left. rewrite !scaling_work_live by done. unfold ranks. cbn [r_shards r_boxes r_n r_pc r_drain].
      rewrite (sum_insert _ _ _ _ _ Hsh). rewrite !rank_split in Hok. lia.
  - destruct Hok as [-> Hne]. eexists. split; [done|]. assert (set_inbound sh (inbound_ sh) = sh) as -> by (by destruct sh).
    rewrite insertZ_id by done. split; [by split|]. right. split; [by repeat split|]. by exists sh.
Qed.

Lemma stop_advances st j : run_inv st -> r_pc st = Stopping j -> exists st', producer st = Ok st' /\ run_inv st' /\ work st' < work st.
Proof.
  intros HI Epc. pose proof (ri_pc _ _ _ HI) as Hj. destruct (divides N HN) as (HN0 & _ & _). destruct st as [shards boxes pc n stalls draining dr].
  cbn [r_pc] in Epc. subst pc. cbn in Hj. unfold BenchScalingRun.producer. destruct (Z.ltb_spec j N) as [Hlt|Hge].
  - destruct (shard_at _ j HI ltac:(lia)) as (sh & box & Hsh & Hbox & HS).
    destruct HI as [I1 I2 I3 I4 I5 I6 I7 I8 I9 I10 I11]. cbn [r_shards r_boxes r_n r_pc r_draining r_drain] in *.
    rewrite (aget_Ok _ _ _ Hsh). cbn [mbind res_bind]. rewrite (aset_Some _ _ _ _ Hsh). cbn [mbind res_bind]. eexists. split; [done|]. split.
    + split; cbn [r_shards r_boxes r_n r_pc r_draining r_drain]; rewrite ?zlen_insertZ; try done; try lia.
      * intros i sh' box'. rewrite lookupZ_insertZ by lia. destruct (decide (j = i)) as [<-|]; [|apply I3].
        intros [= <-] Hb. rewrite Hbox in Hb. injection Hb as <-. by apply serving_stopped.
      * by intros _; apply I5.
      * intros i sh'. rewrite lookupZ_insertZ by lia. cbn [stopped] in *. destruct (decide (j = i)) as [<-|Hne].
        -- intros [= <-]. symmetry. apply Z.leb_gt. lia.
        -- intros Hi. rewrite (I7 i sh' Hi). destruct (Z.leb_spec j i), (Z.leb_spec (j + 1) i); lia || done.
    + rewrite !scaling_work_live by done. unfold ranks. cbn [r_shards r_boxes r_n r_pc r_drain pc_left]. rewrite (sum_insert _ _ _ _ _ Hsh).
      change (ring_rank (stop sh)) with (ring_rank sh). lia.
  - eexists. split; [done|]. assert (j = N) as -> by lia. destruct HI as [I1 I2 I3 I4 I5 I6 I7 I8 I9 I10 I11].
    split; [split; cbn in *; try done; [by intros _; apply I5|lia]|]. rewrite !scaling_work_live by done. unfold ranks. cbn. lia.
Qed.

Lemma join_advances st j : run_inv st -> r_pc st = Joining j -> exists st', producer st = Ok st' /\ run_inv st' /\
  (work st' < work st \/ st' = st /\ exists box, r_boxes st !! j = Some box /\ box <> []).
Proof.
  intros HI Epc. pose proof (ri_pc _ _ _ HI) as Hj. destruct st as [shards boxes pc n stalls draining dr].
  cbn [r_pc] in Epc. subst pc. cbn in Hj. unfold BenchScalingRun.producer. destruct (Z.ltb_spec j N) as [Hlt|Hge].
  - destruct (shard_at _ j HI ltac:(lia)) as (sh & box & Hsh & Hbox & HS). pose proof (ri_running _ _ _ HI j sh Hsh) as Hr.
    cbn [r_shards r_boxes r_pc stopped] in *. rewrite (aget_Ok _ _ _ Hsh), (aget_Ok _ _ _ Hbox). cbn [mbind res_bind].
    rewrite Hr, (proj2 (Z.leb_gt _ _)) by lia. eexists. split; [done|]. cbn [orb]. destruct box as [|m box].
    + change (negb (zlen (@nil OutboundMsg) =? 0)) with false. cbn iota.
      destruct HI as [I1 I2 I3 I4 I5 I6 I7 I8 I9 I10 I11]. split; [|left; rewrite !scaling_work_live by done; unfold ranks; cbn [r_shards r_boxes r_n r_pc r_drain pc_left]; lia].
      split; cbn in *; try done; [by intros _; apply I5|lia|]. intros i box Hb Hi.
      destruct (decide (i = j)) as [->|]; [rewrite Hbox in Hb; by injection Hb as <-|apply (I8 i); [done|lia]].
    + rewrite (proj2 (Z.eqb_neq _ 0)) by (rewrite zlen_cons; pose proof (zlen_nonneg box); lia). split; [done|].
      right. split; [done|]. by exists (m :: box).
  - eexists. split; [done|]. assert (j = N) as -> by lia. destruct HI as [I1 I2 I3 I4 I5 I6 I7 I8 I9 I10 I11].
    split; [split; cbn in *; try done; by intros _; apply I5|]. left. rewrite !scaling_work_live by done. unfold ranks. cbn. lia.
Qed.

Lemma producer_advances st : run_inv st -> exists st', producer st = Ok st' /\ advances st st'.
Proof.
  intros HI. destruct (r_pc st) as [|j|j| | |] eqn:Epc.
  - destruct (Z.ltb_spec (r_n st) total_orders) as [Hlt|Hge].
    + destruct (producer_pushes st HI Epc Hlt) as (st' & ? & ? & [?|[? _]]); exists st'; (split; [done|]; split; [done|]; auto).
    + destruct st as [shards boxes pc n stalls draining dr]. cbn in Epc, Hge. subst pc. unfold BenchScalingRun.producer.
      rewrite (proj2 (Z.ltb_ge _ _)) by done. eexists. split; [done|]. destruct (divides N HN) as (HN0 & _ & _).
      destruct HI as [I1 I2 I3 I4 I5 I6 I7 I8 I9 I10 I11]. split; [split; cbn in *; try done; lia|].
      right. rewrite !scaling_work_live by done. unfold ranks. cbn. lia.
  - destruct (stop_advances st j HI Epc) as (st' & ? & ? & ?). exists st'. split; [done|]. split; [done|by right].
  - destruct (join_advances st j HI Epc) as (st' & ? & ? & [?|[-> _]]); eexists; (split; [done|]; split; [done|]); [by right|left; apply alike_refl].
  - destruct st as [shards boxes pc n stalls draining dr]. cbn in Epc. subst pc. eexists. split; [done|].
    destruct HI as [I1 I2 I3 I4 I5 I6 I7 I8 I9 I10 I11]. split; [split; cbn in *; try done; [by intros _; apply I5|by destruct dr]|].
    right. rewrite !scaling_work_live by done. unfold ranks. cbn. lia.
  - destruct st as [shards boxes pc n stalls draining dr]. cbn in Epc. subst pc. eexists. split; [done|].
    destruct dr as [|s|]; [split; [done|left; apply alike_refl]..|]. destruct HI as [I1 I2 I3 I4 I5 I6 I7 I8 I9 I10 I11].
    split; [split; cbn in *; try done; by intros _; apply I5|]. right. rewrite (scaling_work_live (mkRun _ _ JoinDrainer _ _ _ _)) by done. unfold BenchScalingRun.work, ranks. cbn [r_shards r_boxes r_n r_pc r_drain pc_left] in *.
    assert (0 <= sumZ (ring_rank <$> shards)) by (apply sum_nonneg; intros i sh _; unfold ring_rank, shard_rank, zlen; lia).
    assert (0 <= sumZ (box_rank <$> boxes)) by (apply sum_nonneg; intros i box _; unfold box_rank, zlen; lia). lia.
  - exists st. split; [unfold BenchScalingRun.producer; destruct st; cbn in Epc; by subst|]. split; [done|left; apply alike_refl].
Qed.

(** ** The whole run *)

Lemma scaling_step_advances st st' : run_inv st -> step st st' -> advances st st'.
Proof.
  intros HI Hs. destruct Hs as [st st' H|st st' H|i st st' Hi H].
  - destruct (producer_advances st HI) as (st1 & E & ?). rewrite E in H. by injection H as <-.
  - destruct (drainer_advances st HI) as (st1 & E & ?). rewrite E in H. by injection H as <-.
  - destruct (scaling_shard_advances st i HI Hi) as (st1 & E & HI' & Hc). rewrite E in H. injection H as <-. split; [done|].
    destruct Hc as [[-> _]|?]; [left; apply alike_refl|by right].
Qed.

Lemma scaling_reachable st st' : rtc step st st' -> run_inv st -> run_inv st'.
Proof. induction 1 as [|st1 st2 st3 Hs _ IH]; [done|]. intros HI. by apply IH, (scaling_step_advances _ _ HI Hs). Qed.

Lemma alike_work st st' : alike st st' -> work st' = work st.
Proof.
  intros (E1 & E2 & E3 & E4 & _ & E5). unfold BenchScalingRun.work, ranks. rewrite E1, E2, E3, E4. destruct (r_pc st); try done;
    (destruct (r_drain st'), (r_drain st); try done; exfalso; by (discriminate (proj1 E5 eq_refl) || discriminate (proj2 E5 eq_refl))).
Qed.

Lemma ranks_nonneg st : 0 <= ranks st.
Proof.
  unfold ranks. assert (0 <= sumZ (ring_rank <$> r_shards st)) by (apply sum_nonneg; intros i sh _; unfold ring_rank, shard_rank, zlen; lia).
  assert (0 <= sumZ (box_rank <$> r_boxes st)) by (apply sum_nonneg; intros i box _; unfold box_rank, zlen; lia). lia.
Qed.

Lemma work_bounds st : run_inv st -> 0 <= work st /\ (work st = 0 -> r_pc st = Done).
Proof.
  intros HI. pose proof (ranks_nonneg st). pose proof (ri_n _ _ _ HI). pose proof (ri_pc _ _ _ HI) as Hp. destruct (divides N HN) as (HN0 & _ & _).
  destruct (decide (r_pc st = Done)) as [E|Hne]; [unfold BenchScalingRun.work; by rewrite E|]. rewrite scaling_work_live by done.
  destruct (r_pc st); cbn [pc_left]; try done; destruct (r_drain st); lia.
Qed.

(** ** Progress *)

Definition progress (st : Run) : Prop := exists st', rtc step st st' /\ run_inv st' /\ work st' < work st.

Lemma progress_alike st st1 : rtc step st st1 -> alike st st1 -> progress st1 -> progress st.
Proof. intros Hr Ha (st' & Hs & HI & Hlt). exists st'. split; [by etrans|]. split; [done|]. by rewrite <- (alike_work st st1). Qed.

Lemma producer_steps st st' : producer st = Ok st' -> rtc step st st'.
Proof. intros H. apply rtc_once. by apply step_producer. Qed.
Lemma drainer_steps st st' : drainer st = Ok st' -> rtc step st st'.
Proof. intros H. apply rtc_once. by apply step_drainer. Qed.

(** The rest of a sweep takes a report or finds the rings empty. *)
Lemma sweep_on st s : run_inv st -> r_drain st = Sweep s -> progress st \/
  exists st', rtc step st st' /\ run_inv st' /\ alike st st' /\ r_drain st' = Loop /\
    forall i sh, s <= i -> r_shards st !! i = Some sh -> waiting (outbound_ sh) = [].
Proof.
  remember (Z.to_nat (N - s)) as m eqn:Em. revert s st Em. induction m as [m IH] using lt_wf_ind. intros s st -> HI Edr.
  destruct (sweep_turn st s HI Edr) as (st1 & H1 & HI1 & [Hlt|(Ha & Edr1 & Hemp)]).
  { left. exists st1. split; [by apply drainer_steps|done]. }
  pose proof Ha as (E1 & _). destruct (Z.ltb_spec s N) as [Hs|Hs].
  - destruct (IH (Z.to_nat (N - (s + 1))) ltac:(lia) (s + 1) st1 eq_refl HI1 Edr1) as [Hp|(st' & Hr & HI' & Ha' & El & Hall)].
    + left. eapply progress_alike; [by apply drainer_steps|done|done].
    + right. exists st'. split; [etrans; [by apply drainer_steps|done]|]. split; [done|].
      destruct Ha as (? & ? & ? & ? & ? & ?), Ha' as (? & ? & ? & ? & ? & ?). split; [repeat split; congruence || tauto|]. split; [done|].
      intros i sh Hi Hsh. destruct (decide (i = s)) as [->|]; [by apply Hemp|apply (Hall i); [lia|by rewrite E1]].
  - right. exists st1. split; [by apply drainer_steps|]. split; [done|]. split; [done|]. split; [done|].
    intros i sh Hi Hsh%lookupZ_range. rewrite (ri_shards _ _ _ HI) in Hsh. lia.
Qed.

(** As long as it drains, a report that waits is taken. *)
Lemma drain_loop st i sh : run_inv st -> r_drain st = Loop -> r_draining st = true ->
  r_shards st !! i = Some sh -> waiting (outbound_ sh) <> [] -> progress st.
Proof.
  intros HI Edr Hdr Hsh Hne. destruct (loop_turn st HI Edr) as (st1 & H1 & HI1 & Hcase). rewrite Hdr in Hcase. destruct Hcase as [Ha E1].
  eapply progress_alike; [by apply drainer_steps|done|]. destruct (sweep_on st1 0 HI1 E1) as [?|(st2 & _ & _ & _ & _ & Hall)]; [done|].
  destruct Hne. apply (Hall i); [apply lookupZ_range in Hsh; lia|]. by rewrite (proj1 Ha).
Qed.

Lemma drain_progress st i sh : run_inv st -> r_draining st = true -> r_shards st !! i = Some sh -> waiting (outbound_ sh) <> [] -> progress st.
Proof.
  intros HI Hdr Hsh Hne. destruct (r_drain st) as [|s|] eqn:Edr; [by eapply drain_loop| |].
  - destruct (sweep_on st s HI Edr) as [?|(st1 & Hr & HI1 & Ha & E1 & _)]; [done|]. apply (progress_alike st st1 Hr Ha).
    destruct Ha as (Es & _ & _ & _ & Ed & _). apply (drain_loop st1 i sh HI1 E1); [congruence| |done]. by rewrite Es.
  - pose proof (ri_drain _ _ _ HI) as Hd. rewrite Edr in Hd. congruence.
Qed.

(** A shard with something to do gets on, if need be after the drainer made room. *)
Lemma shard_progress st i sh box : run_inv st -> r_draining st = true -> r_shards st !! i = Some sh -> r_boxes st !! i = Some box ->
  box <> [] \/ (running_ sh = true /\ waiting (inbound_ sh) <> []) -> progress st.
Proof.
  intros HI Hdr Hsh Hbox Hdo. pose proof (lookupZ_range _ _ _ Hsh) as Ri. rewrite (ri_shards _ _ _ HI) in Ri.
  destruct (scaling_shard_advances st i HI Ri) as (st' & Ht & HI' & [[-> (sh1 & box1 & E1 & E2 & Hw)]|Hlt]).
  - rewrite Hsh in E1. injection E1 as <-. rewrite Hbox in E2. injection E2 as <-.
    destruct Hw as [[_ Hfull]|[-> Hidle]]; [|destruct Hdo as [?|[? ?]]; [done|destruct Hidle; congruence]].
    apply (drain_progress st i sh HI Hdr Hsh). intros E. rewrite E in Hfull. done.
  - exists st'. split; [apply rtc_once; by apply (step_shard _ _ i)|done].
Qed.

Lemma run_goes_on st : run_inv st -> 0 < work st -> progress st.
Proof.
  intros HI Hw. pose proof (ri_draining _ _ _ HI) as Hdr. destruct (r_pc st) as [|j|j| | |] eqn:Epc.
  - destruct (Z.ltb_spec (r_n st) total_orders) as [Hlt|Hge].
    + destruct (producer_pushes st HI Epc Hlt) as (st' & Hp & HI' & [Hl|(_ & sh & Hsh & Hne)]); [exists st'; by split; [apply producer_steps|]|].
      destruct (lookupZ_is_Some (r_boxes st) (r_n st mod N)) as [box Hbox].
      { pose proof (lookupZ_range _ _ _ Hsh) as R. rewrite (ri_shards _ _ _ HI) in R. by rewrite (ri_boxes _ _ _ HI). }
      apply (shard_progress st _ sh box HI Hdr Hsh Hbox). right. split; [|done]. rewrite (ri_running _ _ _ HI _ _ Hsh), Epc.
      apply Z.leb_le. apply lookupZ_range in Hsh. cbn [stopped]. lia.
    + destruct (producer_advances st HI) as (st' & Hp & HI' & [Ha|Hlt]); [|exists st'; by split; [apply producer_steps|]].
      exfalso. destruct st as [shards boxes pc n stalls draining dr]. cbn in Epc, Hge. subst pc. cbn [BenchScalingRun.producer] in Hp.
      rewrite (proj2 (Z.ltb_ge _ _)) in Hp by done. injection Hp as <-. destruct Ha as (_ & _ & E & _). by cbn in E.
  - destruct (stop_advances st j HI Epc) as (st' & Hp & ? & ?). exists st'. by split; [apply producer_steps|].
  - destruct (join_advances st j HI Epc) as (st' & Hp & ? & [?|(_ & box & Hbox & Hne)]); [exists st'; by split; [apply producer_steps|]|].
    destruct (lookupZ_is_Some (r_shards st) j) as [sh Hsh].
    { pose proof (lookupZ_range _ _ _ Hbox) as R. rewrite (ri_boxes _ _ _ HI) in R. by rewrite (ri_shards _ _ _ HI). }
    apply (shard_progress st j sh box HI Hdr Hsh Hbox). by left.
  - destruct (producer_advances st HI) as (st' & Hp & HI' & [Ha|Hlt]); [|exists st'; by split; [apply producer_steps|]].
    exfalso. destruct st as [shards boxes pc n stalls draining dr]. cbn in Epc. subst pc. injection Hp as <-. destruct Ha as (_ & _ & E & _). by cbn in E.
  - destruct (r_drain st) as [|s|] eqn:Edr.
    + destruct (loop_turn st HI Edr) as (st' & Hd & ? & Hlt). rewrite Hdr in Hlt. exists st'. by split; [apply drainer_steps|].
    + destruct (sweep_on st s HI Edr) as [?|(st1 & Hr & HI1 & Ha & E1 & _)]; [done|]. apply (progress_alike st st1 Hr Ha).
      destruct (loop_turn st1 HI1 E1) as (st' & Hd & ? & Hlt). destruct Ha as (_ & _ & _ & _ & Ed & _). rewrite Ed, Hdr in Hlt.
      exists st'. by split; [apply drainer_steps|].
    + destruct (producer_advances st HI) as (st' & Hp & HI' & [Ha|Hlt]); [|exists st'; by split; [apply producer_steps|]].
      exfalso. destruct st as [shards boxes pc n stalls draining dr]. cbn in Epc, Edr. subst pc dr. injection Hp as <-. destruct Ha as (_ & _ & E & _). by cbn in E.
  - exfalso. unfold BenchScalingRun.work in Hw. rewrite Epc in Hw. lia.
Qed.

Lemma scaling_finishes st : run_inv st -> exists st', rtc step st st' /\ run_inv st' /\ r_pc st' = Done.
Proof.
  intros HI. destruct (reaches_end (rtc step) run_inv work (fun s H => proj1 (work_bounds s H)) run_goes_on st HI) as (st' & Hrun & HI' & Hz).
  exists st'. split; [|split; [done|by apply (work_bounds st')]]. clear -Hrun. induction Hrun; [done|by etrans].
Qed.

Lemma run_init_inv shards : zlen shards = N -> (forall i sh, shards !! i = Some sh -> serving N i 0 sh [] /\ running_ sh = true) ->
  run_inv (run_init N shards).
Proof.
  intros HL HS. destruct (divides N HN) as (HN0 & _ & _). unfold is_u in Htotal.
  assert (Hbox : forall i (box : list OutboundMsg), replicate (Z.to_nat N) [] !! (i : Z) = Some box -> box = []).
  { intros i box Hb%elem_of_lookupZ. by apply elem_of_replicate in Hb as [-> _]. }
  split; cbn; try done; try lia.
  - rewrite zlen_replicate. lia.
  - intros i sh box Hsh ->%Hbox. by apply HS.
  - intros i sh Hsh. rewrite (proj2 (HS i sh Hsh)). symmetry. apply Z.leb_le. apply lookupZ_range in Hsh. lia.
  - intros i box Hb _. by apply (Hbox i).
Qed.

Lemma run_starts : exists shards, make_shards N (Z.to_nat N) 0 = Ok shards /\ forall st, rtc step (run_init N shards) st -> run_inv st.
Proof.
  destruct (divides N HN) as (HN0 & _ & _). destruct (make_shards_Ok N HN (Z.to_nat N) 0 ltac:(lia) ltac:(lia)) as (shards & Hmk & HL & HS).
  exists shards. split; [done|]. intros st Hrun. apply (scaling_reachable _ _ Hrun). apply run_init_inv; [lia|]. intros i sh Hi. by apply (HS i sh Hi).
Qed.

End run.

(** ** Guarantees *)

(** C36: The scaling benchmark drives its shards as it says: for every number
    of shards that divides the symbols, the shards can be built, and in every
    interleaving of the producer, the drainer and the shard threads no thread
    meets undefined behaviour; every shard serves exactly the orders the router
    sent it, in order, with one report each, an acknowledgement for a sell and
    the fill of that sell for the buy ([serving]), so none is rejected; a turn
    of a shard's thread changes nothing only when its outbound ring is full or
    there is nothing to do; and the arena of a shard stays at its steady state,
    with at most one order per symbol, none after whole cycles. *)
Theorem scaling_steady N total_orders : splits N -> is_u 64 total_orders ->
  exists shards, make_shards N (Z.to_nat N) 0 = Ok shards /\
  forall st, rtc (step N total_orders) (run_init N shards) st ->
  (exists st', producer N total_orders st = Ok st') /\ (exists st', drainer N st = Ok st') /\ 0 <= r_n st <= total_orders /\
  forall i sh box, r_shards st !! i = Some sh -> r_boxes st !! i = Some box ->
    serving N i (r_n st) sh box /\
    (exists th, thread_turn (SHARD_CFG N) (mkThread sh box) = Ok th /\ (th = mkThread sh box -> turn_waits sh box)) /\
    zlen (live (arena_ sh) (books_ sh)) <= SYMBOL_COUNT / N /\
    (Spsc.contents QUEUE_DEPTH (inbound_ sh) = [] -> r_n st mod (SYMBOL_COUNT * 2) = 0 -> live (arena_ sh) (books_ sh) = []).
Proof.
  intros HN Htotal. destruct (run_starts N HN total_orders Htotal) as (shards & Hmk & Hinv). exists shards. split; [done|].
  intros st HI%Hinv. destruct (producer_advances N HN total_orders Htotal st HI) as (st1 & ? & _), (drainer_advances N HN total_orders st HI) as (st2 & ? & _).
  split; [by exists st1|]. split; [by exists st2|]. split; [apply HI|]. intros i sh box Hi Hb. pose proof (lookupZ_range _ _ _ Hi) as Ri.
  rewrite (ri_shards _ _ _ HI) in Ri. pose proof (ri_serving _ _ _ HI i sh box Hi Hb) as HS. pose proof (ri_n _ _ _ HI).
  split; [done|]. split; [|apply (serving_steady N HN i _ sh box Ri); [lia|done]].
  destruct (scaling_turn N HN i _ sh box Ri HS) as (th & Ht & _ & _ & [[-> Hw]|Hlt]); (eexists; split; [done|]); [done|].
  intros ->. cbn [th_shard th_outbox] in Hlt. lia.
Qed.

(** [DEFAULT_ORDERS], and the two runs of [main]. *)
Definition DEFAULT_ORDERS : Z := 4000000.

Lemma default_orders_u64 : is_u 64 DEFAULT_ORDERS.
Proof. split; [discriminate|reflexivity]. Qed.

Lemma scaling_steady_witness :
  (exists shards st', make_shards 1 1 0 = Ok shards /\ producer 1 DEFAULT_ORDERS (run_init 1 shards) = Ok st') /\
  (exists shards st', make_shards 2 2 0 = Ok shards /\ producer 2 DEFAULT_ORDERS (run_init 2 shards) = Ok st').
Proof.
  split.
  - destruct (scaling_steady 1 DEFAULT_ORDERS ltac:(left; reflexivity) default_orders_u64) as (shards & H1 & H2).
    destruct (H2 (run_init 1 shards) (rtc_refl _ _)) as ((st' & H3) & _). exists shards, st'. split; [exact H1|exact H3].
  - destruct (scaling_steady 2 DEFAULT_ORDERS ltac:(right; left; reflexivity) default_orders_u64) as (shards & H1 & H2).
    destruct (H2 (run_init 2 shards) (rtc_refl _ _)) as ((st' & H3) & _). exists shards, st'. split; [exact H1|exact H3].
Defined.

(** C37: The scaling benchmark never deadlocks and ends: every step of its
    threads changes nothing but the stall count and the drainer's position, or
    leaves less work; and from every state they can reach, also when producer
    and shards wait on full rings and when a shard was stopped in the middle of
    its reports, the run can be finished, with all orders pushed, every shard's
    thread joined at the head of its loop and the drainer joined. *)
Theorem scaling_ends N total_orders : splits N -> is_u 64 total_orders ->
  exists shards, make_shards N (Z.to_nat N) 0 = Ok shards /\
  forall st, rtc (step N total_orders) (run_init N shards) st ->
  0 <= work N total_orders st /\
  (forall st', step N total_orders st st' -> alike st st' \/ work N total_orders st' < work N total_orders st) /\
  exists st', rtc (step N total_orders) st st' /\ r_pc st' = Done /\ r_n st' = total_orders /\ r_drain st' = Returned /\
    forall i sh box, r_shards st' !! i = Some sh -> r_boxes st' !! i = Some box -> running_ sh = false /\ box = [].
Proof.
  intros HN Htotal. destruct (run_starts N HN total_orders Htotal) as (shards & Hmk & Hinv). exists shards. split; [done|].
  intros st HI%Hinv. split; [by apply work_bounds|]. split; [intros st' Hs; by apply (scaling_step_advances N HN total_orders Htotal st st' HI Hs)|].
  destruct (scaling_finishes N HN total_orders Htotal st HI) as (st' & Hrun & HI' & Hend). exists st'. split; [done|]. split; [done|].
  split; [apply (ri_all _ _ _ HI'); by rewrite Hend|]. split; [by apply (ri_done _ _ _ HI')|]. intros i sh box Hsh Hb.
  pose proof (lookupZ_range _ _ _ Hsh) as Ri. rewrite (ri_shards _ _ _ HI') in Ri. split.
  - rewrite (ri_running _ _ _ HI' i sh Hsh), Hend. apply Z.leb_gt. apply Ri.
  - apply (ri_joined _ _ _ HI' i box Hb). rewrite Hend. apply Ri.
Qed.

Lemma scaling_ends_witness : exists shards st, make_shards 2 2 0 = Ok shards /\
  rtc (step 2 DEFAULT_ORDERS) (run_init 2 shards) st /\ r_pc st = Done /\ r_n st = DEFAULT_ORDERS.
Proof.
  destruct (scaling_ends 2 DEFAULT_ORDERS ltac:(right; left; reflexivity) default_orders_u64) as (shards & H1 & H2).
  destruct (H2 (run_init 2 shards) (rtc_refl _ _)) as (_ & _ & st & H3 & H4 & H5 & _). exists shards, st. split; [exact H1|]. split; [exact H3|]. split; [exact H4|exact H5].
Defined.

(** ** Orders that are counted and never matched *)

Lemma push_all total_orders sh0 (n : nat) : is_u 64 total_orders -> Z.of_nat n <= total_orders -> Z.of_nat n <= QUEUE_DEPTH ->
  view 1 sh0 (locals 1 0) (replicate (Z.to_nat (M 1)) (mkABook [] [])) [] [] -> running_ sh0 = true ->
  exists sh li, rtc (step 1 total_orders) (run_init 1 [sh0]) (mkRun [sh] [[]] Producing (Z.of_nat n) 0 true Loop) /\
    view 1 sh (locals 1 0) (replicate (Z.to_nat (M 1)) (mkABook [] [])) li [] /\ zlen li = Z.of_nat n /\ running_ sh = true.
Proof.
  intros Hu Hn Hd HV Hr. induction n as [|n IH]; [by exists sh0, []|].
  destruct (IH ltac:(lia) ltac:(lia)) as (sh & li & Hrun & HV1 & HL & Hr1). unfold is_u in Hu.
  assert (H1 : splits 1) by (by left). destruct (view_push _ (scaling_cfg_ok 1 H1) _ _ _ _ _ _ _ (order_msg (cycle_order (Z.of_nat n mod (SYMBOL_COUNT * 2)))) HV1) as (q & Hp & HV2).
  { change (queue_depth (SHARD_CFG 1)) with QUEUE_DEPTH. lia. }
  exists (set_inbound sh q), (li ++ [order_msg (cycle_order (Z.of_nat n mod (SYMBOL_COUNT * 2)))]). split; [|split; [done|split; [|done]]].
  - etrans; [exact Hrun|]. apply rtc_once, step_producer. unfold producer. rewrite (proj2 (Z.ltb_lt _ _)), cycle_lookup by lia. cbn [mbind res_bind].
    unfold router_push. rewrite (order_route 1 H1) by lia. rewrite Z.mod_1_r. cbn [aget lookup]. change (aget [sh] 0) with (Ok sh). cbn [mbind res_bind].
    rewrite Hp. cbn [mbind res_bind]. rewrite (wrapU_small 64) by lia. replace (Z.of_nat (S n)) with (Z.of_nat n + 1) by lia. done.
  - rewrite zlen_app, HL. change (zlen [_]) with 1. lia.
Qed.

(** The clock stops when the last order was pushed, and the shards are stopped
    without waiting for the rings: up to [QUEUE_DEPTH] orders per shard are
    counted that no shard ever looks at, in the extreme all of them. *)
Theorem orders_unmatched total_orders : 0 <= total_orders <= QUEUE_DEPTH ->
  exists shards st sh, make_shards 1 1 0 = Ok shards /\ rtc (step 1 total_orders) (run_init 1 shards) st /\
    r_pc st = Done /\ r_n st = total_orders /\ r_shards st !! 0 = Some sh /\
    zlen (Spsc.contents QUEUE_DEPTH (inbound_ sh)) = total_orders /\ live (arena_ sh) (books_ sh) = [].
Proof.
  intros Ht. assert (H1 : splits 1) by (by left). destruct (shard_starts 1 0 H1 ltac:(lia)) as (sh0 & Hmk & Hr & HV).
  assert (Hu : is_u 64 total_orders) by (unfold is_u, QUEUE_DEPTH in *; lia).
  destruct (push_all total_orders sh0 (Z.to_nat total_orders) Hu ltac:(lia) ltac:(lia) HV Hr) as (sh & li & Hrun & HV1 & HL & Hr1). rewrite Z2Nat.id in * by lia.
  exists [sh0], (mkRun [stop sh] [[]] Done total_orders 0 false Returned), (stop sh). split; [cbn [make_shards]; by rewrite Hmk|].
  split; [|split; [done|split; [done|split; [done|]]]].
  - etrans; [exact Hrun|]. eapply rtc_l; [apply step_producer; unfold producer; rewrite Z.ltb_irrefl; reflexivity|].
    do 6 (eapply rtc_l; [apply step_producer; reflexivity|]).
    eapply rtc_l; [apply step_drainer; reflexivity|]. by apply rtc_once, step_producer.
  - split.
    + rewrite <- HL. f_equal. apply (scaling_waiting 1 H1 _ _ _ _ _ (view_stop _ _ _ _ _ _ _ _ HV1)).
    + rewrite (view_live _ _ _ _ _ _ _ _ (view_stop _ _ _ _ _ _ _ _ HV1)). done.
Qed.

End BenchScalingRun.
