(* ===== verification/BenchGateway.v ===== *)
(** * The gateway benchmarks ([bench/gateway_latency.cc],
    [gateway_latency_uring.cc], [gateway_throughput.cc])

    The orders they send, the loops that send them and read the answers, and
    what the shard behind the gateway makes of the load.  The gateway itself is
    [Gateway] and [UringGateway]; here it is a producer that pushes the orders
    with a session number stamped in and a consumer of the reports. *)

From stdpp Require Import relations.
From S2P Require Import Prelude Messages Order LevelBitmap Pool PriceLevel OrderHandle OrderBook Spsc.
From S2P Require Import BookSpec BookInv BookMatch BookRefine BookLaws BookAbs BookProps Shard ShardInv ShardProps.
From S2P Require Import Util Harness.

Module BenchGateway.
Import PriceLevel OrderHandle OrderBook BookSpec BookInv BookAbs BookProps Shard ShardInv ShardProps Harness.

(** ** Latency: one order in flight *)

Definition LATENCY_CFG : ShardConfig := mkConfig 65536 2048 4096 1 0.
Definition WARMUP : Z := 2000.
Definition MEASURE : Z := 40000.
Definition LATENCY_TOTAL : Z := WARMUP + MEASURE.

(** The order of round [i], as it is sent. *)
Definition latency_order (i : Z) : NewOrder :=
  mkNewOrder (mkHeader sizeof_NewOrder NEW_ORDER 0 0) (u64 (u64 i + 1)) (901 + Z.rem i 2000) 1 0 BUY GTC.

(** ** Throughput: many connections *)

Definition THROUGHPUT_CFG : ShardConfig := mkConfig (Z.shiftl 1 20) 2048 16384 1 0.
Definition CONNS : Z := 128.
Definition LOADERS : Z := 4.
Definition PIPELINE : Z := 8.
Definition TOTAL : Z := 400000.

Definition make_order (oid : Z) : NewOrder :=
  mkNewOrder (mkHeader sizeof_NewOrder NEW_ORDER 0 0) oid (i64 (u64 (901 + oid mod 2000))) 1 0 BUY GTC.

Definition per_loader_conns : Z := CONNS / LOADERS.
Definition per_loader_orders : Z := TOTAL / LOADERS.

(** The two inner loops: the order ids sent over the connections [c],
    [c + 1], ..., [conns] of them, [PIPELINE] each. *)
Fixpoint send_pipeline (k : nat) (c oid : Z) : list (Z * Z) * Z :=
  match k with
  | O => ([], oid)
  | S k => let '(sent, oid') := send_pipeline k c (u64 (oid + 1)) in ((c, oid) :: sent, oid')
  end.
Fixpoint send_burst (conns : nat) (c oid : Z) : list (Z * Z) * Z :=
  match conns with
  | O => ([], oid)
  | S conns =>
      let '(sent, oid) := send_pipeline (Z.to_nat PIPELINE) c oid in
      let '(more, oid) := send_burst conns (c + 1) oid in
      (sent ++ more, oid)
  end.

(** [while (sent < per_loader_orders)]: the sends of a loader, as connection
    and order id; [None] when [fuel] runs out. *)
Fixpoint loader_loop (fuel : nat) (sent oid : Z) : option (list (Z * Z)) :=
  match fuel with
  | O => None
  | S fuel =>
      if sent <? per_loader_orders then
        let '(os, oid) := send_burst (Z.to_nat per_loader_conns) 0 oid in
        more ← loader_loop fuel (u64 (sent + u64 (per_loader_conns * PIPELINE))) oid;
        Some (os ++ more)
      else Some []
  end.
Definition first_oid (L : Z) : Z := u64 (u64 (u64 L * 100000000) + 1).
Definition loader (fuel : nat) (L : Z) : option (list (Z * Z)) := loader_loop fuel 0 (first_oid L).

(** The orders that [run_load] divides the time by. *)
Definition done_orders : Z := u64 (per_loader_orders * LOADERS).

(** ** Reading the answers *)

(** [while (got < want)] around [recv]: [returns] are the values the calls
    return, [stream] the bytes that arrive; [None] while the thread is blocked. *)
Fixpoint recv_all (want got : Z) (buf stream returns : list Z) : option (Z * list Z * list Z) :=
  if got <? want then
    match returns with
    | [] => None
    | r :: returns =>
        if r <=? 0 then Some (got, buf, stream)
        else recv_all want (u64 (got + r)) (buf ++ take (Z.to_nat r) stream) (drop (Z.to_nat r) stream) returns
    end
  else Some (got, buf, stream).

(** What a stream socket promises of the calls: a positive result is at most
    the bytes asked for and the bytes that arrived, and the calls go on until
    [want] bytes were read. *)
Fixpoint recv_fair (want avail : Z) (returns : list Z) : Prop :=
  if want =? 0 then True
  else match returns with
       | [] => False
       | r :: returns => 0 < r <= want /\ r <= avail /\ recv_fair (want - r) (avail - r) returns
       end.

Lemma recv_all_reads want got buf stream returns : 0 <= got <= want -> want < 2 ^ 64 ->
  recv_fair (want - got) (zlen stream) returns ->
  recv_all want got buf stream returns =
    Some (want, buf ++ take (Z.to_nat (want - got)) stream, drop (Z.to_nat (want - got)) stream) /\ want - got <= zlen stream.
Proof.
  revert got buf stream. induction returns as [|r returns IH]; intros got buf stream Hg Hw Hf; cbn [recv_fair recv_all] in *.
  - destruct (Z.eqb_spec (want - got) 0) as [E|]; [|done]. rewrite (proj2 (Z.ltb_ge got want)) by lia. rewrite E.
    rewrite app_nil_r. pose proof (zlen_nonneg stream). split; [by replace got with want by lia|lia].
  - destruct (Z.eqb_spec (want - got) 0) as [E|Hne].
    + rewrite (proj2 (Z.ltb_ge got want)) by lia. rewrite E, app_nil_r. pose proof (zlen_nonneg stream). split; [by replace got with want by lia|lia].
    + destruct Hf as (Hr & Ha & Hf). rewrite (proj2 (Z.ltb_lt got want)), (proj2 (Z.leb_gt r 0)) by lia. rewrite wrapU_small by lia.
      assert (Hlen : zlen (drop (Z.to_nat r) stream) = zlen stream - r) by (unfold zlen in *; rewrite length_drop; lia).
      destruct (IH (got + r) (buf ++ take (Z.to_nat r) stream) (drop (Z.to_nat r) stream)) as [-> Hle]; [lia|done| |].
      { rewrite Hlen. by replace (want - (got + r)) with (want - got - r) by lia. }
      rewrite Hlen in Hle. split; [|lia]. rewrite <- app_assoc, drop_drop.
      replace (Z.to_nat (want - got)) with (Z.to_nat r + Z.to_nat (want - (got + r)))%nat by lia. by rewrite take_take_drop.
Qed.

(** ** The sends of a loader *)

Lemma send_pipeline_ids k c oid : 0 <= oid -> oid + Z.of_nat k < 2 ^ 64 ->
  send_pipeline k c oid = ((fun x => (c, x)) <$> seqZ oid (Z.of_nat k), oid + Z.of_nat k).
Proof.
  revert oid. induction k as [|k IH]; intros oid H0 Hlt; cbn [send_pipeline]; [by rewrite Z.add_0_r|].
  rewrite wrapU_small, IH by lia. rewrite (seqZ_cons oid (Z.of_nat (S k))) by lia. rewrite fmap_cons.
  replace (Z.pred (Z.of_nat (S k))) with (Z.of_nat k) by lia. f_equal. lia.
Qed.

Lemma send_burst_ids conns c oid : 0 <= oid -> oid + Z.of_nat conns * PIPELINE < 2 ^ 64 ->
  (send_burst conns c oid).2 = oid + Z.of_nat conns * PIPELINE /\
  ((send_burst conns c oid).1).*2 = seqZ oid (Z.of_nat conns * PIPELINE) /\
  forall c', zlen (filter (fun p => p.1 = c') (send_burst conns c oid).1) =
    if decide (c <= c' < c + Z.of_nat conns) then PIPELINE else 0.
Proof.
  revert c oid. induction conns as [|conns IH]; intros c oid H0 Hlt; cbn [send_burst].
  { split; [cbn; lia|]. split; [done|]. intros c'. by rewrite decide_False by lia. }
  rewrite send_pipeline_ids by (change (Z.of_nat (Z.to_nat PIPELINE)) with PIPELINE; unfold PIPELINE in *; lia).
  change (Z.of_nat (Z.to_nat PIPELINE)) with PIPELINE.
  destruct (IH (c + 1) (oid + PIPELINE)) as (E1 & E2 & E3); [unfold PIPELINE in *; lia..|].
  destruct (send_burst conns (c + 1) (oid + PIPELINE)) as [more oid']. cbn [fst snd] in *. split; [lia|]. split.
  - rewrite fmap_app, E2, <- list_fmap_compose. replace (Z.of_nat (S conns) * PIPELINE) with (PIPELINE + Z.of_nat conns * PIPELINE) by lia.
    rewrite seqZ_app by (unfold PIPELINE; lia). by rewrite list_fmap_id.
  - intros c'. rewrite filter_app, zlen_app, E3. assert (Hp : filter (fun p => p.1 = c') ((fun x : Z => (c, x)) <$> seqZ oid PIPELINE) =
      if decide (c = c') then (fun x : Z => (c, x)) <$> seqZ oid PIPELINE else []).
    { induction (seqZ oid PIPELINE) as [|x l IHl]; [by destruct (decide _)|]. rewrite fmap_cons, filter_cons, IHl.
      destruct (decide ((c, x).1 = c')) as [E|E], (decide (c = c')); by try destruct (E ltac:(done)). }
    rewrite Hp. destruct (decide (c = c')) as [<-|].
    + rewrite zlen_fmap, decide_False, decide_True by lia. unfold zlen. rewrite length_seqZ. done.
    + change (zlen []) with 0. destruct (decide (c + 1 <= c' < _)), (decide (c <= c' < _)); try lia.
Qed.

Definition burst : Z := per_loader_conns * PIPELINE.

(** The bursts a loader sends: the last one goes past [per_loader_orders]. *)
Definition BURSTS : Z := (per_loader_orders + burst - 1) / burst.

Lemma loader_loop_ids n fuel oid : Z.of_nat n <= BURSTS -> (n < fuel)%nat -> 0 <= oid -> oid + Z.of_nat n * burst < 2 ^ 64 ->
  exists os, loader_loop fuel (burst * (BURSTS - Z.of_nat n)) oid = Some os /\ os.*2 = seqZ oid (Z.of_nat n * burst) /\
    forall c, 0 <= c < per_loader_conns -> zlen (filter (fun p => p.1 = c) os) = Z.of_nat n * PIPELINE.
Proof.
  change BURSTS with 391. change burst with 256.
  revert fuel oid. induction n as [|n IH]; intros [|fuel] oid Hn Hfuel H0 Hlt; cbn [loader_loop]; try lia.
  { rewrite (proj2 (Z.ltb_ge _ _)) by (change per_loader_orders with 100000; lia). by exists []. }
  rewrite (proj2 (Z.ltb_lt _ _)) by (change per_loader_orders with 100000; lia).
  destruct (send_burst_ids (Z.to_nat per_loader_conns) 0 oid H0) as (E1 & E2 & E3);
    [change (Z.of_nat (Z.to_nat per_loader_conns) * PIPELINE) with 256; lia|].
  change (Z.of_nat (Z.to_nat per_loader_conns) * PIPELINE) with 256 in E1, E2. change (Z.of_nat (Z.to_nat per_loader_conns)) with per_loader_conns in E3.
  destruct (send_burst _ 0 oid) as [os oid']. cbn [fst snd] in *. subst oid'. change (u64 (per_loader_conns * PIPELINE)) with 256.
  rewrite wrapU_small by lia. replace (256 * (391 - Z.of_nat (S n)) + 256) with (256 * (391 - Z.of_nat n)) by lia.
  destruct (IH fuel (oid + 256)) as (more & -> & F1 & F2); [lia..|]. exists (os ++ more). split; [done|]. split.
  - rewrite fmap_app, E2, F1. replace (Z.of_nat (S n) * 256) with (256 + Z.of_nat n * 256) by lia. by rewrite seqZ_app by lia.
  - intros c Hc. rewrite filter_app, zlen_app, E3, decide_True, F2 by lia. lia.
Qed.

(** The loaders of the throughput benchmark send what they should: each
    loader ends its loop after 391 bursts and has then sent consecutive order
    ids of its own range, the same number over each of its connections, at
    least [per_loader_orders] of them; no id is sent by two loaders, and all
    their orders together fit in the arena.  They are more than the
    [done_orders] that the reported rate counts. *)
Theorem loaders_send fuel L : BURSTS < Z.of_nat fuel -> 0 <= L < LOADERS ->
  exists os, loader fuel L = Some os /\ os.*2 = seqZ (first_oid L) (zlen os) /\
    (forall c, 0 <= c < per_loader_conns -> zlen (filter (fun p => p.1 = c) os) = BURSTS * PIPELINE) /\
    per_loader_orders <= zlen os < per_loader_orders + burst /\
    (forall L' x, 0 <= L' < LOADERS -> x ∈ os.*2 -> first_oid L' <= x < first_oid L' + zlen os -> L' = L) /\
    LOADERS * zlen os <= max_orders THROUGHPUT_CFG /\ done_orders < LOADERS * zlen os.
Proof.
  intros Hfuel HL. assert (Hoid : forall L, 0 <= L < LOADERS -> first_oid L = L * 100000000 + 1).
  { intros l Hl. unfold first_oid, LOADERS in *. by rewrite (wrapU_small 64 l), (wrapU_small 64 (l * _)), wrapU_small by lia. }
  pose proof (Hoid L HL) as E0. unfold LOADERS in HL.
  destruct (loader_loop_ids (Z.to_nat BURSTS) fuel (first_oid L)) as (os & Hrun & Hids & Hc); [done| |lia| |].
  { change (Z.to_nat BURSTS) with 391%nat. change BURSTS with 391 in Hfuel. lia. }
  { change (Z.of_nat (Z.to_nat BURSTS) * burst) with 100096. lia. }
  change (burst * (BURSTS - Z.of_nat (Z.to_nat BURSTS))) with 0 in Hrun. change (Z.of_nat (Z.to_nat BURSTS)) with BURSTS in Hids, Hc.
  assert (Hz : zlen os = 100096).
  { rewrite <- (zlen_fmap snd), Hids. change (BURSTS * burst) with 100096. unfold zlen. rewrite length_seqZ. lia. }
  change (BURSTS * burst) with 100096 in Hids. exists os. rewrite Hz. split; [done|]. split; [done|]. split; [done|].
  change per_loader_orders with 100000. change burst with 256. change (max_orders THROUGHPUT_CFG) with 1048576.
  change done_orders with 400000. change LOADERS with 4. split; [lia|]. split; [|lia].
  intros L' x HL' Hx. rewrite Hids, elem_of_seqZ in Hx. rewrite (Hoid L' HL'). lia.
Qed.

(** ** The shard under load *)

(** An order of one of the two streams, with the session stamped in. *)
Definition streamed (o : NewOrder) : Prop := exists sid, is_u 32 sid /\
  ((exists i, 0 <= i < LATENCY_TOTAL /\ o = with_session (latency_order i) sid) \/
   (exists oid, is_u 64 oid /\ o = with_session (make_order oid) sid)).

(** The streams bid one lot at a price of the ladder. *)
Record bids_one (o : NewOrder) : Prop := {
  bo_ok : order_ok o;
  bo_shape : hdr_type (no_hdr o) = NEW_ORDER /\ no_symbol_id o = 0 /\ no_qty o = 1 /\ no_side o = BUY /\ no_tif o = GTC;
  bo_price : 900 < no_price o <= 2900
}.

Lemma streamed_bids o : streamed o -> bids_one o.
Proof.
  intros (sid & Hsid & [(i & Hi & ->)|(oid & Hoid & ->)]); unfold is_u in Hsid.
  - assert (Hr : 0 <= Z.rem i 2000 < 2000) by (apply Z.rem_bound_pos; lia). assert (Hu : is_u 64 (u64 (u64 i + 1))) by (apply wrapU_bound; lia).
    split; [|done|cbn; lia]. split; [|done]. unfold with_session, latency_order. cbn [no_hdr no_order_id no_price no_qty no_symbol_id no_side no_tif].
    assert (is_i64 (901 + Z.rem i 2000)) by (unfold is_i64, INT64_MIN, INT64_MAX; lia).
    repeat (split; try done); apply Hu.
  - assert (Hr : 0 <= oid mod 2000 < 2000) by (by apply Z.mod_pos_bound). 
    assert (Hp : i64 (u64 (901 + oid mod 2000)) = 901 + oid mod 2000) by (rewrite wrapU_small by lia; apply wrapS_small; lia).
    split; [|done|cbn; rewrite Hp; lia]. split; [|done]. unfold with_session, make_order. cbn [no_hdr no_order_id no_price no_qty no_symbol_id no_side no_tif].
    rewrite Hp. assert (is_i64 (901 + oid mod 2000)) by (unfold is_i64, INT64_MIN, INT64_MAX; lia).
    repeat (split; try done); apply Hoid.
Qed.

Section load.
Context (CFG : ShardConfig) (Hcfg : CFG = LATENCY_CFG \/ CFG = THROUGHPUT_CFG).

Record Load : Type := mkLoad {
  ld_shard : Shard;
  ld_sent : list NewOrder;         (* pushed by the gateway, in order *)
  ld_got : list OutboundMsg        (* popped by the gateway, in order *)
}.

Inductive load_step : Load -> Load -> Prop :=
| load_send sh sent got o q :
    streamed o -> zlen sent < max_orders CFG -> Spsc.push (queue_depth CFG) (inbound_ sh) (order_msg o) = Ok (true, q) ->
    load_step (mkLoad sh sent got) (mkLoad (set_inbound sh q) (sent ++ [o]) got)
| load_tick sh sent got sh' :
    tick CFG sh = Ok sh' -> load_step (mkLoad sh sent got) (mkLoad sh' sent got)
| load_recv sh sent got m q :
    Spsc.pop (queue_depth CFG) (outbound_ sh) = Ok (Some m, q) ->
    load_step (mkLoad sh sent got) (mkLoad (set_outbound sh q) sent (got ++ [m])).

Definition acks (o : NewOrder) (m : OutboundMsg) : Prop :=
  exists token, m = ack_of (no_order_id o) token (hdr_session_id (no_hdr o)).

(** [k] orders were served: they rest, and each has its acknowledgement. *)
Record load_inv (st : Load) (k : nat) (ab : ABook) (l : list OutboundMsg) : Prop := {
  li_k : (k <= length (ld_sent st))%nat;
  li_sent : Forall streamed (ld_sent st);
  li_max : zlen (ld_sent st) <= max_orders CFG;
  li_view : engine_view CFG 900 1 (ld_shard st) [0] [ab] (order_msg <$> drop k (ld_sent st)) l;
  li_asks : asks ab = [];
  li_bids : length (bids ab) = k;
  li_acks : Forall2 acks (take k (ld_sent st)) (ld_got st ++ l)
}.

Lemma load_cfg_ok : config_ok CFG /\ ladder_size CFG = 2048.
Proof.
  destruct Hcfg as [-> | ->]; (split; [|done]).
  - split; [by split|done|by exists 12|done|done].
  - split; [by split|done|by exists 14|done|done].
Qed.

(** A bid of the streams rests in a book without asks. *)
Lemma bid_rests ab o slot : bids_one o -> asks ab = [] ->
  spec_add (ladder_idx 900 1) ab o slot MAX_FILLS_PER_ORDER =
    (true, [], mkABook (spec_insert (ladder_idx 900 1) true (resting_of o slot 1) (bids ab)) []).
Proof.
  intros [_ (_ & _ & Eq & Es & Et) _] Ha. unfold spec_add. rewrite Es, Et, Eq. destruct ab as [b a]. cbn in Ha. subst a. done.
Qed.

Lemma load_fits st k ab l : load_inv st k ab l -> (k < length (ld_sent st))%nat ->
  exists o, ld_sent st !! k = Some o /\ bids_one o /\ order_fits CFG 900 1 [0] [ab] o 0 ab.
Proof.
  intros [Hk HF Hmax _ Ha Hb _] Hlt. destruct (lookup_lt_is_Some_2 _ _ Hlt) as [o Ho]. exists o. split; [done|].
  assert (HB : bids_one o) by (rewrite Forall_lookup in HF; by eapply streamed_bids, HF). split; [done|].
  destruct HB as [B1 (B2 & B3 & B4 & B5 & B6) B7]. destruct load_cfg_ok as [_ EL].
  split; try done.
  - by rewrite B3.
  - unfold is_i64, INT64_MIN, INT64_MAX. lia.
  - rewrite EL. unfold ladder_idx. rewrite Z.quot_1_r, wrapS_small by lia. lia.
  - unfold view_slots, aslots. cbn [fmap list_fmap concat]. rewrite Ha, !app_nil_r. unfold slots_of, zlen. rewrite length_fmap, Hb.
    unfold zlen in Hmax. lia.
Qed.

Lemma load_serves st k ab l : load_inv st k ab l ->
  (exists sh' k' ab' l', tick CFG (ld_shard st) = Ok sh' /\ load_inv (mkLoad sh' (ld_sent st) (ld_got st)) k' ab' l') \/
  tick CFG (ld_shard st) = Err Spin /\ zlen l = queue_depth CFG.
Proof.
  intros HI. destruct load_cfg_ok as [HC _]. destruct (decide (k = length (ld_sent st))) as [E|Hne].
  { left. exists (ld_shard st), k, ab, l. split; [|by destruct st, HI]. eapply view_tick_idle; [exact HC|].
    pose proof (li_view _ _ _ _ HI) as HV. rewrite drop_ge in HV by lia. exact HV. }
  pose proof (li_k _ _ _ _ HI) as Hk. destruct (load_fits st k ab l HI ltac:(lia)) as (o & Ho & HB & Hfit).
  pose proof HI as [_ HF Hmax HV Ha Hb Hacks]. rewrite (drop_S _ _ _ Ho), fmap_cons in HV.
  destruct (view_serves _ HC _ _ _ _ _ _ _ _ _ _ HV Hfit) as (slot & rests & fs & ab' & token & Hadd & _ & Hrun).
  rewrite bid_rests in Hadd by done. injection Hadd as <- <- <-. cbv zeta in Hrun.
  change (order_reports ?s ?i true [] token) with [ack_of i token s] in Hrun. change (zlen [ack_of _ token _]) with 1 in Hrun.
  destruct (decide _) as [Hroom|Hfull].
  - destruct Hrun as (sh' & Hrun & HV' & _). left.
    exists sh', (S k), (mkABook (spec_insert (ladder_idx 900 1) true (resting_of o slot 1) (bids ab)) []),
      (l ++ [ack_of (no_order_id o) token (hdr_session_id (no_hdr o))]).
    split; [exact Hrun|]. split; cbn [ld_sent ld_got ld_shard]; [lia|done|done|exact HV'|done| |].
    + cbn [bids]. rewrite spec_insert_perm. simpl. lia.
    + rewrite (take_S_r _ _ _ Ho), app_assoc. apply Forall2_app; [done|]. repeat constructor. by exists token.
  - right. split; [done|]. pose proof (Spsc.queue_repr_len _ _ _ (ev_out _ _ _ _ _ _ _ _ HV)). lia.
Qed.

Lemma load_inv_step st st' k ab l : load_step st st' -> load_inv st k ab l -> exists k' ab' l', load_inv st' k' ab' l'.
Proof.
  intros Hstep HI. destruct load_cfg_ok as [HC _]. destruct Hstep as [sh sent got o q Ho Hlt Hp|sh sent got sh' Hrun|sh sent got m q Hp].
  - destruct HI as [Hk HF Hmax HV Ha Hb Hacks]. cbn [ld_shard ld_sent ld_got] in *. exists k, ab, l.
    destruct HV as [V1 V2 V3 V4 V5]. destruct (Spsc.push_spec _ (cf_ring _ HC) _ _ (order_msg o) V4) as (q' & Hp' & Hq).
    rewrite Hp in Hp'. injection Hp' as E <-. rewrite <- E in Hq. split; cbn [ld_shard ld_sent ld_got]; try done.
    + rewrite length_app. lia.
    + by apply Forall_app_2; [|constructor].
    + rewrite zlen_app. change (zlen [o]) with 1. lia.
    + rewrite drop_app_le by done. rewrite fmap_app. split; try done. by apply shard_wf_inbound.
    + by rewrite take_app_le by done.
  - destruct (load_serves _ _ _ _ HI) as [(sh2 & k' & ab' & l' & Hrun' & HI')|[Hrun' _]]; cbn [ld_shard ld_sent ld_got] in *; rewrite Hrun in Hrun'; [|done].
    injection Hrun' as <-. by exists k', ab', l'.
  - destruct HI as [Hk HF Hmax HV Ha Hb Hacks]. cbn [ld_shard ld_sent ld_got] in *.
    destruct (view_pop _ HC _ _ _ _ _ _ _ HV) as (q' & Hp' & HV'). rewrite Hp in Hp'. injection Hp' as E <-.
    destruct l as [|m' l]; [done|]. injection E as ->. exists k, ab, l. split; cbn [ld_shard ld_sent ld_got]; try done. by rewrite <- app_assoc.
Qed.

Lemma load_reachable st st' k ab l : rtc load_step st st' -> load_inv st k ab l -> exists k' ab' l', load_inv st' k' ab' l'.
Proof.
  intros Hrun. revert k ab l. induction Hrun as [|st1 st2 st3 Hstep _ IH]; intros k ab l HI; [by exists k, ab, l|].
  destruct (load_inv_step _ _ _ _ _ Hstep HI) as (k' & ab' & l' & HI'). by apply (IH k' ab' l').
Qed.

Lemma load_inv_init sh : shard_init CFG 900 1 0 [] = Ok sh -> load_inv (mkLoad sh [] []) 0 (mkABook [] []) [].
Proof.
  intros Hinit. destruct load_cfg_ok as [HC _].
  pose proof (view_init CFG HC 900 1 0 [] sh ltac:(lia) ltac:(done) ltac:(destruct Hcfg as [-> | ->]; done) ltac:(constructor) Hinit) as HV.
  assert (local_of_ sh = [0]) as El.
  { unfold shard_init in Hinit. assert (identity_map CFG (S (Z.to_nat (SYMBOL_SPACE CFG))) 0 (replicate (Z.to_nat (SYMBOL_SPACE CFG)) NO_BOOK) = Ok [0])
      as Em by (by destruct Hcfg as [-> | ->]).
    rewrite Em in Hinit. cbn [mbind res_bind] in Hinit. by injection Hinit as <-. }
  assert (Em : max_symbols CFG = 1) by (by destruct Hcfg as [-> | ->]). rewrite El, Em in HV.
  split; try done. by destruct Hcfg as [-> | ->].
Qed.

(** Every order of the gateway benchmarks rests: when the gateway pushes
    orders of the latency or the throughput stream, with any session stamped
    in and no more of them than the arena holds, then however its pushes and
    pops interleave with the ticks of the shard, the shard meets no undefined
    behaviour, waits only for room in a full outbound ring, and its reports are
    exactly one acknowledgement for each order served, in order and for the
    order's session; all of the orders served rest as bids. *)
Theorem load_acked sh st :
  shard_init CFG 900 1 0 [] = Ok sh -> rtc load_step (mkLoad sh [] []) st ->
  exists k, (k <= length (ld_sent st))%nat /\
    Forall2 acks (take k (ld_sent st)) (ld_got st ++ Spsc.contents (queue_depth CFG) (outbound_ (ld_shard st))) /\
    Spsc.contents (queue_depth CFG) (inbound_ (ld_shard st)) = order_msg <$> drop k (ld_sent st) /\
    length (live (arena_ (ld_shard st)) (books_ (ld_shard st))) = k /\
    ((exists sh', tick CFG (ld_shard st) = Ok sh') \/
     tick CFG (ld_shard st) = Err Spin /\ zlen (Spsc.contents (queue_depth CFG) (outbound_ (ld_shard st))) = queue_depth CFG).
Proof.
  intros Hinit Hrun. destruct (load_reachable _ _ _ _ _ Hrun (load_inv_init sh Hinit)) as (k & ab & l & HI).
  destruct load_cfg_ok as [HC _]. pose proof HI as [Hk _ _ HV Ha Hb Hacks]. exists k. split; [done|].
  rewrite (Spsc.contents_repr _ (cf_ring _ HC) _ _ (ev_out _ _ _ _ _ _ _ _ HV)), (Spsc.contents_repr _ (cf_ring _ HC) _ _ (ev_in _ _ _ _ _ _ _ _ HV)).
  split; [done|]. split; [done|]. split.
  - rewrite (view_live _ _ _ _ _ _ _ _ HV). unfold view_slots, aslots. cbn [fmap list_fmap concat].
    rewrite Ha, !app_nil_r. unfold slots_of. by rewrite length_fmap.
  - destruct (load_serves st k ab l HI) as [(sh' & k' & ab' & l' & ? & _)|?]; [left; by exists sh'|by right].
Qed.

End load.

(** ** Whole answers *)

(** A client of the gateway benchmarks reads whole acknowledgements: when
    [n] acknowledgements arrive and the calls of [recv] return them in pieces of
    any size, the loop ends with exactly their bytes in the buffer, from which
    every acknowledgement is read back, and leaves what follows unread.  For the
    throughput benchmark [n] is [PIPELINE], for the latency benchmarks 1. *)
Theorem answers_read acks rest returns :
  let want := zlen acks * sizeof_Ack in
  Forall (cok c_Ack) acks -> want < 2 ^ 64 ->
  recv_fair want (zlen (concat (cenc c_Ack <$> acks) ++ rest)) returns ->
  exists buf, recv_all want 0 [] (concat (cenc c_Ack <$> acks) ++ rest) returns = Some (want, buf, rest) /\
    forall j a, acks !! j = Some a -> cdec c_Ack (drop (j * Z.to_nat sizeof_Ack) buf) = a.
Proof.
  intros want HF Hw Hr. pose proof (zlen_nonneg acks) as H0.
  assert (Hlen : forall l : list Ack, length (concat (cenc c_Ack <$> l)) = (length l * Z.to_nat sizeof_Ack)%nat).
  { induction l as [|a l IH]; [done|]. rewrite fmap_cons, concat_cons, length_app, IH, length_enc.
    unfold sizeof_Ack. rewrite Nat2Z.id. simpl. lia. }
  assert (Hz : Z.to_nat (want - 0) = length (concat (cenc c_Ack <$> acks))).
  { rewrite Hlen. unfold want, zlen, sizeof_Ack in *. lia. }
  assert (Hwant : 0 <= want) by (unfold want, sizeof_Ack; lia).
  destruct (recv_all_reads want 0 [] (concat (cenc c_Ack <$> acks) ++ rest) returns) as [-> _]; [lia|done|by rewrite Z.sub_0_r|].
  rewrite Hz, take_app_length, drop_app_length. eexists. split; [done|]. intros j a Hj.
  rewrite <- (take_drop_middle _ _ _ Hj), fmap_app, concat_app, fmap_cons, concat_cons. cbn [app].
  rewrite drop_app_length' by (rewrite Hlen, length_take; apply lookup_lt_Some in Hj; lia).
  rewrite dec_app by (by rewrite length_enc). apply dec_enc. rewrite Forall_lookup in HF. by eapply HF.
Qed.

(** ** The client of the latency benchmarks *)

Record Client : Type := mkClient {
  cl_sent : list Z;      (* bytes handed to send() *)
  cl_ack : list Z;       (* the bytes of ack *)
  cl_reads : Z;          (* rdtscp() calls so far *)
  cl_hist : list Z       (* the values handed to hdr_record_value *)
}.

Section client.
(** Readings of the counter and its frequency; what arrives in answer to the
    order of each round, and the results of the calls of [recv] in it. *)
Context (tsc : Z -> Z) (hz : Z) (answer returns : Z -> list Z).

(** One round; [None] while it is blocked in [recv]. *)
Definition latency_round (i : Z) (cl : Client) : res (option Client) :=
  let t0 := tsc (cl_reads cl) in
  let sent := cl_sent cl ++ cenc c_NewOrder (latency_order i) in
  match recv_all sizeof_Ack 0 [] (answer i) (returns i) with
  | None => Ok None
  | Some (got, buf, _) =>
      let ack := buf ++ drop (Z.to_nat got) (cl_ack cl) in
      let t1 := tsc (cl_reads cl + 1) in
      hist ← (if WARMUP <=? i then ns ← Util.tsc_to_ns (u64 (t1 - t0)) hz; Ok (cl_hist cl ++ [i64 ns]) else Ok (cl_hist cl));
      Ok (Some (mkClient sent ack (cl_reads cl + 2) hist))
  end.

(** [n] rounds from round [i] on. *)
Fixpoint latency_loop (n : nat) (i : Z) (cl : Client) : res (option Client) :=
  match n with
  | O => Ok (Some cl)
  | S n =>
      r ← latency_round i cl;
      match r with None => Ok None | Some cl => latency_loop n (i + 1) cl end
  end.

Definition client_init : Client := mkClient [] (replicate (Z.to_nat sizeof_Ack) 0) 0 [].

Definition latency_sample (j : Z) : Z := i64 (u64 (u64 (tsc (2 * j + 1) - tsc (2 * j)) * Util.NS_PER_SEC) / hz).

Definition sends (i : Z) : list Z := concat ((fun j => cenc c_NewOrder (latency_order j)) <$> seqZ 0 i).
Definition client_at (i : Z) (cl : Client) : Prop :=
  cl_sent cl = sends i /\ cl_reads cl = 2 * i /\ zlen (cl_ack cl) = sizeof_Ack /\ cl_hist cl = latency_sample <$> seqZ WARMUP (i - WARMUP).

(** Every order is answered by one acknowledgement. *)
Context (Hhz : 0 < hz) (acks : Z -> Ack).
Context (Hanswer : forall i, answer i = cenc c_Ack (acks i)) (Hreturns : forall i, recv_fair sizeof_Ack sizeof_Ack (returns i)).

Lemma latency_round_ok i cl : 0 <= i -> client_at i cl ->
  exists cl', latency_round i cl = Ok (Some cl') /\ client_at (i + 1) cl' /\ cl_ack cl' = cenc c_Ack (acks i).
Proof.
  intros Hi (H1 & H2 & H3 & H4). assert (Hlen : zlen (cenc c_Ack (acks i)) = sizeof_Ack) by (unfold zlen; by rewrite length_enc).
  destruct (recv_all_reads sizeof_Ack 0 [] (cenc c_Ack (acks i)) (returns i)) as [Hr _];
    [done|done|rewrite Hlen; apply Hreturns|]. unfold latency_round. rewrite Hanswer, Hr. cbn [app].
  rewrite take_ge by (rewrite length_enc; done). rewrite (drop_ge (cl_ack cl)) by (unfold zlen in H3; lia). rewrite app_nil_r.
  assert (Hh : (if WARMUP <=? i then ns ← Util.tsc_to_ns (u64 (tsc (cl_reads cl + 1) - tsc (cl_reads cl))) hz; Ok (cl_hist cl ++ [i64 ns])
    else Ok (cl_hist cl)) = Ok (latency_sample <$> seqZ WARMUP (i + 1 - WARMUP))).
  { rewrite H2, H4. unfold Util.tsc_to_ns. rewrite (proj2 (Z.eqb_neq hz 0)) by lia. cbn [mbind res_bind].
    destruct (Z.leb_spec WARMUP i).
    - replace (i + 1 - WARMUP) with (i - WARMUP + 1) by lia. rewrite seqZ_app by lia. rewrite fmap_app.
      replace (WARMUP + (i - WARMUP)) with i by lia. done.
    - by rewrite !seqZ_nil by lia. }
  rewrite Hh. cbn [mbind res_bind]. eexists. split; [reflexivity|]. split; [|done]. unfold client_at. cbn [cl_sent cl_ack cl_reads cl_hist].
  split; [|split; [lia|done]]. rewrite H1. unfold sends. rewrite seqZ_app by lia. rewrite fmap_app, concat_app. by f_equal.
Qed.

Lemma latency_loop_ok n i cl : 0 <= i -> client_at i cl ->
  exists cl', latency_loop n i cl = Ok (Some cl') /\ client_at (i + Z.of_nat n) cl' /\
    ((0 < n)%nat -> cl_ack cl' = cenc c_Ack (acks (i + Z.of_nat n - 1))).
Proof.
  revert i cl. induction n as [|n IH]; intros i cl Hi HC; cbn [latency_loop].
  { exists cl. split; [done|]. split; [by rewrite Z.add_0_r|lia]. }
  destruct (latency_round_ok i cl Hi HC) as (cl1 & -> & HC1 & Ha). cbn [mbind res_bind].
  destruct (IH (i + 1) cl1 ltac:(lia) HC1) as (cl' & Hrun & HC' & Ha'). exists cl'. split; [done|].
  replace (i + Z.of_nat (S n)) with (i + 1 + Z.of_nat n) by lia. split; [done|]. intros _.
  destruct n as [|n]; [|apply Ha'; lia]. cbn in Hrun. injection Hrun as <-. rewrite Ha. do 2 f_equal. lia.
Qed.

(** The client of the latency benchmarks gets through: when every order is
    answered with one acknowledgement, in whatever pieces, the loop of [TOTAL]
    rounds ends, the bytes sent are those of the orders in their order, the last
    acknowledgement read is that of the last order, and exactly [MEASURE] times
    are recorded, each between the two stamps around an order. *)
Theorem latency_client_measures :
  exists cl, latency_loop (Z.to_nat LATENCY_TOTAL) 0 client_init = Ok (Some cl) /\ cl_sent cl = sends LATENCY_TOTAL /\
    cl_ack cl = cenc c_Ack (acks (LATENCY_TOTAL - 1)) /\
    cl_hist cl = latency_sample <$> seqZ WARMUP MEASURE /\ zlen (cl_hist cl) = MEASURE.
Proof.
  destruct (latency_loop_ok (Z.to_nat LATENCY_TOTAL) 0 client_init ltac:(lia)) as (cl & Hrun & (E1 & _ & _ & E4) & Ha).
  { unfold client_at. cbn [cl_sent cl_ack cl_reads cl_hist client_init]. split; [done|]. split; [done|]. split; [done|].
    by rewrite seqZ_nil by (unfold WARMUP; lia). }
  rewrite Z2Nat.id in * by done. rewrite Z.add_0_l in *. exists cl. split; [done|]. split; [done|].
  split; [apply Ha; unfold LATENCY_TOTAL, WARMUP, MEASURE; lia|]. change (LATENCY_TOTAL - WARMUP) with MEASURE in E4.
  split; [done|]. rewrite E4, zlen_fmap. unfold zlen. rewrite length_seqZ. done.
Qed.

End client.

Lemma loaders_send_witness : exists os, loader 400 3 = Some os /\ os.*2 = seqZ (first_oid 3) (zlen os).
Proof.
  destruct (loaders_send 400 3) as (os & H1 & H2 & _); [reflexivity|split; [discriminate|reflexivity]|].
  exists os. split; [exact H1|exact H2].
Defined.

(** The shard of the latency benchmarks with its first order pushed. *)
Definition load_shard : Shard :=
  match shard_init LATENCY_CFG 900 1 0 [] with
  | Ok sh => sh
  | Err _ => mkShard (arena_init 65536) [] [] (Spsc.queue_init 4096 zero_inbound) (Spsc.queue_init 4096 zero_outbound) true 0
  end.

Lemma load_shard_init : shard_init LATENCY_CFG 900 1 0 [] = Ok load_shard.
Proof.
  destruct (load_cfg_ok LATENCY_CFG (or_introl eq_refl)) as [HC _].
  destruct (shard_init_spec LATENCY_CFG HC 900 1 0 []) as (sh & Hrun & _); [lia|done|done|constructor|].
  unfold load_shard. by rewrite Hrun.
Qed.

Definition first_order : NewOrder := with_session (latency_order 0) 1.

Lemma load_first : exists q, rtc (load_step LATENCY_CFG) (mkLoad load_shard [] []) (mkLoad (set_inbound load_shard q) [first_order] []).
Proof.
  destruct (load_cfg_ok LATENCY_CFG (or_introl eq_refl)) as [HC _].
  pose proof (load_inv_init LATENCY_CFG (or_introl eq_refl) load_shard load_shard_init) as HI.
  destruct (view_push _ HC _ _ _ _ _ _ _ (order_msg first_order) (li_view _ _ _ _ _ HI) ltac:(done)) as (q & Hp & _).
  exists q. apply rtc_once, (load_send LATENCY_CFG load_shard [] [] first_order q); [|reflexivity|exact Hp].
  exists 1. split; [split; [discriminate|reflexivity]|]. left. exists 0. split; [split; [discriminate|reflexivity]|done].
Qed.

Lemma load_acked_witness : exists q k, (k <= 1)%nat /\
  Spsc.contents 4096 (inbound_ (set_inbound load_shard q)) = order_msg <$> drop k [first_order].
Proof.
  destruct load_first as [q Hrun]. exists q.
  destruct (load_acked LATENCY_CFG (or_introl eq_refl) load_shard _ load_shard_init Hrun) as (k & H1 & _ & H2 & _).
  exists k. split; [exact H1|exact H2].
Defined.

Lemma answers_read_witness :
  exists buf, recv_all 48 0 [] (concat (cenc c_Ack <$> [mkAck (mkHeader 24 ACK 0 1) 7 8; mkAck (mkHeader 24 ACK 0 1) 9 10]) ++ [1; 2]) [5; 40; 3]
    = Some (48, buf, [1; 2]) /\ cdec c_Ack (drop (1 * Z.to_nat sizeof_Ack) buf) = mkAck (mkHeader 24 ACK 0 1) 9 10.
Proof.
  destruct (answers_read [mkAck (mkHeader 24 ACK 0 1) 7 8; mkAck (mkHeader 24 ACK 0 1) 9 10] [1; 2] [5; 40; 3]) as (buf & H1 & H2).
  - repeat constructor; vm_compute; intros; discriminate.
  - reflexivity.
  - vm_compute. repeat split; intros; discriminate.
  - exists buf. split; [exact H1|]. apply H2. reflexivity.
Defined.

End BenchGateway.
