(* ===== verification/Kernel.v ===== *)
(** * The socket interface of the operating system

    The gateways call sockets and epoll.  That code is not part of the
    repository, so it is a parameter of the model: [Kernel] lists the calls
    with what they take and return, and [KernelLaws] the documented behaviour
    the gateways rely on.  [SimKernel] is a small kernel with scripted clients
    that satisfies the laws; concrete runs use it. *)

From stdpp Require Import gmap.
From S2P Require Import Prelude Messages.

(** Calls return an [int] (negative on failure) and the kernel after the call.
    [k_recv] also returns the bytes it stores into the buffer, and
    [k_epoll_wait] the descriptors of the events, none on failure. *)
Class Kernel (K : Type) : Type := {
  k_socket : K -> Z * K;
  k_bind : K -> Z -> Z -> Z * K;               (* fd, port *)
  k_listen : K -> Z -> Z -> Z * K;             (* fd, backlog *)
  k_getsockname : K -> Z -> Z * K;             (* fd; the bound port *)
  k_setsockopt : K -> Z -> K;
  k_fcntl_getfl : K -> Z -> Z * K;
  k_fcntl_setfl : K -> Z -> Z -> K;
  k_accept : K -> Z -> Z * K;
  k_recv : K -> Z -> Z -> Z * list Z * K;      (* fd, length *)
  k_send : K -> Z -> list Z -> Z * K;
  k_close : K -> Z -> K;
  k_epoll_create : K -> Z * K;
  k_epoll_add : K -> Z -> Z -> K;              (* epoll fd, fd *)
  k_epoll_del : K -> Z -> Z -> K;
  k_epoll_wait : K -> Z -> Z -> Z -> list Z * K (* epoll fd, maximum, timeout *)
}.

(** What can be observed of a kernel: which descriptors are open, the bytes
    accepted for transmission on each since it was opened, the connections
    that wait to be accepted and the data that waits to be received. *)
Record KernelView (K : Type) : Type := mkView {
  k_open : K -> Z -> Prop;
  k_out : K -> Z -> list Z;
  k_backlog : K -> nat;
  k_unread : K -> nat
}.
Arguments k_open {K} _ _ _.
Arguments k_out {K} _ _ _.
Arguments k_backlog {K} _ _.
Arguments k_unread {K} _ _.

Section laws.
Context {K : Type} `{Kernel K} (V : KernelView K).

(** A call that neither opens, closes nor writes, and takes nothing back. *)
Record quiet (k k' : K) : Prop := {
  q_open : forall fd, k_open V k' fd <-> k_open V k fd;
  q_out : forall fd, k_out V k' fd = k_out V k fd;
  q_backlog : (k_backlog V k' <= k_backlog V k)%nat;
  q_unread : (k_unread V k' <= k_unread V k)%nat
}.

(** A call that may return a new descriptor, one that is not open yet. *)
Definition opens (k : K) (r : Z) (k' : K) : Prop :=
  if r <? 0 then quiet k k'
  else ~ k_open V k r /\ (forall fd, k_open V k' fd <-> fd = r \/ k_open V k fd) /\
    k_out V k' r = [] /\ (forall fd, fd <> r -> k_out V k' fd = k_out V k fd) /\
    (k_unread V k' <= k_unread V k)%nat.

Class KernelLaws : Prop := {
  socket_opens : forall k r k', k_socket k = (r, k') ->
    opens k r k' /\ (k_backlog V k' <= k_backlog V k)%nat;
  epoll_create_opens : forall k r k', k_epoll_create k = (r, k') ->
    opens k r k' /\ (k_backlog V k' <= k_backlog V k)%nat;
  accept_opens : forall k fd r k', k_accept k fd = (r, k') ->
    opens k r k' /\ (0 <= r -> (k_backlog V k' < k_backlog V k)%nat);
  bind_quiet : forall k fd p r k', k_bind k fd p = (r, k') -> quiet k k';
  listen_quiet : forall k fd n r k', k_listen k fd n = (r, k') -> quiet k k';
  getsockname_quiet : forall k fd r k', k_getsockname k fd = (r, k') -> quiet k k';
  setsockopt_quiet : forall k fd, quiet k (k_setsockopt k fd);
  getfl_quiet : forall k fd r k', k_fcntl_getfl k fd = (r, k') -> quiet k k';
  setfl_quiet : forall k fd f, quiet k (k_fcntl_setfl k fd f);
  epoll_add_quiet : forall k e fd, quiet k (k_epoll_add k e fd);
  epoll_del_quiet : forall k e fd, quiet k (k_epoll_del k e fd);
  (** Clients act while the gateway waits, so new input may be there after. *)
  epoll_wait_keeps : forall k e n t evs k', k_epoll_wait k e n t = (evs, k') ->
    (forall fd, k_open V k' fd <-> k_open V k fd) /\ (forall fd, k_out V k' fd = k_out V k fd) /\
    (0 <= n -> zlen evs <= n);
  recv_takes : forall k fd len r bs k', 0 <= len -> k_recv k fd len = (r, bs, k') ->
    quiet k k' /\ (0 < r -> zlen bs = r /\ r <= len /\ Forall is_byte bs /\
      (k_unread V k' < k_unread V k)%nat);
  send_appends : forall k fd bs r k', k_send k fd bs = (r, k') ->
    (forall f, k_open V k' f <-> k_open V k f) /\ r <= zlen bs /\
    k_out V k' fd = k_out V k fd ++ take (Z.to_nat r) bs /\
    (forall f, f <> fd -> k_out V k' f = k_out V k f) /\
    (k_backlog V k' <= k_backlog V k)%nat /\ (k_unread V k' <= k_unread V k)%nat;
  close_closes : forall k fd,
    (forall f, k_open V (k_close k fd) f <-> k_open V k f /\ f <> fd) /\
    (forall f, f <> fd -> k_out V (k_close k fd) f = k_out V k f) /\
    (k_backlog V (k_close k fd) <= k_backlog V k)%nat /\ (k_unread V (k_close k fd) <= k_unread V k)%nat
}.

Lemma quiet_trans k1 k2 k3 : quiet k1 k2 -> quiet k2 k3 -> quiet k1 k3.
Proof.
  intros [A1 B1 C1 D1] [A2 B2 C2 D2]. split; [|intros fd; by rewrite B2|lia|lia].
  intros fd. by rewrite A2.
Qed.

(** In the states [P], which sending does not leave, every [send] makes
    progress. *)
Definition writable (P : K -> Prop) : Prop :=
  forall k fd bs r k', P k -> bs <> [] -> k_send k fd bs = (r, k') -> 0 < r /\ P k'.

(** The calls of a poll before it sends, and the states they do not leave. *)
Inductive called : K -> K -> Prop :=
| called_wait k e n t : called k (k_epoll_wait k e n t).2
| called_accept k fd : called k (k_accept k fd).2
| called_getfl k fd : called k (k_fcntl_getfl k fd).2
| called_setfl k fd f : called k (k_fcntl_setfl k fd f)
| called_setsockopt k fd : called k (k_setsockopt k fd)
| called_epoll_add k e fd : called k (k_epoll_add k e fd)
| called_epoll_del k e fd : called k (k_epoll_del k e fd)
| called_recv k fd len : called k (k_recv k fd len).2
| called_close k fd : called k (k_close k fd).

Definition keeps (P : K -> Prop) : Prop := forall k k', called k k' -> P k -> P k'.

End laws.

#[export] Instance quiet_preorder {K} (V : KernelView K) : PreOrder (quiet V).
Proof. split; [done|]. intros k1 k2 k3. apply quiet_trans. Qed.

(** ** A kernel with scripted clients *)

Module Sim.

(** A client is the list of blocks it sends; an empty block closes its end.
    [sk_room] bounds what one [send] accepts ([0]: it would block). *)
Record SimKernel : Type := mkSim {
  sk_waiting : list (list (list Z));  (* clients that wait to be accepted *)
  sk_rx : list (Z * list Z);          (* blocks to receive, in order *)
  sk_tx : gmap Z (list Z);            (* bytes sent *)
  sk_live : gset Z;                   (* open descriptors *)
  sk_listen : Z;
  sk_room : Z
}.

Definition fresh_fd (live : gset Z) : Z := foldr Z.max 2 (elements live) + 1.

(** Open a descriptor on which the given blocks will arrive. *)
Definition sim_new (k : SimKernel) (waiting : list (list (list Z))) (blocks : list (list Z)) : Z * SimKernel :=
  let fd := fresh_fd (sk_live k) in
  (fd, mkSim waiting (sk_rx k ++ ((fun b => (fd, b)) <$> blocks)) (<[fd := []]> (sk_tx k))
         ({[fd]} ∪ sk_live k) (sk_listen k) (sk_room k)).

(** The next at most [len] bytes for [fd]; [None] when nothing is there. *)
Fixpoint take_block (fd len : Z) (rx : list (Z * list Z)) : option (list Z * list (Z * list Z)) :=
  match rx with
  | [] => None
  | (f, b) :: rx =>
      if f =? fd then
        if zlen b <=? len then Some (b, match b with [] => (f, b) :: rx | _ => rx end)
        else Some (take (Z.to_nat len) b, (f, drop (Z.to_nat len) b) :: rx)
      else '(b', rx) ← take_block fd len rx; Some (b', (f, b) :: rx)
  end.

Definition sim_recv (k : SimKernel) (fd len : Z) : Z * list Z * SimKernel :=
  match take_block fd len (sk_rx k) with
  | None => (-1, [], k)
  | Some (b, rx) => (zlen b, u8 <$> b, mkSim (sk_waiting k) rx (sk_tx k) (sk_live k) (sk_listen k) (sk_room k))
  end.

Definition sim_send (k : SimKernel) (fd : Z) (bs : list Z) : Z * SimKernel :=
  let n := Z.max 0 (Z.min (sk_room k) (zlen bs)) in
  (if n =? 0 then -1 else n,
   mkSim (sk_waiting k) (sk_rx k) (<[fd := default [] (sk_tx k !! fd) ++ take (Z.to_nat n) bs]> (sk_tx k))
     (sk_live k) (sk_listen k) (sk_room k)).

Definition sim_accept (k : SimKernel) : Z * SimKernel :=
  match sk_waiting k with
  | [] => (-1, k)
  | c :: cs => sim_new k cs c
  end.

Definition sim_close (k : SimKernel) (fd : Z) : SimKernel :=
  mkSim (sk_waiting k) (sk_rx k) (sk_tx k) (sk_live k ∖ {[fd]}) (sk_listen k) (sk_room k).

Definition sim_events (k : SimKernel) : list Z :=
  match sk_waiting k with [] => [] | _ => [sk_listen k] end ++ remove_dups (fst <$> sk_rx k).

Definition sim_set_listen (k : SimKernel) (fd : Z) : SimKernel :=
  mkSim (sk_waiting k) (sk_rx k) (sk_tx k) (sk_live k) fd (sk_room k).

#[export] Instance sim_kernel : Kernel SimKernel := {
  k_socket k := sim_new k (sk_waiting k) [];
  k_bind k _ port := (if port <? 1024 then -1 else 0, k);
  k_listen k fd _ := (0, sim_set_listen k fd);
  k_getsockname k _ := (9000, k);
  k_setsockopt k _ := k;
  k_fcntl_getfl k _ := (2, k);
  k_fcntl_setfl k _ _ := k;
  k_accept k _ := sim_accept k;
  k_recv := sim_recv;
  k_send := sim_send;
  k_close := sim_close;
  k_epoll_create k := sim_new k (sk_waiting k) [];
  k_epoll_add k _ _ := k;
  k_epoll_del k _ _ := k;
  k_epoll_wait k _ n _ := (take (Z.to_nat n) (sim_events k), k)
}.

Definition rx_size (rx : list (Z * list Z)) : nat := sum_list_with (fun x => S (length x.2)) rx.
Definition blocks_size (bs : list (list Z)) : nat := sum_list_with (fun b => S (length b)) bs.

Definition sim_view : KernelView SimKernel := {|
  k_open k fd := fd ∈ sk_live k;
  k_out k fd := default [] (sk_tx k !! fd);
  k_backlog k := length (sk_waiting k);
  k_unread k := (rx_size (sk_rx k) + sum_list_with blocks_size (sk_waiting k))%nat
|}.

Lemma fresh_fd_bound live fd : fd ∈ live -> fd < fresh_fd live.
Proof.
  intros H%elem_of_elements. unfold fresh_fd. induction H as [x l|x y l _ IH]; cbn [foldr]; lia.
Qed.

Lemma fresh_fd_pos live : 0 < fresh_fd live.
Proof. unfold fresh_fd. induction (elements live) as [|x l IH]; cbn [foldr]; lia. Qed.

Lemma take_block_size fd len rx b rx' : 0 <= len -> take_block fd len rx = Some (b, rx') ->
  zlen b <= len /\ (rx_size rx' <= rx_size rx)%nat /\ (b <> [] -> (rx_size rx' < rx_size rx)%nat).
Proof.
  intros Hlen. revert b rx'. induction rx as [|[f c] rx IH]; intros b rx'; [done|]. cbn [take_block].
  destruct (f =? fd).
  - destruct (Z.leb_spec (zlen c) len).
    + intros [= <- <-]. split; [done|]. destruct c; unfold rx_size; simpl; (split; [lia|]); intros; [done|lia].
    + intros [= <- <-]. unfold rx_size, zlen in *. simpl. rewrite length_take, length_drop.
      split; [lia|]. split; [lia|]. intros Hne. destruct (Z.to_nat len) eqn:E; [done|lia].
  - destruct (take_block fd len rx) as [[b' rx1]|]; [|done]. intros [= <- <-].
    destruct (IH b' rx1 eq_refl) as (? & ? & Hlt). unfold rx_size in *. simpl. split; [done|]. split; [lia|].
    intros Hne. specialize (Hlt Hne). lia.
Qed.

Lemma rx_size_app a b : rx_size (a ++ b) = (rx_size a + rx_size b)%nat.
Proof. unfold rx_size. induction a as [|x a IH]; simpl; lia. Qed.

Lemma rx_size_tag fd bs : rx_size ((fun b => (fd, b)) <$> bs) = blocks_size bs.
Proof.
  unfold rx_size, blocks_size. induction bs as [|x a IH]; [done|]. rewrite fmap_cons. simpl. by rewrite IH.
Qed.

Lemma sim_new_opens k w blocks r k' :
  (blocks_size blocks + sum_list_with blocks_size w <= sum_list_with blocks_size (sk_waiting k))%nat ->
  sim_new k w blocks = (r, k') -> opens sim_view k r k' /\ 0 <= r.
Proof.
  intros Hsz [= <- <-]. pose proof (fresh_fd_pos (sk_live k)) as Hp. unfold opens.
  rewrite (proj2 (Z.ltb_ge _ _)) by lia. split; [|lia]. simpl.
  split; [intros Hin%fresh_fd_bound; lia|]. split; [set_solver|].
  split; [by rewrite lookup_insert_eq|]. split; [intros fd Hne; by rewrite lookup_insert_ne|].
  rewrite rx_size_app, rx_size_tag. lia.
Qed.

Lemma sim_recv_takes k fd len r bs k' : 0 <= len -> sim_recv k fd len = (r, bs, k') ->
  quiet sim_view k k' /\ (0 < r -> zlen bs = r /\ r <= len /\ Forall is_byte bs /\
      (k_unread sim_view k' < k_unread sim_view k)%nat).
Proof.
  intros Hlen. unfold sim_recv. destruct (take_block fd len (sk_rx k)) as [[b rx]|] eqn:E; [|by intros [= <- <- <-]].
  intros [= <- <- <-]. destruct (take_block_size _ _ _ _ _ Hlen E) as (Hb & Hsz & Hlt).
  split; [split; simpl; [done|done|lia|lia]|].
  intros Hpos. split; [unfold zlen; by rewrite length_fmap|]. split; [done|]. split.
  - apply Forall_fmap, Forall_true. intros x. apply wrapU_bound. lia.
  - simpl. assert (b <> []) as Hne by (by intros ->). specialize (Hlt Hne). lia.
Qed.

Lemma sim_send_appends k fd bs r k' : sim_send k fd bs = (r, k') ->
  r <= zlen bs /\ k_out sim_view k' fd = k_out sim_view k fd ++ take (Z.to_nat r) bs /\
  (forall f, f <> fd -> k_out sim_view k' f = k_out sim_view k f).
Proof.
  unfold sim_send. intros [= <- <-]. pose proof (zlen_nonneg bs). simpl. rewrite lookup_insert_eq. simpl.
  destruct (Z.eqb_spec (Z.max 0 (Z.min (sk_room k) (zlen bs))) 0) as [->|].
  - split; [lia|]. split; [done|]. intros f Hf. by rewrite lookup_insert_ne.
  - split; [lia|]. split; [done|]. intros f Hf. by rewrite lookup_insert_ne.
Qed.

#[export] Instance sim_kernel_laws : KernelLaws sim_view.
Proof.
  split; try (intros; simpl; done).
  - intros k r k' Hk. destruct (sim_new_opens k (sk_waiting k) [] _ _ (le_n _) Hk). injection Hk as _ <-. done.
  - intros k r k' Hk. destruct (sim_new_opens k (sk_waiting k) [] _ _ (le_n _) Hk). injection Hk as _ <-. done.
  - intros k fd r k'. cbn. unfold sim_accept. destruct (sk_waiting k) as [|c cs] eqn:E.
    + intros [= <- <-]. by split.
    + intros Hk. destruct (sim_new_opens k cs c _ _ ltac:(rewrite E; simpl; lia) Hk). split; [done|].
      intros _. injection Hk as _ <-. simpl. lia.
  - intros k fd p r k' [= _ <-]. done.
  - intros k fd p r k' [= _ <-]. done.
  - intros k fd r k' [= _ <-]. done.
  - intros k fd r k' [= _ <-]. done.
  - intros k e n t evs k' [= <- <-]. split; [done|]. split; [done|]. intros Hn.
    unfold zlen. rewrite length_take. lia.
  - intros k fd len r bs k'. apply sim_recv_takes.
  - intros k fd bs r k' Hk. destruct (sim_send_appends _ _ _ _ _ Hk) as (? & ? & ?).
    injection Hk as _ <-. done.
  - intros k fd. simpl. split; [set_solver|]. done.
Qed.

Lemma sim_writable : writable (fun k => 0 < sk_room k).
Proof.
  intros k fd bs r k' Hr Hbs [= <- <-]. split; [|done].
  assert (0 < zlen bs) by (destruct bs; [done|rewrite zlen_cons; pose proof (zlen_nonneg bs); lia]).
  destruct (Z.eqb_spec (Z.max 0 (Z.min (sk_room k) (zlen bs))) 0); lia.
Qed.

Lemma sim_keeps : keeps (fun k => 0 < sk_room k).
Proof.
  intros k k' Hc Hk. destruct Hc as [k e n t|k fd|k fd|k fd f|k fd|k e fd|k e fd|k fd len|k fd]; try exact Hk.
  - cbn. unfold sim_accept. by destruct (sk_waiting k).
  - cbn. unfold sim_recv. by destruct (take_block fd len (sk_rx k)) as [[b rx]|].
Qed.

End Sim.
