(* ===== verification/Gateway.v ===== *)
(** * The epoll gateway ([include/lx/net/gateway.hpp])

    One thread that bridges client sockets and the shards.  [Gateway] is its
    state; the operations take the kernel they call and return it.  The loops
    that end when the kernel has no more input run on fuel. *)

From stdpp Require Import gmap.
From S2P Require Import Prelude Messages Codec Spsc Sink Session OrderBook Shard ShardRouter Kernel.

Module Gateway.
Import Shard ShardRouter.

Definition MAX_EVENTS : Z := 64.
Definition BUF_SIZE : Z := 4096.
Definition O_NONBLOCK : Z := 2048.

Record Gateway : Type := mkGateway {
  shards_ : list Shard;
  listen_fd_ : Z;
  epoll_fd_ : Z;
  port_ : Z;                                (* uint16_t *)
  next_session_id_ : Z;                     (* uint32_t *)
  sessions_ : gmap Z Session.Session;
  sid_to_fd_ : gmap Z Z;
  running_ : bool
}.

Definition set_shards (g : Gateway) (shards : list Shard) : Gateway :=
  mkGateway shards (listen_fd_ g) (epoll_fd_ g) (port_ g) (next_session_id_ g) (sessions_ g) (sid_to_fd_ g)
    (running_ g).
Definition set_sessions (g : Gateway) (sessions : gmap Z Session.Session) (routes : gmap Z Z) : Gateway :=
  mkGateway (shards_ g) (listen_fd_ g) (epoll_fd_ g) (port_ g) (next_session_id_ g) sessions routes (running_ g).
Definition set_next (g : Gateway) (sid : Z) : Gateway :=
  mkGateway (shards_ g) (listen_fd_ g) (epoll_fd_ g) (port_ g) sid (sessions_ g) (sid_to_fd_ g) (running_ g).

Section gateway.
Context (CFG : ShardConfig) (N : Z) {K : Type} `{Kernel K}.

#[local] Instance gateway_sink : Sink (list Shard) := router_sink CFG N.

(** ** Construction *)

Definition set_nonblocking (k : K) (fd : Z) : K :=
  let '(flags, k) := k_fcntl_getfl k fd in k_fcntl_setfl k fd (Z.lor flags O_NONBLOCK).

Definition add_epoll (k : K) (epoll_fd fd : Z) : K := k_epoll_add k epoll_fd fd.

(** The exceptions of the constructor. *)
Inductive init_error : Type := socket_failed | bind_failed | listen_failed | epoll_failed.

Definition gateway_init (shards : list Shard) (port : Z) (k : K) : (init_error + Gateway) * K :=
  let '(listen_fd, k) := k_socket k in
  if listen_fd <? 0 then (inl socket_failed, k) else
  let k := k_setsockopt k listen_fd in
  let '(r, k) := k_bind k listen_fd port in
  if negb (r =? 0) then (inl bind_failed, k) else
  let '(r, k) := k_listen k listen_fd 128 in
  if negb (r =? 0) then (inl listen_failed, k) else
  let '(bound, k) := k_getsockname k listen_fd in
  let k := set_nonblocking k listen_fd in
  let '(epoll_fd, k) := k_epoll_create k in
  if epoll_fd <? 0 then (inl epoll_failed, k) else
  let k := add_epoll k epoll_fd listen_fd in
  (inr (mkGateway shards listen_fd epoll_fd (u16 bound) 1 ∅ ∅ true), k).

(** ** Connections *)

(** [sessions_.try_emplace(cfd, cfd, sid)] *)
Definition try_emplace (sessions : gmap Z Session.Session) (cfd sid : Z) : gmap Z Session.Session :=
  match sessions !! cfd with
  | Some _ => sessions
  | None => <[cfd := Session.session_init cfd sid]> sessions
  end.

Fixpoint accept_all (fuel : nat) (g : Gateway) (k : K) : res (Gateway * K) :=
  match fuel with
  | O => Err OutOfFuel
  | S fuel =>
      let '(cfd, k) := k_accept k (listen_fd_ g) in
      if cfd <? 0 then Ok (g, k)
      else
        let k := set_nonblocking k cfd in
        let k := k_setsockopt k cfd in
        let k := add_epoll k (epoll_fd_ g) cfd in
        let sid := next_session_id_ g in
        let g := set_next g (u32 (sid + 1)) in
        accept_all fuel
          (set_sessions g (try_emplace (sessions_ g) cfd sid) (<[sid := cfd]> (sid_to_fd_ g))) k
  end.

Definition close_session (g : Gateway) (fd : Z) (k : K) : Gateway * K :=
  let routes := match sessions_ g !! fd with
                | Some s => delete (Session.session_id s) (sid_to_fd_ g)
                | None => sid_to_fd_ g
                end in
  let k := k_epoll_del k (epoll_fd_ g) fd in
  let k := k_close k fd in
  (set_sessions g (delete fd (sessions_ g)) routes, k).

(** The loop of [read_session] on the session's own state; the boolean says
    that the peer has closed. *)
Fixpoint recv_loop (fuel : nat) (fd : Z) (s : Session.Session) (shards : list Shard) (k : K) :
    res (bool * Session.Session * list Shard * K) :=
  match fuel with
  | O => Err OutOfFuel
  | S fuel =>
      let '(r, buf, k) := k_recv k fd BUF_SIZE in
      if 0 <? r then
        s ← Session.append s buf (u32 r);
        '(_, s, shards) ← Session.consume s shards;
        recv_loop fuel fd s shards k
      else Ok (r =? 0, s, shards, k)
  end.

Definition read_session (fuel : nat) (g : Gateway) (fd : Z) (k : K) : res (Gateway * K) :=
  match sessions_ g !! fd with
  | None => Ok (g, k)
  | Some s =>
      '(eof, s, shards, k) ← recv_loop fuel fd s (shards_ g) k;
      let g := set_sessions (set_shards g shards) (<[fd := s]> (sessions_ g)) (sid_to_fd_ g) in
      if (eof : bool) then Ok (close_session g fd k)
      else if Session.closed s then Ok (close_session g fd k)
      else Ok (g, k)
  end.

(** ** Reports *)

(** [fuel] counts the calls of [send]: each accepts at least one byte of the
    [len] or ends the loop. *)
Fixpoint send_loop (fuel : nat) (k : K) (fd : Z) (data : list Z) (len sent : Z) : res K :=
  match fuel with
  | O => Err OutOfFuel
  | S fuel =>
      if sent <? len then
        bs ← bytes_at data sent (len - sent);
        let '(w, k) := k_send k fd bs in
        if w <=? 0 then Ok k else send_loop fuel k fd data len (u16 (sent + u16 w))
      else Ok k
  end.

Definition send_all (k : K) (fd : Z) (data : list Z) (len : Z) : res K :=
  send_loop (S (Z.to_nat len)) k fd data len 0.

(** [while (shards_.outbound(s).pop(out))]; a ring holds at most
    [queue_depth] messages. *)
Fixpoint drain_shard (fuel : nat) (g : Gateway) (s : Z) (k : K) : res (Gateway * K) :=
  match fuel with
  | O => Err OutOfFuel
  | S fuel =>
      sh ← aget (shards_ g) s;
      '(m, q) ← Spsc.pop (queue_depth CFG) (outbound_ sh);
      match m with
      | None => Ok (g, k)
      | Some out =>
          shards ← aset (shards_ g) s (set_outbound sh q);
          let g := set_shards g shards in
          match sid_to_fd_ g !! hdr_session_id (out_hdr out) with
          | None => drain_shard fuel g s k
          | Some fd =>
              k ← send_all k fd (out_enc out) (hdr_len (out_hdr out));
              drain_shard fuel g s k
          end
      end
  end.

Definition drain_fuel : nat := S (Z.to_nat (queue_depth CFG)).

Fixpoint drain_shards (ss : list Z) (g : Gateway) (k : K) : res (Gateway * K) :=
  match ss with
  | [] => Ok (g, k)
  | s :: ss => '(g, k) ← drain_shard drain_fuel g s k; drain_shards ss g k
  end.

Definition drain_outbound (g : Gateway) (k : K) : res (Gateway * K) := drain_shards (seqZ 0 N) g k.

(** ** The reactor *)

Fixpoint handle_events (fuel : nat) (events : list Z) (g : Gateway) (k : K) : res (Gateway * K) :=
  match events with
  | [] => Ok (g, k)
  | fd :: events =>
      '(g, k) ← (if fd =? listen_fd_ g then accept_all fuel g k else read_session fuel g fd k);
      handle_events fuel events g k
  end.

Definition poll_once (fuel : nat) (g : Gateway) (timeout_ms : Z) (k : K) : res (Gateway * K) :=
  let '(events, k) := k_epoll_wait k (epoll_fd_ g) MAX_EVENTS timeout_ms in
  '(g, k) ← handle_events fuel events g k;
  drain_outbound g k.

(** [run] ends when another thread has called [stop]; [n] bounds the rounds
    before it does. *)
Fixpoint run (n fuel : nat) (g : Gateway) (k : K) : res (Gateway * K) :=
  match n with
  | O => Ok (g, k)
  | S n => if running_ g then '(g, k) ← poll_once fuel g 10 k; run n fuel g k else Ok (g, k)
  end.

Definition stop (g : Gateway) : Gateway :=
  mkGateway (shards_ g) (listen_fd_ g) (epoll_fd_ g) (port_ g) (next_session_id_ g) (sessions_ g) (sid_to_fd_ g) false.

(** The destructor. *)
Definition gateway_destroy (g : Gateway) (k : K) : K :=
  let k := foldl k_close k ((map_to_list (sessions_ g)).*1) in
  let k := if 0 <=? epoll_fd_ g then k_close k (epoll_fd_ g) else k in
  if 0 <=? listen_fd_ g then k_close k (listen_fd_ g) else k.

End gateway.

End Gateway.
