(* ===== verification/GatewayInv.v ===== *)
(** * The invariant of the epoll gateway

    [gateway_wf]: the two tables of the gateway are inverse to each other,
    every session is open in the kernel and sound, and the rings of the shards
    are well formed.  [evolves] is what every part of a poll does to the
    outside: descriptors that do not belong to a session are left alone, and
    input is only taken.  Every operation of a poll returns, keeps the
    invariant and evolves. *)

From stdpp Require Import gmap.
From S2P Require Import Prelude Messages Codec Spsc Sink Session OrderBook Shard ShardRouter Kernel Gateway.

Module GatewayInv.
Import Shard ShardRouter Gateway.

Section invariant.
Context (CFG : ShardConfig) (N : Z) {K : Type} `{Kernel K} (V : KernelView K).

(** The outbound rings and what they hold. *)
Record outs_rel (shards : list Shard) (outs : list (list OutboundMsg)) : Prop := {
  or_len : zlen outs = N;
  or_ring : forall s sh l, shards !! s = Some sh -> outs !! s = Some l ->
    Spsc.queue_repr (queue_depth CFG) (outbound_ sh) l;
  or_wf : Forall (Forall out_wf) outs
}.

Definition rings_rel (outs : list (list OutboundMsg)) (shards : list Shard) (ins : list (list InboundMsg)) : Prop :=
  router_rel CFG N shards ins /\ outs_rel shards outs.

Record session_ok (g : Gateway) (k : K) (fd : Z) (s : Session.Session) : Prop := {
  so_fd : Session.fd s = fd;
  so_wf : Session.session_wf s;
  so_open : Session.closed_ s = false;
  so_sid : Session.session_id s < next_session_id_ g;
  so_route : sid_to_fd_ g !! Session.session_id s = Some fd;
  so_live : k_open V k fd
}.

Record gateway_wf (g : Gateway) (k : K) (ins : list (list InboundMsg)) (outs : list (list OutboundMsg)) : Prop := {
  gw_session : forall fd s, sessions_ g !! fd = Some s -> session_ok g k fd s;
  gw_route : forall sid fd, sid_to_fd_ g !! sid = Some fd ->
    exists s, sessions_ g !! fd = Some s /\ Session.session_id s = sid;
  gw_next : 1 <= next_session_id_ g < 2 ^ 32;
  gw_rings : rings_rel outs (shards_ g) ins;
  gw_listen : k_open V k (listen_fd_ g) /\ sessions_ g !! listen_fd_ g = None;
  gw_epoll : k_open V k (epoll_fd_ g) /\ sessions_ g !! epoll_fd_ g = None
}.

(** Open descriptors that are not the gateway's sessions. *)
Definition foreign (g : Gateway) (k : K) (fd : Z) : Prop := k_open V k fd /\ sessions_ g !! fd = None.

(** A session was there before, and nothing was sent to it, or it is new. *)
Definition carried (g : Gateway) (k : K) (k' : K) (fd : Z) (s' : Session.Session) : Prop :=
  (exists s, sessions_ g !! fd = Some s /\ Session.session_id s = Session.session_id s' /\ k_out V k' fd = k_out V k fd) \/
  (k_out V k' fd = [] /\ next_session_id_ g <= Session.session_id s').

Record evolves (g : Gateway) (k : K) (g' : Gateway) (k' : K) : Prop := {
  ev_foreign : forall fd, foreign g' k' fd <-> foreign g k fd;
  ev_backlog : (k_backlog V k' <= k_backlog V k)%nat;
  ev_unread : (k_unread V k' <= k_unread V k)%nat;
  ev_mono : next_session_id_ g <= next_session_id_ g';
  ev_next : next_session_id_ g' + Z.of_nat (k_backlog V k') <= next_session_id_ g + Z.of_nat (k_backlog V k);
  ev_listen : listen_fd_ g' = listen_fd_ g;
  ev_epoll : epoll_fd_ g' = epoll_fd_ g;
  ev_running : running_ g' = running_ g;
  ev_out : forall fd s', sessions_ g' !! fd = Some s' -> carried g k k' fd s';
  ev_kept : forall fd, foreign g k fd -> k_out V k' fd = k_out V k fd
}.

Lemma evolves_refl g k : evolves g k g k.
Proof. split; try done. intros fd s Hs. left. by exists s. Qed.

Lemma carried_trans g1 k1 g2 k2 k3 fd s3 : next_session_id_ g1 <= next_session_id_ g2 ->
  (forall s2, sessions_ g2 !! fd = Some s2 -> carried g1 k1 k2 fd s2) -> carried g2 k2 k3 fd s3 -> carried g1 k1 k3 fd s3.
Proof.
  intros Hle H12 [(s2 & Hs2 & E & O)|[O Hn]]; [|right; split; [done|lia]].
  destruct (H12 s2 Hs2) as [(s1 & Hs1 & E1 & O1)|[O1 Hn]]; [left; exists s1; split_and!; congruence|right; split; [congruence|lia]].
Qed.

Lemma evolves_trans g1 k1 g2 k2 g3 k3 : evolves g1 k1 g2 k2 -> evolves g2 k2 g3 k3 -> evolves g1 k1 g3 k3.
Proof.
  intros [A1 B1 C1 M1 D1 E1 F1 G1 O1 K1] [A2 B2 C2 M2 D2 E2 F2 G2 O2 K2]. split; try congruence; try lia.
  - intros fd. by rewrite A2.
  - intros fd s3 Hs3. eapply carried_trans; [exact M1|by apply O1|by apply O2].
  - intros fd Hf. rewrite K2; [by apply K1|by apply A1].
Qed.

Context `{!KernelLaws V} (HN : 0 < N) (HQ : Spsc.pow2 (queue_depth CFG)).

(** ** Kernel calls that change nothing *)

Lemma set_nonblocking_quiet k fd : quiet V k (set_nonblocking k fd).
Proof.
  unfold set_nonblocking. destruct (k_fcntl_getfl k fd) as [flags k1] eqn:E.
  transitivity k1; [exact (getfl_quiet V _ _ _ _ E)|exact (setfl_quiet V _ _ _)].
Qed.

Lemma configure_quiet k e fd :
  quiet V k (add_epoll (k_setsockopt (set_nonblocking k fd) fd) e fd).
Proof.
  transitivity (set_nonblocking k fd); [apply set_nonblocking_quiet|].
  transitivity (k_setsockopt (set_nonblocking k fd) fd); [exact (setsockopt_quiet V _ _)|exact (epoll_add_quiet V _ _ _)].
Qed.

Lemma quiet_evolves g k k' : quiet V k k' -> evolves g k g k'.
Proof. intros [A B C D]. split; try done; [|lia|]; intros fd; [unfold foreign; by rewrite A|]. intros s Hs. left. exists s. by rewrite B. Qed.

Lemma quiet_wf g k k' ins outs : quiet V k k' -> gateway_wf g k ins outs -> gateway_wf g k' ins outs.
Proof.
  intros [A B C D] [G1 G2 G3 G4 G5 G6]. split; try done.
  - intros fd s Hs. destruct (G1 fd s Hs). split; try done. by apply A.
  - by rewrite A.
  - by rewrite A.
Qed.

(** ** The rings as the sink of a session *)

#[export] Instance rings_sink_laws outs :
  @SinkLaws (list Shard) _ (gateway_sink CFG N) (rings_rel outs) (fifos_push CFG N).
Proof.
  intros shards ins m [Hr Ho].
  pose proof (@sink_push_ok _ _ _ _ _ (router_sink_laws CFG N HN HQ) shards ins m Hr) as Hp.
  unfold sink_push, gateway_sink, router_sink in *.
  destruct (fifos_push CFG N ins m) as [ins'|] eqn:E; [|done].
  destruct Hp as (shards' & Hpush & Hr'). exists shards'. split; [done|]. split; [done|].
  unfold router_push in Hpush. destruct (route N m) as [t|]; [|by injection Hpush as <-].
  destruct (shards !! t) as [sh|] eqn:Esh; [|by unfold aget in Hpush; rewrite Esh in Hpush].
  rewrite (aget_Ok _ _ _ Esh) in Hpush. simpl in Hpush.
  destruct (Spsc.push _ _ _) as [[ok q]|]; [|done]. simpl in Hpush.
  rewrite (aset_Some _ _ _ _ Esh) in Hpush. simpl in Hpush. injection Hpush as _ <-.
  destruct Ho as [O1 O2 O3]. split; [done| |done]. intros s sh' l Hs Hl.
  rewrite lookupZ_insertZ in Hs by (by eapply lookupZ_range). destruct (decide (t = s)) as [->|]; [|by eapply O2].
  injection Hs as <-. by apply (O2 s sh l).
Qed.

(** ** Reading *)

Lemma consume_rings s shards ins outs hi :
  Session.session_wf s -> Session.session_id s < hi -> rings_rel outs shards ins ->
  exists n s' shards' ins', @Session.consume _ (gateway_sink CFG N) s shards = Ok (n, s', shards') /\
    Session.session_wf s' /\ rings_rel outs shards' ins' /\ fed N hi ins ins' /\
    Session.fd s' = Session.fd s /\ Session.session_id s' = Session.session_id s.
Proof.
  intros HS Hlt Hr. destruct (Session.closed_ s) eqn:Hcl.
  - exists 0, s, shards, ins. unfold Session.consume. by rewrite Hcl.
  - pose proof (@Session.consume_spec _ _ _ _ _ (rings_sink_laws outs) s shards ins HS Hcl Hr) as Hc.
    destruct (Session.spec_consume _ _ _ _ _) as [[[n v'] r] b] eqn:E.
    destruct Hc as (s' & q' & ? & ? & ? & ? & ? & ? & ?). exists n, s', q', v'. split_and!; try done.
    eapply (spec_consume_fed CFG); [apply HS|exact Hlt| |exact E]. apply Forall_take, HS.
Qed.

Lemma recv_loop_ok fuel fd s shards k ins outs hi :
  (k_unread V k < fuel)%nat -> Session.session_wf s -> Session.session_id s < hi -> rings_rel outs shards ins ->
  exists eof s' shards' k' ins', recv_loop CFG N fuel fd s shards k = Ok (eof, s', shards', k') /\
    Session.session_wf s' /\ rings_rel outs shards' ins' /\ fed N hi ins ins' /\ quiet V k k' /\
    Session.fd s' = Session.fd s /\ Session.session_id s' = Session.session_id s.
Proof.
  revert s shards k ins. induction fuel as [|fuel IH]; intros s shards k ins Hfuel HS Hlt' Hr; [lia|].
  cbn [recv_loop]. destruct (k_recv k fd BUF_SIZE) as [[r buf] k1] eqn:E.
  destruct (recv_takes V k fd BUF_SIZE r buf k1 ltac:(done) E) as (Hq & Htake). destruct (Z.ltb_spec 0 r) as [Hpos|].
  - destruct (Htake Hpos) as (Hlen & Hle & Hbytes & Hlt). unfold BUF_SIZE in Hle.
    rewrite wrapU_small by lia.
    destruct (Session.append_spec s buf r HS Hbytes ltac:(lia)) as (s1 & -> & HS1 & _ & _ & _ & Hf1 & Hi1).
    cbn [mbind res_bind].
    destruct (consume_rings s1 shards ins outs hi HS1 ltac:(lia) Hr) as (n & s2 & shards2 & ins2 & -> & HS2 & Hr2 & Hfed & Hf2 & Hi2).
    cbn [mbind res_bind].
    destruct (IH s2 shards2 k1 ins2 ltac:(lia) HS2 ltac:(lia) Hr2) as (eof & s' & shards' & k' & ins' & ? & ? & ? & ? & ? & ? & ?).
    exists eof, s', shards', k', ins'. do 3 (split; [done|]). split; [by transitivity ins2|].
    split; [by transitivity k1|]. split; congruence.
  - by exists (r =? 0), s, shards, k1, ins.
Qed.

Lemma close_session_ok g k fd s ins outs :
  sessions_ g !! fd = Some s -> Session.fd s = fd ->
  (forall fd' s', fd' <> fd -> sessions_ g !! fd' = Some s' -> session_ok g k fd' s') ->
  sid_to_fd_ g !! Session.session_id s = Some fd -> k_open V k fd ->
  (forall sid f, sid_to_fd_ g !! sid = Some f ->
    exists s, sessions_ g !! f = Some s /\ Session.session_id s = sid) ->
  1 <= next_session_id_ g < 2 ^ 32 -> rings_rel outs (shards_ g) ins ->
  foreign g k (listen_fd_ g) -> foreign g k (epoll_fd_ g) ->
  let '(g', k') := close_session g fd k in gateway_wf g' k' ins outs /\ evolves g k g' k'.
Proof.
  intros Hs Hfd Hothers Hroute Hopen Hroutes Hnext Hrings Hlis Hep. unfold close_session. rewrite Hs.
  destruct (epoll_del_quiet V k (epoll_fd_ g) fd) as [Q1 Q2 Q3 Q4].
  destruct (close_closes V (k_epoll_del k (epoll_fd_ g) fd) fd) as (C1 & C2 & C3 & C4).
  assert (HF : forall f, foreign (set_sessions g (delete fd (sessions_ g)) (delete (Session.session_id s) (sid_to_fd_ g)))
                    (k_close (k_epoll_del k (epoll_fd_ g) fd) fd) f <-> foreign g k f).
  { intros f. unfold foreign. cbn [sessions_ set_sessions]. rewrite C1, Q1. destruct (decide (f = fd)) as [->|Hne].
    - rewrite Hs. intuition congruence.
    - rewrite lookup_delete_ne by done. intuition congruence. }
  split.
  - split; cbn [sessions_ sid_to_fd_ next_session_id_ shards_ listen_fd_ epoll_fd_ set_sessions];
      [| |done|done|by apply HF|by apply HF].
    + intros f s' [Hne Hs']%lookup_delete_Some. destruct (Hothers f s' (not_eq_sym Hne) Hs') as [A1 A2 A3 A4 A5 A6].
      split; try done; [|by apply C1; rewrite Q1].
      cbn [sid_to_fd_ set_sessions]. rewrite lookup_delete_ne; [done|]. intros Heq. rewrite Heq in Hroute. congruence.
    + intros sid f [Hne Hf]%lookup_delete_Some. destruct (Hroutes sid f Hf) as (s' & Hs' & <-).
      exists s'. split; [|done]. apply lookup_delete_Some. split; [|done]. intros ->. congruence.
  - split; try done; cbn [next_session_id_ set_sessions sessions_]; try lia.
    + intros f s' [Hne Hs']%lookup_delete_Some. left. exists s'. split_and!; [done|done|]. by rewrite C2, Q2.
    + intros f [_ Hf]. rewrite C2, Q2; [done|]. congruence.
Qed.

(** What [read_session] makes of the result of its loop. *)
Lemma read_session_from fuel g fd k s eof s' shards' k' ins ins' outs :
  gateway_wf g k ins outs -> sessions_ g !! fd = Some s ->
  recv_loop CFG N fuel fd s (shards_ g) k = Ok (eof, s', shards', k') ->
  Session.session_wf s' -> rings_rel outs shards' ins' -> quiet V k k' ->
  Session.fd s' = Session.fd s -> Session.session_id s' = Session.session_id s ->
  exists g' k'', read_session CFG N fuel g fd k = Ok (g', k'') /\ gateway_wf g' k'' ins' outs /\
    evolves g k g' k'' /\ (eof = false -> Session.closed s' = false -> sessions_ g' !! fd = Some s').
Proof.
  intros HG Hs Hrun HS' Hr' Hq Hfd' Hsid'. unfold read_session. rewrite Hs, Hrun. cbn [mbind res_bind].
  destruct (gw_session _ _ _ _ HG fd s Hs) as [F1 F2 F3 F4 F5 F6].
  set (g1 := set_sessions _ _ _). pose proof (quiet_wf _ _ _ _ _ Hq HG) as [G1 G2 G3 G4 [G5 G5'] [G6 G6']].
  assert (Hothers : forall f t, f <> fd -> sessions_ g1 !! f = Some t -> session_ok g1 k' f t).
  { intros f t Hne Ht. cbn in Ht. rewrite lookup_insert_ne in Ht by done. destruct (G1 f t Ht). by split. }
  assert (Hroutes : forall sid f, sid_to_fd_ g1 !! sid = Some f ->
    exists s, sessions_ g1 !! f = Some s /\ Session.session_id s = sid).
  { intros sid f (t & Ht & <-)%G2. cbn. destruct (decide (f = fd)) as [->|Hne].
    - exists s'. rewrite lookup_insert_eq. split; [done|congruence].
    - exists t. by rewrite lookup_insert_ne. }
  assert (Hlis : foreign g1 k' (listen_fd_ g1)) by (split; [done|]; cbn; rewrite lookup_insert_ne; congruence).
  assert (Hep : foreign g1 k' (epoll_fd_ g1)) by (split; [done|]; cbn; rewrite lookup_insert_ne; congruence).
  assert (Hev : evolves g k g1 k').
  { destruct Hq as [Q1 Q2 Q3 Q4]. split; try done; [|cbn; lia|].
    - intros f. unfold foreign. cbn. rewrite Q1.
      destruct (decide (f = fd)) as [->|]; [rewrite lookup_insert_eq; intuition congruence|by rewrite lookup_insert_ne].
    - intros f t Ht. left. cbn in Ht. destruct (decide (f = fd)) as [->|Hne].
      + rewrite lookup_insert_eq in Ht. injection Ht as <-. exists s. by split_and!.
      + rewrite lookup_insert_ne in Ht by done. exists t. by split_and!. }
  destruct (eof || Session.closed s') eqn:Hend.
  - pose proof (close_session_ok g1 k' fd s' ins' outs) as Hc. destruct (close_session g1 fd k') as [g' k''].
    exists g', k''. split; [by destruct eof, (Session.closed s')|].
    destruct Hc as [Hw He]; try done.
    + cbn. by rewrite lookup_insert_eq.
    + congruence.
    + cbn. by rewrite Hsid'.
    + by apply Hq.
    + split; [done|]. split; [by eapply evolves_trans|]. intros -> Hcl. by rewrite Hcl in Hend.
  - apply orb_false_iff in Hend as [-> Hcl]. rewrite Hcl. exists g1, k'. split; [done|].
    split; [|split; [done|intros _ _; cbn; by rewrite lookup_insert_eq]]. split; try done.
    intros f t Ht. destruct (decide (f = fd)) as [->|]; [|by apply Hothers].
    cbn in Ht. rewrite lookup_insert_eq in Ht. injection Ht as <-.
    split; [congruence|done|done|cbn; by rewrite Hsid'|cbn; by rewrite Hsid'|by apply Hq].
Qed.

Lemma read_session_ok fuel g fd k ins outs :
  (k_unread V k < fuel)%nat -> gateway_wf g k ins outs ->
  exists g' k' ins', read_session CFG N fuel g fd k = Ok (g', k') /\ gateway_wf g' k' ins' outs /\
    evolves g k g' k' /\ fed N (next_session_id_ g) ins ins'.
Proof.
  intros Hfuel HG. destruct (sessions_ g !! fd) as [s|] eqn:Hs.
  - destruct (recv_loop_ok fuel fd s (shards_ g) k ins outs (next_session_id_ g) Hfuel
      (so_wf _ _ _ _ (gw_session _ _ _ _ HG fd s Hs)) (so_sid _ _ _ _ (gw_session _ _ _ _ HG fd s Hs)) (gw_rings _ _ _ _ HG))
      as (eof & s' & shards' & k' & ins' & Hrun & HS' & Hr' & Hfed & Hq & Hfd' & Hsid').
    destruct (read_session_from _ _ _ _ _ _ _ _ _ _ _ _ HG Hs Hrun HS' Hr' Hq Hfd' Hsid')
      as (g' & k'' & ? & ? & ? & _). by exists g', k'', ins'.
  - unfold read_session. rewrite Hs. exists g, k, ins. split_and!; [done|done|apply evolves_refl|done].
Qed.

(** ** Accepting *)

(** One accepted connection. *)
Lemma accepted_ok g k cfd k1 ins outs :
  gateway_wf g k ins outs -> k_accept k (listen_fd_ g) = (cfd, k1) -> 0 <= cfd ->
  next_session_id_ g + Z.of_nat (k_backlog V k) < 2 ^ 32 ->
  let sid := next_session_id_ g in
  let g' := set_sessions (set_next g (u32 (sid + 1))) (try_emplace (sessions_ g) cfd sid)
              (<[sid := cfd]> (sid_to_fd_ g)) in
  let k' := add_epoll (k_setsockopt (set_nonblocking k1 cfd) cfd) (epoll_fd_ g) cfd in
  gateway_wf g' k' ins outs /\ evolves g k g' k' /\ (k_backlog V k' < k_backlog V k)%nat.
Proof.
  intros HG Hacc Hpos Hbound sid g' k'. destruct (accept_opens V _ _ _ _ Hacc) as [Hop Hback].
  specialize (Hback Hpos). unfold opens in Hop. rewrite (proj2 (Z.ltb_ge _ _)) in Hop by done.
  destruct Hop as (Hnew & Hopen & Hout & Houts & Hunread).
  destruct (configure_quiet k1 (epoll_fd_ g) cfd) as [Q1 Q2 Q3 Q4]. fold k' in Q1, Q2, Q3, Q4.
  destruct HG as [G1 G2 G3 G4 [G5 G5'] [G6 G6']].
  assert (Hno : sessions_ g !! cfd = None).
  { destruct (sessions_ g !! cfd) as [s|] eqn:E; [|done]. by destruct (G1 _ _ E). }
  assert (Hsess : sessions_ g' = <[cfd := Session.session_init cfd sid]> (sessions_ g))
    by (cbn; unfold try_emplace; by rewrite Hno).
  assert (Hnext : next_session_id_ g' = sid + 1) by (cbn; apply wrapU_small; unfold sid; lia).
  assert (Hk' : forall f, k_open V k' f <-> f = cfd \/ k_open V k f) by (intros f; by rewrite Q1, Hopen).
  assert (Hlis : cfd <> listen_fd_ g) by (by intros ->). assert (Hep : cfd <> epoll_fd_ g) by (by intros ->).
  split; [|split; [|lia]].
  - split; rewrite ?Hsess, ?Hnext.
    + intros f s. destruct (decide (f = cfd)) as [->|Hne].
      * rewrite lookup_insert_eq. intros [= <-]. split; rewrite ?Hnext; cbn.
        -- done.
        -- apply Session.session_init_wf. unfold is_u, sid. lia.
        -- done.
        -- unfold sid. lia.
        -- by rewrite lookup_insert_eq.
        -- apply Hk'. by left.
      * rewrite lookup_insert_ne by done. intros Hs. destruct (G1 f s Hs) as [A1 A2 A3 A4 A5 A6].
        split; try done; rewrite ?Hnext.
        -- unfold sid. lia.
        -- cbn. rewrite lookup_insert_ne; [done|]. unfold sid. lia.
        -- apply Hk'. by right.
    + intros t f. cbn. destruct (decide (t = sid)) as [->|Hne].
      * rewrite lookup_insert_eq. intros [= <-]. eexists. rewrite lookup_insert_eq. done.
      * rewrite lookup_insert_ne by done. intros (s & Hs & <-)%G2. exists s. split; [|done].
        rewrite lookup_insert_ne; [done|]. congruence.
    + unfold sid. lia.
    + done.
    + split; [apply Hk'; by right|]. cbn. by rewrite lookup_insert_ne.
    + split; [apply Hk'; by right|]. cbn. by rewrite lookup_insert_ne.
  - split; try done; rewrite ?Hnext; try (unfold sid; lia).
    + intros f. unfold foreign. rewrite Hk', Hsess. destruct (decide (f = cfd)) as [->|Hne].
      * rewrite lookup_insert_eq. intuition congruence.
      * rewrite lookup_insert_ne by done. intuition congruence.
    + intros f s. rewrite Hsess. destruct (decide (f = cfd)) as [->|Hne].
      * rewrite lookup_insert_eq. intros [= <-]. right. by rewrite Q2.
      * rewrite lookup_insert_ne by done. intros Hs. left. exists s. split_and!; [done|done|]. by rewrite Q2, Houts.
    + intros f [Hf _]. rewrite Q2, Houts; [done|]. by intros ->.
Qed.

Lemma accept_all_ok fuel g k ins outs :
  (k_backlog V k < fuel)%nat -> gateway_wf g k ins outs ->
  next_session_id_ g + Z.of_nat (k_backlog V k) < 2 ^ 32 ->
  exists g' k', accept_all fuel g k = Ok (g', k') /\ gateway_wf g' k' ins outs /\ evolves g k g' k'.
Proof.
  revert g k. induction fuel as [|fuel IH]; intros g k Hfuel HG Hbound; [lia|]. cbn [accept_all].
  destruct (k_accept k (listen_fd_ g)) as [cfd k1] eqn:E. destruct (Z.ltb_spec cfd 0) as [Hneg|Hpos].
  - destruct (accept_opens V _ _ _ _ E) as [Hop _]. unfold opens in Hop.
    rewrite (proj2 (Z.ltb_lt _ _)) in Hop by done. exists g, k1. split; [done|].
    split; [by eapply quiet_wf|by apply quiet_evolves].
  - destruct (accepted_ok g k cfd k1 ins outs HG E Hpos Hbound) as (HG1 & Hev1 & Hlt).
    destruct (fun F => IH _ _ F HG1) as (g' & k' & Hrun & HG' & Hev').
    + lia.
    + pose proof (ev_next _ _ _ _ Hev1). lia.
    + exists g', k'. split; [exact Hrun|]. split; [done|]. by eapply evolves_trans.
Qed.

Lemma handle_events_ok fuel events g k ins outs :
  (k_backlog V k < fuel)%nat -> (k_unread V k < fuel)%nat -> gateway_wf g k ins outs ->
  next_session_id_ g + Z.of_nat (k_backlog V k) < 2 ^ 32 ->
  exists g' k' ins', handle_events CFG N fuel events g k = Ok (g', k') /\ gateway_wf g' k' ins' outs /\
    evolves g k g' k' /\ fed N (next_session_id_ g') ins ins'.
Proof.
  revert g k ins. induction events as [|fd events IH]; intros g k ins F1 F2 HG Hbound; cbn [handle_events].
  { exists g, k, ins. split_and!; [done|done|apply evolves_refl|done]. }
  assert (exists g1 k1 ins1, (if fd =? listen_fd_ g then accept_all fuel g k else read_session CFG N fuel g fd k)
    = Ok (g1, k1) /\ gateway_wf g1 k1 ins1 outs /\ evolves g k g1 k1 /\ fed N (next_session_id_ g) ins ins1)
    as (g1 & k1 & ins1 & -> & HG1 & Hev1 & Hfed1).
  { destruct (fd =? listen_fd_ g).
    - destruct (accept_all_ok fuel g k ins outs F1 HG Hbound) as (g1 & k1 & ? & ? & ?). by exists g1, k1, ins.
    - apply (read_session_ok fuel g fd k ins outs F2 HG). }
  cbn [mbind res_bind]. pose proof Hev1 as [_ E2 E3 M1 E4 _ _ _ _ _].
  destruct (IH g1 k1 ins1 ltac:(lia) ltac:(lia) HG1 ltac:(lia)) as (g' & k' & ins' & ? & ? & Hev2 & ?).
  exists g', k', ins'. split; [done|]. split; [done|]. split; [by eapply evolves_trans|]. pose proof (ev_mono _ _ _ _ Hev2).
  transitivity ins1; [|done]. apply (fed_more N (next_session_id_ g)); [lia|done].
Qed.

(** ** Sending *)

(** The frames of the reports [ms] for descriptor [fd], in order. *)
Definition frames_to (routes : gmap Z Z) (fd : Z) (ms : list OutboundMsg) : list (list Z) :=
  out_enc <$> filter (fun m => routes !! hdr_session_id (out_hdr m) = Some fd) ms.

(** Every descriptor was sent its frames in order, each at least in part, and
    completely when the descriptors can be written. *)
Record delivers (routes : gmap Z Z) (ms : list OutboundMsg) (k k' : K) : Prop := {
  dl_open : forall fd, k_open V k' fd <-> k_open V k fd;
  dl_parts : forall fd, exists parts, Forall2 prefix parts (frames_to routes fd ms) /\
    k_out V k' fd = k_out V k fd ++ concat parts;
  dl_full : forall P, writable P -> P k -> P k' /\
    forall fd, k_out V k' fd = k_out V k fd ++ concat (frames_to routes fd ms);
  dl_backlog : (k_backlog V k' <= k_backlog V k)%nat;
  dl_unread : (k_unread V k' <= k_unread V k)%nat
}.

Lemma frames_to_app routes fd ms1 ms2 :
  frames_to routes fd (ms1 ++ ms2) = frames_to routes fd ms1 ++ frames_to routes fd ms2.
Proof. unfold frames_to. by rewrite filter_app, fmap_app. Qed.

Lemma delivers_nil routes k : delivers routes [] k k.
Proof.
  split; try done.
  - intros fd. exists []. by rewrite app_nil_r.
  - intros P _ Hk. split; [done|]. intros fd. by rewrite app_nil_r.
Qed.

Lemma delivers_app routes ms1 ms2 k1 k2 k3 :
  delivers routes ms1 k1 k2 -> delivers routes ms2 k2 k3 -> delivers routes (ms1 ++ ms2) k1 k3.
Proof.
  intros [A1 B1 C1 D1 E1] [A2 B2 C2 D2 E2]. split; [|..|lia|lia].
  - intros fd. by rewrite A2.
  - intros fd. destruct (B1 fd) as (p1 & F1 & O1), (B2 fd) as (p2 & F2 & O2). exists (p1 ++ p2).
    rewrite frames_to_app. split; [by apply Forall2_app|]. by rewrite O2, O1, concat_app, app_assoc.
  - intros P HP Hk. destruct (C1 P HP Hk) as [Hk2 O1], (C2 P HP Hk2) as [Hk3 O2]. split; [done|]. intros fd.
    by rewrite O2, O1, frames_to_app, concat_app, app_assoc.
Qed.

(** The frames for a session's descriptor are those stamped with its id. *)
Lemma frames_to_session g k ins outs fd s ms : gateway_wf g k ins outs -> sessions_ g !! fd = Some s ->
  frames_to (sid_to_fd_ g) fd ms =
    (out_enc <$> filter (fun m => hdr_session_id (out_hdr m) = Session.session_id s) ms).
Proof.
  intros [G1 G2 _ _ _ _] Hs. unfold frames_to. f_equal. apply list_filter_iff. intros m. split.
  - intros (s' & Hs' & <-)%G2. rewrite Hs in Hs'. by injection Hs' as ->.
  - intros ->. apply (G1 fd s Hs).
Qed.

(** What [send_all] does to the kernel: a part [p] of the data goes out. *)
Record sends (fd : Z) (data : list Z) (k k' : K) : Prop := {
  sd_open : forall f, k_open V k' f <-> k_open V k f;
  sd_part : exists p, prefix p data /\ k_out V k' fd = k_out V k fd ++ p;
  sd_others : forall f, f <> fd -> k_out V k' f = k_out V k f;
  sd_full : forall P, writable P -> P k -> P k' /\ k_out V k' fd = k_out V k fd ++ data;
  sd_backlog : (k_backlog V k' <= k_backlog V k)%nat;
  sd_unread : (k_unread V k' <= k_unread V k)%nat
}.

Lemma send_loop_ok fuel k fd data sent :
  zlen data < 2 ^ 16 -> 0 <= sent <= zlen data -> zlen data - sent < Z.of_nat fuel ->
  exists k', send_loop fuel k fd data (zlen data) sent = Ok k' /\
    sends fd (drop (Z.to_nat sent) data) k k'.
Proof.
  intros Hlen. revert k sent. induction fuel as [|fuel IH]; intros k sent Hsent Hfuel; [lia|].
  cbn [send_loop]. destruct (Z.ltb_spec sent (zlen data)) as [Hlt|Hge].
  2: { exists k. split; [done|]. assert (drop (Z.to_nat sent) data = []) as ->.
       { apply drop_ge. unfold zlen in *. lia. }
       split; try done; [exists []; by rewrite app_nil_r|]. intros P _ Hk. by rewrite app_nil_r. }
  rewrite bytes_at_Ok by lia. cbn [mbind res_bind].
  assert (Hrest : take (Z.to_nat (zlen data - sent)) (drop (Z.to_nat sent) data) = drop (Z.to_nat sent) data).
  { apply take_ge. unfold zlen. rewrite length_drop. lia. }
  rewrite Hrest. assert (Hl : zlen (drop (Z.to_nat sent) data) = zlen data - sent) by (apply zlen_drop; lia).
  destruct (k_send k fd (drop (Z.to_nat sent) data)) as [w k1] eqn:E.
  destruct (send_appends V _ _ _ _ _ E) as (S1 & S2 & S3 & S4 & S5 & S6).
  assert (Hne : drop (Z.to_nat sent) data <> []) by (intros Hnil; rewrite Hnil in Hl; change (zlen []) with 0 in Hl; lia).
  destruct (Z.leb_spec w 0) as [Hw|Hw].
  - exists k1. split; [done|]. split; try done.
    + eexists. split; [|exact S3]. apply prefix_take.
    + intros P HP Hk. destruct (HP _ _ _ _ _ Hk Hne E). lia.
  - rewrite (wrapU_small 16 w), wrapU_small by lia.
    destruct (IH k1 (sent + w)) as (k' & -> & [T1 (p & Hp & T2) T3 T4 T5 T6]); [lia|lia|]. exists k'. split; [done|].
    assert (Hsplit : drop (Z.to_nat sent) data =
      take (Z.to_nat w) (drop (Z.to_nat sent) data) ++ drop (Z.to_nat (sent + w)) data).
    { rewrite <- (take_drop (Z.to_nat w)) at 1. rewrite drop_drop. do 2 f_equal. lia. }
    split; [|..|lia|lia].
    + intros f. by rewrite T1.
    + eexists. rewrite T2, S3, <- app_assoc. split; [|done]. rewrite Hsplit at 2. by apply prefix_app.
    + intros f Hf. by rewrite T3, S4.
    + intros P HP Hk. destruct (HP _ _ _ _ _ Hk Hne E) as [_ Hk1]. destruct (T4 P HP Hk1) as [Hk' Ho].
      split; [done|]. by rewrite Ho, S3, <- app_assoc, <- Hsplit.
Qed.

Lemma zlen_out_enc m : zlen (out_enc m) < 2 ^ 16.
Proof. destruct m; unfold zlen; cbn [out_enc]; by rewrite length_enc. Qed.

Lemma send_all_ok routes k fd m :
  out_wf m -> routes !! hdr_session_id (out_hdr m) = Some fd ->
  exists k', send_all k fd (out_enc m) (hdr_len (out_hdr m)) = Ok k' /\ delivers routes [m] k k'.
Proof.
  intros Hwf Hr. unfold send_all. rewrite Hwf. pose proof (zlen_nonneg (out_enc m)).
  destruct (send_loop_ok (S (Z.to_nat (zlen (out_enc m)))) k fd (out_enc m) 0 (zlen_out_enc m) ltac:(lia) ltac:(lia))
    as (k' & -> & [S1 (p & Hp & S2) S3 S4 S5 S6]). rewrite drop_0 in Hp, S4.
  exists k'. split; [done|].
  assert (HF : forall f, frames_to routes f [m] = if decide (f = fd) then [out_enc m] else []).
  { intros f. unfold frames_to. rewrite filter_cons, Hr. destruct (decide (f = fd)) as [->|].
    - by rewrite decide_True.
    - by rewrite decide_False by congruence. }
  split; try done.
  - intros f. rewrite HF. destruct (decide (f = fd)) as [->|Hne].
    + exists [p]. split; [by repeat constructor|]. simpl. by rewrite app_nil_r.
    + exists []. rewrite S3 by done. by rewrite app_nil_r.
  - intros P HP Hk. destruct (S4 P HP Hk) as [Hk' Ho]. split; [done|]. intros f. rewrite HF.
    destruct (decide (f = fd)) as [->|Hne]; simpl; rewrite app_nil_r; [done|by apply S3].
Qed.

(** ** Draining *)

(** Shard [s] replaced by one whose rings hold [li] and [lo]. *)
Lemma replace_shard_rings shards ins outs s sh sh' li lo :
  rings_rel outs shards ins -> shards !! s = Some sh ->
  Spsc.queue_repr (queue_depth CFG) (inbound_ sh') li ->
  Spsc.queue_repr (queue_depth CFG) (outbound_ sh') lo -> Forall out_wf lo ->
  rings_rel (<[s := lo]> outs) (<[s := sh']> shards) (<[s := li]> ins).
Proof.
  intros [[R1 R2 R3] [O1 O2 O3]] Hsh Hi Hq Hl. pose proof (lookupZ_range _ _ _ Hsh) as Rs.
  split; split; rewrite ?zlen_insertZ; try done.
  - intros t sh1 l1 Ht. rewrite lookupZ_insertZ in Ht by done. rewrite lookupZ_insertZ by lia.
    destruct (decide (s = t)) as [->|]; [|by apply R3]. injection Ht as <-. by intros [= <-].
  - intros t sh1 l1 Ht. rewrite lookupZ_insertZ in Ht by done. rewrite lookupZ_insertZ by lia.
    destruct (decide (s = t)) as [->|]; [|by apply O2]. injection Ht as <-. by intros [= <-].
  - destruct (lookupZ_is_Some outs s ltac:(lia)) as [lo0 Hlo].
    destruct (lookupZ_split _ _ _ Hlo) as (a & b & -> & _ & ->).
    apply Forall_app in O3 as [Ha Hb]. apply Forall_app. split; [done|]. by inversion Hb; constructor.
Qed.

Lemma set_outbound_rings shards ins outs s sh q l :
  rings_rel outs shards ins -> shards !! s = Some sh ->
  Spsc.queue_repr (queue_depth CFG) q l -> Forall out_wf l ->
  rings_rel (<[s := l]> outs) (<[s := set_outbound sh q]> shards) ins.
Proof.
  intros Hr Hsh Hq Hl. pose proof Hr as [[R1 R2 R3] _]. pose proof (lookupZ_range _ _ _ Hsh) as Rs.
  destruct (lookupZ_is_Some ins s ltac:(lia)) as [li Hli]. rewrite <- (insertZ_id ins s li Hli).
  apply (replace_shard_rings _ _ _ _ sh); try done. by apply (R3 s sh).
Qed.

(** A gateway that differs only in its rings. *)
Lemma set_shards_wf g k k' shards ins outs ins' outs' :
  gateway_wf g k ins outs -> (forall fd, k_open V k' fd <-> k_open V k fd) -> rings_rel outs' shards ins' ->
  gateway_wf (set_shards g shards) k' ins' outs'.
Proof.
  intros [G1 G2 G3 G4 [G5 G5'] [G6 G6']] Ho Hr. split; try done.
  - intros fd s Hs. destruct (G1 fd s Hs). split; try done. by apply Ho.
  - split; [by apply Ho|done].
  - split; [by apply Ho|done].
Qed.

Lemma drain_shard_ok fuel g s k ins outs l :
  gateway_wf g k ins outs -> outs !! s = Some l -> (length l < fuel)%nat ->
  exists shards' k', drain_shard CFG fuel g s k = Ok (set_shards g shards', k') /\
    rings_rel (<[s := []]> outs) shards' ins /\ delivers (sid_to_fd_ g) l k k'.
Proof.
  revert g k outs l. induction fuel as [|fuel IH]; intros g k outs l HG Hl Hfuel; [lia|]. cbn [drain_shard].
  pose proof (gw_rings _ _ _ _ HG) as [[R1 R2 R3] [O1 O2 O3]]. pose proof (lookupZ_range _ _ _ Hl) as Rs.
  destruct (lookupZ_is_Some (shards_ g) s ltac:(lia)) as [sh Hsh]. rewrite (aget_Ok _ _ _ Hsh). cbn [mbind res_bind].
  destruct (Spsc.pop_spec _ HQ _ _ (O2 s sh l Hsh Hl)) as (q & Hpop & Hq). rewrite Hpop. cbn [mbind res_bind].
  destruct l as [|m l].
  { cbn [head]. exists (shards_ g), k. split; [by destruct g|]. split; [|apply delivers_nil].
    rewrite insertZ_id by done. apply HG. }
  cbn [head tail] in *. rewrite (aset_Some _ _ _ _ Hsh). cbn [mbind res_bind].
  assert (Hwf : Forall out_wf (m :: l)).
  { rewrite lookupZ_nat in Hl by lia. by eapply Forall_lookup_1 in O3. }
  inversion Hwf as [|? ? Hm Hwl]; subst.
  pose proof (set_outbound_rings _ _ _ s sh q l (gw_rings _ _ _ _ HG) Hsh Hq Hwl) as Hr1.
  assert (Hl1 : <[s := l]> outs !! s = Some l) by (by apply lookupZ_insertZ_eq).
  cbn [sid_to_fd_ set_shards]. destruct (sid_to_fd_ g !! hdr_session_id (out_hdr m)) as [fd|] eqn:Hroute.
  - destruct (send_all_ok (sid_to_fd_ g) k fd m Hm Hroute) as (k1 & -> & Hd1). cbn [mbind res_bind].
    pose proof (set_shards_wf g k k1 _ _ _ _ _ HG (dl_open _ _ _ _ Hd1) Hr1) as HG1.
    destruct (IH _ k1 _ l HG1 Hl1 ltac:(simpl in Hfuel; lia)) as (shards' & k' & -> & Hr' & Hd').
    exists shards', k'. split; [done|]. split; [by rewrite insertZ_insertZ in Hr'|].
    by apply (delivers_app _ [m] l k k1 k').
  - pose proof (set_shards_wf g k k _ _ _ _ _ HG (fun _ => iff_refl _) Hr1) as HG1.
    destruct (IH _ k _ l HG1 Hl1 ltac:(simpl in Hfuel; lia)) as (shards' & k' & -> & Hr' & Hd').
    exists shards', k'. split; [done|]. split; [by rewrite insertZ_insertZ in Hr'|].
    apply (delivers_app _ [m] l k k k'); [|done]. assert (HF : forall f, frames_to (sid_to_fd_ g) f [m] = []).
    { intros f. unfold frames_to. by rewrite filter_cons, Hroute, decide_False by done. }
    split; try done.
    + intros f. rewrite HF. exists []. by rewrite app_nil_r.
    + intros P _ Hk. split; [done|]. intros f. by rewrite HF, app_nil_r.
Qed.

Lemma drain_shards_ok g k ins outs i rest :
  gateway_wf g k ins outs -> outs = replicate i [] ++ rest ->
  exists shards' k', drain_shards CFG (seqZ (Z.of_nat i) (zlen rest)) g k = Ok (set_shards g shards', k') /\
    rings_rel (replicate (Z.to_nat N) []) shards' ins /\ delivers (sid_to_fd_ g) (concat rest) k k'.
Proof.
  revert g k outs i. induction rest as [|l rest IH]; intros g k outs i HG Houts.
  { exists (shards_ g), k. split; [by destruct g|]. split; [|apply delivers_nil].
    pose proof (gw_rings _ _ _ _ HG) as [_ [O1 _ _]]. rewrite Houts, app_nil_r in *.
    rewrite zlen_replicate in O1. rewrite <- O1, Nat2Z.id. apply HG. }
  rewrite seqZ_cons by (rewrite zlen_cons; pose proof (zlen_nonneg rest); lia). cbn [drain_shards].
  assert (Hl : outs !! Z.of_nat i = Some l).
  { rewrite Houts, lookupZ_app_r, zlen_replicate by (rewrite zlen_replicate; lia). by rewrite Z.sub_diag. }
  pose proof (gw_rings _ _ _ _ HG) as [[R1 _ _] [O1 O2 _]]. pose proof (lookupZ_range _ _ _ Hl) as Ri.
  destruct (lookupZ_is_Some (shards_ g) (Z.of_nat i) ltac:(lia)) as [sh Hsh].
  pose proof (Spsc.queue_repr_len _ _ _ (O2 _ _ _ Hsh Hl)) as Hlen. unfold zlen in Hlen.
  destruct (drain_shard_ok (drain_fuel CFG) g (Z.of_nat i) k ins outs l HG Hl ltac:(unfold drain_fuel; lia))
    as (shards1 & k1 & -> & Hr1 & Hd1). cbn [mbind res_bind].
  pose proof (set_shards_wf g k k1 _ _ _ _ _ HG (dl_open _ _ _ _ Hd1) Hr1) as HG1.
  destruct (IH (set_shards g shards1) k1 _ (S i) HG1) as (shards' & k' & Hrun & Hr' & Hd').
  { rewrite Houts, insertZ_nat, Nat2Z.id by lia. rewrite insert_app_r_alt by (rewrite length_replicate; lia).
    rewrite length_replicate, Nat.sub_diag. by rewrite replicate_S_end, <- app_assoc. }
  exists shards', k'. rewrite zlen_cons. replace (Z.succ (Z.of_nat i)) with (Z.of_nat (S i)) by lia.
  replace (Z.pred (1 + zlen rest)) with (zlen rest) by lia. split; [done|]. split; [done|].
  cbn [concat]. by apply (delivers_app _ l (concat rest) k k1 k').
Qed.

Lemma drain_outbound_ok g k ins outs : gateway_wf g k ins outs ->
  exists shards' k', drain_outbound CFG N g k = Ok (set_shards g shards', k') /\
    gateway_wf (set_shards g shards') k' ins (replicate (Z.to_nat N) []) /\
    delivers (sid_to_fd_ g) (concat outs) k k'.
Proof.
  intros HG. unfold drain_outbound. pose proof (or_len _ _ (proj2 (gw_rings _ _ _ _ HG))) as HL.
  destruct (drain_shards_ok g k ins outs 0 outs HG eq_refl) as (shards' & k' & Hrun & Hr & Hd).
  rewrite HL in Hrun. exists shards', k'. split; [exact Hrun|]. split; [|done].
  apply (set_shards_wf g k k' _ ins outs _ _ HG); [apply Hd|done].
Qed.

End invariant.

End GatewayInv.
