(* ===== verification/GatewayProps.v ===== *)
(** * What the epoll gateway guarantees

    For every kernel that keeps [KernelLaws]: a poll returns and keeps the
    invariant, reports reach the sockets of their sessions, requests reach
    the shards, and no descriptor is leaked.  Concrete runs on [Sim] show
    where frames are lost or stuck. *)

From stdpp Require Import gmap relations.
From S2P Require Import Prelude Messages Codec Spsc Sink Session OrderBook Shard ShardRouter Kernel Gateway GatewayInv.

Module GatewayProps.
Import Shard ShardRouter Gateway GatewayInv.

(** ** Requests in a stream *)

Section requests.
Context (CFG : ShardConfig) (N : Z) (HN : 0 < N).

(** There is room for all of [ms]. *)
Definition room (v : list (list InboundMsg)) (ms : list InboundMsg) : Prop :=
  zlen v = N /\ forall s l, v !! s = Some l -> zlen l + zlen (routed_to N s ms) <= queue_depth CFG.

Lemma room_pushes v1 ms1 v2 ms2 : room v1 (ms1 ++ ms2) -> pushes N v1 ms1 v2 -> room v2 ms2.
Proof.
  intros [L R] [L2 P]. split; [by rewrite L2|]. intros s l2 Hl2.
  pose proof (lookupZ_range _ _ _ Hl2) as Rs. rewrite L2 in Rs.
  destruct (lookupZ_is_Some v1 s Rs) as [l1 Hl1]. rewrite (P s l1 Hl1) in Hl2. injection Hl2 as <-.
  specialize (R s l1 Hl1). rewrite routed_to_app, zlen_app in R. rewrite zlen_app. lia.
Qed.

Lemma fifos_push_room v m ms : room v (m :: ms) ->
  exists v', fifos_push CFG N v m = Some v' /\ pushes N v [m] v'.
Proof.
  intros [L R]. assert (exists v', fifos_push CFG N v m = Some v') as [v' Hv'].
  { unfold fifos_push. destruct (route N m) as [t|] eqn:Er; [|by exists v].
    pose proof (route_range N HN m t Er) as Rt. destruct (lookupZ_is_Some v t ltac:(lia)) as [l Hl].
    rewrite Hl. specialize (R t l Hl). unfold routed_to in R. rewrite filter_cons, decide_True, zlen_cons in R by done.
    pose proof (zlen_nonneg (filter (fun m => route N m = Some t) ms)).
    rewrite (proj2 (Z.ltb_lt _ _)) by lia. by eexists. }
  exists v'. split; [done|]. by eapply fifos_push_pushes.
Qed.

(** A strict prefix of a request is not a frame yet. *)
Lemma partial_request r bs rest : Session.request_ok r -> bs ++ rest = Session.request_bytes r ->
  zlen bs < zlen (Session.request_bytes r) -> Codec.tryDecode bs (zlen bs) = Codec.NEED_MORE.
Proof.
  intros Hok Hsplit Hlt. destruct (Codec.tryDecode bs (zlen bs)) as [t n| |] eqn:E; [|done|];
    (pose proof (Codec.tryDecode_mono bs rest) as Hm; rewrite E in Hm; specialize (Hm ltac:(done));
     rewrite Hsplit in Hm; pose proof (Session.request_decode r [] Hok) as Hd; rewrite app_nil_r in Hd;
     rewrite Hd in Hm; destruct r; try done).
  - injection Hm as _ <-. apply Codec.tryDecode_OK in E as (_ & Hn & _). rewrite Session.zlen_request in Hlt. lia.
  - injection Hm as _ <-. apply Codec.tryDecode_OK in E as (_ & Hn & _). rewrite Session.zlen_request in Hlt. lia.
Qed.

(** [p] ends before the first of [rs] is complete. *)
Definition incomplete (p : list Z) (rs : list Session.Request) : Prop :=
  match rs with [] => p = [] | r :: _ => zlen p < zlen (Session.request_bytes r) end.

Lemma incomplete_short p rs : incomplete p rs -> zlen p < 32.
Proof.
  destruct rs as [|r rs]; cbn [incomplete]; [by intros ->|]. rewrite Session.zlen_request.
  destruct r; [change sizeof_NewOrder with 32|change sizeof_CancelOrder with 16]; lia.
Qed.

Lemma consume_requests n sid v bs rest rs :
  bs ++ rest = concat (Session.request_bytes <$> rs) -> Forall Session.request_ok rs ->
  room v (Session.request_msg sid <$> rs) -> zlen bs < 8 * Z.of_nat n ->
  exists rs1 rs2 c v' p, rs = rs1 ++ rs2 /\
    Session.spec_consume (fifos_push CFG N) n sid v bs = (c, v', p, false) /\
    pushes N v (Session.request_msg sid <$> rs1) v' /\
    p ++ rest = concat (Session.request_bytes <$> rs2) /\ incomplete p rs2.
Proof.
  revert v bs rs. induction n as [|n IH]; intros v bs rs Hst Hok Hroom Hn; [pose proof (zlen_nonneg bs); lia|].
  cbn [Session.spec_consume]. destruct rs as [|r rs].
  { apply app_nil in Hst as [-> ->]. exists [], [], 0, v, []. split_and!; try done. apply pushes_nil. }
  inversion Hok as [|? ? Hr Hrs]; subst. rewrite fmap_cons, concat_cons in Hst.
  pose proof (Session.zlen_request r) as Lr.
  assert (L16 : 16 <= zlen (Session.request_bytes r) <= 32) by (rewrite Lr; by destruct r).
  destruct (Z.lt_ge_cases (zlen bs) (zlen (Session.request_bytes r))) as [Hlt|Hge].
  - assert (Hp : exists t, bs ++ t = Session.request_bytes r).
    { exists (drop (length bs) (Session.request_bytes r)).
      rewrite <- (take_drop (length bs) (Session.request_bytes r)) at 2. f_equal.
      rewrite <- (take_app_le _ (concat (Session.request_bytes <$> rs))) by (unfold zlen in Hlt; lia).
      rewrite <- Hst. by rewrite take_app_length. }
    destruct Hp as (t & Ht). rewrite (partial_request r bs t Hr Ht Hlt).
    exists [], (r :: rs), 0, v, bs. split_and!; try done. apply pushes_nil.
  - assert (Hb : exists bs', bs = Session.request_bytes r ++ bs').
    { exists (drop (length (Session.request_bytes r)) bs).
      rewrite <- (take_drop (length (Session.request_bytes r)) bs) at 1. f_equal.
      rewrite <- (take_app_le bs rest) by (unfold zlen in Hge; lia). rewrite Hst. by rewrite take_app_length. }
    destruct Hb as (bs' & ->). rewrite <- app_assoc in Hst. apply app_inv_head in Hst.
    rewrite fmap_cons in Hroom. destruct (fifos_push_room _ _ _ Hroom) as (v1 & Hv1 & Hp1).
    pose proof (Session.request_decode r bs' Hr) as Hd. pose proof (Session.request_frame sid r bs' Hr) as Hf.
    assert (Hdrop : drop (Z.to_nat (zlen (Session.request_bytes r))) (Session.request_bytes r ++ bs') = bs').
    { unfold zlen. rewrite Nat2Z.id. by rewrite drop_app_length. }
    rewrite zlen_app in Hn.
    destruct (IH v1 bs' rs Hst Hrs (room_pushes _ [_] _ _ Hroom Hp1) ltac:(lia))
      as (rs1 & rs2 & c & v' & p & -> & Hrun & Hp' & Hrest & Hl).
    exists (r :: rs1), rs2, (c + 1), v', p. split; [done|]. split; [|split; [|done]].
    + rewrite Hd, Lr in *. destruct r; rewrite Hf, Hv1, Hdrop; by rewrite Hrun.
    + rewrite fmap_cons. by apply (pushes_app N v [_] v1 _ v').
Qed.

End requests.

(** ** Reading requests *)

Section reading.
Context (CFG : ShardConfig) (N : Z) {K : Type} `{Kernel K} (V : KernelView K) `{!KernelLaws V}.
Context (HN : 0 < N) (HQ : Spsc.pow2 (queue_depth CFG)).

(** The blocks that reading [fd] returns until there is nothing more; the
    boolean says whether the peer has closed. *)
Inductive recvs (fd : Z) : K -> list (list Z) -> bool -> K -> Prop :=
| recvs_end k r bs k' : k_recv k fd BUF_SIZE = (r, bs, k') -> r <= 0 -> recvs fd k [] (r =? 0) k'
| recvs_more k r bs k1 cs eof k' :
    k_recv k fd BUF_SIZE = (r, bs, k1) -> 0 < r -> recvs fd k1 cs eof k' -> recvs fd k (bs :: cs) eof k'.

Lemma recvs_quiet fd k cs eof k' : recvs fd k cs eof k' -> quiet V k k'.
Proof.
  induction 1 as [k r bs k' E Hr|k r bs k1 cs eof k' E Hr _ IH].
  - by destruct (recv_takes V k fd BUF_SIZE r bs k' ltac:(done) E).
  - destruct (recv_takes V k fd BUF_SIZE r bs k1 ltac:(done) E). by transitivity k1.
Qed.

Lemma recv_requests fuel fd s shards k cs eof k' ins outs rs :
  recvs fd k cs eof k' -> (length cs < fuel)%nat ->
  Session.session_wf s -> Session.closed_ s = false -> incomplete (Session.pending s) rs ->
  Forall (fun c => zlen c <= 4064) cs ->
  Session.pending s ++ concat cs = concat (Session.request_bytes <$> rs) -> Forall Session.request_ok rs ->
  room CFG N ins (Session.request_msg (Session.session_id s) <$> rs) -> rings_rel CFG N outs shards ins ->
  exists s' shards' ins', recv_loop CFG N fuel fd s shards k = Ok (eof, s', shards', k') /\
    Session.session_wf s' /\ rings_rel CFG N outs shards' ins' /\
    pushes N ins (Session.request_msg (Session.session_id s) <$> rs) ins' /\
    Session.closed_ s' = false /\ Session.pending s' = [] /\
    Session.fd s' = Session.fd s /\ Session.session_id s' = Session.session_id s.
Proof.
  intros Hrec. revert fuel s shards ins rs. induction Hrec as [k r bs k' E Hr|k r bs k1 cs eof k' E Hr _ IH];
    intros fuel s shards ins rs Hfuel HS Hcl Hinc Hsz Hst Hok Hroom Hrings; (destruct fuel as [|fuel]; [simpl in Hfuel; lia|]);
    cbn [recv_loop]; rewrite E.
  - rewrite (proj2 (Z.ltb_ge _ _)) by done. rewrite app_nil_r in Hst.
    assert (rs = []) as ->.
    { destruct rs as [|r0 rs]; [done|]. cbn [incomplete] in Hinc. rewrite Hst, fmap_cons, concat_cons, zlen_app in Hinc.
      pose proof (zlen_nonneg (concat (Session.request_bytes <$> rs))). lia. }
    exists s, shards, ins. split_and!; try done. apply pushes_nil.
  - rewrite (proj2 (Z.ltb_lt _ _)) by done.
    destruct (recv_takes V k fd BUF_SIZE r bs k1 ltac:(done) E) as [_ Htake].
    destruct (Htake Hr) as (Hlen & Hle & Hbytes & _). unfold BUF_SIZE in Hle. rewrite wrapU_small by lia.
    inversion Hsz as [|? ? Hb Hsz']; subst. pose proof (incomplete_short _ _ Hinc) as Hp32.
    rewrite Session.zlen_pending in Hp32 by done.
    destruct (Session.append_fits s HS bs Hbytes) as (s1 & -> & HS1 & Hp1 & Hl1 & Hcl1 & Hid1 & Hf1);
      [unfold Session.RECV_BUF_SIZE; lia|]. cbn [mbind res_bind].
    rewrite <- Hcl1 in Hcl. rewrite concat_cons, app_assoc, <- Hp1 in Hst.
    destruct (consume_requests CFG N HN Session.consume_fuel (Session.session_id s1) ins (Session.pending s1)
      (concat cs) rs Hst Hok) as (rs1 & rs2 & c & v' & p & -> & Hspec & Hpush & Hrest & Hinc').
    { by rewrite Hid1. }
    { rewrite Session.zlen_pending by done. change (8 * Z.of_nat Session.consume_fuel) with 4104. lia. }
    pose proof (@Session.consume_spec _ _ _ _ _ (rings_sink_laws CFG N HN HQ outs) s1 shards ins HS1 Hcl Hrings) as Hc.
    rewrite Hspec in Hc. destruct Hc as (s2 & shards2 & -> & HS2 & Hr2 & Hp2 & Hcl2 & Hf2 & Hid2).
    cbn [mbind res_bind]. rewrite fmap_app in Hroom. apply Forall_app in Hok as [_ Hok2].
    destruct (IH fuel s2 shards2 v' rs2) as (s' & shards' & ins' & Hrun & HS' & Hr' & Hpush' & Hcl' & Hp' & Hf' & Hid').
    + simpl in Hfuel. lia.
    + done.
    + done.
    + by rewrite Hp2.
    + done.
    + by rewrite Hp2.
    + done.
    + rewrite Hid2, Hid1. rewrite Hid1 in Hpush. by eapply room_pushes.
    + done.
    + exists s', shards', ins'. rewrite Hid2, Hid1 in *. split_and!; try done; [|congruence].
      rewrite fmap_app. by eapply pushes_app.
Qed.

(** ** What stays true of the kernel *)

Section kept.
Context (P : K -> Prop) (HP : keeps P).

Lemma set_nonblocking_kept k fd : P k -> P (set_nonblocking k fd).
Proof.
  intros Hk. unfold set_nonblocking. destruct (k_fcntl_getfl k fd) as [flags k1] eqn:E. apply (HP k1); [constructor|].
  change k1 with (flags, k1).2. rewrite <- E. apply (HP k); [constructor|done].
Qed.

Lemma accept_all_kept fuel g k g' k' : accept_all fuel g k = Ok (g', k') -> P k -> P k'.
Proof.
  revert g k. induction fuel as [|fuel IH]; intros g k; [done|]. cbn [accept_all]. intros Hrun Hk. pose proof (HP _ _ (called_accept k (listen_fd_ g)) Hk) as Hk1.
  destruct (k_accept k (listen_fd_ g)) as [cfd k1]. cbn [snd] in Hk1. destruct (cfd <? 0); [by injection Hrun as _ <-|].
  apply (IH _ _ Hrun). apply (HP _ _ (called_epoll_add _ _ _)), (HP _ _ (called_setsockopt _ _)), set_nonblocking_kept, Hk1.
Qed.

Lemma recv_loop_kept fuel fd s shards k eof s' shards' k' : recv_loop CFG N fuel fd s shards k = Ok (eof, s', shards', k') -> P k -> P k'.
Proof.
  revert s shards k. induction fuel as [|fuel IH]; intros s shards k; [done|]. cbn [recv_loop]. intros Hrun Hk. pose proof (HP _ _ (called_recv k fd BUF_SIZE) Hk) as Hk1.
  destruct (k_recv k fd BUF_SIZE) as [[r buf] k1]. cbn [snd] in Hk1. destruct (0 <? r); [|by injection Hrun as _ _ _ <-].
  destruct (Session.append s buf (u32 r)) as [s1|]; [|done]. cbn [mbind res_bind] in Hrun.
  destruct (Session.consume s1 shards) as [[[x s2] shards2]|]; [|done]. exact (IH _ _ _ Hrun Hk1).
Qed.

Lemma read_session_kept fuel g fd k g' k' : read_session CFG N fuel g fd k = Ok (g', k') -> P k -> P k'.
Proof.
  unfold read_session. intros Hrun Hk. destruct (sessions_ g !! fd) as [s|]; [|by injection Hrun as _ <-].
  destruct (recv_loop CFG N fuel fd s (shards_ g) k) as [[[[eof s'] shards'] k1]|] eqn:E; [|done]. cbn [mbind res_bind] in Hrun.
  pose proof (recv_loop_kept _ _ _ _ _ _ _ _ _ E Hk) as Hk1.
  assert (Hclose : P (k_close (k_epoll_del k1 (epoll_fd_ g) fd) fd)) by (apply (HP _ _ (called_close _ _)), (HP _ _ (called_epoll_del _ _ _)), Hk1).
  destruct eof; [by injection Hrun as _ <-|]. destruct (Session.closed s'); by injection Hrun as _ <-.
Qed.

Lemma handle_events_kept fuel events g k g' k' : handle_events CFG N fuel events g k = Ok (g', k') -> P k -> P k'.
Proof.
  revert g k. induction events as [|fd events IH]; intros g k; cbn [handle_events]; [by intros [= _ <-]|]. intros Hrun Hk.
  destruct (if fd =? listen_fd_ g then _ else _) as [[g1 k1]|] eqn:E; [|done]. apply (IH _ _ Hrun).
  destruct (fd =? listen_fd_ g); [by eapply accept_all_kept|by eapply read_session_kept].
Qed.

End kept.

(** ** Sessions over a poll *)

(** The reports for a session. *)
Definition stamped (sid : Z) (ms : list OutboundMsg) : list OutboundMsg :=
  filter (fun m => hdr_session_id (out_hdr m) = sid) ms.

(** After [before], the session of [fd] was sent its reports of [ms], at least a
    part of each, and whole frames in states where sockets can be written. *)
Definition receives (good : Prop) (k' : K) (fd sid : Z) (before : list Z) (ms : list OutboundMsg) : Prop :=
  (exists parts, Forall2 prefix parts (out_enc <$> stamped sid ms) /\ k_out V k' fd = before ++ concat parts) /\
  (good -> k_out V k' fd = before ++ concat (out_enc <$> stamped sid ms)).

(** What a poll does to sessions: those that were there before go on, new ones
    start with nothing, and all are sent their reports of [ms]. *)
Record serves_sessions (g : Gateway) (k : K) (g' : Gateway) (k' : K) (ms : list OutboundMsg) : Prop := {
  sv_next : next_session_id_ g <= next_session_id_ g';
  sv_kept : forall P, writable P -> keeps P -> P k -> P k';
  sv_out : forall fd s', sessions_ g' !! fd = Some s' -> exists before,
    ((exists s, sessions_ g !! fd = Some s /\ Session.session_id s = Session.session_id s' /\ before = k_out V k fd) \/
     (before = [] /\ next_session_id_ g <= Session.session_id s')) /\
    forall P, receives (writable P /\ keeps P /\ P k) k' fd (Session.session_id s') before ms
}.

Lemma drain_serves g k g2 k1 k2 shards' k' ins outs : (forall fd, k_out V k1 fd = k_out V k fd) ->
  (forall P, keeps P -> P k -> P k2) -> evolves V g k1 g2 k2 -> gateway_wf CFG N V g2 k2 ins outs -> delivers V (sid_to_fd_ g2) (concat outs) k2 k' ->
  serves_sessions g k (set_shards g2 shards') k' (concat outs).
Proof.
  intros HW Hk Hev HG2 [_ D2 D3 _ _]. split; [apply Hev|intros P Hw HP HPk; by apply (D3 P Hw), Hk|]. cbn [sessions_ set_shards]. intros fd s' Hs'.
  exists (k_out V k2 fd). split.
  - destruct (ev_out _ _ _ _ _ Hev fd s' Hs') as [(s & Hs & E & O)|[O Hn]]; [left; exists s; by rewrite O, HW|by right].
  - unfold receives, stamped. rewrite <- (frames_to_session CFG N V g2 k2 ins outs fd s' (concat outs) HG2 Hs').
    intros P. split; [apply D2|]. intros (Hw & HP & HPk). by apply (D3 P Hw), Hk.
Qed.

(** Reports go to descriptors of sessions only. *)
Lemma drain_kept g k k' ins outs fd : gateway_wf CFG N V g k ins outs -> delivers V (sid_to_fd_ g) (concat outs) k k' ->
  sessions_ g !! fd = None -> k_out V k' fd = k_out V k fd.
Proof.
  intros [_ G2 _ _ _ _] [_ D2 _ _ _] Hno. destruct (D2 fd) as (parts & HP & ->).
  assert (frames_to (sid_to_fd_ g) fd (concat outs) = []) as Hnil.
  { clear -G2 Hno. unfold frames_to. induction (concat outs) as [|m ms IH]; [done|]. rewrite filter_cons, decide_False; [done|].
    intros (s' & Hs' & _)%G2. congruence. }
  rewrite Hnil in HP. inversion HP. by rewrite app_nil_r.
Qed.

Lemma poll_ok fuel g t k ins outs :
  let k1 := (k_epoll_wait k (epoll_fd_ g) MAX_EVENTS t).2 in
  gateway_wf CFG N V g k ins outs -> next_session_id_ g + Z.of_nat (k_backlog V k1) < 2 ^ 32 ->
  (k_backlog V k1 < fuel)%nat -> (k_unread V k1 < fuel)%nat ->
  exists g' k' ins', poll_once CFG N fuel g t k = Ok (g', k') /\
    gateway_wf CFG N V g' k' ins' (replicate (Z.to_nat N) []) /\
    (forall fd, foreign V g' k' fd <-> foreign V g k fd) /\
    listen_fd_ g' = listen_fd_ g /\ epoll_fd_ g' = epoll_fd_ g /\ fed N (next_session_id_ g') ins ins' /\
    serves_sessions g k g' k' (concat outs) /\ (forall fd, foreign V g k fd -> k_out V k' fd = k_out V k fd).
Proof.
  intros k1 HG Hbound F1 F2. unfold poll_once. destruct (k_epoll_wait k (epoll_fd_ g) MAX_EVENTS t) as [evs k1'] eqn:E.
  cbn [snd] in k1. subst k1. destruct (epoll_wait_keeps V _ _ _ _ _ _ E) as (W1 & W2 & _).
  assert (HG1 : gateway_wf CFG N V g k1' ins outs)
    by (pose proof (set_shards_wf CFG N V g k k1' (shards_ g) ins outs ins outs HG W1 (gw_rings _ _ _ _ _ _ _ HG)) as HG1;
        by destruct g).
  destruct (handle_events_ok CFG N V HN HQ fuel evs g k1' ins outs F1 F2 HG1 Hbound) as (g2 & k2 & ins2 & Hevs & HG2 & Hev2 & Hfed).
  rewrite Hevs. cbn [mbind res_bind]. destruct (drain_outbound_ok CFG N V HQ g2 k2 ins2 outs HG2) as (shards' & k' & Hrun & HG' & Hd).
  exists (set_shards g2 shards'), k', ins2. split; [done|]. split; [done|].
  pose proof Hev2 as [Hf _ _ _ _ Hl He _ _ Hkept]. split_and!; [|done|done|done| |].
  2:{ eapply drain_serves; [exact W2| |done..]. intros P HP Hk. eapply (handle_events_kept P HP); [exact Hevs|].
      pose proof (HP _ _ (called_wait k (epoll_fd_ g) MAX_EVENTS t) Hk) as Hk1. by rewrite E in Hk1. }
  2:{ intros fd [Ho Hno]. assert (Hf1 : foreign V g k1' fd) by (split; [by apply W1|done]).
      rewrite (drain_kept g2 k2 k' ins2 outs fd HG2 Hd); [by rewrite Hkept, W2|by apply Hf]. }
  intros fd. unfold foreign in *. cbn [sessions_ set_shards]. by rewrite (dl_open _ _ _ _ _ Hd), Hf, W1.
Qed.

(** C16: Requests reach the shards: when the bytes waiting on a session with
    nothing buffered are a sequence of well-formed orders and cancels, in
    whatever blocks of at most 4064 bytes they arrive, and every inbound ring
    has room for as many messages as there are requests, [read_session] hands
    every request over, with its fields as the client encoded them and the
    session of the connection, to the ring of the shard it belongs to, in order
    per shard; nothing is left buffered, and the session stays connected unless
    the client has closed.  (Where a ring is too full the frame stays in the
    session: [GatewayFindings.refused_frame_stuck].) *)
Theorem requests_reach_shards fuel g fd s k cs eof k1 ins outs rs :
  gateway_wf CFG N V g k ins outs -> sessions_ g !! fd = Some s -> Session.pending s = [] ->
  recvs fd k cs eof k1 -> Forall (fun c => zlen c <= 4064) cs ->
  concat cs = concat (Session.request_bytes <$> rs) -> Forall Session.request_ok rs ->
  Forall (fun l => zlen l + zlen rs <= queue_depth CFG) ins -> (length cs < fuel)%nat ->
  exists g' k' ins' ms, read_session CFG N fuel g fd k = Ok (g', k') /\ gateway_wf CFG N V g' k' ins' outs /\
    Forall2 (Session.delivers (Session.session_id s)) rs ms /\ pushes N ins ms ins' /\
    (eof = false -> exists s', sessions_ g' !! fd = Some s' /\ Session.pending s' = []).
Proof.
  intros HG Hs Hp Hrec Hsz Hst Hok Hroom Hfuel.
  destruct (gw_session _ _ _ _ _ _ _ HG fd s Hs) as [F1 F2 F3 F4 F5 F6].
  pose proof (gw_rings _ _ _ _ _ _ _ HG) as Hr.
  set (ms := Session.request_msg (Session.session_id s) <$> rs).
  assert (HR : room CFG N ins ms).
  { split; [apply (rr_fifos _ _ _ _ (proj1 Hr))|]. intros t l Hl. pose proof (lookupZ_range _ _ _ Hl).
    rewrite lookupZ_nat in Hl by lia. pose proof (Forall_lookup_1 _ _ _ _ Hroom Hl) as HL. simpl in HL.
    pose proof (length_filter (fun m => route N m = Some t) ms) as Hle.
    unfold routed_to, zlen, ms in *. rewrite length_fmap in Hle. lia. }
  destruct (recv_requests fuel fd s (shards_ g) k cs eof k1 ins outs rs Hrec Hfuel F2 F3)
    as (s' & shards' & ins' & Hrun & HS' & Hr' & Hpush & Hcl' & Hp' & Hf' & Hid'); try done.
  - rewrite Hp. destruct rs as [|r rs']; [done|]. cbn [incomplete]. rewrite Session.zlen_request. by destruct r.
  - by rewrite Hp.
  - destruct (read_session_from CFG N V _ _ _ _ _ _ _ _ _ _ _ _ HG Hs Hrun HS' Hr' (recvs_quiet _ _ _ _ _ Hrec) Hf' Hid')
      as (g' & k' & ? & ? & _ & Hkeep).
    exists g', k', ins', ms. split_and!; try done.
    + unfold ms. apply Forall2_fmap_r. apply Forall_Forall2_diag. eapply Forall_impl; [exact Hok|].
      intros r. apply Session.request_delivers. by destruct F2.
    + intros He. exists s'. by rewrite (Hkeep He Hcl').
Qed.

(** C17: Reports reach their clients: [drain_outbound] returns with all outbound
    rings empty; every connected session is sent, in order, the frames of the
    reports stamped with its id, each completely as long as the sockets can be
    written and otherwise at least a prefix of each, and no other descriptor is
    written to. *)
Theorem reports_delivered g k ins outs :
  gateway_wf CFG N V g k ins outs ->
  exists g' k', drain_outbound CFG N g k = Ok (g', k') /\
    gateway_wf CFG N V g' k' ins (replicate (Z.to_nat N) []) /\
    (forall fd s, sessions_ g !! fd = Some s ->
       let frames := out_enc <$> filter (fun m => hdr_session_id (out_hdr m) = Session.session_id s) (concat outs) in
       (exists parts, Forall2 prefix parts frames /\ k_out V k' fd = k_out V k fd ++ concat parts) /\
       (forall P, writable P -> P k -> k_out V k' fd = k_out V k fd ++ concat frames)) /\
    (forall fd, sessions_ g !! fd = None -> k_out V k' fd = k_out V k fd).
Proof.
  intros HG. destruct (drain_outbound_ok CFG N V HQ g k ins outs HG) as (shards' & k' & Hrun & HG' & Hd).
  exists (set_shards g shards'), k'. split; [done|]. split; [done|].
  pose proof (frames_to_session CFG N V g k ins outs) as HF.
  split; [|intros fd Hno; by apply (drain_kept g k k' ins outs fd)].
  - destruct Hd as [_ D2 D3 _ _]. intros fd s Hs. cbn zeta. rewrite <- (HF fd s (concat outs) HG Hs). split; [apply D2|]. intros P HP Hk. by apply (D3 P HP Hk).
Qed.

(** C15: A poll always returns: for every kernel that keeps its laws, whatever
    clients connect, send or close, and whatever events it reports, a poll of a
    well-formed gateway has no undefined behaviour, ends within fuel for the
    input that waits, leaves every outbound ring empty and the gateway well
    formed (its tables inverse to each other, no closed session kept, every
    session on an open descriptor), and opens, closes and writes to no descriptor
    but those of its sessions: what was open before and is not a session stays
    open, nothing else is open after, and nothing is sent on it.  The session
    numbers given out, those of connections still waiting included, have to be
    below [2^32]. *)
Theorem poll_once_ok fuel g t k ins outs :
  let k1 := (k_epoll_wait k (epoll_fd_ g) MAX_EVENTS t).2 in
  gateway_wf CFG N V g k ins outs -> next_session_id_ g + Z.of_nat (k_backlog V k1) < 2 ^ 32 ->
  (k_backlog V k1 < fuel)%nat -> (k_unread V k1 < fuel)%nat ->
  exists g' k' ins', poll_once CFG N fuel g t k = Ok (g', k') /\
    gateway_wf CFG N V g' k' ins' (replicate (Z.to_nat N) []) /\
    (forall fd, foreign V g' k' fd <-> foreign V g k fd) /\
    (forall fd, foreign V g k fd -> k_out V k' fd = k_out V k fd).
Proof.
  intros k1 HG Hbound F1 F2. destruct (poll_ok fuel g t k ins outs HG Hbound F1 F2) as (g' & k' & ins' & ? & ? & ? & _ & _ & _ & _ & ?).
  by exists g', k', ins'.
Qed.

(** ** The life of a gateway *)

(** A poll with enough fuel, or any change of the rings by the shards. *)
Inductive gateway_step : Gateway * K -> Gateway * K -> Prop :=
| step_poll g k fuel t g' k' :
    let k1 := (k_epoll_wait k (epoll_fd_ g) MAX_EVENTS t).2 in
    next_session_id_ g + Z.of_nat (k_backlog V k1) < 2 ^ 32 ->
    (k_backlog V k1 < fuel)%nat -> (k_unread V k1 < fuel)%nat ->
    poll_once CFG N fuel g t k = Ok (g', k') -> gateway_step (g, k) (g', k')
| step_shards g k shards' ins' outs' :
    rings_rel CFG N outs' shards' ins' -> gateway_step (g, k) (set_shards g shards', k).

Lemma steps_ok gk gk' : rtc gateway_step gk gk' ->
  (exists ins outs, gateway_wf CFG N V gk.1 gk.2 ins outs) ->
  (exists ins outs, gateway_wf CFG N V gk'.1 gk'.2 ins outs) /\
  (forall fd, foreign V gk'.1 gk'.2 fd <-> foreign V gk.1 gk.2 fd) /\
  listen_fd_ gk'.1 = listen_fd_ gk.1 /\ epoll_fd_ gk'.1 = epoll_fd_ gk.1.
Proof.
  induction 1 as [gk|gk1 gk2 gk3 Hstep _ IH]; [done|]. intros (ins & outs & HG). inversion Hstep; subst; cbn [fst snd] in *.
  - destruct (poll_ok fuel g t k ins outs HG) as (g1 & k2 & ins' & Hrun & HG' & Hf & Hl & He & _); [done..|].
    assert (g1 = g' /\ k2 = k') as [-> ->] by (split; congruence).
    destruct IH as (? & Hf' & -> & ->); [by eexists _, _|]. split_and!; [done| |done|done]. intros fd. by rewrite Hf'.
  - destruct IH as (? & Hf' & -> & ->).
    + exists ins', outs'. by apply (set_shards_wf CFG N V g k k shards' ins outs ins' outs').
    + split_and!; [done| |done|done]. intros fd. by rewrite Hf'.
Qed.

Lemma close_all k l fd : k_open V (foldl k_close k l) fd <-> k_open V k fd /\ (fd ∉ l).
Proof.
  revert k. induction l as [|f l IH]; intros k; cbn [foldl];
    [pose proof (not_elem_of_nil fd); tauto|]. rewrite IH, not_elem_of_cons.
  destruct (close_closes V k f) as [-> _]. tauto.
Qed.

Lemma destroy_open g k ins outs fd : gateway_wf CFG N V g k ins outs -> 0 <= listen_fd_ g -> 0 <= epoll_fd_ g ->
  k_open V (gateway_destroy g k) fd <-> foreign V g k fd /\ fd <> listen_fd_ g /\ fd <> epoll_fd_ g.
Proof.
  intros HG Hl He. unfold gateway_destroy. rewrite (proj2 (Z.leb_le _ _) Hl), (proj2 (Z.leb_le _ _) He).
  destruct (close_closes V (k_close (foldl k_close k (map_to_list (sessions_ g)).*1) (epoll_fd_ g)) (listen_fd_ g)) as [-> _].
  destruct (close_closes V (foldl k_close k (map_to_list (sessions_ g)).*1) (epoll_fd_ g)) as [-> _].
  rewrite close_all. unfold foreign. assert (Hdom : fd ∉ (map_to_list (sessions_ g)).*1 <-> sessions_ g !! fd = None).
  { rewrite list_elem_of_fmap. rewrite eq_None_not_Some. split.
    - intros Hno [s Hs]. apply Hno. exists (fd, s). split; [done|]. by apply elem_of_map_to_list.
    - intros Hno ((f & s) & -> & Hs%elem_of_map_to_list). apply Hno. by exists s. }
  rewrite Hdom. tauto.
Qed.

Lemma gateway_init_shards shards port k g k' : gateway_init shards port k = (inr g, k') -> shards_ g = shards.
Proof.
  unfold gateway_init. repeat case_match; try done. by intros [= <- _].
Qed.

Lemma gateway_init_ok shards port k g k' ins outs :
  rings_rel CFG N outs shards ins -> gateway_init shards port k = (inr g, k') ->
  gateway_wf CFG N V g k' ins outs /\ 0 <= listen_fd_ g /\ 0 <= epoll_fd_ g /\
  ~ k_open V k (listen_fd_ g) /\ ~ k_open V k (epoll_fd_ g) /\
  forall fd, foreign V g k' fd <-> fd = listen_fd_ g \/ fd = epoll_fd_ g \/ k_open V k fd.
Proof.
  intros Hr. unfold gateway_init.
  destruct (k_socket k) as [lfd k1] eqn:E1. destruct (Z.ltb_spec lfd 0) as [|Hl]; [done|].
  destruct (k_bind (k_setsockopt k1 lfd) lfd port) as [r2 k2] eqn:E2. destruct (negb (r2 =? 0)); [done|].
  destruct (k_listen k2 lfd 128) as [r3 k3] eqn:E3. destruct (negb (r3 =? 0)); [done|].
  destruct (k_getsockname k3 lfd) as [b k4] eqn:E4.
  destruct (k_epoll_create (set_nonblocking k4 lfd)) as [efd k5] eqn:E5. destruct (Z.ltb_spec efd 0) as [|He]; [done|].
  intros [= <- <-]. destruct (socket_opens V _ _ _ E1) as [O1 _]. destruct (epoll_create_opens V _ _ _ E5) as [O5 _].
  unfold opens in O1, O5. rewrite (proj2 (Z.ltb_ge lfd 0) Hl) in O1. rewrite (proj2 (Z.ltb_ge efd 0) He) in O5.
  destruct O1 as (N1 & O1 & _), O5 as (N5 & O5 & _).
  assert (Hq : quiet V k1 (set_nonblocking k4 lfd)).
  { transitivity (k_setsockopt k1 lfd); [exact (setsockopt_quiet V _ _)|].
    transitivity k2; [exact (bind_quiet V _ _ _ _ _ E2)|]. transitivity k3; [exact (listen_quiet V _ _ _ _ _ E3)|].
    transitivity k4; [exact (getsockname_quiet V _ _ _ _ E4)|]. exact (set_nonblocking_quiet V _ _). }
  destruct Hq as [Q _ _ _]. destruct (epoll_add_quiet V k5 efd lfd) as [Q6 _ _ _].
  assert (HO : forall fd, k_open V (k_epoll_add k5 efd lfd) fd <-> fd = efd \/ fd = lfd \/ k_open V k fd).
  { intros fd. by rewrite Q6, O5, Q, O1. }
  cbn [listen_fd_ epoll_fd_]. rewrite Q, O1 in N5. split_and!; try done; [|tauto|].
  - split; cbn; try done; try lia; split; rewrite ?HO; try done; tauto.
  - intros fd. unfold foreign, add_epoll. rewrite HO. cbn. rewrite lookup_empty. tauto.
Qed.

(** C18: No descriptor is leaked or closed twice: after a successful construction,
    any number of polls with any activity of the shards in between, and the
    destructor, exactly the descriptors that were open before are open. *)
Theorem descriptors_balanced shards port k0 g0 k1 g k ins outs fd :
  rings_rel CFG N outs shards ins -> gateway_init shards port k0 = (inr g0, k1) ->
  rtc gateway_step (g0, k1) (g, k) ->
  k_open V (gateway_destroy g k) fd <-> k_open V k0 fd.
Proof.
  intros Hr Hinit Hsteps. destruct (gateway_init_ok _ _ _ _ _ _ _ Hr Hinit) as (HG0 & Hl & He & Nl & Ne & Hf0).
  destruct (steps_ok _ _ Hsteps) as ((ins' & outs' & HG) & Hf & El & Ee); [by eexists _, _|]. cbn [fst snd] in *.
  rewrite (destroy_open g k ins' outs' fd HG), Hf, Hf0, El, Ee by congruence.
  split; [tauto|]. intros Ho. split; [tauto|]. split; intros ->; done.
Qed.

End reading.

(** ** A client on a simulated kernel *)

Import Sim.

Definition demo_rs : list Session.Request :=
  [Session.RNew (mkNewOrder (mkHeader 32 NEW_ORDER 0 99) 1 1050 10 1 SELL GTC);
   Session.RCancel (mkCancelOrder (mkHeader 16 CANCEL_ORDER 0 99) 5)].
Definition demo_bytes : list Z := concat (Session.request_bytes <$> demo_rs).

(** One client that waits to be accepted and sends two requests in two blocks. *)
Definition demo_k0 : SimKernel := mkSim [[take 10 demo_bytes; drop 10 demo_bytes]] [] ∅ {[0; 1; 2]} 0 30.

Definition demo_shards : list Shard := [demo_shard0; demo_shard0].
Definition demo_init : (init_error + Gateway) * SimKernel := gateway_init demo_shards 9000 demo_k0.
Definition demo_g0 : Gateway :=
  match demo_init.1 with inr g => g | inl _ => mkGateway [] 0 0 0 0 ∅ ∅ false end.
Definition demo_k1 : SimKernel := demo_init.2.

(** After the connection was accepted. *)
Definition demo_accepted : Gateway * SimKernel :=
  match accept_all 5 demo_g0 demo_k1 with Ok gk => gk | Err _ => (demo_g0, demo_k1) end.

Lemma demo_rings_rel : rings_rel demo_cfg2 2 [[]; []] demo_shards [[]; []].
Proof.
  split; [apply demo_shards_rel|]. split; [done| |by repeat constructor].
  intros s sh l Hs Hl. pose proof (lookupZ_range _ _ _ Hs) as R. change (zlen demo_shards) with 2 in R.
  assert (s = 0 \/ s = 1) as [-> | ->] by lia; injection Hs as <-; injection Hl as <-;
    apply (Spsc.queue_init_repr 4 Spsc.pow2_4).
Qed.

Lemma demo_init_eq : gateway_init demo_shards 9000 demo_k0 = (inr demo_g0, demo_k1).
Proof. by vm_compute. Qed.

Lemma demo_g0_wf : gateway_wf demo_cfg2 2 sim_view demo_g0 demo_k1 [[]; []] [[]; []].
Proof. apply (gateway_init_ok demo_cfg2 2 sim_view _ _ _ _ _ _ _ demo_rings_rel demo_init_eq). Qed.

Lemma demo_accepted_wf : gateway_wf demo_cfg2 2 sim_view demo_accepted.1 demo_accepted.2 [[]; []] [[]; []].
Proof.
  destruct (accept_all_ok demo_cfg2 2 sim_view 5 demo_g0 demo_k1 _ _ ltac:(vm_compute; lia) demo_g0_wf ltac:(by vm_compute))
    as (g & k & Hrun & HG & _). unfold demo_accepted. by rewrite Hrun.
Qed.

Lemma requests_reach_shards_witness :
  exists g' k' ins' ms, read_session demo_cfg2 2 5 demo_accepted.1 5 demo_accepted.2 = Ok (g', k') /\
    Forall2 (Session.delivers 1) demo_rs ms /\ pushes 2 [[]; []] ms ins'.
Proof.
  assert (Hrec : exists k1, recvs 5 demo_accepted.2 [take 10 demo_bytes; drop 10 demo_bytes] false k1).
  { eexists. eapply recvs_more; [by vm_compute|done|]. eapply recvs_more; [by vm_compute|done|].
    apply (recvs_end 5 _ (-1) [] _); [by vm_compute|done]. }
  destruct Hrec as (k1 & Hrec).
  destruct (requests_reach_shards demo_cfg2 2 sim_view ltac:(lia) Spsc.pow2_4 5 demo_accepted.1 5 (Session.session_init 5 1)
    demo_accepted.2 [take 10 demo_bytes; drop 10 demo_bytes] false k1 _ _ demo_rs demo_accepted_wf) as (g' & k' & ins' & ms & Hrun & _ & Hd & Hp & _).
  - by vm_compute.
  - done.
  - exact Hrec.
  - repeat constructor; by vm_compute.
  - by vm_compute.
  - repeat constructor; by vm_compute.
  - repeat constructor; by vm_compute.
  - simpl. lia.
  - exists g', k', ins', ms. split; [exact Hrun|]. split; [exact Hd|exact Hp].
Defined.

Lemma poll_once_ok_witness :
  exists g' k' ins', poll_once demo_cfg2 2 100 demo_g0 10 demo_k1 = Ok (g', k') /\
    gateway_wf demo_cfg2 2 sim_view g' k' ins' [[]; []].
Proof.
  destruct (poll_once_ok demo_cfg2 2 sim_view ltac:(lia) Spsc.pow2_4 100 demo_g0 10 demo_k1 _ _ demo_g0_wf)
    as (g' & k' & ins' & Hrun & HG & _).
  - by vm_compute.
  - vm_compute. lia.
  - vm_compute. lia.
  - by exists g', k', ins'.
Defined.

(** An acknowledgement for the client in the outbound ring of shard 0. *)
Definition demo_ack : OutboundMsg := out_ack (mkAck (mkHeader 24 ACK 0 1) 7 5).
Definition demo_reporting : list Shard :=
  match Spsc.push 4 (outbound_ demo_shard0) demo_ack with
  | Ok (_, q) => [set_outbound demo_shard0 q; demo_shard0]
  | Err _ => []
  end.

Lemma demo_reporting_wf :
  gateway_wf demo_cfg2 2 sim_view (set_shards demo_accepted.1 demo_reporting) demo_accepted.2 [[]; []] [[demo_ack]; []].
Proof.
  apply (set_shards_wf demo_cfg2 2 sim_view _ demo_accepted.2 _ _ [[]; []] [[]; []]); [exact demo_accepted_wf|done|].
  destruct (Spsc.push_spec 4 Spsc.pow2_4 (outbound_ demo_shard0) [] demo_ack (Spsc.queue_init_repr 4 Spsc.pow2_4 _))
    as (q & Hpush & Hq). unfold demo_reporting. rewrite Hpush.
  apply (set_outbound_rings demo_cfg2 2 demo_shards [[]; []] [[]; []] 0 demo_shard0 q [demo_ack]); try done.
  - apply demo_rings_rel.
  - by repeat constructor.
Qed.

Lemma reports_delivered_witness :
  exists g' k', drain_outbound demo_cfg2 2 (set_shards demo_accepted.1 demo_reporting) demo_accepted.2 = Ok (g', k') /\
    k_out sim_view k' 5 = out_enc demo_ack.
Proof.
  destruct (reports_delivered demo_cfg2 2 sim_view Spsc.pow2_4 _ _ _ _ demo_reporting_wf) as (g' & k' & Hrun & _ & Hs & _).
  exists g', k'. split; [exact Hrun|].
  destruct (Hs 5 (Session.session_init 5 1) ltac:(by vm_compute)) as [_ Hfull].
  rewrite (Hfull _ sim_writable); by vm_compute.
Defined.

Lemma descriptors_balanced_witness :
  exists g k, poll_once demo_cfg2 2 100 demo_g0 10 demo_k1 = Ok (g, k) /\
    (k_open sim_view (gateway_destroy g k) 5 <-> k_open sim_view demo_k0 5).
Proof.
  destruct (poll_once demo_cfg2 2 100 demo_g0 10 demo_k1) as [[g k]|] eqn:E; [|vm_compute in E; discriminate E].
  exists g, k. split; [done|].
  apply (descriptors_balanced demo_cfg2 2 sim_view ltac:(lia) Spsc.pow2_4 _ _ _ _ _ _ _ _ _ 5 demo_rings_rel demo_init_eq).
  apply rtc_once. apply (step_poll demo_cfg2 2 sim_view _ _ 100 10); [by vm_compute|vm_compute; lia|vm_compute; lia|exact E].
Defined.

End GatewayProps.
