(* ===== verification/Exchange.v ===== *)
(** * The exchange as a whole

    Gateway, router, ring, shard and book put together: the way of one order
    from the bytes on a socket to the reports on the sockets of everyone it
    concerns. *)

From stdpp Require Import gmap.
From S2P Require Import Prelude Messages Order LevelBitmap Pool PriceLevel OrderHandle OrderBook Spsc Sink Codec Session.
From S2P Require Import BookSpec BookInv BookMatch BookRefine BookLaws BookAbs BookProps Shard ShardInv ShardProps.
From S2P Require Import ShardRouter Kernel Gateway GatewayInv GatewayProps.

Module Exchange.
Import OrderHandle OrderBook BookSpec BookInv BookLaws BookAbs BookProps Shard ShardInv ShardProps.
Import ShardRouter Gateway GatewayInv GatewayProps.

(** ** What a session does to its queue, step by step *)

Section preserves.
Context {Q : Type} `{!Sink Q} (R : relation Q) `{!PreOrder R}.
Context (HR : forall q m b q', sink_push q m = Ok (b, q') -> R q q').

Lemma consume_loop_preserves fuel s q c n c' n' b q' :
  Session.consume_loop fuel s q c n = Ok (c', n', b, q') -> R q q'.
Proof.
  revert q c n. induction fuel as [|fuel IH]; intros q c n; [done|]. cbn [Session.consume_loop].
  destruct (Codec.tryDecode _ _) as [t len| |]; [|by intros [= _ _ _ <-]..].
  assert (Hread : forall k, (msg ← Session.read_msg s c k;
      '(ok, q) ← sink_push q msg;
      if (ok : bool) then Session.consume_loop fuel s q (u32 (c + len)) (u32 (n + 1)) else Ok (c, n, false, q))
      = Ok (c', n', b, q') -> R q q').
  { intros k. destruct (Session.read_msg s c k) as [m|]; [|done]. cbn [mbind res_bind].
    destruct (sink_push q m) as [[ok q1]|] eqn:E; [|done]. cbn [mbind res_bind]. apply HR in E.
    destruct ok; [|by intros [= _ _ _ <-]]. intros Hrest%IH. by transitivity q1. }
  destruct (_ && _); [apply Hread|]. destruct (_ && _); [apply Hread|apply IH].
Qed.

Lemma consume_preserves s q n s' q' : Session.consume s q = Ok (n, s', q') -> R q q'.
Proof.
  unfold Session.consume. destruct (Session.closed_ s); [by intros [= _ _ <-]|].
  destruct (Session.consume_loop _ _ _ _ _) as [[[[c k] b] q1]|] eqn:E; [|done]. cbn [mbind res_bind].
  apply consume_loop_preserves in E. destruct (0 <? c); [|by intros [= _ _ <-]].
  destruct (bytes_at _ _ _) as [src|]; [|done]. cbn [mbind res_bind].
  destruct (memcpy _ _ _ _); [|done]. cbn [mbind res_bind]. by intros [= _ _ <-].
Qed.

End preserves.

(** The shards differ in what waits in their rings only. *)
Definition same_engine (sh sh' : Shard) : Prop :=
  sh' = set_outbound (set_inbound sh (inbound_ sh')) (outbound_ sh').

#[export] Instance same_engine_preorder : PreOrder same_engine.
Proof.
  split; [by intros []|]. intros a b c Hab Hbc. unfold same_engine in *. rewrite Hbc, Hab. done.
Qed.

Definition same_engines : relation (list Shard) := Forall2 same_engine.

Lemma same_engines_set shards t sh sh' shards' : shards !! t = Some sh -> same_engine sh sh' ->
  aset shards t sh' = Ok shards' -> same_engines shards shards'.
Proof.
  intros Hsh He. rewrite (aset_Some _ _ _ _ Hsh). intros [= <-].
  destruct (lookupZ_split _ _ _ Hsh) as (l1 & l2 & -> & _ & ->). apply Forall2_app; [done|]. by constructor.
Qed.

Lemma same_engines_lookup shards shards' t sh : same_engines shards shards' -> shards !! t = Some sh ->
  exists sh', shards' !! t = Some sh' /\ same_engine sh sh'.
Proof.
  intros HF Hsh. pose proof (lookupZ_range _ _ _ Hsh) as R. rewrite lookupZ_nat in Hsh |- * by lia.
  destruct (Forall2_lookup_l _ _ _ _ _ HF Hsh) as (sh' & Hsh' & ?). by exists sh'.
Qed.

Lemma same_engines_back shards shards' t sh' : same_engines shards shards' -> shards' !! t = Some sh' ->
  exists sh, shards !! t = Some sh /\ same_engine sh sh'.
Proof.
  intros HF Hsh. pose proof (lookupZ_range _ _ _ Hsh) as R. rewrite lookupZ_nat in Hsh |- * by lia.
  destruct (Forall2_lookup_r _ _ _ _ _ HF Hsh) as (sh & Hsh' & ?). by exists sh.
Qed.

Lemma same_engine_wf CFG base tick_size sh sh' : same_engine sh sh' ->
  shard_wf CFG base tick_size sh -> shard_wf CFG base tick_size sh'.
Proof. intros -> HS. by apply shard_wf_outbound, shard_wf_inbound. Qed.

Section engines.
Context (CFG : ShardConfig) (N : Z) {K : Type} `{Kernel K}.

Lemma router_push_engines shards m b shards' :
  router_push CFG N shards m = Ok (b, shards') -> same_engines shards shards'.
Proof.
  unfold router_push. destruct (route N m) as [t|]; [|by intros [= _ <-]].
  destruct (shards !! t) as [sh|] eqn:Esh; [|by unfold aget; rewrite Esh]. rewrite (aget_Ok _ _ _ Esh). cbn [mbind res_bind].
  destruct (Spsc.push _ _ _) as [[ok q]|]; [|done]. cbn [mbind res_bind].
  destruct (aset shards t (set_inbound sh q)) as [sh1|] eqn:E; [|done]. cbn [mbind res_bind]. intros [= _ <-].
  exact (same_engines_set _ _ _ _ _ Esh eq_refl E).
Qed.

Lemma recv_loop_engines fuel fd s shards k eof s' shards' k' :
  recv_loop CFG N fuel fd s shards k = Ok (eof, s', shards', k') -> same_engines shards shards'.
Proof.
  revert s shards k. induction fuel as [|fuel IH]; intros s shards k; [done|]. cbn [recv_loop].
  destruct (k_recv k fd BUF_SIZE) as [[r buf] k1]. destruct (0 <? r); [|by intros [= _ _ <- _]].
  destruct (Session.append s buf (u32 r)) as [s1|]; [|done]. cbn [mbind res_bind].
  destruct (Session.consume s1 shards) as [[[n s2] shards2]|] eqn:E; [|done]. cbn [mbind res_bind].
  apply (consume_preserves same_engines) in E; [|intros q m b q'; apply router_push_engines].
  intros Hrest%IH. by transitivity shards2.
Qed.

Lemma read_session_engines fuel g fd k g' k' :
  read_session CFG N fuel g fd k = Ok (g', k') -> same_engines (shards_ g) (shards_ g').
Proof.
  unfold read_session. destruct (sessions_ g !! fd) as [s|]; [|by intros [= <- _]].
  destruct (recv_loop CFG N fuel fd s (shards_ g) k) as [[[[eof s1] shards1] k1]|] eqn:E; [|done]. cbn [mbind res_bind].
  apply recv_loop_engines in E. destruct eof; [by intros [= <- _]|]. destruct (Session.closed s1); by intros [= <- _].
Qed.

Lemma accept_all_shards fuel g k g' k' : accept_all fuel g k = Ok (g', k') -> shards_ g' = shards_ g.
Proof.
  revert g k. induction fuel as [|fuel IH]; intros g k; [done|]. cbn [accept_all].
  destruct (k_accept k (listen_fd_ g)) as [cfd k1]. destruct (cfd <? 0); [by intros [= <- _]|]. by intros ->%IH.
Qed.

Lemma handle_events_engines fuel events g k g' k' :
  handle_events CFG N fuel events g k = Ok (g', k') -> same_engines (shards_ g) (shards_ g').
Proof.
  revert g k. induction events as [|fd events IH]; intros g k; cbn [handle_events]; [by intros [= <- _]|].
  assert (Hone : forall g1 k1, (if fd =? listen_fd_ g then accept_all fuel g k else read_session CFG N fuel g fd k) = Ok (g1, k1) ->
    same_engines (shards_ g) (shards_ g1)).
  { intros g1 k1. destruct (_ =? _); [by intros ->%accept_all_shards|apply read_session_engines]. }
  destruct (if fd =? listen_fd_ g then _ else _) as [[g1 k1]|]; [|done]. cbn [mbind res_bind].
  intros Hrest%IH. transitivity (shards_ g1); [by apply (Hone g1 k1)|done].
Qed.

Lemma drain_shard_engines fuel g s k g' k' :
  drain_shard CFG fuel g s k = Ok (g', k') -> same_engines (shards_ g) (shards_ g').
Proof.
  revert g k. induction fuel as [|fuel IH]; intros g k; [done|]. cbn [drain_shard].
  destruct (shards_ g !! s) as [sh|] eqn:Esh; [|by unfold aget; rewrite Esh]. rewrite (aget_Ok _ _ _ Esh). cbn [mbind res_bind].
  destruct (Spsc.pop _ _) as [[[out|] q]|]; [| |done]; cbn [mbind res_bind]; [|by intros [= <- _]].
  destruct (aset (shards_ g) s (set_outbound sh q)) as [shards1|] eqn:E; [|done]. cbn [mbind res_bind].
  assert (He : same_engines (shards_ g) shards1) by exact (same_engines_set _ _ _ _ _ Esh eq_refl E).
  destruct (sid_to_fd_ _ !! _) as [fd|].
  - destruct (send_all _ _ _ _) as [k1|]; [|done]. cbn [mbind res_bind]. intros Hrest%IH. by transitivity shards1.
  - intros Hrest%IH. by transitivity shards1.
Qed.

Lemma drain_shards_engines ss g k g' k' :
  drain_shards CFG ss g k = Ok (g', k') -> same_engines (shards_ g) (shards_ g').
Proof.
  revert g k. induction ss as [|s ss IH]; intros g k; cbn [drain_shards]; [by intros [= <- _]|].
  destruct (drain_shard _ _ _ _ _) as [[g1 k1]|] eqn:E; [|done]. cbn [mbind res_bind].
  apply drain_shard_engines in E. intros Hrest%IH. by transitivity (shards_ g1).
Qed.

Lemma poll_engines fuel g t k g' k' :
  poll_once CFG N fuel g t k = Ok (g', k') -> same_engines (shards_ g) (shards_ g').
Proof.
  unfold poll_once. destruct (k_epoll_wait _ _ _ _) as [evs k1].
  destruct (handle_events CFG N fuel evs g k1) as [[g1 k2]|] eqn:E; [|done]. cbn [mbind res_bind].
  apply handle_events_engines in E. intros Hd%drain_shards_engines. by transitivity (shards_ g1).
Qed.

End engines.

(** ** The way of an order *)

Section exchange.
Context (CFG : ShardConfig) (N base tick_size : Z) (HC : config_ok CFG) (HN : 0 < N).
Context {K : Type} `{Kernel K} (V : KernelView K) `{!KernelLaws V}.

(** Reading well-formed requests off an idle session that stays connected. *)
Lemma requests_arrive fuel g fd s k cs k1 ins outs rs :
  gateway_wf CFG N V g k ins outs -> sessions_ g !! fd = Some s -> Session.pending s = [] ->
  recvs fd k cs false k1 -> Forall (fun c => zlen c <= 4064) cs ->
  concat cs = concat (Session.request_bytes <$> rs) -> Forall Session.request_ok rs ->
  room CFG N ins (Session.request_msg (Session.session_id s) <$> rs) -> (length cs < fuel)%nat ->
  exists s' shards' ins', Session.session_id s' = Session.session_id s /\ same_engines (shards_ g) shards' /\
    pushes N ins (Session.request_msg (Session.session_id s) <$> rs) ins' /\
    let g1 := set_sessions (set_shards g shards') (<[fd := s']> (sessions_ g)) (sid_to_fd_ g) in
    read_session CFG N fuel g fd k = Ok (g1, k1) /\ gateway_wf CFG N V g1 k1 ins' outs.
Proof.
  intros HG Hs Hp Hrec Hsz Hst Hok HR Hfuel. pose proof (cf_ring _ HC) as HQ.
  destruct (gw_session _ _ _ _ _ _ _ HG fd s Hs) as [F1 F2 F3 F4 F5 F6].
  destruct (recv_requests CFG N V HN HQ fuel fd s (shards_ g) k cs false k1 ins outs rs Hrec Hfuel F2 F3)
    as (s' & shards' & ins' & Hrun & HS' & Hr' & Hpush & Hcl' & Hp' & Hf' & Hid'); try done.
  - rewrite Hp. destruct rs as [|r rs']; [done|]. cbn [incomplete]. rewrite Session.zlen_request. by destruct r.
  - by rewrite Hp.
  - apply (gw_rings _ _ _ _ _ _ _ HG).
  - exists s', shards', ins'. split; [done|]. split; [by eapply recv_loop_engines|]. split; [done|]. cbv zeta.
    destruct (read_session_from CFG N V _ _ _ _ _ _ _ _ _ _ _ _ HG Hs Hrun HS' Hr' (recvs_quiet V _ _ _ _ _ Hrec) Hf' Hid')
      as (g' & k' & Hread & HG' & _).
    assert (Heq : read_session CFG N fuel g fd k =
      Ok (set_sessions (set_shards g shards') (<[fd := s']> (sessions_ g)) (sid_to_fd_ g), k1)).
    { unfold read_session. rewrite Hs, Hrun. cbn [mbind res_bind]. unfold Session.closed. by rewrite Hcl'. }
    split; [done|]. rewrite Heq in Hread. by injection Hread as <- <-.
Qed.

(** A shard with one order in its inbound ring and an empty outbound ring. *)
Lemma shard_serves sh m b bk :
  shard_wf CFG base tick_size sh -> Spsc.queue_repr (queue_depth CFG) (inbound_ sh) [m] ->
  Spsc.queue_repr (queue_depth CFG) (outbound_ sh) [] -> 129 <= queue_depth CFG ->
  hdr_type (in_hdr m) = NEW_ORDER -> has_book sh (no_symbol_id (in_new_order m)) b bk ->
  admissible (ladder_size CFG) bk (arena_ sh) (in_new_order m) MAX_FILLS_PER_ORDER ->
  let sid := hdr_session_id (in_hdr m) in
  exists sh' slot (rests : bool) fs bk' token,
    tick CFG sh = Ok sh' /\ shard_wf CFG base tick_size sh' /\
    spec_add (book_ix bk) (book_abs bk (arena_ sh)) (in_new_order m) slot MAX_FILLS_PER_ORDER
      = (rests, fs, book_abs bk' (arena_ sh')) /\ books_ sh' !! b = Some bk' /\
    Spsc.queue_repr (queue_depth CFG) (inbound_ sh') [] /\
    Spsc.queue_repr (queue_depth CFG) (outbound_ sh') (order_reports sid (no_order_id (in_new_order m)) rests fs token) /\
    Forall out_wf (order_reports sid (no_order_id (in_new_order m)) rests fs token).
Proof.
  intros HS Hin Hout Hroom Ht (H0 & Hsym & Hb) Ha sid.
  destruct (tick_dispatch CFG HC sh m [] Hin) as (q & Hq & ->). rewrite Ht.
  destruct (handle_new_trades CFG base tick_size HC (set_inbound sh q) (in_new_order m) sid [] b bk
    (shard_wf_inbound _ _ _ _ _ HS) Hout Hroom H0 Hsym Hb Ha)
    as (slot & g & rests & fs & bk' & ar' & token & Hadd & (q' & Hrun & Hq') & HS' & _).
  eexists _, slot, rests, fs, bk', token. split; [exact Hrun|]. split; [by apply shard_wf_outbound|].
  split; [done|]. split; [simpl; apply lookupZ_insertZ_eq; by eapply lookupZ_range|]. split; [done|]. split; [done|].
  apply Forall_app. split; [eapply reports_wf, spec_add_frames, Hadd|].
  destruct rests; [constructor; [apply ack_wf|constructor]|constructor].
Qed.

(** Rings with nothing in them, one per shard. *)
Definition idle_rings {A} : list (list A) := replicate (Z.to_nat N) [].

Lemma lookup_idle {A} t : 0 <= t < N -> idle_rings !! t = Some (@nil A).
Proof. intros. apply lookupZ_replicate. lia. Qed.

Lemma zlen_idle {A} : zlen (@idle_rings A) = N.
Proof. unfold idle_rings. rewrite zlen_replicate. lia. Qed.

Lemma concat_one {A} t (l : list A) : 0 <= t < N -> concat (<[t := l]> idle_rings) = l.
Proof.
  intros Ht. unfold idle_rings. rewrite insertZ_nat by lia. rewrite insert_replicate_lt by lia. rewrite concat_app.
  assert (Hz : forall k, concat (replicate k (@nil A)) = []) by (intros k; induction k; done).
  rewrite Hz. cbn [concat]. by rewrite Hz, app_nil_r.
Qed.

Lemma routed_one x t m : route N m = Some t -> routed_to N x [m] = if decide (x = t) then [m] else [].
Proof.
  intros Hm. unfold routed_to. rewrite filter_cons, filter_nil, Hm.
  destruct (decide (x = t)) as [->|]; [by rewrite decide_True|by rewrite decide_False by congruence].
Qed.

(** There is room for one message, and pushing it fills one ring. *)
Lemma room_one t m : route N m = Some t -> 1 <= queue_depth CFG -> room CFG N idle_rings [m].
Proof.
  intros Hm HD. split; [apply zlen_idle|]. intros x l Hl. pose proof (lookupZ_range _ _ _ Hl) as Rx.
  rewrite zlen_idle in Rx. rewrite lookup_idle in Hl by done. injection Hl as <-.
  rewrite (routed_one _ _ _ Hm). destruct (decide _); unfold zlen; simpl; lia.
Qed.

Lemma pushes_one t m ins : route N m = Some t -> 0 <= t < N -> pushes N idle_rings [m] ins ->
  ins = <[t := [m]]> idle_rings.
Proof.
  intros Hm Rt [HL HP]. apply listZ_eq; [by rewrite zlen_insertZ|]. rewrite HL, zlen_idle. intros x Rx.
  rewrite (HP x [] (lookup_idle x Rx)), (routed_one _ _ _ Hm). destruct (decide (x = t)) as [->|Hne].
  - by rewrite lookupZ_insertZ_eq by (by rewrite zlen_idle).
  - rewrite lookupZ_insertZ_ne by done. by rewrite lookup_idle.
Qed.

(** C7: An admissible order is served end to end: on an idle exchange (nothing in
    the rings, nothing buffered in the session), whose rings hold a whole batch
    of reports (129), the bytes of a well-formed order that a connected client
    sends, in blocks of at most 4064 bytes, are read by the gateway and reach the
    shard of its symbol; if the shard has a book for the symbol, and the order is
    [admissible] there (its price is on the ladder and does not overflow against
    the base, and a slot is free), one [tick] of that shard matches it as the
    reference book does; and when the gateway then drains the reports, as long
    as the sockets can be written every connected client is sent exactly its
    own: the sender its fills and the acknowledgement, the owners of the resting
    orders theirs, in order and as whole frames, and nobody else anything.  (An
    order that is not admissible is dropped without a report:
    [ShardProps.tick_silent_drop].) *)
Theorem order_served fuel g fd s k cs k1 o sh b bk :
  let sid := Session.session_id s in
  let t := no_symbol_id o mod N in
  gateway_wf CFG N V g k idle_rings idle_rings -> sessions_ g !! fd = Some s -> Session.pending s = [] ->
  recvs fd k cs false k1 -> Forall (fun c => zlen c <= 4064) cs ->
  concat cs = Session.request_bytes (Session.RNew o) -> Session.request_ok (Session.RNew o) -> (length cs < fuel)%nat ->
  shards_ g !! t = Some sh -> shard_wf CFG base tick_size sh -> has_book sh (no_symbol_id o) b bk ->
  admissible (ladder_size CFG) bk (arena_ sh) (with_session o sid) MAX_FILLS_PER_ORDER -> 129 <= queue_depth CFG ->
  exists g1 sh1 sh2 g3 k3 slot (rests : bool) fs bk' token,
    read_session CFG N fuel g fd k = Ok (g1, k1) /\ shards_ g1 !! t = Some sh1 /\
    tick CFG sh1 = Ok sh2 /\ shard_wf CFG base tick_size sh2 /\ books_ sh2 !! b = Some bk' /\
    spec_add (book_ix bk) (book_abs bk (arena_ sh)) (with_session o sid) slot MAX_FILLS_PER_ORDER
      = (rests, fs, book_abs bk' (arena_ sh2)) /\
    drain_outbound CFG N (set_shards g1 (<[t := sh2]> (shards_ g1))) k1 = Ok (g3, k3) /\
    gateway_wf CFG N V g3 k3 idle_rings idle_rings /\
    forall P, writable P -> P k1 -> forall f c, sessions_ g !! f = Some c ->
      k_out V k3 f = k_out V k f ++ concat (out_enc <$> filter
        (fun m => hdr_session_id (out_hdr m) = Session.session_id c) (order_reports sid (no_order_id o) rests fs token)).
Proof.
  intros sid t HG Hs Hp Hrec Hsz Hst Hok Hfuel Hsh HS Hbk Hadm Hdepth.
  assert (Rt : 0 <= t < N) by (by apply Z.mod_pos_bound).
  destruct (gw_session _ _ _ _ _ _ _ HG fd s Hs) as [F1 F2 F3 F4 F5 F6].
  set (m := Session.request_msg sid (Session.RNew o)).
  destruct (Session.request_delivers sid (Session.RNew o) (Session.se_id _ F2) Hok) as (Mt & Ms & Mo). fold m in Mt, Ms, Mo.
  assert (Hroute : route N m = Some t) by (unfold route; by rewrite Mt, Mo).
  destruct (requests_arrive fuel g fd s k cs k1 idle_rings idle_rings [Session.RNew o] HG Hs Hp Hrec Hsz) as
    (s' & shards' & ins' & Hid & Heng & Hpush & Hread & HG1); try done.
  { by constructor. }
  { apply (room_one t); [done|lia]. }
  apply (pushes_one t) in Hpush; [|done|done]. subst ins'.
  set (g1 := set_sessions _ _ _) in *. destruct (same_engines_lookup _ _ _ _ Heng Hsh) as (sh1 & Hsh1 & Esh1).
  pose proof (gw_rings _ _ _ _ _ _ _ HG1) as Hr1.
  assert (Hi1 : <[t := [m]]> idle_rings !! t = Some [m]) by (apply lookupZ_insertZ_eq; by rewrite zlen_idle).
  assert (Ho1 : @idle_rings OutboundMsg !! t = Some []) by (by apply lookup_idle).
  destruct (shard_serves sh1 m b bk) as (sh2 & slot & rests & fs & bk' & token & Htick & HS2 & Hadd & Hb2 & Hq2 & Hout2 & Hwf2).
  { by eapply same_engine_wf. }
  { by apply (rr_ring _ _ _ _ (proj1 Hr1) t). }
  { by apply (or_ring _ _ _ _ (proj2 Hr1) t). }
  { done. }
  { done. }
  { rewrite Mo, Esh1. done. }
  { rewrite Mo, Esh1. done. }
  rewrite Ms, Mo in *. change (no_order_id (with_session o sid)) with (no_order_id o) in *.
  pose proof (replace_shard_rings CFG N _ _ _ t sh1 sh2 [] _ Hr1 Hsh1 Hq2 Hout2 Hwf2) as Hr2.
  pose proof (set_shards_wf CFG N V g1 k1 k1 _ _ _ _ _ HG1 (fun _ => iff_refl _) Hr2) as HG2.
  destruct (drain_outbound_ok CFG N V (cf_ring _ HC) _ k1 _ _ HG2) as (shards3 & k3 & Hdrain & HG3 & Hd).
  exists g1, sh1, sh2. eexists _, k3, slot, rests, fs, bk', token.
  split; [exact Hread|]. split; [exact Hsh1|]. split; [done|]. split; [done|]. split; [done|].
  split; [by rewrite Esh1 in Hadd|]. split; [exact Hdrain|].
  rewrite insertZ_insertZ, (insertZ_id idle_rings t []) in HG3 by (by apply lookup_idle). split; [exact HG3|].
  intros P HP Hk1 f c Hc. destruct (dl_full _ _ _ _ _ Hd P HP Hk1) as [_ Hout].
  rewrite Hout, concat_one by done. rewrite (q_out _ _ _ (recvs_quiet V _ _ _ _ _ Hrec)). do 2 f_equal.
  exact (frames_to_session CFG N V g k _ _ f c _ HG Hc).
Qed.

End exchange.

(** ** Two clients trade

    Shard 1 of two holds a sell of client 1; client 2 sends a buy in two blocks. *)

Import Sim.

Definition trade_sell : InboundMsg := order_msg (mkNewOrder (mkHeader 32 NEW_ORDER 0 1) 1 1050 10 7 SELL GTC).
Definition trade_buy : NewOrder := mkNewOrder (mkHeader 32 NEW_ORDER 0 0) 2 1055 14 7 BUY GTC.
Definition trade_bytes : list Z := Session.request_bytes (Session.RNew trade_buy).
Definition trade_blocks : list (list Z) := [take 10 trade_bytes; drop 10 trade_bytes].

Definition trade_shard : Shard :=
  set_outbound (ticked (queued demo_shard trade_sell)) (Spsc.queue_init 512 zero_outbound).

Lemma trade_shard_idle : idle trade_shard [].
Proof.
  destruct (ticked_idle demo_shard trade_sell demo_shard_idle) as (outs & (HS & Hi & _) & _).
  - apply order_msg_ok; by vm_compute.
  - split; [by apply shard_wf_outbound|]. split; [done|]. apply (Spsc.queue_init_repr 512 (cf_ring _ demo_cfg_ok)).
Qed.

Definition trade_shards : list Shard := [demo_shard; trade_shard].

Lemma trade_rings : rings_rel demo_cfg 2 [[]; []] trade_shards [[]; []].
Proof.
  destruct demo_shard_idle as (_ & I0 & O0), trade_shard_idle as (_ & I1 & O1).
  assert (Hcase : forall (P : Shard -> Prop) s sh, P demo_shard -> P trade_shard -> trade_shards !! s = Some sh -> P sh).
  { intros P s sh P0 P1 Hs. pose proof (lookupZ_range _ _ _ Hs) as R. change (zlen trade_shards) with 2 in R.
    assert (s = 0 \/ s = 1) as [-> | ->] by lia; injection Hs as <-; done. }
  assert (Hnil : forall {A} s (l : list A), [[]; []] !! s = Some l -> l = []).
  { intros A s l Hl. pose proof (lookupZ_range _ _ _ Hl) as R. change (zlen [[]; @nil A]) with 2 in R.
    assert (s = 0 \/ s = 1) as [-> | ->] by lia; by injection Hl as <-. }
  split; split; try done.
  - intros s sh l Hs ->%Hnil. exact (Hcase (fun sh => Spsc.queue_repr 512 (inbound_ sh) []) s sh I0 I1 Hs).
  - intros s sh l Hs ->%Hnil. exact (Hcase (fun sh => Spsc.queue_repr 512 (outbound_ sh) []) s sh O0 O1 Hs).
  - by repeat constructor.
Qed.

Definition trade_k0 : SimKernel := mkSim [[]; trade_blocks] [] ∅ {[0; 1; 2]} 0 30.
Definition trade_init : (init_error + Gateway) * SimKernel := gateway_init trade_shards 9000 trade_k0.
Definition trade_g0 : Gateway :=
  match trade_init.1 with inr g => g | inl _ => mkGateway [] 0 0 0 0 ∅ ∅ false end.
Definition trade_accepted : Gateway * SimKernel :=
  match accept_all 5 trade_g0 trade_init.2 with Ok gk => gk | Err _ => (trade_g0, trade_init.2) end.

Lemma trade_accepted_wf : gateway_wf demo_cfg 2 sim_view trade_accepted.1 trade_accepted.2 [[]; []] [[]; []].
Proof.
  assert (HG : gateway_wf demo_cfg 2 sim_view trade_g0 trade_init.2 [[]; []] [[]; []]).
  { apply (gateway_init_ok demo_cfg 2 sim_view trade_shards 9000 trade_k0 _ _ _ _ trade_rings). reflexivity. }
  destruct (accept_all_ok demo_cfg 2 sim_view 5 trade_g0 trade_init.2 _ _ ltac:(vm_compute; lia) HG ltac:(by vm_compute))
    as (g & k & Hrun & HG' & _). unfold trade_accepted. by rewrite Hrun.
Qed.

Definition trade_bk : OrderBook := default (book_init 16 1000 5) (books_ trade_shard !! 1).

Lemma order_served_witness :
  exists g1 k1 sh1 sh2 g3 k3, read_session demo_cfg 2 5 trade_accepted.1 6 trade_accepted.2 = Ok (g1, k1) /\
    tick demo_cfg sh1 = Ok sh2 /\
    drain_outbound demo_cfg 2 (set_shards g1 (<[1 := sh2]> (shards_ g1))) k1 = Ok (g3, k3).
Proof.
  assert (Hrec : exists k1, recvs 6 trade_accepted.2 trade_blocks false k1).
  { eexists. eapply recvs_more; [by vm_compute|done|]. eapply recvs_more; [by vm_compute|done|].
    apply (recvs_end 6 _ (-1) [] _); [by vm_compute|done]. }
  destruct Hrec as (k1 & Hrec).
  destruct (order_served demo_cfg 2 1000 5 demo_cfg_ok ltac:(lia) sim_view 5 trade_accepted.1 6 (Session.session_init 6 2)
    trade_accepted.2 trade_blocks k1 trade_buy trade_shard 1 trade_bk trade_accepted_wf)
    as (g1 & sh1 & sh2 & g3 & k3 & slot & rests & fs & bk' & token & Hr & _ & Ht & _ & _ & _ & Hd & _ & _).
  - by vm_compute.
  - by vm_compute.
  - exact Hrec.
  - repeat constructor; by vm_compute.
  - by vm_compute.
  - repeat constructor; by vm_compute.
  - simpl. lia.
  - by vm_compute.
  - apply trade_shard_idle.
  - by vm_compute.
  - apply admissible_b_spec. by vm_compute.
  - by vm_compute.
  - exists g1, k1, sh1, sh2, g3, k3. split; [exact Hr|]. split; [exact Ht|exact Hd].
Defined.

End Exchange.
