(* ===== verification/System.v ===== *)
(** * The running exchange

    The gateway and its shards as one transition system: polls of the gateway
    and turns of the shards' threads in any order, also between two reports of
    the same request.  Clients connect, send and close as
    they like; what is asked of them is that prices do not overflow against
    the base price and that cancels carry tokens that some client was sent. *)

From stdpp Require Import gmap relations.
From S2P Require Import Prelude Messages Order LevelBitmap Pool PriceLevel OrderHandle OrderBook Spsc Sink Codec Session.
From S2P Require Import BookSpec BookInv BookMatch BookRefine BookLaws BookAbs BookProps BookSession.
From S2P Require Import Shard ShardWork ShardInv ShardProps ShardTokens ShardRouter Kernel Gateway GatewayInv GatewayProps Exchange.

Module System.
Import OrderHandle OrderBook Shard ShardInv ShardProps ShardTokens ShardRouter Gateway GatewayInv GatewayProps Exchange.

Section system.
Context (CFG : ShardConfig) (N base tick_size : Z) (HC : config_ok CFG) (HN : 0 < N <= 256).
Context {K : Type} `{Kernel K} (V : KernelView K) `{!KernelLaws V}.

Record World : Type := mkWorld {
  w_gateway : Gateway;
  w_kernel : K;
  w_boxes : list (list OutboundMsg);   (* reports each thread has still to push *)
  w_sent : list Z;       (* tokens sent to clients *)
  w_taken : Z            (* requests taken by all shards *)
}.

(** What waits in the rings. *)
Definition requests_of (shards : list Shard) : list (list InboundMsg) :=
  (fun sh => Spsc.contents (queue_depth CFG) (inbound_ sh)) <$> shards.
Definition reports_of (shards : list Shard) : list (list OutboundMsg) :=
  (fun sh => Spsc.contents (queue_depth CFG) (outbound_ sh)) <$> shards.

Definition fair (sent : list Z) (m : InboundMsg) : Prop :=
  (hdr_type (in_hdr m) = NEW_ORDER -> is_i64 (no_price (in_new_order m) - base)) /\
  (hdr_type (in_hdr m) = CANCEL_ORDER -> co_order_token (in_cancel m) ∈ sent).

Inductive exchange_step : World -> World -> Prop :=
| exchange_poll g k boxes sent n fuel t g' k' :
    let k1 := (k_epoll_wait k (epoll_fd_ g) MAX_EVENTS t).2 in
    next_session_id_ g + Z.of_nat (k_backlog V k1) < 2 ^ 32 ->
    (k_backlog V k1 < fuel)%nat -> (k_unread V k1 < fuel)%nat ->
    poll_once CFG N fuel g t k = Ok (g', k') ->
    Forall (Forall (fair sent)) (requests_of (shards_ g')) ->
    exchange_step (mkWorld g k boxes sent n)
      (mkWorld g' k' boxes (sent ++ acked_tokens (concat (reports_of (shards_ g)))) n)
| exchange_turn g k boxes sent n s sh box th' :
    shards_ g !! s = Some sh -> boxes !! s = Some box -> thread_turn CFG (mkThread sh box) = Ok th' ->
    exchange_step (mkWorld g k boxes sent n)
      (mkWorld (set_shards g (<[s := th_shard th']> (shards_ g))) k (<[s := th_outbox th']> boxes) sent
         (n + taking CFG (mkThread sh box))).

Abbreviation shard_wf := (shard_wf CFG base tick_size).
Abbreviation holds := (Spsc.queue_repr (queue_depth CFG)).

Lemma rings_contents outs shards ins :
  rings_rel CFG N outs shards ins -> ins = requests_of shards /\ outs = reports_of shards.
Proof.
  intros [[R1 R2 R3] [O1 O2 O3]]. split; apply listZ_eq; unfold requests_of, reports_of; rewrite ?zlen_fmap.
  - congruence.
  - intros i Hi. rewrite lookupZ_fmap. destruct (lookupZ_is_Some shards i ltac:(lia)) as [sh Hsh].
    destruct (lookupZ_is_Some ins i Hi) as [l Hl]. rewrite Hsh, Hl. cbn. f_equal. symmetry.
    apply Spsc.contents_repr; [apply HC|]. by apply (R3 i).
  - congruence.
  - intros i Hi. rewrite lookupZ_fmap. destruct (lookupZ_is_Some shards i ltac:(lia)) as [sh Hsh].
    destruct (lookupZ_is_Some outs i Hi) as [l Hl]. rewrite Hsh, Hl. cbn. f_equal. symmetry.
    apply Spsc.contents_repr; [apply HC|]. by apply (O2 i).
Qed.

Record world_inv (w : World) (ins : list (list InboundMsg)) (outs : list (list OutboundMsg)) : Prop := {
  wi_gateway : gateway_wf CFG N V (w_gateway w) (w_kernel w) ins outs;
  wi_shards : forall s sh, shards_ (w_gateway w) !! s = Some sh -> shard_wf sh /\ shard_id_ sh = s;
  wi_taken : 0 <= w_taken w;
  wi_boxes : zlen (w_boxes w) = N /\ Forall (Forall out_wf) (w_boxes w);
  wi_requests : forall s l m, ins !! s = Some l -> m ∈ l -> in_formed m /\ route N m = Some s /\ fair (w_sent w) m;
  wi_acked : forall s l t, outs !! s = Some l \/ w_boxes w !! s = Some l -> t ∈ acked_tokens l -> token_shard t = s;
  wi_tokens : forall t, t ∈ w_sent w \/ (exists s l, (outs !! s = Some l \/ w_boxes w !! s = Some l) /\ t ∈ acked_tokens l) ->
    exists sh, shards_ (w_gateway w) !! token_shard t = Some sh /\ token_known (w_taken w) sh t
}.

(** ** Tokens in the rings *)

Lemma acked_concat outs t :
  t ∈ acked_tokens (concat outs) <-> exists s l, outs !! s = Some l /\ t ∈ acked_tokens l.
Proof.
  unfold acked_tokens. induction outs as [|l outs IH].
  { split; [by intros ?%not_elem_of_nil|]. intros (s & l & Hl%lookupZ_range & _). unfold zlen in Hl. simpl in Hl. lia. }
  rewrite concat_cons, omap_app, elem_of_app, IH. split.
  - intros [Ht|(s & l' & Hs & Ht)]; [by exists 0, l|]. exists (s + 1), l'. split; [|done].
    pose proof (lookupZ_range _ _ _ Hs). rewrite lookupZ_nat in Hs |- * by lia.
    by replace (Z.to_nat (s + 1)) with (S (Z.to_nat s)) by lia.
  - intros (s & l' & Hs & Ht). pose proof (lookupZ_range _ _ _ Hs). rewrite lookupZ_nat in Hs by lia.
    destruct (Z.to_nat s) as [|i] eqn:Ei; [injection Hs as <-; by left|right].
    exists (Z.of_nat i), l'. by rewrite lookupZ_of_nat.
Qed.

Lemma fair_more sent more m : fair sent m -> fair (sent ++ more) m.
Proof. intros [A B]. split; [done|]. intros Ht. apply elem_of_app. left. by apply B. Qed.

Lemma known_same n sh sh' t : same_engine sh sh' -> token_known n sh t -> token_known n sh' t.
Proof. by intros ->. Qed.

(** ** A poll *)

Lemma world_poll g k boxes sent n fuel t ins outs :
  let k1 := (k_epoll_wait k (epoll_fd_ g) MAX_EVENTS t).2 in
  world_inv (mkWorld g k boxes sent n) ins outs ->
  next_session_id_ g + Z.of_nat (k_backlog V k1) < 2 ^ 32 -> (k_backlog V k1 < fuel)%nat -> (k_unread V k1 < fuel)%nat ->
  exists g' k', poll_once CFG N fuel g t k = Ok (g', k') /\
    reports_of (shards_ g') = replicate (Z.to_nat N) [] /\
    gateway_wf CFG N V g' k' (requests_of (shards_ g')) (replicate (Z.to_nat N) []) /\
    fed N (next_session_id_ g') ins (requests_of (shards_ g')) /\ same_engines (shards_ g) (shards_ g') /\
    serves_sessions V g k g' k' (concat outs).
Proof.
  intros k1 HI Hb F1 F2.
  destruct (poll_ok CFG N V (proj1 HN) (cf_ring _ HC) fuel g t k ins outs (wi_gateway _ _ _ HI) Hb F1 F2)
    as (g' & k' & ins' & Hrun & HG & _ & _ & _ & Hfed & Hserves & _).
  destruct (rings_contents _ _ _ (gw_rings _ _ _ _ _ _ _ HG)) as [-> E].
  exists g', k'. split_and!; try done. by eapply poll_engines.
Qed.

Lemma nothing_left {A} s (l : list A) : replicate (Z.to_nat N) [] !! s = Some l -> l = [].
Proof. intros Hl%elem_of_lookupZ. by apply elem_of_replicate in Hl as [? _]. Qed.

Lemma world_after_poll g k boxes sent n g' k' ins outs :
  world_inv (mkWorld g k boxes sent n) ins outs ->
  gateway_wf CFG N V g' k' (requests_of (shards_ g')) (replicate (Z.to_nat N) []) ->
  fed N (next_session_id_ g') ins (requests_of (shards_ g')) -> same_engines (shards_ g) (shards_ g') ->
  Forall (Forall (fair sent)) (requests_of (shards_ g')) ->
  world_inv (mkWorld g' k' boxes (sent ++ acked_tokens (concat outs)) n) (requests_of (shards_ g')) (replicate (Z.to_nat N) []).
Proof.
  intros [W1 W2 W3 W7 W4 W5 W6] HG (ms & Hms & HL & Hpush) He Hfair. cbn [w_gateway w_kernel w_boxes w_sent w_taken] in *.
  split; cbn [w_gateway w_kernel w_boxes w_sent w_taken]; [done| |done|done| | |].
  - intros s sh' Hs. destruct (same_engines_back _ _ _ _ He Hs) as (sh & Hsh & Hsame).
    destruct (W2 s sh Hsh) as [HS <-]. split; [by eapply same_engine_wf|by rewrite Hsame].
  - intros s l m Hl Hm. pose proof (lookupZ_range _ _ _ Hl) as Rs. rewrite HL in Rs.
    destruct (lookupZ_is_Some ins s Rs) as [l0 Hl0]. assert (l = l0 ++ routed_to N s ms) as -> by (pose proof (Hpush s l0 Hl0); congruence).
    assert (Hf : fair sent m).
    { apply elem_of_lookupZ in Hl. rewrite Forall_forall in Hfair. specialize (Hfair _ Hl).
      rewrite Forall_forall in Hfair. by apply Hfair. }
    apply elem_of_app in Hm as [Hm|[Hr Hm]%list_elem_of_filter].
    + destruct (W4 s l0 m Hl0 Hm) as (? & ? & _). split_and!; try done. by apply fair_more.
    + rewrite Forall_forall in Hms. split_and!; [by apply Hms|done|by apply fair_more].
  - intros s l t [Hl|Hl]; [|by apply W5; right]. rewrite (nothing_left _ _ Hl). by intros ?%not_elem_of_nil.
  - intros t Ht. destruct (W6 t) as (sh & Hsh & Hk).
    { destruct Ht as [[Ht|(s & l & Hl & Ht)%acked_concat]%elem_of_app|(s & l & [Hl|Hl] & Ht)]; [by left| | |].
      - right. exists s, l. split; [by left|done].
      - rewrite (nothing_left _ _ Hl) in Ht. by apply not_elem_of_nil in Ht.
      - right. exists s, l. split; [by right|done]. }
    destruct (same_engines_lookup _ _ _ _ He Hsh) as (sh' & Hsh' & Hsame). exists sh'. split; [done|]. by eapply known_same.
Qed.

(** ** A turn *)

(** The tokens sent out that belong to shard [s]. *)
Definition sent_by (s : Z) (sent : list Z) : list Z := filter (fun t => token_shard t = s) sent.

Lemma shard_serving g k boxes sent n ins outs s sh :
  world_inv (mkWorld g k boxes sent n) ins outs -> shards_ g !! s = Some sh ->
  exists li l box, ins !! s = Some li /\ outs !! s = Some l /\ boxes !! s = Some box /\
    serving_inv CFG base tick_size (mkServing (mkThread sh box) (sent_by s sent) n) li l.
Proof.
  intros [W1 W2 W3 [W7 W8] W4 W5 W6] Hsh. cbn [w_gateway w_kernel w_boxes w_sent w_taken] in *.
  destruct (gw_rings _ _ _ _ _ _ _ W1) as [[R1 R2 R3] [O1 O2 O3]]. pose proof (lookupZ_range _ _ _ Hsh) as Rs.
  destruct (lookupZ_is_Some ins s ltac:(lia)) as [li Hli]. destruct (lookupZ_is_Some outs s ltac:(lia)) as [l Hl].
  destruct (lookupZ_is_Some boxes s ltac:(lia)) as [box Hbox].
  exists li, l, box. do 3 (split; [done|]). split; cbn [sv_thread sv_sent sv_taken th_shard th_outbox].
  - by apply (W2 s).
  - by apply (R3 s).
  - by apply (O2 s).
  - rewrite Forall_forall in O3, W8. apply Forall_app. split; [apply O3|apply W8]; by eapply elem_of_lookupZ.
  - done.
  - apply Forall_forall. intros m Hm. destruct (W4 s li m Hli Hm) as ([Hlen Hby] & Hr & [Hp Ht]).
    split; [done|done|done|]. intros Hc. specialize (Ht Hc). apply list_elem_of_filter. split; [|done].
    destruct (W6 (co_order_token (in_cancel m)) ltac:(by left)) as (sh' & Hsh' & _).
    apply lookupZ_range in Hsh'. unfold route in Hr. rewrite Hc in Hr. injection Hr as Hr.
    rewrite Z.mod_small in Hr; [done|]. rewrite <- R1. exact Hsh'.
  - intros t Ht. assert (token_shard t = s /\ exists sh', shards_ g !! token_shard t = Some sh' /\ token_known n sh' t) as [Es (sh' & Hsh' & Hk)].
    { rewrite acked_app in Ht. apply elem_of_app in Ht as [[Es Ht]%list_elem_of_filter|[Ht|Ht]%elem_of_app].
      - split; [done|]. apply W6. by left.
      - split; [apply (W5 s l); [by left|done]|]. apply W6. right. exists s, l. split; [by left|done].
      - split; [apply (W5 s box); [by right|done]|]. apply W6. right. exists s, box. split; [by right|done]. }
    rewrite Es in Hsh'. assert (sh' = sh) as -> by congruence. done.
Qed.

(** What a turn of thread [s] leaves in the rings and boxes. *)
Lemma lookup_either {A} s j (x y l : A) xs ys : 0 <= s < zlen xs -> 0 <= s < zlen ys ->
  <[s := x]> xs !! j = Some l \/ <[s := y]> ys !! j = Some l ->
  (j = s /\ (l = x \/ l = y)) \/ (j <> s /\ (xs !! j = Some l \/ ys !! j = Some l)).
Proof.
  intros Hx Hy. rewrite !lookupZ_insertZ by done. destruct (decide (s = j)) as [<-|]; [|by right].
  intros [[= <-]|[= <-]]; left; (split; [done|]); [by left|by right].
Qed.

Lemma world_turn g k boxes sent n ins outs s sh :
  world_inv (mkWorld g k boxes sent n) ins outs -> n < 2 ^ 32 -> shards_ g !! s = Some sh ->
  exists box th' ins' outs', boxes !! s = Some box /\ thread_turn CFG (mkThread sh box) = Ok th' /\
    world_inv (mkWorld (set_shards g (<[s := th_shard th']> (shards_ g))) k (<[s := th_outbox th']> boxes) sent
      (n + taking CFG (mkThread sh box))) ins' outs'.
Proof.
  intros HI Hn Hsh. destruct (shard_serving _ _ _ _ _ _ _ _ _ HI Hsh) as (li & l & box & Hli & Hl & Hbox & HV).
  destruct (turn_spec CFG HC base tick_size _ _ _ _ _ HV Hn) as (th' & li' & l' & Hturn & Ht).
  pose proof (turned_inv CFG HC base tick_size _ _ _ _ _ _ _ _ HV Ht) as HV'.
  pose proof (turned_same CFG base tick_size _ _ _ _ _ _ Ht) as [Hid Hsub]. cbn [th_shard] in Hid.
  pose proof HI as [W1 W2 W3 [W7 W8] W4 W5 W6]. cbn [w_gateway w_kernel w_boxes w_sent w_taken] in *.
  pose proof (taking_range CFG (mkThread sh box)) as Htk. destruct (W2 s sh Hsh) as [_ Es].
  pose proof (lookupZ_range _ _ _ Hsh) as Rs. pose proof (lookupZ_range _ _ _ Hli) as Ri.
  pose proof (lookupZ_range _ _ _ Hl) as Rl. pose proof (lookupZ_range _ _ _ Hbox) as Rb.
  assert (Hown : forall t, t ∈ acked_tokens (l' ++ th_outbox th') -> token_shard t = s).
  { rewrite <- Es. apply (turned_acked CFG base tick_size _ _ _ _ _ _ _ _ HV Ht). cbn [th_outbox th_shard].
    intros t. rewrite acked_app, !elem_of_app, Es.
    intros [[? _]%list_elem_of_filter|[?|?]]; [done|apply (W5 s l); [by left|done]|apply (W5 s box); [by right|done]]. }
  assert (Hnew : forall x t, x = l' \/ x = th_outbox th' -> t ∈ acked_tokens x -> t ∈ acked_tokens (l' ++ th_outbox th')).
  { intros x t Hx Htx. rewrite acked_app, elem_of_app. destruct Hx as [-> | ->]; [by left|by right]. }
  pose proof (si_wire _ _ _ _ _ _ HV') as Hwire. cbn [sv_thread] in Hwire. apply Forall_app in Hwire as [Hw1 Hw2].
  exists box, th', (<[s := li']> ins), (<[s := l']> outs). split; [done|]. split; [done|].
  split; cbn [w_gateway w_kernel w_boxes w_sent w_taken shards_ set_shards].
  - eapply set_shards_wf; [exact W1|done|]. eapply replace_shard_rings; [apply W1|exact Hsh|apply HV'|apply HV'|done].
  - intros j shj. rewrite lookupZ_insertZ by done. destruct (decide (s = j)) as [<-|]; [|apply W2].
    intros [= <-]. split; [apply HV'|]. by rewrite Hid.
  - lia.
  - split; [by rewrite zlen_insertZ|]. by apply Forall_insertZ.
  - intros j lj mj. rewrite lookupZ_insertZ by done. destruct (decide (s = j)) as [<-|]; [|apply W4].
    intros [= <-] Hm. apply (W4 s li); [done|]. by apply Hsub.
  - intros j lj t Hj Htj. destruct (lookup_either _ _ _ _ _ _ _ Rl Rb Hj) as [[-> Hx]|[_ Hx]]; [apply Hown; by eapply Hnew|by eapply W5].
  - intros t Htok. destruct (decide (token_shard t = s)) as [Ets|Hne].
    + exists (th_shard th'). rewrite Ets, lookupZ_insertZ_eq by done. split; [done|]. apply (si_tokens _ _ _ _ _ _ HV' t).
      apply elem_of_app. destruct Htok as [Ht0|(j & lj & Hj & Htj)]; [left; by apply list_elem_of_filter|right].
      destruct (lookup_either _ _ _ _ _ _ _ Rl Rb Hj) as [[-> Hx]|[Hj' Hx]]; [by eapply Hnew|].
      destruct Hj'. rewrite <- Ets. symmetry. by eapply W5.
    + destruct (W6 t) as (sh0 & Hsh0 & Hk).
      { destruct Htok as [Ht0|(j & lj & Hj & Htj)]; [by left|right].
        destruct (lookup_either _ _ _ _ _ _ _ Rl Rb Hj) as [[-> Hx]|[_ Hx]]; [|by exists j, lj].
        destruct Hne. apply Hown. by eapply Hnew. }
      exists sh0. rewrite lookupZ_insertZ_ne by done. split; [done|]. apply known_later; [lia|done].
Qed.

(** ** The life of the exchange *)

(** One shard per position, constructed with its number and symbols that fit. *)
Definition built (shards : list Shard) : Prop :=
  zlen shards = N /\ forall s sh, shards !! s = Some sh ->
    exists symbols, zlen symbols <= max_symbols CFG /\ Forall (fun x => 0 <= x < SYMBOL_SPACE CFG) symbols /\
      shard_init CFG base tick_size s symbols = Ok sh.

Lemma built_shard shards s sh : 0 < tick_size -> built shards -> shards !! s = Some sh ->
  shard_wf sh /\ shard_id_ sh = s /\ holds (inbound_ sh) [] /\ holds (outbound_ sh) [].
Proof.
  intros Ht [HL Hb] Hs. destruct (Hb s sh Hs) as (symbols & Hle & HF & Hinit). pose proof (lookupZ_range _ _ _ Hs) as Rs.
  destruct (shard_init_spec CFG HC base tick_size s symbols Ht) as (sh' & Hrun & HS & Hi & Ho & _ & Hid);
    [unfold is_u; lia|done|done|]. rewrite Hinit in Hrun. injection Hrun as <-. done.
Qed.

Lemma built_rings shards : 0 < tick_size -> built shards ->
  rings_rel CFG N (replicate (Z.to_nat N) []) shards (replicate (Z.to_nat N) []).
Proof.
  intros Ht Hb. assert (Hnil : forall {A} s l, replicate (Z.to_nat N) (@nil A) !! s = Some l -> l = []).
  { intros A s l Hl%elem_of_lookupZ. by apply elem_of_replicate in Hl as [? _]. }
  split; split.
  - apply Hb.
  - rewrite zlen_replicate. lia.
  - intros s sh l Hs ->%Hnil. by eapply built_shard.
  - rewrite zlen_replicate. lia.
  - intros s sh l Hs ->%Hnil. by eapply built_shard.
  - by apply Forall_replicate.
Qed.

(** No thread has a report to push. *)
Definition no_boxes : list (list OutboundMsg) := replicate (Z.to_nat N) [].

Lemma world_init shards port k0 g0 k1 : 0 < tick_size -> built shards -> gateway_init shards port k0 = (inr g0, k1) ->
  world_inv (mkWorld g0 k1 no_boxes [] 0) (replicate (Z.to_nat N) []) (replicate (Z.to_nat N) []).
Proof.
  intros Ht Hb Hinit. destruct (gateway_init_ok CFG N V _ _ _ _ _ _ _ (built_rings shards Ht Hb) Hinit) as (HG & _).
  assert (Hsh : shards_ g0 = shards) by (by eapply gateway_init_shards).
  split; cbn [w_gateway w_kernel w_boxes w_sent w_taken]; [done| |done| | | |].
  - intros s sh. rewrite Hsh. intros Hs. destruct (built_shard shards s sh Ht Hb Hs) as (? & ? & _). done.
  - unfold no_boxes. rewrite zlen_replicate. split; [lia|]. by apply Forall_replicate.
  - intros s l m ->%nothing_left. by intros ?%not_elem_of_nil.
  - intros s l t [->%nothing_left | ->%nothing_left]; by intros ?%not_elem_of_nil.
  - intros t [?%not_elem_of_nil|(s & l & [->%nothing_left | ->%nothing_left] & Hm)]; [done|by apply not_elem_of_nil in Hm..].
Qed.

Lemma world_step w w' ins outs : exchange_step w w' -> w_taken w < 2 ^ 32 -> world_inv w ins outs ->
  exists ins' outs', world_inv w' ins' outs'.
Proof.
  intros Hstep Hn HI. destruct Hstep as [g k boxes sent n fuel t g' k' k1 Hb F1 F2 Hrun Hfair|g k boxes sent n s sh box th' Hs Hbox Hrun]; cbn [w_taken] in *.
  - destruct (world_poll g k boxes sent n fuel t ins outs HI Hb F1 F2) as (g1 & k2 & Hrun' & _ & HG & Hfed & He & _).
    rewrite Hrun in Hrun'. injection Hrun' as <- <-. destruct (rings_contents _ _ _ (gw_rings _ _ _ _ _ _ _ (wi_gateway _ _ _ HI))) as [_ E].
    cbn [w_gateway] in E. rewrite <- E. eexists _, _. by eapply world_after_poll.
  - destruct (world_turn _ _ _ _ _ _ _ _ _ HI Hn Hs) as (box1 & th1 & ins' & outs' & Hbox' & Hrun' & HI').
    rewrite Hbox in Hbox'. injection Hbox' as <-. rewrite Hrun in Hrun'. injection Hrun' as <-. by exists ins', outs'.
Qed.

Lemma world_mono w w' : rtc exchange_step w w' -> w_taken w <= w_taken w'.
Proof.
  induction 1 as [|w1 w2 w3 Hstep _ IH]; [done|].
  destruct Hstep as [|? ? ? ? ? ? sh box]; cbn [w_taken] in *; [lia|]. pose proof (taking_range CFG (mkThread sh box)). lia.
Qed.

Lemma world_reachable w w' : rtc exchange_step w w' -> w_taken w' < 2 ^ 32 ->
  (exists ins outs, world_inv w ins outs) -> exists ins outs, world_inv w' ins outs.
Proof.
  induction 1 as [|w1 w2 w3 Hstep Hrest IH]; [done|]. intros Hn (ins & outs & HI). apply IH; [done|].
  pose proof (world_mono _ _ Hrest). pose proof (world_mono _ _ (rtc_once _ _ Hstep)). by apply (world_step _ _ _ _ Hstep ltac:(lia) HI).
Qed.

(** C6: The exchange never comes down: constructed over freshly constructed
    shards, after any interleaving of polls of the gateway with turns of the
    shards' threads (one request or one report each), fewer than [2^32] requests
    in all, whatever clients connect, send in whatever pieces, or close, as long
    as their prices do not overflow and their cancels carry tokens some client
    was sent, every shard is well formed and the next turn of its thread returns
    without undefined behaviour, however full its rings are; and the next poll
    of the gateway returns, leaves the books alone and empties every outbound
    ring, so that a thread that waits for room can go on. *)
Theorem exchange_safe shards port k0 g0 k1 w :
  0 < tick_size -> built shards -> gateway_init shards port k0 = (inr g0, k1) ->
  rtc exchange_step (mkWorld g0 k1 no_boxes [] 0) w -> w_taken w < 2 ^ 32 ->
  let g := w_gateway w in let k := w_kernel w in
  (forall s sh, shards_ g !! s = Some sh -> shard_wf sh /\
     exists box th', w_boxes w !! s = Some box /\ thread_turn CFG (mkThread sh box) = Ok th' /\ shard_wf (th_shard th')) /\
  (forall fuel t, let k2 := (k_epoll_wait k (epoll_fd_ g) MAX_EVENTS t).2 in
     next_session_id_ g + Z.of_nat (k_backlog V k2) < 2 ^ 32 ->
     (k_backlog V k2 < fuel)%nat -> (k_unread V k2 < fuel)%nat ->
     exists g' k', poll_once CFG N fuel g t k = Ok (g', k') /\ same_engines (shards_ g) (shards_ g') /\
       reports_of (shards_ g') = replicate (Z.to_nat N) []).
Proof.
  intros Ht Hb Hinit Hrun Hn g k. destruct (world_reachable _ _ Hrun Hn) as (ins & outs & HI).
  { eexists _, _. by eapply world_init. }
  destruct w as [g' k' boxes sent n]. cbn [w_gateway w_kernel w_boxes w_taken] in *. subst g k. split.
  - intros s sh Hs. split; [by apply (wi_shards _ _ _ HI s)|].
    destruct (world_turn _ _ _ _ _ _ _ _ _ HI Hn Hs) as (box & th' & ins' & outs' & Hbox & Hok & HI'). exists box, th'. split; [done|]. split; [done|].
    apply (wi_shards _ _ _ HI' s). cbn. apply lookupZ_insertZ_eq. by eapply lookupZ_range.
  - intros fuel t B F1 F2. destruct (world_poll _ _ _ _ _ fuel t _ _ HI B F1 F2) as (g1 & k3 & ? & ? & _ & _ & ? & _). by exists g1, k3.
Qed.

End system.

(** ** Two shards, one client

    The client connects and its order is read in the same poll or the next;
    shard 1 then serves it. *)

Import Sim.

Definition demo_shard_0 : Shard :=
  match shard_init demo_cfg 1000 5 0 [2; 4] with Ok sh => sh | Err _ => demo_shard end.
Definition life_shards : list Shard := [demo_shard_0; demo_shard].

Lemma life_built : built demo_cfg 2 1000 5 life_shards.
Proof.
  split; [done|]. intros s sh Hs. pose proof (lookupZ_range _ _ _ Hs) as R. change (zlen life_shards) with 2 in R.
  assert (s = 0 \/ s = 1) as [-> | ->] by lia; injection Hs as <-.
  - exists [2; 4]. split; [by vm_compute|]. split; [repeat constructor; by vm_compute|by vm_compute].
  - exists [3; 7]. split; [by vm_compute|]. split; [apply demo_symbols_ok|by vm_compute].
Qed.

Definition life_k0 : SimKernel := mkSim [trade_blocks] [] ∅ {[0; 1; 2]} 0 30.
Definition life_init : (init_error + Gateway) * SimKernel := gateway_init life_shards 9000 life_k0.
Definition life_g0 : Gateway :=
  match life_init.1 with inr g => g | inl _ => mkGateway [] 0 0 0 0 ∅ ∅ false end.
Definition polled (gk : Gateway * SimKernel) : Gateway * SimKernel :=
  match poll_once demo_cfg 2 100 gk.1 10 gk.2 with Ok gk' => gk' | Err _ => gk end.
Definition life1 : Gateway * SimKernel := polled (life_g0, life_init.2).
Definition life2 : Gateway * SimKernel := polled life1.
Definition life_th2 : Thread := mkThread (default demo_shard (shards_ life2.1 !! 1)) [].
Definition life_th3 : Thread := turns 1 life_th2.
Definition life3 : World :=
  mkWorld (set_shards life2.1 (<[1 := th_shard life_th3]> (shards_ life2.1))) life2.2 [[]; th_outbox life_th3] [] 1.

Lemma life_requests : requests_of demo_cfg (shards_ life1.1) = [[]; []] /\
  requests_of demo_cfg (shards_ life2.1) = [[]; [Session.request_msg 1 (Session.RNew trade_buy)]].
Proof. by vm_compute. Qed.

Lemma life_reachable : rtc (exchange_step demo_cfg 2 1000 sim_view) (mkWorld life_g0 life_init.2 [[]; []] [] 0) life3.
Proof.
  destruct life_requests as [R1 R2].
  eapply rtc_l; [|eapply rtc_l; [|apply rtc_once]].
  - apply (exchange_poll demo_cfg 2 1000 sim_view life_g0 life_init.2 [[]; []] [] 0 100 10 life1.1 life1.2);
      [by vm_compute|vm_compute; lia|vm_compute; lia|by vm_compute|].
    rewrite R1. by repeat constructor.
  - apply (exchange_poll demo_cfg 2 1000 sim_view life1.1 life1.2 [[]; []] _ 0 100 10 life2.1 life2.2);
      [by vm_compute|vm_compute; lia|vm_compute; lia|by vm_compute|].
    rewrite R2. repeat constructor; by vm_compute.
  - apply (exchange_turn demo_cfg 2 1000 sim_view life2.1 life2.2 [[]; []] [] 0 1 (th_shard life_th2) [] life_th3); by vm_compute.
Qed.

Lemma exchange_safe_witness :
  exists g' k', poll_once demo_cfg 2 100 (w_gateway life3) 10 (w_kernel life3) = Ok (g', k') /\
    reports_of demo_cfg (shards_ g') = [[]; []].
Proof.
  destruct (exchange_safe demo_cfg 2 1000 5 demo_cfg_ok ltac:(lia) sim_view life_shards 9000 life_k0 life_g0 life_init.2 life3)
    as [_ Hpoll].
  - lia.
  - exact life_built.
  - by vm_compute.
  - exact life_reachable.
  - by vm_compute.
  - destruct (Hpoll 100%nat 10) as (g' & k' & H1 & _ & H2); [by vm_compute|vm_compute; lia|vm_compute; lia|].
    exists g', k'. split; [exact H1|exact H2].
Defined.

End System.
