(* ===== verification/SystemMarket.v ===== *)
(** * The running exchange implements one market per shard

    The trace refinement of [ShardMarket] for the whole exchange over the epoll
    gateway: next to each step of [System] a log keeps what the gateway put into
    the inbound ring of each shard and what it drained from the outbound one. *)

From stdpp Require Import gmap relations.
From S2P Require Import Prelude Messages Order LevelBitmap Pool PriceLevel OrderHandle OrderBook Spsc Sink Codec Session.
From S2P Require Import BookSpec BookInv BookMatch BookRefine BookLaws BookAbs BookProps BookSession.
From S2P Require Import Shard ShardWork ShardInv ReportTypes ShardProps ShardTokens Market ShardMarket.
From S2P Require Import ShardRouter Kernel Gateway GatewayInv GatewayProps Exchange System.

Module SystemMarket.
Import BookSpec BookInv Shard ShardInv ReportTypes ShardProps ShardTokens Market ShardMarket ShardRouter Gateway GatewayInv GatewayProps Exchange System.

(** The requests handed to each shard, and the reports drained, in the order of
    draining and with the shard they came from. *)
Record Log : Type := mkLog {
  lg_in : Z -> list InboundMsg;
  lg_drained : list (Z * OutboundMsg)
}.
Definition no_log : Log := mkLog (fun _ => []) [].

Definition lg_out (lg : Log) (s : Z) : list OutboundMsg := snd <$> filter (fun x => x.1 = s) (lg_drained lg).
Definition lg_all (lg : Log) : list OutboundMsg := snd <$> lg_drained lg.

(** Lists by shard, put together. *)
Definition tagged {A} (n : Z) (f : Z -> list A) : list (Z * A) := concat ((fun s => pair s <$> f s) <$> seqZ 0 n).

Lemma tagged_of {A} (f : Z -> list A) n s : 0 <= s < n -> snd <$> filter (fun x => x.1 = s) (tagged n f) = f s.
Proof.
  intros Hs. assert (Hin : s ∈ seqZ 0 n) by (apply elem_of_seqZ; lia). pose proof (NoDup_seqZ 0 n) as ND. unfold tagged. revert Hin ND.
  assert (Hother : forall l, s ∉ l -> filter (fun x : Z * A => x.1 = s) (concat ((fun s => pair s <$> f s) <$> l)) = []).
  { induction l as [|j l IH]; intros Hl; [done|]. apply not_elem_of_cons in Hl as [Hne Hl]. rewrite fmap_cons, concat_cons, filter_app, IH, app_nil_r by done.
    induction (f j) as [|a la IHa]; [done|]. rewrite fmap_cons, filter_cons. by rewrite decide_False by (cbn; congruence). }
  induction (seqZ 0 n) as [|j l IH]; intros Hin ND; [by apply not_elem_of_nil in Hin|]. apply NoDup_cons in ND as [Hj ND].
  rewrite fmap_cons, concat_cons, filter_app, fmap_app. apply elem_of_cons in Hin as [->|Hin].
  - rewrite Hother, app_nil_r by done. rewrite filter_all; [rewrite <- list_fmap_compose; apply list_fmap_id|]. apply Forall_fmap, Forall_forall. done.
  - rewrite IH by done. assert (filter (fun x : Z * A => x.1 = s) (pair j <$> f j) = []) as ->; [|done].
    assert (j <> s) by congruence. induction (f j) as [|a la IHa]; [done|]. rewrite fmap_cons, filter_cons. by rewrite decide_False by done.
Qed.

Lemma tagged_all {A} (f : Z -> list A) n : snd <$> tagged n f = concat (f <$> seqZ 0 n).
Proof.
  unfold tagged. induction (seqZ 0 n) as [|j l IH]; [done|]. rewrite !fmap_cons, !concat_cons, fmap_app, IH. f_equal.
  rewrite <- list_fmap_compose. apply list_fmap_id.
Qed.

Section system.
Context (CFG : ShardConfig) (N base tick_size : Z) (HC : config_ok CFG) (HN : 0 < N <= 256).
Context {K : Type} `{Kernel K} (V : KernelView K) `{!KernelLaws V}.

Abbreviation World := (@World K).
Abbreviation exchange_step := (exchange_step CFG N base V).
Abbreviation world_inv := (world_inv CFG N base tick_size V).

Definition queued_in (w : World) (s : Z) : list InboundMsg := default [] (requests_of CFG (shards_ (w_gateway w)) !! s).
Definition queued_out (w : World) (s : Z) : list OutboundMsg := default [] (reports_of CFG (shards_ (w_gateway w)) !! s).

Definition log (w w' : World) (lg : Log) : Log :=
  mkLog (fun s => lg_in lg s ++ came (queued_in w s) (queued_in w' s))
        (lg_drained lg ++ tagged N (fun s => gone (queued_out w s) (queued_out w' s))).

Lemma lg_out_log w w' lg s : 0 <= s < N -> lg_out (log w w' lg) s = lg_out lg s ++ gone (queued_out w s) (queued_out w' s).
Proof. intros Hs. unfold lg_out. cbn [lg_drained log]. by rewrite filter_app, fmap_app, tagged_of. Qed.

Inductive logged_step : World * Log -> World * Log -> Prop :=
| logged w w' lg : exchange_step w w' -> logged_step (w, lg) (w', log w w' lg).

(** Every shard implements a market of its own; [shards] are the first ones. *)
Definition markets_inv (shards : list Shard) (w : World) (lg : Log)
    (ins : list (list InboundMsg)) (outs : list (list OutboundMsg)) : Prop :=
  forall s sh0 sh li l box, shards !! s = Some sh0 -> shards_ (w_gateway w) !! s = Some sh ->
    ins !! s = Some li -> outs !! s = Some l -> w_boxes w !! s = Some box ->
    exists taken mk all, refines CFG base tick_size (local_of_ sh0)
      (mkLife (mkServing (mkThread sh box) (sent_by s (w_sent w)) (w_taken w)) (lg_in lg s) (lg_out lg s)) li l taken mk all.

Lemma world_queues w ins outs s li l : world_inv w ins outs -> ins !! s = Some li -> outs !! s = Some l ->
  queued_in w s = li /\ queued_out w s = l.
Proof.
  intros HI Hi Ho. destruct (rings_contents CFG N HC _ _ _ (gw_rings _ _ _ _ _ _ _ (wi_gateway _ _ _ _ _ _ _ _ HI))) as [-> ->].
  unfold queued_in, queued_out. by rewrite Hi, Ho.
Qed.

Lemma world_range w ins outs s sh : world_inv w ins outs -> shards_ (w_gateway w) !! s = Some sh -> 0 <= s < N.
Proof.
  intros HI Hs%lookupZ_range. destruct (gw_rings _ _ _ _ _ _ _ (wi_gateway _ _ _ _ _ _ _ _ HI)) as [[R1 _ _] _]. by rewrite <- R1.
Qed.

Lemma same_engine_books sh sh' : same_engine sh sh' -> same_books sh sh'.
Proof. intros E. unfold same_engine in E. rewrite E. done. Qed.

(** ** A poll *)

Lemma markets_poll shards g k boxes sent n g' k' lg ins outs (w := mkWorld g k boxes sent n)
    (w' := mkWorld g' k' boxes (sent ++ acked_tokens (concat outs)) n) (ins' := requests_of CFG (shards_ g')) (outs' := replicate (Z.to_nat N) []) :
  world_inv w ins outs -> world_inv w' ins' outs' -> fed N (next_session_id_ g') ins ins' -> same_engines (shards_ g) (shards_ g') ->
  markets_inv shards w lg ins outs -> markets_inv shards w' (log w w' lg) ins' outs'.
Proof.
  intros HI HI' (ms & Hms & HL & Hpush) He HM s sh0 sh' li' l' box Hs0 Hs' Hli' Hl' Hbox.
  destruct (same_engines_back _ _ _ _ He Hs') as (sh & Hs & Hsame).
  destruct (shard_serving CFG N base tick_size V _ _ _ _ _ _ _ _ _ HI Hs) as (li & l & box1 & Hli & Hl & Hbox1 & _).
  destruct (shard_serving CFG N base tick_size V _ _ _ _ _ _ _ _ _ HI' Hs') as (li1 & l1 & box2 & Hli1 & Hl1 & Hbox2 & HV').
  change (boxes !! s = Some box) in Hbox. rewrite Hbox in Hbox1, Hbox2. injection Hbox1 as <-. injection Hbox2 as <-.
  change (ins' !! s = Some li1) in Hli1. rewrite Hli' in Hli1. injection Hli1 as <-. change (outs' !! s = Some l1) in Hl1. rewrite Hl' in Hl1. injection Hl1 as <-.
  destruct (world_queues w ins outs s li l HI Hli Hl) as [Q1 Q2]. destruct (world_queues w' ins' outs' s li' l' HI' Hli' Hl') as [Q3 Q4].
  assert (li' = li ++ routed_to N s ms) as -> by (pose proof (Hpush s li Hli); congruence).
  assert (l' = []) as -> by (by apply (nothing_left N s)).
  destruct (HM s sh0 sh li l box Hs0 Hs Hli Hl Hbox) as (taken & mk & all & HR). exists taken, mk, all.
  rewrite lg_out_log by (by eapply world_range). cbn [log lg_in]. rewrite Q1, Q2, Q3, Q4, came_app, gone_all.
  eapply (refines_move CFG base tick_size); [exact HR|exact HV'|by apply same_engine_books|apply Z.le_refl| |by rewrite app_nil_r|].
  - apply Forall_forall. intros m [_ Hm]%list_elem_of_filter. rewrite Forall_forall in Hms. by apply Hms.
  - intros t [Et Ht]%list_elem_of_filter. cbn [w_sent] in Ht. apply elem_of_app. apply elem_of_app in Ht as [Ht|(j & lj & Hj & Ht)%acked_concat].
    + left. by apply list_elem_of_filter.
    + right. assert (j = s) as -> by (rewrite <- Et; symmetry; by apply (wi_acked _ _ _ _ _ _ _ _ HI j lj t); [left|]). by assert (lj = l) as -> by congruence.
Qed.

(** ** A turn *)

Lemma markets_turn shards g k boxes sent n s sh box th' lg ins outs ins' outs' (w := mkWorld g k boxes sent n)
    (w' := mkWorld (set_shards g (<[s := th_shard th']> (shards_ g))) k (<[s := th_outbox th']> boxes) sent (n + taking CFG (mkThread sh box))) :
  n < 2 ^ 32 -> shards_ g !! s = Some sh -> boxes !! s = Some box -> thread_turn CFG (mkThread sh box) = Ok th' ->
  world_inv w ins outs -> world_inv w' ins' outs' ->
  markets_inv shards w lg ins outs -> markets_inv shards w' (log w w' lg) ins' outs'.
Proof.
  intros Hn Hs Hbox Hturn HI HI' HM j sh0 shj lij lj boxj Hj0 Hj Hlij Hlj Hboxj.
  pose proof (lookupZ_range _ _ _ Hs) as Rs. pose proof (lookupZ_range _ _ _ Hbox) as Rb.
  destruct (world_queues w' ins' outs' j lij lj HI' Hlij Hlj) as [Q3 Q4]. rewrite lg_out_log by (by eapply world_range). cbn [log lg_in]. rewrite Q3, Q4.
  pose proof (shard_serving CFG N base tick_size V _ _ _ _ _ _ _ _ _ HI' Hj) as (lij1 & lj1 & boxj1 & Hlij1 & Hlj1 & Hboxj1 & HV').
  change (ins' !! j = Some lij1) in Hlij1. rewrite Hlij in Hlij1. injection Hlij1 as <-. rewrite Hlj in Hlj1. injection Hlj1 as <-.
  change (<[s := th_outbox th']> boxes !! j = Some boxj) in Hboxj. rewrite Hboxj in Hboxj1. injection Hboxj1 as <-.
  change (<[s := th_shard th']> (shards_ g) !! j = Some shj) in Hj. rewrite lookupZ_insertZ in Hj by done. rewrite lookupZ_insertZ in Hboxj by done.
  destruct (decide (s = j)) as [<-|Hne].
  - injection Hj as <-. injection Hboxj as <-. destruct (shard_serving CFG N base tick_size V _ _ _ _ _ _ _ _ _ HI Hs) as (li & l & box1 & Hli & Hl & Hbox1 & HV).
    rewrite Hbox in Hbox1. injection Hbox1 as <-. destruct (HM s sh0 sh li l box Hj0 Hs Hli Hl Hbox) as (taken & mk & all & HR).
    destruct (world_queues w ins outs s li l HI Hli Hl) as [Q1 Q2]. rewrite Q1, Q2.
    destruct (refines_turn CFG HC base tick_size _ _ _ _ _ _ _ _ _ _ _ _ Hn Hturn HR) as (li' & l' & taken' & mk' & all' & Ht & HR').
    assert (li' = lij) as -> by exact (holds_inj CFG HC _ _ _ (si_in _ _ _ _ _ _ (rf_inv _ _ _ _ _ _ _ _ _ _ HR')) (si_in _ _ _ _ _ _ HV')).
    assert (l' = lj) as -> by exact (holds_inj CFG HC _ _ _ (si_out _ _ _ _ _ _ (rf_inv _ _ _ _ _ _ _ _ _ _ HR')) (si_out _ _ _ _ _ _ HV')).
    destruct (turned_queues CFG base tick_size _ _ _ _ _ _ Ht) as [-> ->]. rewrite !app_nil_r. exists taken', mk', all'. by destruct th'.
  - destruct (shard_serving CFG N base tick_size V _ _ _ _ _ _ _ _ _ HI Hj) as (li & l & box1 & Hli & Hl & Hbox1 & HV).
    rewrite Hboxj in Hbox1. injection Hbox1 as <-. destruct (HM j sh0 shj li l boxj Hj0 Hj Hli Hl Hboxj) as (taken & mk & all & HR).
    destruct (world_queues w ins outs j li l HI Hli Hl) as [Q1 Q2]. rewrite Q1, Q2.
    assert (li = lij) as <- by exact (holds_inj CFG HC _ _ _ (si_in _ _ _ _ _ _ HV) (si_in _ _ _ _ _ _ HV')).
    assert (l = lj) as <- by exact (holds_inj CFG HC _ _ _ (si_out _ _ _ _ _ _ HV) (si_out _ _ _ _ _ _ HV')).
    rewrite came_none, gone_none by done. pose proof (taking_range CFG (mkThread sh box)). exists taken, mk, all.
    pose proof (refines_move CFG base tick_size _ _ _ _ _ _ _ _ _ _ _ _ shj (sent_by j sent) (n + taking CFG (mkThread sh box)) [] [] l HR) as Hmove.
    rewrite app_nil_r in Hmove. apply Hmove; try done; [|intros t Ht; by rewrite app_nil_r]. cbn [w_taken w]. lia.
Qed.

(** ** The life of the exchange *)

Lemma markets_step shards w w' lg ins outs : exchange_step w w' -> w_taken w < 2 ^ 32 -> world_inv w ins outs -> markets_inv shards w lg ins outs ->
  exists ins' outs', world_inv w' ins' outs' /\ markets_inv shards w' (log w w' lg) ins' outs'.
Proof.
  intros Hstep Hn HI HM. destruct Hstep as [g k boxes sent n fuel t g' k' k1 Hb F1 F2 Hrun Hfair|g k boxes sent n s sh box th' Hs Hbox Hrun]; cbn [w_taken] in *.
  - destruct (world_poll CFG N base tick_size HC HN V g k boxes sent n fuel t ins outs HI Hb F1 F2) as (g1 & k2 & Hrun' & _ & HG & Hfed & He & _).
    rewrite Hrun in Hrun'. injection Hrun' as <- <-. destruct (rings_contents CFG N HC _ _ _ (gw_rings _ _ _ _ _ _ _ (wi_gateway _ _ _ _ _ _ _ _ HI))) as [_ E].
    cbn [w_gateway] in E. rewrite <- E.
    assert (HI' : world_inv (mkWorld g' k' boxes (sent ++ acked_tokens (concat outs)) n) (requests_of CFG (shards_ g')) (replicate (Z.to_nat N) []))
      by (by apply (world_after_poll CFG N base tick_size V g k boxes sent n g' k' ins outs)).
    eexists _, _. split; [exact HI'|by apply (markets_poll shards g k boxes sent n g' k' lg ins outs)].
  - destruct (world_turn CFG N base tick_size HC V _ _ _ _ _ _ _ _ _ HI Hn Hs) as (box1 & th1 & ins' & outs' & Hbox' & Hrun' & HI').
    rewrite Hbox in Hbox'. injection Hbox' as <-. rewrite Hrun in Hrun'. injection Hrun' as <-. exists ins', outs'. split; [done|].
    by apply (markets_turn shards g k boxes sent n s sh box th' lg ins outs ins' outs').
Qed.

Lemma logged_mono a b : rtc logged_step a b -> w_taken a.1 <= w_taken b.1.
Proof.
  induction 1 as [|a b c Hstep _ IH]; [done|]. destruct Hstep as [w w' lg Hstep]. pose proof (world_mono CFG N base V _ _ (rtc_once _ _ Hstep)). cbn [fst] in *. lia.
Qed.

Lemma markets_steps shards a b : rtc logged_step a b -> w_taken b.1 < 2 ^ 32 ->
  (exists ins outs, world_inv a.1 ins outs /\ markets_inv shards a.1 a.2 ins outs) -> exists ins outs, world_inv b.1 ins outs /\ markets_inv shards b.1 b.2 ins outs.
Proof.
  induction 1 as [|a b c Hstep Hrest IH]; [done|]. intros Hlt (ins & outs & HI & HM). apply IH; [done|].
  pose proof (logged_mono _ _ Hrest). pose proof (logged_mono _ _ (rtc_once _ _ Hstep)). destruct Hstep as [w w' lg Hstep]. cbn [fst snd] in *.
  apply (markets_step shards w w' lg ins outs Hstep); [lia|done..].
Qed.

Lemma markets_init shards port k0 g0 k1 : 0 < tick_size -> built CFG N base tick_size shards -> gateway_init shards port k0 = (inr g0, k1) ->
  markets_inv shards (mkWorld g0 k1 (no_boxes N) [] 0) no_log (replicate (Z.to_nat N) []) (replicate (Z.to_nat N) []).
Proof.
  intros Ht [HL Hb] Hinit s sh0 sh li l box Hs0 Hs Hli Hl Hbox. cbn [w_gateway w_boxes w_sent w_taken] in *.
  assert (Hsh : shards_ g0 = shards) by (by eapply gateway_init_shards). rewrite Hsh, Hs0 in Hs. injection Hs as <-.
  apply nothing_left in Hli as ->. apply nothing_left in Hl as ->. apply nothing_left in Hbox as ->.
  destruct (Hb s sh0 Hs0) as (symbols & Hle & HF & Hi). pose proof (lookupZ_range _ _ _ Hs0). eexists _, _, _.
  apply (refines_born CFG HC base tick_size s symbols sh0); [done|unfold is_u; lia|done..].
Qed.

Lemma markets_reachable shards port k0 g0 k1 w lg : 0 < tick_size -> built CFG N base tick_size shards -> gateway_init shards port k0 = (inr g0, k1) ->
  rtc logged_step (mkWorld g0 k1 (no_boxes N) [] 0, no_log) (w, lg) -> w_taken w < 2 ^ 32 ->
  zlen (shards_ (w_gateway w)) = N /\
  forall s sh, shards_ (w_gateway w) !! s = Some sh -> exists sh0 box taken mk all, shards !! s = Some sh0 /\ w_boxes w !! s = Some box /\
    refines CFG base tick_size (local_of_ sh0) (mkLife (mkServing (mkThread sh box) (sent_by s (w_sent w)) (w_taken w)) (lg_in lg s) (lg_out lg s))
      (Spsc.contents (queue_depth CFG) (inbound_ sh)) (Spsc.contents (queue_depth CFG) (outbound_ sh)) taken mk all.
Proof.
  intros Ht Hb Hinit Hrun Hn. destruct (markets_steps shards _ _ Hrun Hn) as (ins & outs & HI & HM).
  { eexists _, _. split; [by eapply world_init|by eapply markets_init]. }
  cbn [fst snd] in *. assert (HL : zlen (shards_ (w_gateway w)) = N) by (destruct (gw_rings _ _ _ _ _ _ _ (wi_gateway _ _ _ _ _ _ _ _ HI)) as [[R1 _ _] _]; exact R1).
  split; [done|]. intros s sh Hs. destruct w as [g k boxes sent n]. cbn [w_gateway w_boxes w_sent w_taken] in *.
  destruct (shard_serving CFG N base tick_size V _ _ _ _ _ _ _ _ _ HI Hs) as (li & l & box & Hli & Hl & Hbox & HV).
  destruct (lookupZ_is_Some shards s) as [sh0 Hs0]; [destruct Hb as [-> _]; rewrite <- HL; by eapply lookupZ_range|].
  destruct (HM s sh0 sh li l box Hs0 Hs Hli Hl Hbox) as (taken & mk & all & HR). exists sh0, box, taken, mk, all. split; [done|]. split; [done|].
  pose proof (si_in _ _ _ _ _ _ HV) as Hi. pose proof (si_out _ _ _ _ _ _ HV) as Ho. cbn [sv_thread th_shard] in Hi, Ho.
  by rewrite (Spsc.contents_repr _ (cf_ring _ HC) _ _ Hi), (Spsc.contents_repr _ (cf_ring _ HC) _ _ Ho).
Qed.

(** C3: The exchange is one market per shard.  From freshly constructed shards
    and gateway, after any interleaving of polls of the gateway with turns of
    the shards' threads, fewer than [2^32] requests in all, whatever clients
    connect, send in whatever pieces, or close, as long as their prices do not
    overflow and their cancels carry tokens some client was sent (the condition
    [fair] of [exchange_step]; a forged token is undefined behaviour:
    [Findings.forged_token_undefined]): for every shard there is a run of the abstract market, over the symbols the shard was
    constructed with, that took the requests the gateway handed to the shard,
    in order, up to those still waiting, and whose reports are those the gateway
    drained, then those in the ring, then those the thread has still to push.
    What clients see of the exchange is what these markets do, whatever else
    the threads, rings, slots and tokens go through. *)
Theorem exchange_refines shards port k0 g0 k1 w lg :
  0 < tick_size -> built CFG N base tick_size shards -> gateway_init shards port k0 = (inr g0, k1) ->
  rtc logged_step (mkWorld g0 k1 (no_boxes N) [] 0, no_log) (w, lg) -> w_taken w < 2 ^ 32 ->
  forall s sh, shards_ (w_gateway w) !! s = Some sh -> exists sh0 box taken mk outs,
    shards !! s = Some sh0 /\ w_boxes w !! s = Some box /\
    market_run (ladder_idx base tick_size) (ladder_size CFG) (max_orders CFG) (hosted (local_of_ sh0))
      (empty_market (max_symbols CFG)) taken mk outs /\
    lg_in lg s = taken ++ Spsc.contents (queue_depth CFG) (inbound_ sh) /\
    outs = lg_out lg s ++ Spsc.contents (queue_depth CFG) (outbound_ sh) ++ box /\
    mk_books mk = market_books sh.
Proof.
  intros Ht Hb Hinit Hrun Hn s sh Hs. destruct (markets_reachable shards port k0 g0 k1 w lg Ht Hb Hinit Hrun Hn) as [_ Hall].
  destruct (Hall s sh Hs) as (sh0 & box & taken & mk & all & Hs0 & Hbox & [_ _ _ HR Ein Eout _ HM]). exists sh0, box, taken, mk, all.
  do 5 (split; [done|]). apply HM.
Qed.

(** C5: No one is ever told of more than they asked for: in every state of the
    running exchange, for every shard, session and order id, what the fills
    drained for that session say was traded under the id, together with what
    still rests under it on the shard's books, is at most the quantity of the
    new orders with that id that the gateway handed to the shard, also when ids
    are used twice, orders are cancelled, slots are recycled, clients come and
    go, and reports still wait. *)
Theorem no_overfill shards port k0 g0 k1 w lg sid id :
  0 < tick_size -> built CFG N base tick_size shards -> gateway_init shards port k0 = (inr g0, k1) ->
  rtc logged_step (mkWorld g0 k1 (no_boxes N) [] 0, no_log) (w, lg) -> w_taken w < 2 ^ 32 ->
  forall s sh, shards_ (w_gateway w) !! s = Some sh ->
    told sid id (lg_out lg s) + shard_rested id sh <= placed id (lg_in lg s).
Proof.
  intros Ht Hb Hinit Hrun Hn s sh Hs. destruct (markets_reachable shards port k0 g0 k1 w lg Ht Hb Hinit Hrun Hn) as [_ Hall].
  destruct (Hall s sh Hs) as (sh0 & box & taken & mk & all & _ & _ & HR). exact (refines_told CFG base tick_size _ _ _ _ _ _ _ sid id HR).
Qed.

End system.

(** ** One client trades with itself

    Its two orders arrive together; shard 1 serves both, and the gateway drains
    the acknowledgement of the first and the fill. *)

Import Sim.

Abbreviation SimWorld := (@World SimKernel).

Definition both : list Session.Request :=
  [Session.RNew (mkNewOrder (mkHeader 32 NEW_ORDER 0 0) 1 1050 10 7 SELL GTC); Session.RNew trade_buy].
Definition market_k0 : SimKernel := mkSim [[concat (Session.request_bytes <$> both)]] [] ∅ {[0; 1; 2]} 0 30.
Definition market_init : (init_error + Gateway) * SimKernel := gateway_init life_shards 9000 market_k0.
Definition market_g0 : Gateway := match market_init.1 with inr g => g | inl _ => life_g0 end.

Definition poll_world (w : SimWorld) : SimWorld :=
  match poll_once demo_cfg 2 100 (w_gateway w) 10 (w_kernel w) with
  | Ok (g', k') => mkWorld g' k' (w_boxes w) (w_sent w ++ acked_tokens (concat (reports_of demo_cfg (shards_ (w_gateway w))))) (w_taken w)
  | Err _ => w
  end.
Definition thread_of (w : SimWorld) : Thread :=
  mkThread (default demo_shard (shards_ (w_gateway w) !! 1)) (default [] (w_boxes w !! 1)).
Definition turn_world (w : SimWorld) : SimWorld :=
  match thread_turn demo_cfg (thread_of w) with
  | Ok th' => mkWorld (set_shards (w_gateway w) (<[1 := th_shard th']> (shards_ (w_gateway w)))) (w_kernel w) (<[1 := th_outbox th']> (w_boxes w))
      (w_sent w) (w_taken w + taking demo_cfg (thread_of w))
  | Err _ => w
  end.

Definition mw0 : SimWorld := mkWorld market_g0 market_init.2 [[]; []] [] 0.
Definition mw2 : SimWorld := poll_world (poll_world mw0).
Definition mw6 : SimWorld := turn_world (turn_world (turn_world (turn_world mw2))).
Definition mw7 : SimWorld := poll_world mw6.

Abbreviation demo_step := (logged_step demo_cfg 2 1000 sim_view).
Abbreviation noted := (log demo_cfg 2).

Definition mlog2 : Log := noted (poll_world mw0) mw2 (noted mw0 (poll_world mw0) no_log).
Definition mlog6 : Log :=
  let w3 := turn_world mw2 in let w4 := turn_world w3 in let w5 := turn_world w4 in
  noted w5 mw6 (noted w4 w5 (noted w3 w4 (noted mw2 w3 mlog2))).
Definition mlog7 : Log := noted mw6 mw7 mlog6.

Definition went {A} (r : res A) : bool := match r with Ok _ => true | Err _ => false end.

Lemma poll_world_step w lg reqs :
  let k1 := (k_epoll_wait (w_kernel w) (epoll_fd_ (w_gateway w)) MAX_EVENTS 10).2 in
  next_session_id_ (w_gateway w) + Z.of_nat (k_backlog sim_view k1) < 2 ^ 32 ->
  (k_backlog sim_view k1 < 100)%nat -> (k_unread sim_view k1 < 100)%nat ->
  went (poll_once demo_cfg 2 100 (w_gateway w) 10 (w_kernel w)) = true ->
  requests_of demo_cfg (shards_ (w_gateway (poll_world w))) = reqs -> Forall (Forall (fair 1000 (w_sent w))) reqs ->
  demo_step (w, lg) (poll_world w, noted w (poll_world w) lg).
Proof.
  intros k1 B F1 F2 Hok Hreq HF. constructor. rewrite <- Hreq in HF. unfold poll_world in *.
  destruct (poll_once demo_cfg 2 100 (w_gateway w) 10 (w_kernel w)) as [[g' k']|] eqn:E; [|done].
  destruct w as [g k boxes sent n]. cbn [w_gateway w_kernel w_boxes w_sent w_taken] in *. by eapply exchange_poll.
Qed.

Lemma turn_world_step w lg : is_Some (shards_ (w_gateway w) !! 1) -> is_Some (w_boxes w !! 1) ->
  went (thread_turn demo_cfg (thread_of w)) = true ->
  demo_step (w, lg) (turn_world w, noted w (turn_world w) lg).
Proof.
  intros [sh Hs] [box Hbox] Hok. constructor. assert (E0 : thread_of w = mkThread sh box) by (unfold thread_of; by rewrite Hs, Hbox).
  unfold turn_world. rewrite E0 in *.
  destruct (thread_turn demo_cfg (mkThread sh box)) as [th'|] eqn:E; [|done]. destruct w as [g k boxes sent n]. by apply exchange_turn.
Qed.

Lemma mw2_reachable : rtc demo_step (mw0, no_log) (mw2, mlog2).
Proof.
  eapply rtc_l; [apply (poll_world_step mw0 no_log [[]; []])|]; [by vm_compute|vm_compute; lia|vm_compute; lia|by vm_compute|by vm_compute|by repeat constructor|].
  apply rtc_once. apply (poll_world_step (poll_world mw0) _ [[]; Session.request_msg 1 <$> both]);
    [by vm_compute|vm_compute; lia|vm_compute; lia|by vm_compute|by vm_compute|]. repeat constructor; by vm_compute.
Qed.

Lemma mw6_reachable : rtc demo_step (mw2, mlog2) (mw6, mlog6).
Proof.
  do 3 (eapply rtc_l; [apply turn_world_step; [by vm_compute; eexists|by vm_compute; eexists|by vm_compute]|]).
  apply rtc_once. apply turn_world_step; [by vm_compute; eexists|by vm_compute; eexists|by vm_compute].
Qed.

Lemma mw7_reachable : rtc demo_step (mw0, no_log) (mw7, mlog7).
Proof.
  etrans; [exact mw2_reachable|]. etrans; [exact mw6_reachable|]. apply rtc_once.
  apply (poll_world_step mw6 mlog6 [[]; []]); [by vm_compute|vm_compute; lia|vm_compute; lia|by vm_compute|by vm_compute|by repeat constructor].
Qed.

Lemma exchange_refines_witness : exists sh box taken mk outs, shards_ (w_gateway mw7) !! 1 = Some sh /\
  market_run (ladder_idx 1000 5) (ladder_size demo_cfg) (max_orders demo_cfg) (hosted (local_of_ demo_shard))
    (empty_market (max_symbols demo_cfg)) taken mk outs /\
  outs = lg_out mlog7 1 ++ Spsc.contents (queue_depth demo_cfg) (outbound_ sh) ++ box.
Proof.
  destruct (exchange_refines demo_cfg 2 1000 5 demo_cfg_ok ltac:(lia) sim_view life_shards 9000 market_k0 market_g0 market_init.2 mw7 mlog7)
    with (s := 1) (sh := th_shard (thread_of mw7)) as (sh0 & box & taken & mk & outs & H0 & _ & H1 & _ & H2 & _).
  - lia.
  - exact life_built.
  - by vm_compute.
  - exact mw7_reachable.
  - by vm_compute.
  - by vm_compute.
  - injection H0 as <-. exists (th_shard (thread_of mw7)), box, taken, mk, outs. split; [by vm_compute|]. split; [exact H1|exact H2].
Defined.

(** The fill says ten of the fourteen, and four rest. *)
Example mw7_told : told 1 2 (lg_out mlog7 1) = 10 /\ shard_rested 2 (th_shard (thread_of mw7)) = 4 /\ placed 2 (lg_in mlog7 1) = 14.
Proof. by vm_compute. Qed.

Lemma no_overfill_witness : told 1 2 (lg_out mlog7 1) + shard_rested 2 (th_shard (thread_of mw7)) <= placed 2 (lg_in mlog7 1).
Proof.
  refine (no_overfill demo_cfg 2 1000 5 demo_cfg_ok _ sim_view life_shards 9000 market_k0 market_g0 market_init.2 mw7 mlog7 1 2 _ _ _ _ _ 1 (th_shard (thread_of mw7)) _).
  - lia.
  - lia.
  - exact life_built.
  - by vm_compute.
  - exact mw7_reachable.
  - by vm_compute.
  - by vm_compute.
Defined.

End SystemMarket.
