(* ===== verification/Clients.v ===== *)
(** * What the clients of the exchange see

    The last link between the markets of [SystemMarket] and the sockets: the
    bytes that were accepted for a connected client are the frames of the
    reports for its session that were drained since the exchange started, of
    which every shard's are the reports of its market. *)

From stdpp Require Import gmap relations.
From S2P Require Import Prelude Messages Order LevelBitmap Pool PriceLevel OrderHandle OrderBook Spsc Sink Codec Session.
From S2P Require Import BookSpec BookInv BookMatch BookRefine BookLaws BookAbs BookProps BookSession.
From S2P Require Import Shard ShardWork ShardInv ReportTypes ShardProps ShardTokens Market ShardMarket.
From S2P Require Import ShardRouter Kernel Gateway GatewayInv GatewayProps Exchange System SystemMarket.

Module Clients.
Import BookSpec BookInv Shard ShardInv ReportTypes ShardProps ShardTokens Market ShardMarket ShardRouter Gateway GatewayInv GatewayProps Exchange System SystemMarket.

Section clients.
Context (CFG : ShardConfig) (N base tick_size : Z) (HC : config_ok CFG) (HN : 0 < N <= 256).
Context {K : Type} `{Kernel K} (V : KernelView K) `{!KernelLaws V}.

Abbreviation World := (@World K).
Abbreviation exchange_step := (exchange_step CFG N base V).
Abbreviation world_inv := (world_inv CFG N base tick_size V).
Abbreviation markets_inv := (markets_inv CFG base tick_size).
Abbreviation log := (log CFG N).

(** States of the kernel in which sockets can be written, from the start on. *)
Context (P : K -> Prop) (k_start : K).
Definition good : Prop := writable P /\ keeps P /\ P k_start.

(** Requests carry the id of a session that was accepted, and each session was
    sent its reports. *)
Record clients_inv (w : World) (lg : Log) : Prop := {
  cl_in : forall s, 0 <= s < N -> Forall (fun m => hdr_session_id (in_hdr m) < next_session_id_ (w_gateway w)) (lg_in lg s);
  cl_tags : Forall (fun x => 0 <= x.1 < N) (lg_drained lg);
  cl_good : good -> P (w_kernel w);
  cl_out : forall fd s, sessions_ (w_gateway w) !! fd = Some s -> receives V good (w_kernel w) fd (Session.session_id s) [] (lg_all lg)
}.

Lemma receives_app k fd sid ms ms' : receives V good k fd sid [] ms ->
  forall k', receives V good k' fd sid (k_out V k fd) ms' -> receives V good k' fd sid [] (ms ++ ms').
Proof.
  intros [(p1 & F1 & O1) W1] k' [(p2 & F2 & O2) W2]. unfold receives, stamped. rewrite filter_app, fmap_app. split.
  - exists (p1 ++ p2). split; [by apply Forall2_app|]. by rewrite O2, O1, concat_app.
  - intros HP. by rewrite (W2 HP), (W1 HP), concat_app.
Qed.

Lemma receives_new k' fd sid ms ms' : stamped sid ms = [] -> receives V good k' fd sid [] ms' -> receives V good k' fd sid [] (ms ++ ms').
Proof. intros E. unfold receives, stamped in *. by rewrite filter_app, E. Qed.

(** ** What a step adds to the log *)

Lemma tagged_range {A} (f : Z -> list A) : Forall (fun x => 0 <= x.1 < N) (tagged N f).
Proof.
  apply Forall_concat, Forall_fmap, Forall_forall. intros s Hs%elem_of_seqZ. apply Forall_fmap, Forall_forall. intros a _. cbn. lia.
Qed.

Lemma tagged_nil {A} (f : Z -> list A) : (forall s, 0 <= s < N -> f s = []) -> tagged N f = [].
Proof.
  intros Hf. apply concat_nil_Forall, Forall_fmap, Forall_forall. intros s Hs%elem_of_seqZ. cbn. rewrite Hf by lia. done.
Qed.

Lemma lg_all_log (w w' : World) lg : lg_all (log w w' lg) = lg_all lg ++ concat ((fun s => gone (queued_out CFG w s) (queued_out CFG w' s)) <$> seqZ 0 N).
Proof. unfold lg_all. cbn [lg_drained SystemMarket.log]. by rewrite fmap_app, tagged_all. Qed.

(** The outbound rings of all shards, in the order they are drained. *)
Lemma drained_all (w w' : World) ins outs : world_inv w ins outs -> (forall s, 0 <= s < N -> queued_out CFG w' s = []) ->
  (fun s => gone (queued_out CFG w s) (queued_out CFG w' s)) <$> seqZ 0 N = outs.
Proof.
  intros HI Hw'. destruct (gw_rings _ _ _ _ _ _ _ (wi_gateway _ _ _ _ _ _ _ _ HI)) as [[_ HLi _] [HL _ _]].
  apply listZ_eq; rewrite zlen_fmap; [unfold zlen in *; rewrite length_seqZ; lia|]. unfold zlen at 1. rewrite length_seqZ. intros s Hs.
  rewrite lookupZ_fmap, (lookupZ_nat (seqZ 0 N)), lookup_seqZ_lt by lia. cbn [fmap option_fmap option_map]. rewrite Z.add_0_l, Z2Nat.id by lia.
  destruct (lookupZ_is_Some outs s ltac:(lia)) as [l Hl]. destruct (lookupZ_is_Some ins s ltac:(lia)) as [li Hli].
  rewrite (Hw' s) by lia. destruct (world_queues CFG N base tick_size HC V w ins outs s li l HI Hli Hl) as [_ ->]. by rewrite gone_all.
Qed.

(** A turn hands nothing over and drains nothing. *)
Lemma turn_log g k boxes sent n s sh box th' lg ins outs ins' outs' (w := mkWorld g k boxes sent n)
    (w' := mkWorld (set_shards g (<[s := th_shard th']> (shards_ g))) k (<[s := th_outbox th']> boxes) sent (n + taking CFG (mkThread sh box))) :
  n < 2 ^ 32 -> shards_ g !! s = Some sh -> boxes !! s = Some box -> thread_turn CFG (mkThread sh box) = Ok th' ->
  world_inv w ins outs -> world_inv w' ins' outs' ->
  (forall j, lg_in (log w w' lg) j = lg_in lg j) /\ lg_drained (log w w' lg) = lg_drained lg.
Proof.
  intros Hn Hs Hbox Hturn HI HI'. pose proof (lookupZ_range _ _ _ Hs) as Rs.
  destruct (shard_serving CFG N base tick_size V _ _ _ _ _ _ _ _ _ HI Hs) as (li & l & box1 & Hli & Hl & Hbox1 & HV).
  rewrite Hbox in Hbox1. injection Hbox1 as <-. destruct (turn_spec CFG HC base tick_size _ _ _ _ _ HV Hn) as (th1 & li' & l' & Hturn1 & Ht).
  rewrite Hturn in Hturn1. injection Hturn1 as <-. pose proof (turned_inv CFG HC base tick_size _ _ _ _ _ _ _ _ HV Ht) as HV'.
  destruct (turned_queues CFG base tick_size _ _ _ _ _ _ Ht) as [Ec Eg]. destruct (world_queues CFG N base tick_size HC V w ins outs s li l HI Hli Hl) as [Q1 Q2].
  assert (Hall : forall j, came (queued_in CFG w j) (queued_in CFG w' j) = [] /\ gone (queued_out CFG w j) (queued_out CFG w' j) = []).
  { intros j. destruct (decide (s = j)) as [<-|Hne].
    - rewrite Q1, Q2. unfold queued_in, queued_out, requests_of, reports_of. cbn [w_gateway w' shards_ set_shards].
      rewrite !lookupZ_fmap, lookupZ_insertZ_eq by done. cbn [fmap option_fmap option_map default from_option id].
      pose proof (si_in _ _ _ _ _ _ HV') as Hi. pose proof (si_out _ _ _ _ _ _ HV') as Ho. cbn [sv_thread] in Hi, Ho.
      by rewrite (Spsc.contents_repr _ (cf_ring _ HC) _ _ Hi), (Spsc.contents_repr _ (cf_ring _ HC) _ _ Ho).
    - unfold queued_in, queued_out, requests_of, reports_of. cbn [w_gateway w' w shards_ set_shards]. rewrite !lookupZ_fmap, lookupZ_insertZ_ne by done.
      split; [by apply came_none|by apply gone_none]. }
  split; [intros j|]; cbn [SystemMarket.log lg_in lg_drained]; [by rewrite (proj1 (Hall j)), app_nil_r|].
  rewrite tagged_nil by (intros j _; apply Hall). apply app_nil_r.
Qed.

(** ** The life of the exchange *)

(** What was drained so far is for sessions that were accepted. *)
Lemma drained_old shards w lg ins outs : zlen shards = N -> world_inv w ins outs -> markets_inv shards w lg ins outs -> clients_inv w lg ->
  Forall (fun m => hdr_session_id (out_hdr m) < next_session_id_ (w_gateway w)) (lg_all lg).
Proof.
  intros HL HI HM [Hin Htag _ _]. apply Forall_forall. intros m (x & -> & Hx)%list_elem_of_fmap. rewrite Forall_forall in Htag. specialize (Htag x Hx).
  destruct w as [g k boxes sent n]. cbn [w_gateway] in *. destruct (lookupZ_is_Some shards x.1 ltac:(lia)) as [sh0 Hs0].
  destruct (gw_rings _ _ _ _ _ _ _ (wi_gateway _ _ _ _ _ _ _ _ HI)) as [[R1 _ _] _]. cbn [w_gateway] in R1.
  destruct (lookupZ_is_Some (shards_ g) x.1 ltac:(lia)) as [sh Hs].
  destruct (shard_serving CFG N base tick_size V _ _ _ _ _ _ _ _ _ HI Hs) as (li & l & box & Hli & Hl & Hbox & _).
  destruct (HM x.1 sh0 sh li l box Hs0 Hs Hli Hl Hbox) as (taken & mk & all & [_ _ _ HR Ein Eout _ _]). cbn [lf_in lf_out] in Ein, Eout.
  specialize (Hin x.1 Htag). rewrite Ein in Hin. apply Forall_app in Hin as [Htk _].
  destruct (market_run_to _ (fun z => z < next_session_id_ g) _ _ _ _ _ _ _ HR Htk) as [_ HO]. rewrite Eout in HO. apply Forall_app in HO as [HO _].
  rewrite Forall_forall in HO. apply (HO x.2). unfold lg_out. apply list_elem_of_fmap_2, list_elem_of_filter. done.
Qed.

Lemma stamped_none sid ms : Forall (fun m => hdr_session_id (out_hdr m) < sid) ms -> stamped sid ms = [].
Proof.
  unfold stamped. induction 1 as [|m ms Hm _ IH]; [done|]. by rewrite filter_cons, decide_False by lia.
Qed.

Lemma clients_poll shards g k boxes sent n g' k' lg ins outs (w := mkWorld g k boxes sent n)
    (w' := mkWorld g' k' boxes (sent ++ acked_tokens (concat outs)) n) (ins' := requests_of CFG (shards_ g')) (outs' := replicate (Z.to_nat N) []) :
  zlen shards = N -> world_inv w ins outs -> world_inv w' ins' outs' -> fed N (next_session_id_ g') ins ins' ->
  serves_sessions V g k g' k' (concat outs) -> markets_inv shards w lg ins outs -> clients_inv w lg -> clients_inv w' (log w w' lg).
Proof.
  intros HL HI HI' (ms & Hms & _ & Hpush) [Hnext Hkept Hout] HM HCl. pose proof (drained_old shards w lg ins outs HL HI HM HCl) as Hold.
  destruct (gw_rings _ _ _ _ _ _ _ (wi_gateway _ _ _ _ _ _ _ _ HI)) as [[_ HLi _] [HLo _ _]].
  assert (Hq : forall s, 0 <= s < N -> queued_in CFG w' s = queued_in CFG w s ++ routed_to N s ms /\ queued_out CFG w' s = []).
  { intros s Hs. destruct (lookupZ_is_Some outs s ltac:(lia)) as [l Hl]. destruct (lookupZ_is_Some ins s ltac:(lia)) as [li Hli].
    pose proof (Hpush s li Hli) as Hli'. assert (Hl' : outs' !! s = Some []) by (apply lookupZ_replicate; lia).
    destruct (world_queues CFG N base tick_size HC V w ins outs s li l HI Hli Hl) as [-> _].
    by destruct (world_queues CFG N base tick_size HC V w' ins' outs' s _ _ HI' Hli' Hl') as [-> ->]. }
  destruct HCl as [Hin Htag Hgood Hrec]. cbn [w_kernel w] in Hgood. split; cbn [w_gateway w_kernel w'].
  - intros s Hs. cbn [SystemMarket.log lg_in]. destruct (Hq s Hs) as [-> _]. rewrite came_app. apply Forall_app. split.
    + eapply Forall_impl; [exact (Hin s Hs)|]. cbn [w_gateway w]. intros m Hm. lia.
    + apply Forall_forall. intros m [_ Hm]%list_elem_of_filter. rewrite Forall_forall in Hms. by apply Hms.
  - cbn [SystemMarket.log lg_drained]. apply Forall_app. split; [done|apply tagged_range].
  - intros Hg. pose proof Hg as (Hw & HK & _). apply (Hkept P Hw HK), Hgood, Hg.
  - intros fd s' Hs'. rewrite lg_all_log, (drained_all w w' ins outs HI) by (intros s Hs; by apply Hq).
    destruct (Hout fd s' Hs') as (before & Hbefore & Hr0).
    assert (Hr : receives V good k' fd (Session.session_id s') before (concat outs)).
    { destruct (Hr0 P) as [Hp Hf]. split; [done|]. intros Hg. apply Hf. pose proof Hg as (Hw & HK & _). split_and!; [done|done|by apply Hgood]. }
    destruct Hbefore as [(s & Hs & E & ->)|[-> Hn]].
    + rewrite <- E in *. by apply (receives_app k fd _ _ _ (Hrec fd s Hs)).
    + apply receives_new; [|done]. apply stamped_none. eapply Forall_impl; [exact Hold|]. cbn [w_gateway w]. intros m Hm. lia.
Qed.

Lemma clients_step shards w w' lg ins outs : zlen shards = N -> exchange_step w w' -> w_taken w < 2 ^ 32 -> world_inv w ins outs ->
  markets_inv shards w lg ins outs -> clients_inv w lg -> clients_inv w' (log w w' lg).
Proof.
  intros HL Hstep Hn HI HM HCl. destruct Hstep as [g k boxes sent n fuel t g' k' k1 Hb F1 F2 Hrun Hfair|g k boxes sent n s sh box th' Hs Hbox Hrun]; cbn [w_taken] in *.
  - destruct (world_poll CFG N base tick_size HC HN V g k boxes sent n fuel t ins outs HI Hb F1 F2) as (g1 & k2 & Hrun' & _ & HG & Hfed & He & Hsv).
    rewrite Hrun in Hrun'. injection Hrun' as <- <-. destruct (rings_contents CFG N HC _ _ _ (gw_rings _ _ _ _ _ _ _ (wi_gateway _ _ _ _ _ _ _ _ HI))) as [_ E].
    cbn [w_gateway] in E. rewrite <- E. pose proof (world_after_poll CFG N base tick_size V g k boxes sent n g' k' ins outs HI HG Hfed He Hfair) as HI'.
    by apply (clients_poll shards g k boxes sent n g' k' lg ins outs).
  - destruct (world_turn CFG N base tick_size HC V _ _ _ _ _ _ _ _ _ HI Hn Hs) as (box1 & th1 & ins' & outs' & Hbox' & Hrun' & HI').
    rewrite Hbox in Hbox'. injection Hbox' as <-. rewrite Hrun in Hrun'. injection Hrun' as <-.
    destruct (turn_log g k boxes sent n s sh box th' lg ins outs ins' outs' Hn Hs Hbox Hrun HI HI') as [E1 E2]. destruct HCl as [Hin Htag Hgood Hrec].
    split; [intros j Hj; rewrite E1; by apply Hin|by rewrite E2|exact Hgood|]. intros fd s' Hs'. unfold lg_all. rewrite E2. by apply Hrec.
Qed.

Lemma clients_steps shards a b : zlen shards = N -> rtc (logged_step CFG N base V) a b -> w_taken b.1 < 2 ^ 32 ->
  (exists ins outs, world_inv a.1 ins outs /\ markets_inv shards a.1 a.2 ins outs /\ clients_inv a.1 a.2) ->
  exists ins outs, world_inv b.1 ins outs /\ markets_inv shards b.1 b.2 ins outs /\ clients_inv b.1 b.2.
Proof.
  intros HL. induction 1 as [|a b c Hstep Hrest IH]; [done|]. intros Hlt (ins & outs & HI & HM & HCl). apply IH; [done|].
  pose proof (logged_mono _ _ _ _ _ _ Hrest). pose proof (logged_mono _ _ _ _ _ _ (rtc_once _ _ Hstep)). destruct Hstep as [w w' lg Hstep]. cbn [fst snd] in *.
  destruct (markets_step CFG N base tick_size HC HN V shards w w' lg ins outs Hstep ltac:(lia) HI HM) as (ins' & outs' & HI' & HM').
  exists ins', outs'. split_and!; [done|done|]. eapply clients_step; [done|done|lia|done..].
Qed.

Lemma clients_reachable shards port k0 g0 w lg :
  0 < tick_size -> built CFG N base tick_size shards -> gateway_init shards port k0 = (inr g0, k_start) ->
  rtc (logged_step CFG N base V) (mkWorld g0 k_start (no_boxes N) [] 0, no_log) (w, lg) -> w_taken w < 2 ^ 32 -> clients_inv w lg.
Proof.
  intros Ht Hb Hinit Hrun Hn. destruct (clients_steps shards _ _ (proj1 Hb) Hrun Hn) as (ins & outs & _ & _ & HCl); [|exact HCl].
  eexists _, _. split_and!; [by eapply world_init|by eapply markets_init|].
  split; [constructor|constructor|by intros (_ & _ & ?)|]. cbn [fst snd w_gateway w_kernel].
  intros fd s Hs. assert (sessions_ g0 = ∅) as E; [|by rewrite E, lookup_empty in Hs].
  revert Hinit. unfold gateway_init. repeat case_match; try done. by intros [= <- _].
Qed.

End clients.

(** C4: Clients see the markets, and nothing else.  In every state of the running
    exchange, the bytes that were accepted for a connected client are, in the
    order of draining, the frames of exactly the reports drained for its session,
    at least a prefix of each, and each completely if sockets can be written; and
    what was drained from a shard is, in order, the beginning of the reports of a
    run of the abstract market on the requests handed to that shard. *)
Theorem clients_see_markets CFG N base tick_size (HC : config_ok CFG) (HN : 0 < N <= 256) {K} `{Kernel K} (V : KernelView K) `{!KernelLaws V}
    shards port k0 g0 k1 w lg :
  0 < tick_size -> built CFG N base tick_size shards -> gateway_init shards port k0 = (inr g0, k1) ->
  rtc (logged_step CFG N base V) (mkWorld g0 k1 (no_boxes N) [] 0, no_log) (w, lg) -> w_taken w < 2 ^ 32 ->
  (forall fd s, sessions_ (w_gateway w) !! fd = Some s ->
     let frames := out_enc <$> stamped (Session.session_id s) (lg_all lg) in
     (exists parts, Forall2 prefix parts frames /\ k_out V (w_kernel w) fd = concat parts) /\
     (forall P, writable P -> keeps P -> P k1 -> k_out V (w_kernel w) fd = concat frames)) /\
  forall s sh, shards_ (w_gateway w) !! s = Some sh -> exists sh0 taken mk outs rest,
    shards !! s = Some sh0 /\ lg_in lg s = taken ++ Spsc.contents (queue_depth CFG) (inbound_ sh) /\
    market_run (ladder_idx base tick_size) (ladder_size CFG) (max_orders CFG) (hosted (local_of_ sh0))
      (empty_market (max_symbols CFG)) taken mk outs /\ outs = lg_out lg s ++ rest.
Proof.
  intros Ht Hb Hinit Hrun Hn. split.
  - intros fd s Hs frames.
    assert (Hr : forall P, receives V (good P k1) (w_kernel w) fd (Session.session_id s) [] (lg_all lg)).
    { intros P. exact (cl_out _ _ _ _ _ _ (clients_reachable CFG N base tick_size HC HN V P k1 shards port k0 g0 w lg Ht Hb Hinit Hrun Hn) fd s Hs). }
    split; [exact (proj1 (Hr (fun _ => True)))|]. intros P Hw HK HP. by apply (Hr P).
  - intros s sh Hs. destruct (markets_reachable CFG N base tick_size HC HN V shards port k0 g0 k1 w lg Ht Hb Hinit Hrun Hn) as [_ Hall].
    destruct (Hall s sh Hs) as (sh0 & box & taken & mk & all & Hs0 & _ & [_ _ _ HR Ein Eout _ _]). by exists sh0, taken, mk, all, (Spsc.contents (queue_depth CFG) (outbound_ sh) ++ box).
Qed.

Import Sim.

(** The client of [SystemMarket] has read the acknowledgement of its first order
    and the fill. *)
Lemma clients_see_markets_witness : exists s, sessions_ (w_gateway mw7) !! 5 = Some s /\
  k_out Sim.sim_view (w_kernel mw7) 5 = concat (out_enc <$> stamped (Session.session_id s) (lg_all mlog7)) /\
  zlen (k_out Sim.sim_view (w_kernel mw7) 5) = sizeof_Ack + sizeof_Fill.
Proof.
  destruct (sessions_ (w_gateway mw7) !! 5) as [s|] eqn:Hs; [|vm_compute in Hs; discriminate Hs].
  exists s. split; [reflexivity|]. split; [|vm_compute; reflexivity].
  destruct (clients_see_markets demo_cfg 2 1000 5 demo_cfg_ok ltac:(lia) Sim.sim_view life_shards 9000 market_k0 market_g0 market_init.2 mw7 mlog7) as [Hout _].
  - lia.
  - exact life_built.
  - vm_compute; reflexivity.
  - exact mw7_reachable.
  - vm_compute; reflexivity.
  - destruct (Hout 5 s Hs) as [_ Hfull]. apply (Hfull (fun k => 0 < Sim.sk_room k) Sim.sim_writable Sim.sim_keeps). vm_compute; reflexivity.
Defined.

End Clients.
