(* ===== verification/GatewayFindings.v ===== *)
(** * Where the gateway loses or delays requests

    Runs of the gateway on the simulated kernel in which a request does not
    arrive although the client did nothing wrong, and the descriptor that a
    failed construction leaves open. *)

From stdpp Require Import gmap.
From S2P Require Import Prelude Messages Codec Spsc Sink Session OrderBook Shard ShardRouter Kernel Gateway GatewayInv GatewayProps.

Module GatewayFindings.
Import Shard ShardRouter Gateway GatewayInv GatewayProps Sim.

(** A gateway for one shard, polled once with the given client. *)
Definition one_client (cfg : ShardConfig) (blocks : list (list Z)) : res (Gateway * SimKernel) :=
  sh ← shard_init cfg 1000 5 0 [];
  match gateway_init [sh] 9000 (mkSim [blocks] [] ∅ {[0; 1; 2]} 0 4096) with
  | (inr g, k) => '(g, k) ← accept_all 2 g k; poll_once cfg 1 10000 g 10 k
  | (inl _, _) => Err AssertFail
  end.

Fixpoint shard_ticks (cfg : ShardConfig) (n : nat) (g : Gateway) : res Gateway :=
  match n with
  | O => Ok g
  | S n => sh ← aget (shards_ g) 0; sh ← tick cfg sh; shard_ticks cfg n (set_shards g [sh])
  end.

(** ** A frame that is never retried *)

Definition order_bytes (id qty : Z) : list Z :=
  cenc c_NewOrder (mkNewOrder (mkHeader 32 NEW_ORDER 0 0) id 1050 qty 0 SELL GTC).

Definition small_cfg : ShardConfig := mkConfig 8 16 4 1 4.

(** Five orders into a ring of four, and then the shard works them off. *)
Definition five_orders : res (Gateway * SimKernel) :=
  '(g, k) ← one_client small_cfg [order_bytes 1 10 ++ order_bytes 2 10 ++ order_bytes 3 10 ++ order_bytes 4 10 ++ order_bytes 5 10];
  g ← shard_ticks small_cfg 4 g;
  poll_once small_cfg 1 100 g 10 k.

(** A refused frame can be stuck: five orders arrive at a ring of four, the
    fifth stays in the session's buffer, and although the shard then empties
    the ring, no later poll hands the order over: as long as the client sends
    nothing, a poll changes nothing. *)
Theorem refused_frame_stuck :
  exists g k s sh, five_orders = Ok (g, k) /\ sessions_ g !! 5 = Some s /\ Session.pending s = order_bytes 5 10 /\
    shards_ g = [sh] /\ Spsc.pop 4 (inbound_ sh) = Ok (None, inbound_ sh) /\
    forall fuel t, poll_once small_cfg 1 fuel g t k = Ok (g, k).
Proof.
  destruct five_orders as [[g k]|] eqn:E; [|vm_compute in E; discriminate E].
  vm_compute in E. injection E as <- <-.
  do 4 eexists. split; [reflexivity|]. split; [by vm_compute|]. split; [by vm_compute|].
  split; [reflexivity|]. split; [by vm_compute|]. intros fuel t. by vm_compute.
Qed.

(** ** Bytes lost without any back pressure *)

Definition large_cfg : ShardConfig := mkConfig 8 16 512 1 4.

(** One cancel and 256 orders, sent without waiting: 8208 bytes. *)
Definition pipeline : list Z :=
  cenc c_CancelOrder (mkCancelOrder (mkHeader 16 CANCEL_ORDER 0 0) (2 ^ 23)) ++
  concat ((fun i => order_bytes (Z.of_nat i) 10) <$> seq 1 256).

(** A client that sends ahead loses requests: of one cancel and 256 orders
    sent in one go, which all fit into the ring, the last order is cut in half
    and the connection is closed as malformed.  After the first 4096 bytes half
    an order is left in the receive buffer, so the next 4096 bytes do not fit. *)
Theorem pipelined_request_lost :
  exists g k sh, one_client large_cfg [pipeline] = Ok (g, k) /\ shards_ g = [sh] /\
    Spsc.head_ (inbound_ sh) = 256 /\ Spsc.tail_ (inbound_ sh) = 0 /\ sessions_ g !! 5 = None.
Proof.
  assert (H : match one_client large_cfg [pipeline] with
              | Ok (g, _) => (fun sh => (Spsc.head_ (inbound_ sh), Spsc.tail_ (inbound_ sh), sessions_ g !! 5)) <$> shards_ g
              | Err _ => []
              end = [(256, 0, None)]) by (vm_compute; reflexivity).
  destruct (one_client large_cfg [pipeline]) as [[g k]|]; [|discriminate H].
  destruct (shards_ g) as [|sh [|]] eqn:E; [discriminate H| |discriminate H]. injection H as H1 H2 H3.
  exists g, k, sh. done.
Qed.

(** ** A failed construction *)

(** A failed construction leaks: when [bind], [listen] or [epoll_create1]
    fails, the constructor throws with the listening socket still open, and no
    destructor will run to close it. *)
Theorem failed_init_leaks {K : Type} `{Kernel K} (V : KernelView K) `{!KernelLaws V} shards port k e k' :
  gateway_init shards port k = (inl e, k') -> e <> socket_failed ->
  exists fd, ~ k_open V k fd /\ k_open V k' fd.
Proof.
  unfold gateway_init. destruct (k_socket k) as [lfd k1] eqn:E1.
  destruct (Z.ltb_spec lfd 0) as [|Hl]; [by intros [= <-]|].
  destruct (socket_opens V _ _ _ E1) as [O1 _]. unfold opens in O1. rewrite (proj2 (Z.ltb_ge lfd 0) Hl) in O1.
  destruct O1 as (N1 & O1 & _). intros Hinit _. exists lfd. split; [done|].
  assert (H0 : k_open V k1 lfd) by (apply O1; by left).
  apply (q_open _ _ _ (setsockopt_quiet V k1 lfd)) in H0. revert Hinit.
  destruct (k_bind (k_setsockopt k1 lfd) lfd port) as [r2 k2] eqn:E2.
  apply (q_open _ _ _ (bind_quiet V _ _ _ _ _ E2)) in H0. destruct (negb (r2 =? 0)); [by intros [= _ <-]|].
  destruct (k_listen k2 lfd 128) as [r3 k3] eqn:E3.
  apply (q_open _ _ _ (listen_quiet V _ _ _ _ _ E3)) in H0. destruct (negb (r3 =? 0)); [by intros [= _ <-]|].
  destruct (k_getsockname k3 lfd) as [b k4] eqn:E4. apply (q_open _ _ _ (getsockname_quiet V _ _ _ _ E4)) in H0.
  apply (q_open _ _ _ (set_nonblocking_quiet V k4 lfd)) in H0.
  destruct (k_epoll_create (set_nonblocking k4 lfd)) as [efd k5] eqn:E5.
  destruct (epoll_create_opens V _ _ _ E5) as [O5 _]. unfold opens in O5. destruct (efd <? 0); [|done].
  intros [= _ <-]. by apply (q_open _ _ _ O5).
Qed.

Lemma failed_init_leaks_witness :
  exists fd, ~ k_open sim_view demo_k0 fd /\ k_open sim_view (gateway_init demo_shards 80 demo_k0).2 fd.
Proof.
  destruct (gateway_init demo_shards 80 demo_k0) as [[e|g] k'] eqn:E; [|vm_compute in E; discriminate E].
  apply (failed_init_leaks sim_view demo_shards 80 demo_k0 e k' E). vm_compute in E. by injection E as <- _.
Defined.

End GatewayFindings.
