(* ===== verification/UringGateway.v ===== *)
(** * The io_uring gateway ([include/lx/net/uring_gateway.hpp])

    The same bridge as [Gateway], for one shard, over io_uring: requests are
    prepared into a submission queue and their completions are handled later.
    liburing is a parameter of the model, [Uring], on top of the socket calls
    of [Kernel]. *)

From stdpp Require Import gmap.
From S2P Require Import Prelude Messages Codec Spsc Sink Session OrderBook Shard Kernel.

(** A prepared request.  A receive names the buffer of a connection by its
    descriptor, a send the buffer in the pool by its slot. *)
Inductive SqeOp : Type :=
| prep_multishot_accept (fd : Z)
| prep_recv (fd len : Z)
| prep_send (fd slot len : Z).

Record Sqe : Type := mkSqe { sq_op : SqeOp; sq_data : Z }.

#[export] Instance SqeOp_eq_dec : EqDecision SqeOp.
Proof. solve_decision. Defined.
#[export] Instance Sqe_eq_dec : EqDecision Sqe.
Proof. solve_decision. Defined.

(** A completion; [cq_buf] is what the request stored into its buffer and
    [cq_more] the flag [IORING_CQE_F_MORE]. *)
Record Cqe : Type := mkCqe { cq_data : Z; cq_res : Z; cq_more : bool; cq_buf : list Z }.

Class Uring (U : Type) : Type := {
  u_queue_init : U -> Z -> bool -> Z -> Z * U;    (* depth, sqpoll, sq_cpu *)
  u_get_sqe : U -> bool * U;                      (* is there a free entry *)
  u_prep : U -> Sqe -> U;                         (* fill the entry *)
  u_submit : U -> U;
  u_wait : U -> Z -> U;                           (* timeout in ms *)
  u_cqes : U -> list Cqe * U;                     (* the completions to go through *)
  u_cq_advance : U -> Z -> U;
  u_queue_exit : U -> U
}.

Module UringGateway.
Import Shard.

Definition RING_DEPTH : Z := 2048.
Definition SEND_SLOTS : Z := 512.
Definition INVALID_SLOT : Z := UINT32_MAX.
Definition BUF_SIZE : Z := 4096.

(** ** Tags *)

Inductive Op : Type := OP_ACCEPT | OP_RECV | OP_SEND | Op_raw (n : Z).

Definition Op_to_u8 (op : Op) : Z :=
  match op with OP_ACCEPT => 0 | OP_RECV => 1 | OP_SEND => 2 | Op_raw n => n end.
Definition Op_of_u8 (n : Z) : Op :=
  if n =? 0 then OP_ACCEPT else if n =? 1 then OP_RECV else if n =? 2 then OP_SEND else Op_raw n.

Definition tag (op : Op) (payload : Z) : Z := Z.lor (u64 (Z.shiftl (Op_to_u8 op) 56)) payload.
Definition tag_op (d : Z) : Op := Op_of_u8 (u8 (Z.shiftr d 56)).
Definition tag_payload (d : Z) : Z := Z.land d (2 ^ 56 - 1).

(** ** State *)

Record UringGateway : Type := mkUring {
  shard_ : Shard;
  listen_fd_ : Z;
  port_ : Z;                                 (* uint16_t *)
  next_session_id_ : Z;                      (* uint32_t *)
  conns_ : gmap Z Session.Session;           (* the session of each Conn *)
  sid_to_fd_ : gmap Z Z;
  running_ : bool;
  send_pool_ : list OutboundMsg;
  free_slots_ : list Z;                      (* uint32_t *)
  free_top_ : Z                              (* uint32_t *)
}.

Definition set_shard (g : UringGateway) (sh : Shard) : UringGateway :=
  mkUring sh (listen_fd_ g) (port_ g) (next_session_id_ g) (conns_ g) (sid_to_fd_ g) (running_ g)
    (send_pool_ g) (free_slots_ g) (free_top_ g).
Definition set_conns (g : UringGateway) (conns : gmap Z Session.Session) (routes : gmap Z Z) : UringGateway :=
  mkUring (shard_ g) (listen_fd_ g) (port_ g) (next_session_id_ g) conns routes (running_ g)
    (send_pool_ g) (free_slots_ g) (free_top_ g).
Definition set_next (g : UringGateway) (sid : Z) : UringGateway :=
  mkUring (shard_ g) (listen_fd_ g) (port_ g) sid (conns_ g) (sid_to_fd_ g) (running_ g)
    (send_pool_ g) (free_slots_ g) (free_top_ g).
Definition set_slots (g : UringGateway) (pool : list OutboundMsg) (free : list Z) (top : Z) : UringGateway :=
  mkUring (shard_ g) (listen_fd_ g) (port_ g) (next_session_id_ g) (conns_ g) (sid_to_fd_ g) (running_ g)
    pool free top.

(** ** The send pool *)

Definition alloc_send_slot (g : UringGateway) : res (Z * UringGateway) :=
  if free_top_ g =? 0 then Ok (INVALID_SLOT, g)
  else
    let top := u32 (free_top_ g - 1) in
    slot ← aget (free_slots_ g) top;
    Ok (slot, set_slots g (send_pool_ g) (free_slots_ g) top).

Definition free_send_slot (g : UringGateway) (slot : Z) : res UringGateway :=
  free ← aset (free_slots_ g) (free_top_ g) slot;
  Ok (set_slots g (send_pool_ g) free (u32 (free_top_ g + 1))).

Section uring.
Context (CFG : ShardConfig) {U : Type} `{Kernel U} `{Uring U}.

#[local] Instance uring_sink : Sink (Spsc.SpscQueue InboundMsg) := ring_sink (queue_depth CFG).

(** The loop ends once a submission has made room. *)
Fixpoint get_sqe (fuel : nat) (u : U) : res U :=
  match fuel with
  | O => Err OutOfFuel
  | S fuel =>
      let '(ok, u) := u_get_sqe u in
      if (ok : bool) then Ok u else get_sqe fuel (u_submit u)
  end.

Definition sqe_fuel : nat := 2.

Definition arm_accept (g : UringGateway) (u : U) : res U :=
  u ← get_sqe sqe_fuel u;
  Ok (u_prep u (mkSqe (prep_multishot_accept (listen_fd_ g)) (tag OP_ACCEPT 0))).

(** [conns_.at(fd)] throws when there is no such connection. *)
Definition arm_recv (g : UringGateway) (fd : Z) (u : U) : res U :=
  match conns_ g !! fd with
  | None => Err OutOfBounds
  | Some _ =>
      u ← get_sqe sqe_fuel u;
      Ok (u_prep u (mkSqe (prep_recv fd BUF_SIZE) (tag OP_RECV fd)))
  end.

(** ** Construction *)

Inductive init_error : Type := socket_failed | bind_failed | listen_failed | ring_failed.

Definition uring_init (sh : Shard) (port : Z) (sqpoll : bool) (sq_cpu : Z) (u : U) :
    res ((init_error + UringGateway) * U) :=
  let '(listen_fd, u) := k_socket u in
  if listen_fd <? 0 then Ok (inl socket_failed, u) else
  let u := k_setsockopt u listen_fd in
  let '(r, u) := k_bind u listen_fd port in
  if negb (r =? 0) then Ok (inl bind_failed, u) else
  let '(r, u) := k_listen u listen_fd 128 in
  if negb (r =? 0) then Ok (inl listen_failed, u) else
  let '(bound, u) := k_getsockname u listen_fd in
  let '(r, u) := u_queue_init u RING_DEPTH sqpoll sq_cpu in
  if negb (r =? 0) then Ok (inl ring_failed, u) else
  let g := mkUring sh listen_fd (u16 bound) 1 ∅ ∅ true
             (replicate (Z.to_nat SEND_SLOTS) zero_outbound) (seqZ 0 SEND_SLOTS) SEND_SLOTS in
  u ← arm_accept g u;
  Ok (inr g, u_submit u).

(** ** Completions *)

Definition try_emplace (conns : gmap Z Session.Session) (cfd sid : Z) : gmap Z Session.Session :=
  match conns !! cfd with
  | Some _ => conns
  | None => <[cfd := Session.session_init cfd sid]> conns
  end.

Definition close_conn (g : UringGateway) (fd : Z) (u : U) : UringGateway * U :=
  let routes := match conns_ g !! fd with
                | Some s => delete (Session.session_id s) (sid_to_fd_ g)
                | None => sid_to_fd_ g
                end in
  let u := k_close u fd in
  (set_conns g (delete fd (conns_ g)) routes, u).

Definition on_accept (g : UringGateway) (c : Cqe) (u : U) : res (UringGateway * U) :=
  '(g, u) ←
    (if 0 <=? cq_res c then
       let cfd := cq_res c in
       let u := k_setsockopt u cfd in
       let sid := next_session_id_ g in
       let g := set_next g (u32 (sid + 1)) in
       let g := set_conns g (try_emplace (conns_ g) cfd sid) (<[sid := cfd]> (sid_to_fd_ g)) in
       u ← arm_recv g cfd u;
       Ok (g, u)
     else Ok (g, u));
  if negb (cq_more c) then u ← arm_accept g u; Ok (g, u) else Ok (g, u).

Definition on_recv (g : UringGateway) (fd r : Z) (buf : list Z) (u : U) : res (UringGateway * U) :=
  match conns_ g !! fd with
  | None => Ok (g, u)
  | Some s =>
      if r <=? 0 then Ok (close_conn g fd u)
      else
        s ← Session.append s buf (u32 r);
        '(_, s, q) ← Session.consume s (inbound_ (shard_ g));
        let g := set_conns (set_shard g (set_inbound (shard_ g) q)) (<[fd := s]> (conns_ g)) (sid_to_fd_ g) in
        if Session.closed s then Ok (close_conn g fd u)
        else u ← arm_recv g fd u; Ok (g, u)
  end.

Definition handle_cqe (g : UringGateway) (c : Cqe) (u : U) : res (UringGateway * U) :=
  match tag_op (cq_data c) with
  | OP_ACCEPT => on_accept g c u
  | OP_RECV => on_recv g (wrapS 32 (tag_payload (cq_data c))) (cq_res c) (cq_buf c) u
  | OP_SEND => g ← free_send_slot g (u32 (tag_payload (cq_data c))); Ok (g, u)
  | Op_raw _ => Ok (g, u)
  end.

Fixpoint handle_cqes (cs : list Cqe) (g : UringGateway) (u : U) : res (UringGateway * U) :=
  match cs with
  | [] => Ok (g, u)
  | c :: cs => '(g, u) ← handle_cqe g c u; handle_cqes cs g u
  end.

(** ** Reports *)

(** One report for the connection [fd]. *)
Definition send_report (g : UringGateway) (fd : Z) (out : OutboundMsg) (u : U) : res (UringGateway * U) :=
  '(slot, g) ← alloc_send_slot g;
  if slot =? INVALID_SLOT then
    bs ← bytes_at (out_enc out) 0 (hdr_len (out_hdr out));
    let '(_, u) := k_send u fd bs in Ok (g, u)
  else
    pool ← aset (send_pool_ g) slot out;
    let g := set_slots g pool (free_slots_ g) (free_top_ g) in
    u ← get_sqe sqe_fuel u;
    Ok (g, u_prep u (mkSqe (prep_send fd slot (hdr_len (out_hdr out))) (tag OP_SEND slot))).

Fixpoint drain_loop (fuel : nat) (g : UringGateway) (u : U) : res (UringGateway * U) :=
  match fuel with
  | O => Err OutOfFuel
  | S fuel =>
      '(m, q) ← Spsc.pop (queue_depth CFG) (outbound_ (shard_ g));
      match m with
      | None => Ok (g, u)
      | Some out =>
          let g := set_shard g (set_outbound (shard_ g) q) in
          match sid_to_fd_ g !! hdr_session_id (out_hdr out) with
          | None => drain_loop fuel g u
          | Some fd => '(g, u) ← send_report g fd out u; drain_loop fuel g u
          end
      end
  end.

(** A ring holds at most [queue_depth] messages. *)
Definition drain_outbound (g : UringGateway) (u : U) : res (UringGateway * U) :=
  drain_loop (S (Z.to_nat (queue_depth CFG))) g u.

(** ** The reactor *)

Definition poll_once (g : UringGateway) (timeout_ms : Z) (u : U) : res (UringGateway * U) :=
  '(g, u) ← drain_outbound g u;
  let u := u_submit u in
  let u := if 0 <? timeout_ms then u_wait u timeout_ms else u in
  let '(cs, u) := u_cqes u in
  '(g, u) ← handle_cqes cs g u;
  Ok (g, u_cq_advance u (zlen cs)).

(** [run] ends when another thread has called [stop]. *)
Fixpoint run (n : nat) (g : UringGateway) (u : U) : res (UringGateway * U) :=
  match n with
  | O => Ok (g, u)
  | S n => if running_ g then '(g, u) ← poll_once g 10 u; run n g u else Ok (g, u)
  end.

Definition stop (g : UringGateway) : UringGateway :=
  mkUring (shard_ g) (listen_fd_ g) (port_ g) (next_session_id_ g) (conns_ g) (sid_to_fd_ g) false
    (send_pool_ g) (free_slots_ g) (free_top_ g).

Definition uring_destroy (g : UringGateway) (u : U) : U :=
  let u := u_queue_exit u in
  let u := foldl k_close u ((map_to_list (conns_ g)).*1) in
  if 0 <=? listen_fd_ g then k_close u (listen_fd_ g) else u.

End uring.

End UringGateway.
