(* ===== verification/UringInv.v ===== *)
(** * The invariant of the io_uring gateway

    [UringLaws] is what the gateway relies on of liburing.  [uring_inv] is
    the accounting of the requests: exactly one accept and one receive per
    connection are outstanding, every outstanding send owns a slot of the send
    pool, and the slots on the free stack are the others.  It is stated with
    the completions that are still to be handled, so that it holds between the
    completions of one poll. *)

From stdpp Require Import gmap.
From S2P Require Import Prelude Messages Codec Spsc Sink Session OrderBook Shard ShardRouter Kernel Gateway GatewayInv UringGateway.

Module UringInv.
Import Shard UringGateway.

(** ** What liburing does *)

Section laws.
Context {U : Type} `{Kernel U} `{Uring U} (V : KernelView U) (armed : U -> list Sqe).

(** A call that leaves the outstanding requests and the descriptors alone. *)
Record calm (u u' : U) : Prop := {
  ca_armed : armed u' ≡ₚ armed u;
  ca_open : forall fd, k_open V u' fd <-> k_open V u fd
}.

(** The completions that end their request. *)
Definition finals (cs : list Cqe) : list Cqe := filter (fun c => cq_more c = false) cs.

(** A completion of a request: only an accept has more to come, a receive
    stores at most the length of its buffer. *)
Definition answers (e : Sqe) (c : Cqe) : Prop :=
  sq_data e = cq_data c /\
  match sq_op e with
  | prep_multishot_accept _ => cq_res c < 2 ^ 31
  | prep_recv _ len => cq_more c = false /\ cq_res c <= len /\
      (0 < cq_res c -> zlen (cq_buf c) = cq_res c /\ Forall is_byte (cq_buf c))
  | prep_send _ _ _ => cq_more c = false
  end.

Definition is_accept (e : Sqe) : bool := match sq_op e with prep_multishot_accept _ => true | _ => false end.

(** The descriptors of the connections accepted in [cs]. *)
Definition accepted_by (tags : list Z) (cs : list Cqe) : list Z :=
  cq_res <$> filter (fun c => cq_data c ∈ tags /\ 0 <= cq_res c) cs.

Record completes (u : U) (cs : list Cqe) (u' : U) : Prop := {
  co_ended : exists ended, armed u ≡ₚ ended ++ armed u' /\ (sq_data <$> ended) ≡ₚ (cq_data <$> finals cs);
  co_answers : Forall (fun c => exists e, e ∈ armed u /\ answers e c) cs;
  co_new : let new := accepted_by (sq_data <$> filter is_accept (armed u)) cs in
    NoDup new /\ (forall fd, fd ∈ new -> ~ k_open V u fd) /\
    forall fd, k_open V u' fd <-> fd ∈ new \/ k_open V u fd
}.

Class UringLaws : Prop := {
  get_sqe_calm : forall u b u', u_get_sqe u = (b, u') ->
    calm u u' /\ (b = false -> (u_get_sqe (u_submit u')).1 = true);
  prep_arms : forall u e, armed (u_prep u e) ≡ₚ e :: armed u /\
    forall fd, k_open V (u_prep u e) fd <-> k_open V u fd;
  submit_calm : forall u, calm u (u_submit u);
  wait_calm : forall u t, calm u (u_wait u t);
  advance_calm : forall u n, calm u (u_cq_advance u n);
  setsockopt_calm : forall u fd, calm u (k_setsockopt u fd);
  send_calm : forall u fd bs r u', k_send u fd bs = (r, u') -> calm u u';
  close_armed : forall u fd, armed (k_close u fd) ≡ₚ armed u /\
    forall f, k_open V (k_close u fd) f <-> k_open V u f /\ f <> fd;
  queue_init_empty : forall u d b n u', u_queue_init u d b n = (0, u') -> armed u' = [];
  (** Completions are told apart by their tags. *)
  cqes_complete : forall u cs u', NoDup (sq_data <$> armed u) -> u_cqes u = (cs, u') -> completes u cs u'
}.

Lemma calm_trans u1 u2 u3 : calm u1 u2 -> calm u2 u3 -> calm u1 u3.
Proof. intros [A1 B1] [A2 B2]. split; [by rewrite A2|]. intros fd. by rewrite B2. Qed.

End laws.

#[export] Instance calm_preorder {U} (V : KernelView U) armed : PreOrder (calm V armed).
Proof. split; [done|]. intros u1 u2 u3. apply calm_trans. Qed.

(** ** Tags *)

Lemma tag_eq op p : 0 <= Op_to_u8 op < 256 -> 0 <= p < 2 ^ 56 -> tag op p = Op_to_u8 op * 2 ^ 56 + p.
Proof.
  intros Ho Hp. unfold tag. rewrite Z.shiftl_mul_pow2 by lia. rewrite wrapU_small by lia. by apply lor_low.
Qed.

Lemma tag_op_tag op p : Op_of_u8 (Op_to_u8 op) = op -> 0 <= Op_to_u8 op < 256 -> 0 <= p < 2 ^ 56 ->
  tag_op (tag op p) = op.
Proof.
  intros Hid Ho Hp. unfold tag_op. rewrite tag_eq by done. rewrite Z.shiftr_div_pow2 by lia.
  rewrite Z.div_add_l, Z.div_small, Z.add_0_r, wrapU_small by lia. done.
Qed.

Lemma tag_payload_tag op p : 0 <= Op_to_u8 op < 256 -> 0 <= p < 2 ^ 56 -> tag_payload (tag op p) = p.
Proof.
  intros Ho Hp. unfold tag_payload. rewrite tag_eq by done. change (2 ^ 56 - 1) with (Z.ones 56). rewrite Z.land_ones by lia.
  by rewrite Z.add_comm, Z.mod_add, Z.mod_small by lia.
Qed.

(** ** Keys of a map *)

Definition keys {A} (m : gmap Z A) : list Z := (map_to_list m).*1.

Lemma elem_of_keys {A} (m : gmap Z A) i : i ∈ keys m <-> is_Some (m !! i).
Proof.
  unfold keys. rewrite list_elem_of_fmap. split.
  - intros ((j & x) & -> & Hx%elem_of_map_to_list). by exists x.
  - intros [x Hx]. exists (i, x). by rewrite elem_of_map_to_list.
Qed.

Lemma keys_insert {A} (m : gmap Z A) i x : m !! i = None -> keys (<[i := x]> m) ≡ₚ i :: keys m.
Proof. intros Hi. unfold keys. by rewrite map_to_list_insert. Qed.

Lemma keys_delete {A} (m : gmap Z A) i x : m !! i = Some x -> keys m ≡ₚ i :: keys (delete i m).
Proof. intros Hi. unfold keys. by rewrite <- (map_to_list_delete m i x Hi). Qed.

Lemma keys_update {A} (m : gmap Z A) i x y : m !! i = Some x -> keys (<[i := y]> m) ≡ₚ keys m.
Proof.
  intros Hi. rewrite (keys_delete m i x Hi). rewrite <- insert_delete_eq.
  apply keys_insert. apply lookup_delete_eq.
Qed.

Lemma tag_accept : tag OP_ACCEPT 0 = 0.
Proof. done. Qed.

Lemma tag_recv fd : 0 <= fd < 2 ^ 31 -> tag OP_RECV fd = 2 ^ 56 + fd.
Proof. intros. rewrite tag_eq; [done|done|lia]. Qed.

Lemma tag_send slot : 0 <= slot < 512 -> tag OP_SEND slot = 2 ^ 57 + slot.
Proof. intros. rewrite tag_eq; [done|done|lia]. Qed.

(** ** The invariant *)

Section invariant.
Context (CFG : ShardConfig) {U : Type} `{Kernel U} `{Uring U} (V : KernelView U) (armed : U -> list Sqe).

Definition is_fd (fd : Z) : Prop := 0 <= fd < 2 ^ 31.

Record conn_ok (g : UringGateway) (u : U) (fd : Z) (s : Session.Session) : Prop := {
  cn_fd : Session.fd s = fd /\ is_fd fd;
  cn_wf : Session.session_wf s;
  cn_open : Session.closed_ s = false;
  cn_sid : Session.session_id s < next_session_id_ g;
  cn_route : sid_to_fd_ g !! Session.session_id s = Some fd;
  cn_live : k_open V u fd
}.

(** The requests the gateway makes; the buffer of a send holds the report. *)
Definition sqe_ok (g : UringGateway) (e : Sqe) : Prop :=
  e = mkSqe (prep_multishot_accept (listen_fd_ g)) (tag OP_ACCEPT 0) \/
  (exists fd, is_fd fd /\ e = mkSqe (prep_recv fd BUF_SIZE) (tag OP_RECV fd)) \/
  exists fd slot m, 0 <= slot < 512 /\ send_pool_ g !! slot = Some m /\
    e = mkSqe (prep_send fd slot (hdr_len (out_hdr m))) (tag OP_SEND slot).

(** Completions of such requests. *)
Definition cqe_ok (c : Cqe) : Prop :=
  (cq_data c = tag OP_ACCEPT 0 /\ cq_res c < 2 ^ 31) \/
  (exists fd, is_fd fd /\ cq_data c = tag OP_RECV fd /\ cq_more c = false /\ cq_res c <= BUF_SIZE /\
     (0 < cq_res c -> zlen (cq_buf c) = cq_res c /\ Forall is_byte (cq_buf c))) \/
  (exists slot, 0 <= slot < 512 /\ cq_data c = tag OP_SEND slot /\ cq_more c = false).

Definition new_fds (todo : list Cqe) : list Z := accepted_by [tag OP_ACCEPT 0] todo.

(** The tags of the requests that were prepared and whose last completion was
    not handled yet. *)
Definition outstanding (u : U) (todo : list Cqe) : list Z :=
  (sq_data <$> armed u) ++ (cq_data <$> finals todo).

(** One accept, one receive per connection, and the sends of the slots in
    flight, which are those not on the free stack. *)
Definition accounted (g : UringGateway) (u : U) (todo : list Cqe) (flight : list Z) : Prop :=
  outstanding u todo ≡ₚ tag OP_ACCEPT 0 :: (tag OP_RECV <$> keys (conns_ g)) ++ (tag OP_SEND <$> flight) /\
  flight ++ take (Z.to_nat (free_top_ g)) (free_slots_ g) ≡ₚ seqZ 0 512.

Record pool_ok (g : UringGateway) : Prop := {
  po_pool : zlen (send_pool_ g) = 512;
  po_free : zlen (free_slots_ g) = 512;
  po_top : 0 <= free_top_ g <= 512
}.

Record uring_inv (g : UringGateway) (u : U) (todo : list Cqe) (flight : list Z)
    (ins : list InboundMsg) (outs : list OutboundMsg) : Prop := {
  ui_conn : forall fd s, conns_ g !! fd = Some s -> conn_ok g u fd s;
  ui_route : forall sid fd, sid_to_fd_ g !! sid = Some fd ->
    exists s, conns_ g !! fd = Some s /\ Session.session_id s = sid;
  ui_next : 1 <= next_session_id_ g /\ next_session_id_ g + zlen (new_fds todo) < 2 ^ 32;
  ui_in : Spsc.queue_repr (queue_depth CFG) (inbound_ (shard_ g)) ins;
  ui_out : Spsc.queue_repr (queue_depth CFG) (outbound_ (shard_ g)) outs /\ Forall out_wf outs;
  ui_sqe : Forall (sqe_ok g) (armed u);
  ui_acc : accounted g u todo flight;
  ui_pool : pool_ok g;
  ui_todo : Forall cqe_ok todo;
  ui_new : NoDup (new_fds todo) /\ forall fd, fd ∈ new_fds todo -> conns_ g !! fd = None /\ k_open V u fd
}.

Context `{!UringLaws V armed} (HQ : Spsc.pow2 (queue_depth CFG)).

Lemma get_sqe_ok u : exists u', get_sqe sqe_fuel u = Ok u' /\ calm V armed u u'.
Proof.
  unfold sqe_fuel. cbn [get_sqe]. destruct (u_get_sqe u) as [[] u1] eqn:E1;
    destruct (get_sqe_calm V armed _ _ _ E1) as [C1 Hnext]; [by exists u1|].
  specialize (Hnext eq_refl). destruct (u_get_sqe (u_submit u1)) as [b u2] eqn:E2. cbn [fst] in Hnext. subst b.
  exists u2. split; [done|]. destruct (get_sqe_calm V armed _ _ _ E2) as [C2 _].
  transitivity u1; [done|]. transitivity (u_submit u1); [|done]. apply (submit_calm V armed).
Qed.

(** Calls that change neither requests nor descriptors keep the invariant. *)
Lemma calm_inv g u u' todo flight ins outs :
  calm V armed u u' -> uring_inv g u todo flight ins outs -> uring_inv g u' todo flight ins outs.
Proof.
  intros [A O] [I1 I2 I3 I4 I5 I6 [I7 I7'] I8 I9 [I10 I11]]. split; try done.
  - intros fd s Hs. destruct (I1 fd s Hs). split; try done. by apply O.
  - by rewrite A.
  - split; [|done]. unfold outstanding in *. by rewrite A.
  - split; [done|]. intros fd Hfd. rewrite O. by apply I11.
Qed.

(** ** Membership of tags *)

Lemma flight_range g u todo flight slot : accounted g u todo flight -> slot ∈ flight -> 0 <= slot < 512.
Proof.
  intros [_ Hp] Hin. assert (slot ∈ seqZ 0 512) as Hs by (rewrite <- Hp, elem_of_app; by left).
  apply elem_of_seqZ in Hs. lia.
Qed.

Lemma recv_tag_conn g u todo flight fd :
  (forall fd s, conns_ g !! fd = Some s -> is_fd fd) -> accounted g u todo flight -> is_fd fd ->
  tag OP_RECV fd ∈ outstanding u todo -> is_Some (conns_ g !! fd).
Proof.
  intros Hfds Hacc Hfd Hin. pose proof Hacc as [HP _]. rewrite HP, elem_of_cons, elem_of_app, !list_elem_of_fmap in Hin.
  rewrite tag_recv, tag_accept in Hin by done. unfold is_fd in Hfd. destruct Hin as [Hin|[(f & Hf & Hk)|(slot & Hs & Hk)]].
  - lia.
  - apply elem_of_keys in Hk as [s Hs]. pose proof (Hfds f s Hs) as Rf. rewrite tag_recv in Hf by done.
    assert (f = fd) as <- by lia. by exists s.
  - pose proof (flight_range _ _ _ _ _ Hacc Hk). rewrite tag_send in Hs by done. lia.
Qed.

Lemma send_tag_flight g u todo flight slot :
  (forall fd s, conns_ g !! fd = Some s -> is_fd fd) -> accounted g u todo flight -> 0 <= slot < 512 ->
  tag OP_SEND slot ∈ outstanding u todo -> slot ∈ flight.
Proof.
  intros Hfds Hacc Hfd Hin. pose proof Hacc as [HP _]. rewrite HP, elem_of_cons, elem_of_app, !list_elem_of_fmap in Hin.
  rewrite tag_send, tag_accept in Hin by done. destruct Hin as [Hin|[(f & Hf & Hk)|(t & Hs & Hk)]].
  - lia.
  - apply elem_of_keys in Hk as [s Hs]. pose proof (Hfds f s Hs) as Rf. rewrite tag_recv in Hf by done. unfold is_fd in Rf. lia.
  - pose proof (flight_range _ _ _ _ _ Hacc Hk). rewrite tag_send in Hs by done. by assert (t = slot) as <- by lia.
Qed.

Lemma inv_fds g u todo flight ins outs : uring_inv g u todo flight ins outs ->
  forall fd s, conns_ g !! fd = Some s -> is_fd fd.
Proof. intros HI fd s Hs. by destruct (ui_conn _ _ _ _ _ _ HI fd s Hs) as [[]]. Qed.

(** ** What the gateway does to the shard *)

(** Whole messages were added to the inbound ring, and nothing else changed. *)
Definition takes (sh : Shard) (ins : list InboundMsg) (sh' : Shard) (ins' : list InboundMsg) : Prop :=
  sh' = set_inbound sh (inbound_ sh') /\ exists ms, Forall in_formed ms /\ ins' = ins ++ ms.

Lemma takes_refl sh ins : takes sh ins sh ins.
Proof. split; [by destruct sh|]. exists []. by rewrite app_nil_r. Qed.

Lemma takes_trans sh1 ins1 sh2 ins2 sh3 ins3 : takes sh1 ins1 sh2 ins2 -> takes sh2 ins2 sh3 ins3 -> takes sh1 ins1 sh3 ins3.
Proof.
  intros [E1 (ms1 & F1 & ->)] [E2 (ms2 & F2 & ->)]. split; [by rewrite E2, E1|]. exists (ms1 ++ ms2).
  split; [by apply Forall_app|by rewrite app_assoc].
Qed.

(** ** Completions one by one *)

Lemma outstanding_final u c todo : cq_more c = false ->
  outstanding u (c :: todo) ≡ₚ cq_data c :: outstanding u todo.
Proof.
  intros Hc. unfold outstanding, finals. rewrite filter_cons, decide_True by done.
  rewrite fmap_cons. symmetry. apply Permutation_middle.
Qed.

Lemma outstanding_more u c todo : cq_more c = true -> outstanding u (c :: todo) = outstanding u todo.
Proof. intros Hc. unfold outstanding, finals. rewrite filter_cons, decide_False; [done|by rewrite Hc]. Qed.

Lemma new_fds_accept c todo : cq_data c = tag OP_ACCEPT 0 -> 0 <= cq_res c ->
  new_fds (c :: todo) = cq_res c :: new_fds todo.
Proof.
  intros Hd Hr. unfold new_fds, accepted_by. rewrite filter_cons, decide_True; [done|].
  split; [|done]. rewrite Hd. by left.
Qed.

Lemma new_fds_skip c todo : cq_data c <> tag OP_ACCEPT 0 \/ cq_res c < 0 -> new_fds (c :: todo) = new_fds todo.
Proof.
  intros Hc. unfold new_fds, accepted_by. rewrite filter_cons, decide_False; [done|].
  intros [Hd%list_elem_of_singleton Hr]. destruct Hc; [done|lia].
Qed.

(** A request was prepared. *)
Definition arms (u : U) (e : Sqe) (u' : U) : Prop :=
  armed u' ≡ₚ e :: armed u /\ forall fd, k_open V u' fd <-> k_open V u fd.

Lemma prepare_ok u e : exists u1, get_sqe sqe_fuel u = Ok u1 /\ arms u e (u_prep u1 e).
Proof.
  destruct (get_sqe_ok u) as (u1 & Hget & [A O]). exists u1. split; [done|].
  destruct (prep_arms V armed u1 e) as [A1 O1]. split; [by rewrite A1, A|]. intros fd. by rewrite O1.
Qed.

Lemma outstanding_arms u e u' todo : arms u e u' ->
  outstanding u' todo ≡ₚ sq_data e :: outstanding u todo.
Proof. intros [A _]. unfold outstanding. by rewrite A, fmap_cons. Qed.

(** The completion of a send gives its slot back. *)
Lemma on_send_ok g u c todo flight ins outs slot :
  uring_inv g u (c :: todo) flight ins outs -> 0 <= slot < 512 ->
  cq_data c = tag OP_SEND slot -> cq_more c = false ->
  exists g' flight', free_send_slot g slot = Ok g' /\ uring_inv g' u todo flight' ins outs /\
    (forall s, s ∈ flight' -> s ∈ flight) /\ send_pool_ g' = send_pool_ g /\ shard_ g' = shard_ g.
Proof.
  intros HI Hslot Hdata Hfin. pose proof HI as [I1 I2 I3 I4 I5 I6 I7 [P1 P2 P3] I9 I10].
  pose proof (outstanding_final u c todo Hfin) as Hout. rewrite Hdata in Hout.
  assert (Hin : slot ∈ flight).
  { apply (send_tag_flight g u (c :: todo) flight slot (inv_fds _ _ _ _ _ _ HI) I7 Hslot).
    rewrite Hout. by left. }
  apply list_elem_of_split in Hin as (f1 & f2 & Hfl). assert (HF : flight ≡ₚ slot :: f1 ++ f2)
    by (rewrite Hfl; symmetry; apply Permutation_middle).
  destruct I7 as [A1 A2]. rewrite HF in A2.
  assert (Hlen : zlen (take (Z.to_nat (free_top_ g)) (free_slots_ g)) = free_top_ g) by (apply zlen_take; lia).
  assert (Htop : free_top_ g < 512).
  { apply Permutation_length in A2. rewrite length_app, length_seqZ in A2. unfold zlen in Hlen. simpl in A2. lia. }
  unfold free_send_slot. rewrite aset_Ok by lia. cbn [mbind res_bind]. rewrite wrapU_small by lia.
  eexists _, (f1 ++ f2). split; [reflexivity|]. split; [|split; [|done]].
  2: { intros s Hs. rewrite HF. by right. }
  assert (Hskip : new_fds (c :: todo) = new_fds todo).
  { apply new_fds_skip. left. rewrite Hdata, tag_send, tag_accept by done. lia. }
  rewrite Hskip in *. inversion I9; subst. split; try done.
  - intros fd s Hs. destruct (I1 fd s Hs). by split.
  - split.
    + rewrite Hout, HF in A1. rewrite fmap_cons in A1.
      apply (Permutation_cons_inv (a := tag OP_SEND slot)). cbn [conns_ set_slots]. rewrite A1.
      etrans; [apply perm_skip; symmetry; apply Permutation_middle|apply perm_swap].
    + cbn [free_top_ free_slots_ set_slots]. rewrite <- A2. rewrite insertZ_nat by lia.
      replace (Z.to_nat (free_top_ g + 1)) with (S (Z.to_nat (free_top_ g))) by lia.
      rewrite (take_S_r _ _ slot) by (apply list_lookup_insert_eq; unfold zlen in P2; lia).
      rewrite take_insert_ge by lia. rewrite app_assoc. rewrite <- Permutation_cons_append. done.
  - split; cbn [send_pool_ free_slots_ free_top_ set_slots]; [done|by rewrite zlen_insertZ|lia].
Qed.

(** The completion of a receive: what follows for the connection [fd] with
    session [s], which becomes [s'], and the shard, which becomes [sh']. *)
Section received.
Context (g : UringGateway) (u : U) (c : Cqe) (todo : list Cqe) (flight : list Z).
Context (ins ins' : list InboundMsg) (outs : list OutboundMsg) (fd : Z) (s s' : Session.Session) (sh' : Shard).
Context (HI : uring_inv g u (c :: todo) flight ins outs).
Context (Hfd : is_fd fd) (Hdata : cq_data c = tag OP_RECV fd) (Hfin : cq_more c = false).
Context (Hs : conns_ g !! fd = Some s) (Hid : Session.session_id s' = Session.session_id s).
Context (Hin' : Spsc.queue_repr (queue_depth CFG) (inbound_ sh') ins') (Hout' : outbound_ sh' = outbound_ (shard_ g)).

Let g1 := set_conns (set_shard g sh') (<[fd := s']> (conns_ g)) (sid_to_fd_ g).

Lemma recv_out : outstanding u (c :: todo) ≡ₚ tag OP_RECV fd :: outstanding u todo.
Proof. rewrite <- Hdata. by apply outstanding_final. Qed.

Lemma recv_new : new_fds (c :: todo) = new_fds todo.
Proof. apply new_fds_skip. left. rewrite Hdata, tag_recv, tag_accept by done. unfold is_fd in Hfd. lia. Qed.

Lemma new_not_conn f : f ∈ new_fds todo -> f <> fd.
Proof. intros Hf ->. rewrite <- recv_new in Hf. apply (ui_new _ _ _ _ _ _ HI) in Hf as [Hno _]. congruence. Qed.

Lemma close_conn_ok : let '(g', u') := close_conn g1 fd u in
  uring_inv g' u' todo flight ins' outs /\ send_pool_ g' = send_pool_ g /\ shard_ g' = sh'.
Proof.
  pose proof HI as [I1 I2 I3 I4 I5 I6 [A1 A2] I8 I9 [I10 I11]]. rewrite recv_new in *. rewrite recv_out in A1. rewrite <- Hout' in I5.
  unfold close_conn. cbn [conns_ set_conns g1]. rewrite lookup_insert_eq, Hid.
  destruct (close_armed V armed u fd) as [C1 C2]. apply Forall_cons in I9 as [_ I9].
  assert (Hdel : delete fd (<[fd := s']> (conns_ g)) = delete fd (conns_ g)) by apply delete_insert_eq.
  split; [|done]. split; cbn [conns_ sid_to_fd_ next_session_id_ shard_ set_conns set_shard]; rewrite ?Hdel; try done.
  - intros f t [Hne Ht]%lookup_delete_Some. destruct (I1 f t Ht) as [B1 B2 B3 B4 B5 B6]. split; try done.
    + cbn. rewrite lookup_delete_ne; [done|]. intros Heq. destruct (I1 fd s Hs) as [_ _ _ _ B5' _]. congruence.
    + by apply C2.
  - intros sid f [Hne Hf]%lookup_delete_Some. destruct (I2 sid f Hf) as (t & Ht & <-). exists t. split; [|done].
    apply lookup_delete_Some. split; [|done]. intros ->. congruence.
  - by rewrite C1.
  - split; [|done]. cbn [conns_ set_conns]. apply (Permutation_cons_inv (a := tag OP_RECV fd)).
    unfold outstanding in *. rewrite C1, A1, (keys_delete _ _ _ Hs), fmap_cons. apply perm_swap.
  - by destruct I8.
  - split; [done|]. intros f Hf. destruct (I11 f Hf) as [Hno Ho]. split; [by apply lookup_delete_None; right|].
    apply C2. split; [done|]. by apply new_not_conn.
Qed.

Lemma rearm_ok u' :
  Session.session_wf s' -> Session.closed_ s' = false -> Session.fd s' = fd ->
  arms u (mkSqe (prep_recv fd BUF_SIZE) (tag OP_RECV fd)) u' ->
  uring_inv g1 u' todo flight ins' outs.
Proof.
  intros HS' Hcl' Hfd' Harm. pose proof HI as [I1 I2 I3 I4 I5 I6 [A1 A2] I8 I9 [I10 I11]].
  rewrite recv_new in *. rewrite recv_out in A1. rewrite <- Hout' in I5. pose proof Harm as [C1 C2].
  apply Forall_cons in I9 as [_ I9].
  split; cbn [conns_ sid_to_fd_ next_session_id_ shard_ set_conns set_shard g1]; try done.
  - intros f t Ht. destruct (I1 _ _ Hs) as [B1 B2 B3 B4 B5 B6]. destruct (decide (f = fd)) as [->|Hne].
    + rewrite lookup_insert_eq in Ht. injection Ht as <-. split; try done.
      * cbn. by rewrite Hid.
      * cbn. by rewrite Hid.
      * by apply C2.
    + rewrite lookup_insert_ne in Ht by done. destruct (I1 f t Ht). split; try done. by apply C2.
  - intros sid f (t & Ht & <-)%I2. destruct (decide (f = fd)) as [->|Hne].
    + exists s'. rewrite lookup_insert_eq. split; [done|]. congruence.
    + exists t. by rewrite lookup_insert_ne.
  - rewrite C1. constructor; [|done]. right. left. by eexists.
  - split; [|done]. rewrite (outstanding_arms _ _ _ _ Harm). unfold g1. cbn [sq_data conns_ set_conns].
    rewrite (keys_update _ _ _ s' Hs). done.
  - by destruct I8.
  - split; [done|]. intros f Hf. destruct (I11 f Hf) as [Hno Ho].
    split; [rewrite lookup_insert_ne; [done|]; symmetry; by apply new_not_conn|]. by apply C2.
Qed.

End received.

Definition grown (l l' : list InboundMsg) : Prop := exists ms, Forall in_formed ms /\ l' = l ++ ms.

#[local] Instance grown_preorder : PreOrder grown.
Proof.
  split.
  - intros l. exists []. by rewrite app_nil_r.
  - intros l1 l2 l3 (ms1 & F1 & ->) (ms2 & F2 & ->). exists (ms1 ++ ms2). split; [by apply Forall_app|by rewrite app_assoc].
Qed.

Lemma consume_ring s q ins : Session.session_wf s -> Spsc.queue_repr (queue_depth CFG) q ins ->
  exists n s' q' ins', @Session.consume _ (uring_sink CFG) s q = Ok (n, s', q') /\
    Session.session_wf s' /\ Spsc.queue_repr (queue_depth CFG) q' ins' /\
    Session.fd s' = Session.fd s /\ Session.session_id s' = Session.session_id s /\
    exists ms, Forall in_formed ms /\ ins' = ins ++ ms.
Proof.
  intros HS Hq. destruct (Session.closed_ s) eqn:Hcl.
  - exists 0, s, q, ins. unfold Session.consume. rewrite Hcl. split_and!; try done. exists []. by rewrite app_nil_r.
  - pose proof (@Session.consume_spec _ _ _ _ _ (ring_sink_laws _ HQ) s q ins HS Hcl Hq) as Hc.
    destruct (Session.spec_consume _ _ _ _ _) as [[[n v'] r] b] eqn:E.
    destruct Hc as (s' & q' & ? & ? & ? & ? & ? & ? & ?). exists n, s', q', v'. split_and!; try done.
    eapply (Session.spec_consume_grows (fifo_push (queue_depth CFG)) grown); [|apply HS|apply Forall_take, HS|exact E].
    intros l m l' Hm _ Hp. unfold fifo_push in Hp. destruct (_ <? _); [|done]. injection Hp as <-. exists [m]. split; [by constructor|done].
Qed.

Lemma on_recv_ok g u c todo flight ins outs fd :
  uring_inv g u (c :: todo) flight ins outs -> is_fd fd -> cq_data c = tag OP_RECV fd -> cq_more c = false ->
  cq_res c <= BUF_SIZE -> (0 < cq_res c -> zlen (cq_buf c) = cq_res c /\ Forall is_byte (cq_buf c)) ->
  exists g' u' ins', on_recv CFG g fd (cq_res c) (cq_buf c) u = Ok (g', u') /\
    uring_inv g' u' todo flight ins' outs /\ send_pool_ g' = send_pool_ g /\ takes (shard_ g) ins (shard_ g') ins'.
Proof.
  intros HI Hfd Hdata Hfin Hle Hbuf.
  assert (is_Some (conns_ g !! fd)) as [s Hs].
  { apply (recv_tag_conn g u (c :: todo) flight fd (inv_fds _ _ _ _ _ _ HI) (ui_acc _ _ _ _ _ _ HI) Hfd).
    rewrite (outstanding_final u c todo Hfin), Hdata. by left. }
  destruct (ui_conn _ _ _ _ _ _ HI fd s Hs) as [[Hf _] HS Hcl Hsid Hroute Hopen].
  unfold on_recv. rewrite Hs. destruct (Z.leb_spec (cq_res c) 0) as [Hneg|Hpos].
  - pose proof (close_conn_ok g u c todo flight ins ins outs fd s s (shard_ g) HI Hfd Hdata Hfin Hs eq_refl
      (ui_in _ _ _ _ _ _ HI) eq_refl) as Hc.
    rewrite insert_id in Hc by done. assert (set_conns (set_shard g (shard_ g)) (conns_ g) (sid_to_fd_ g) = g) as Hg
      by (by destruct g). rewrite Hg in Hc. destruct (close_conn g fd u) as [g' u'].
    destruct Hc as (? & ? & Esh). exists g', u', ins. rewrite Esh. split_and!; try done. apply takes_refl.
  - destruct (Hbuf Hpos) as [Hlen Hbytes]. unfold BUF_SIZE in Hle. rewrite wrapU_small by lia.
    destruct (Session.append_spec s (cq_buf c) (cq_res c) HS Hbytes ltac:(lia)) as (s1 & -> & HS1 & _ & _ & _ & Hf1 & Hi1).
    cbn [mbind res_bind].
    destruct (consume_ring s1 (inbound_ (shard_ g)) ins HS1 (ui_in _ _ _ _ _ _ HI))
      as (n & s2 & q & ins2 & -> & HS2 & Hq2 & Hf2 & Hi2 & Hms). cbn [mbind res_bind].
    assert (Ht : takes (shard_ g) ins (set_inbound (shard_ g) q) ins2) by (by split).
    destruct (Session.closed s2) eqn:Hcl2.
    + pose proof (close_conn_ok g u c todo flight ins ins2 outs fd s s2 (set_inbound (shard_ g) q) HI Hfd Hdata Hfin Hs
        ltac:(congruence) Hq2 eq_refl) as Hc. cbv zeta in Hc.
      destruct (close_conn _ fd u) as [g' u']. destruct Hc as (? & ? & Esh). exists g', u', ins2. by rewrite Esh.
    + unfold arm_recv. cbn [conns_ set_conns]. rewrite lookup_insert_eq.
      destruct (prepare_ok u (mkSqe (prep_recv fd BUF_SIZE) (tag OP_RECV fd))) as (u1 & -> & Harm). cbn [mbind res_bind].
      eexists _, _, ins2. split; [reflexivity|]. split; [|by split].
      apply (rearm_ok g u c todo flight ins ins2 outs fd s s2 (set_inbound (shard_ g) q)); try done; congruence.
Qed.

(** A multishot accept that has ended is armed again. *)
Lemma accept_again_ok g u c todo : cq_data c = tag OP_ACCEPT 0 -> Forall (sqe_ok g) (armed u) ->
  exists u', (if negb (cq_more c) then u ← arm_accept g u; Ok (g, u) else Ok (g, u)) = Ok (g, u') /\
    outstanding u' todo ≡ₚ outstanding u (c :: todo) /\ Forall (sqe_ok g) (armed u') /\
    forall fd, k_open V u' fd <-> k_open V u fd.
Proof.
  intros Hdata Hsq. destruct (cq_more c) eqn:Hm; cbn [negb].
  - exists u. split; [done|]. by rewrite outstanding_more.
  - unfold arm_accept.
    destruct (prepare_ok u (mkSqe (prep_multishot_accept (listen_fd_ g)) (tag OP_ACCEPT 0))) as (u1 & -> & Harm).
    cbn [mbind res_bind]. eexists. split; [reflexivity|].
    rewrite (outstanding_arms _ _ _ _ Harm), (outstanding_final _ _ _ Hm), Hdata. split; [done|].
    destruct Harm as [-> Ho]. split; [|done]. constructor; [by left|done].
Qed.

(** The state after a connection was accepted, up to the requests. *)
Definition connected (g : UringGateway) (cfd : Z) : UringGateway :=
  let sid := next_session_id_ g in
  let g := set_next g (u32 (sid + 1)) in
  set_conns g (try_emplace (conns_ g) cfd sid) (<[sid := cfd]> (sid_to_fd_ g)).

Lemma connected_inv g u c todo flight ins outs u' :
  uring_inv g u (c :: todo) flight ins outs -> cq_data c = tag OP_ACCEPT 0 -> 0 <= cq_res c < 2 ^ 31 ->
  outstanding u' todo ≡ₚ tag OP_RECV (cq_res c) :: outstanding u (c :: todo) ->
  Forall (sqe_ok g) (armed u') -> (forall fd, k_open V u' fd <-> k_open V u fd) ->
  uring_inv (connected g (cq_res c)) u' todo flight ins outs.
Proof.
  intros [I1 I2 I3 I4 I5 I6 [A1 A2] I8 I9 [I10 I11]] Hdata Hres Hout Hsq Ho.
  rewrite new_fds_accept in I3, I10, I11 by (done || lia). rewrite zlen_cons in I3.
  apply NoDup_cons in I10 as [Hnin Hnd]. destruct (I11 (cq_res c) ltac:(by left)) as [Hno Hlive].
  apply Forall_cons in I9 as [_ I9]. pose proof (zlen_nonneg (new_fds todo)) as Hz.
  assert (Hconns : conns_ (connected g (cq_res c)) =
    <[cq_res c := Session.session_init (cq_res c) (next_session_id_ g)]> (conns_ g))
    by (cbn; unfold try_emplace; by rewrite Hno).
  assert (Hnext : next_session_id_ (connected g (cq_res c)) = next_session_id_ g + 1) by (cbn; apply wrapU_small; lia).
  split; rewrite ?Hconns, ?Hnext; try done.
  - intros f s Hs. destruct (decide (f = cq_res c)) as [->|Hne].
    + rewrite lookup_insert_eq in Hs. injection Hs as <-. split; rewrite ?Hnext; cbn; try done; try lia.
      * apply Session.session_init_wf. unfold is_u. lia.
      * by rewrite lookup_insert_eq.
      * by apply Ho.
    + rewrite lookup_insert_ne in Hs by done. destruct (I1 f s Hs) as [B1 B2 B3 B4 B5 B6].
      split; rewrite ?Hnext; try done; [lia| |by apply Ho]. cbn. rewrite lookup_insert_ne; [done|lia].
  - intros sid f. cbn. destruct (decide (sid = next_session_id_ g)) as [->|Hne].
    + rewrite lookup_insert_eq. intros [= <-]. eexists. by rewrite lookup_insert_eq.
    + rewrite lookup_insert_ne by done. intros (s & Hs & <-)%I2. exists s. split; [|done].
      rewrite lookup_insert_ne; [done|]. congruence.
  - lia.
  - split; [|done]. rewrite Hout, A1, Hconns, (keys_insert _ _ _ Hno), fmap_cons. apply perm_swap.
  - by destruct I8.
  - split; [done|]. intros f Hf. destruct (I11 f ltac:(by right)) as [Hf1 Hf2].
    split; [|by apply Ho]. rewrite lookup_insert_ne; [done|]. by intros <-.
Qed.

Lemma on_accept_ok g u c todo flight ins outs :
  uring_inv g u (c :: todo) flight ins outs -> cq_data c = tag OP_ACCEPT 0 -> cq_res c < 2 ^ 31 ->
  exists g' u', on_accept g c u = Ok (g', u') /\
    uring_inv g' u' todo flight ins outs /\ send_pool_ g' = send_pool_ g /\ shard_ g' = shard_ g.
Proof.
  intros HI Hdata Hlt. pose proof HI as [I1 I2 I3 I4 I5 I6 [A1 A2] I8 I9 [I10 I11]].
  unfold on_accept. destruct (Z.leb_spec 0 (cq_res c)) as [Hpos|Hneg].
  - fold (connected g (cq_res c)). destruct (setsockopt_calm V armed u (cq_res c)) as [C1 C2].
    assert (Hno : conns_ g !! cq_res c = None).
    { apply (I11 (cq_res c)). rewrite new_fds_accept by done. by left. }
    unfold arm_recv. assert (conns_ (connected g (cq_res c)) !! cq_res c
      = Some (Session.session_init (cq_res c) (next_session_id_ g))) as ->
      by (cbn; unfold try_emplace; by rewrite Hno, lookup_insert_eq).
    destruct (prepare_ok (k_setsockopt u (cq_res c)) (mkSqe (prep_recv (cq_res c) BUF_SIZE) (tag OP_RECV (cq_res c))))
      as (u1 & -> & Harm). cbn [mbind res_bind]. set (u2 := u_prep u1 _) in *.
    assert (Hsq : Forall (sqe_ok (connected g (cq_res c))) (armed u2)).
    { destruct Harm as [-> _]. constructor; [|by rewrite C1]. right. left. exists (cq_res c). split; [done|done]. }
    destruct (accept_again_ok (connected g (cq_res c)) u2 c todo Hdata Hsq) as (u3 & -> & Hout & Hsq3 & Ho).
    eexists _, u3. split; [reflexivity|]. split; [|done]. apply (connected_inv g u c); try done.
    + rewrite Hout, (outstanding_arms _ _ _ _ Harm). cbn [sq_data]. unfold outstanding. by rewrite C1.
    + intros fd. rewrite Ho. destruct Harm as [_ ->]. apply C2.
  - cbn [mbind res_bind]. destruct (accept_again_ok g u c todo Hdata I6) as (u' & -> & Hout & Hsq & Ho).
    exists g, u'. split; [done|]. split; [|done]. rewrite new_fds_skip in I3, I10, I11 by (by right).
    apply Forall_cons in I9 as [_ I9]. split; try done.
    + intros fd s Hs. destruct (I1 fd s Hs). split; try done. by apply Ho.
    + split; [|done]. by rewrite Hout.
    + split; [done|]. intros fd Hf. rewrite Ho. by apply I11.
Qed.

Lemma handle_cqe_ok g u c todo flight ins outs :
  uring_inv g u (c :: todo) flight ins outs ->
  exists g' u' flight' ins', handle_cqe CFG g c u = Ok (g', u') /\
    uring_inv g' u' todo flight' ins' outs /\ (forall s, s ∈ flight' -> s ∈ flight) /\ send_pool_ g' = send_pool_ g /\
    takes (shard_ g) ins (shard_ g') ins'.
Proof.
  intros HI. pose proof (ui_todo _ _ _ _ _ _ HI) as HT. apply Forall_cons in HT as [Hc _]. unfold handle_cqe.
  destruct Hc as [[Hd Hr]|[(fd & Hfd & Hd & Hm & Hle & Hbuf)|(slot & Hs & Hd & Hm)]]; rewrite Hd.
  - rewrite tag_op_tag by (done || lia).
    destruct (on_accept_ok g u c todo flight ins outs HI Hd Hr) as (g' & u' & ? & ? & ? & Esh). exists g', u', flight, ins.
    rewrite Esh. split_and!; try done. apply takes_refl.
  - pose proof Hfd as Hfd'. unfold is_fd in Hfd'.
    rewrite tag_op_tag, tag_payload_tag by (done || lia). rewrite wrapS_small by lia.
    destruct (on_recv_ok g u c todo flight ins outs fd HI Hfd Hd Hm Hle Hbuf) as (g' & u' & ins' & ? & ? & ? & ?).
    by exists g', u', flight, ins'.
  - rewrite tag_op_tag, tag_payload_tag by (done || lia). rewrite wrapU_small by lia.
    destruct (on_send_ok g u c todo flight ins outs slot HI Hs Hd Hm) as (g' & flight' & -> & ? & ? & ? & Esh).
    exists g', u, flight', ins. rewrite Esh. split_and!; try done. apply takes_refl.
Qed.

Lemma handle_cqes_ok todo g u flight ins outs :
  uring_inv g u todo flight ins outs ->
  exists g' u' flight' ins', handle_cqes CFG todo g u = Ok (g', u') /\
    uring_inv g' u' [] flight' ins' outs /\ (forall s, s ∈ flight' -> s ∈ flight) /\ send_pool_ g' = send_pool_ g /\
    takes (shard_ g) ins (shard_ g') ins'.
Proof.
  revert g u flight ins. induction todo as [|c todo IH]; intros g u flight ins HI; cbn [handle_cqes].
  { exists g, u, flight, ins. split_and!; try done. apply takes_refl. }
  destruct (handle_cqe_ok g u c todo flight ins outs HI) as (g1 & u1 & f1 & i1 & -> & HI1 & Hf1 & Hp1 & Ht1). cbn [mbind res_bind].
  destruct (IH g1 u1 f1 i1 HI1) as (g' & u' & f' & i' & ? & ? & Hf' & Hp' & Ht'). exists g', u', f', i'.
  split_and!; [done|done| |congruence|by eapply takes_trans]. intros s Hs. by apply Hf1, Hf'.
Qed.

(** ** A batch of completions *)

Lemma keys_nodup {A} (m : gmap Z A) : NoDup (keys m).
Proof. apply NoDup_fst_map_to_list. Qed.

(** No two outstanding requests have the same tag. *)
Lemma outstanding_nodup g u todo flight ins outs : uring_inv g u todo flight ins outs -> NoDup (outstanding u todo).
Proof.
  intros HI. pose proof (ui_acc _ _ _ _ _ _ HI) as Hacc. pose proof Hacc as [-> A2].
  assert (Hfl : NoDup flight).
  { assert (Hn : NoDup (flight ++ take (Z.to_nat (free_top_ g)) (free_slots_ g))) by (rewrite A2; apply NoDup_seqZ).
    by apply NoDup_app in Hn as (? & _). }
  assert (Hk : forall fd, fd ∈ keys (conns_ g) -> tag OP_RECV fd = 2 ^ 56 + fd /\ is_fd fd).
  { intros fd [s Hs]%elem_of_keys. pose proof (inv_fds _ _ _ _ _ _ HI fd s Hs). by rewrite tag_recv. }
  assert (Hf : forall slot, slot ∈ flight -> tag OP_SEND slot = 2 ^ 57 + slot /\ 0 <= slot < 512).
  { intros slot Hs. pose proof (flight_range _ _ _ _ _ Hacc Hs). by rewrite tag_send. }
  unfold is_fd in Hk. rewrite tag_accept. apply NoDup_cons. rewrite elem_of_app, !list_elem_of_fmap. split.
  { intros [(fd & E & [? ?]%Hk)|(slot & E & [? ?]%Hf)]; lia. }
  apply NoDup_app. split_and!.
  - apply NoDup_fmap_2_strong; [|apply keys_nodup]. intros a b [? ?]%Hk [? ?]%Hk ?. lia.
  - intros x (fd & -> & [? ?]%Hk)%list_elem_of_fmap (slot & E & [? ?]%Hf)%list_elem_of_fmap. lia.
  - apply NoDup_fmap_2_strong; [|done]. intros a b [? ?]%Hf [? ?]%Hf ?. lia.
Qed.

Lemma accept_tags g u : Forall (sqe_ok g) (armed u) -> tag OP_ACCEPT 0 ∈ outstanding u [] ->
  forall d, d ∈ sq_data <$> filter is_accept (armed u) <-> d ∈ [tag OP_ACCEPT 0].
Proof.
  intros Hsq Hin d. rewrite Forall_forall in Hsq. unfold outstanding in Hin. cbn in Hin. rewrite app_nil_r in Hin.
  rewrite list_elem_of_singleton, list_elem_of_fmap. split.
  - intros (e & -> & [Ha He]%list_elem_of_filter). by destruct (Hsq e He) as [->|[(fd & _ & ->)|(fd & slot & m & _ & _ & ->)]].
  - intros ->. apply list_elem_of_fmap in Hin as (e & Hd & He). exists e. split; [done|].
    apply list_elem_of_filter. split; [|done].
    destruct (Hsq e He) as [->|[(fd & Hfd & ->)|(fd & slot & m & Hs & _ & ->)]]; [done| |].
    + cbn [sq_data] in Hd. unfold is_fd in Hfd. rewrite tag_recv, tag_accept in Hd by done. lia.
    + cbn [sq_data] in Hd. rewrite tag_send, tag_accept in Hd by done. lia.
Qed.

Lemma answers_cqe_ok g e c : sqe_ok g e -> answers e c -> cqe_ok c.
Proof.
  intros [->|[(fd & Hfd & ->)|(fd & slot & m & Hs & _ & ->)]] [Hd Ha]; cbn [sq_data sq_op] in *.
  - by left.
  - right. left. exists fd. destruct Ha as (? & ? & ?). split_and!; done.
  - right. right. by exists slot.
Qed.

Lemma begin_batch g u cs u' flight ins outs :
  uring_inv g u [] flight ins outs -> u_cqes u = (cs, u') -> next_session_id_ g + zlen cs < 2 ^ 32 ->
  uring_inv g u' cs flight ins outs.
Proof.
  intros HI Hcs Hbound. pose proof (outstanding_nodup _ _ _ _ _ _ HI) as Hnd.
  unfold outstanding in Hnd. cbn in Hnd. rewrite app_nil_r in Hnd. destruct HI as [I1 I2 I3 I4 I5 I6 [A1 A2] I8 I9 I10].
  destruct (cqes_complete V armed u cs u' Hnd Hcs) as [(ended & E1 & E2) Hans Hnew].
  assert (Hin : tag OP_ACCEPT 0 ∈ outstanding u []) by (rewrite A1; by left).
  assert (Heq : accepted_by (sq_data <$> filter is_accept (armed u)) cs = new_fds cs).
  { unfold new_fds, accepted_by. f_equal. apply list_filter_iff. intros c.
    by rewrite (accept_tags g u I6 Hin (cq_data c)). }
  rewrite Heq in Hnew. destruct Hnew as (N1 & N2 & N3). split; try done.
  - intros fd s Hs. destruct (I1 fd s Hs). split; try done. apply N3. by right.
  - split; [apply I3|]. unfold new_fds, accepted_by, zlen in *. rewrite length_fmap.
    pose proof (length_filter (fun c => cq_data c ∈ [tag OP_ACCEPT 0] /\ 0 <= cq_res c) cs). lia.
  - rewrite E1 in I6. by apply Forall_app in I6 as [_ ?].
  - split; [|done]. rewrite <- A1. unfold outstanding. cbn [finals filter]. rewrite E1, fmap_app, <- E2.
    rewrite Permutation_app_comm. by rewrite app_nil_r.
  - rewrite Forall_forall in I6. eapply Forall_impl; [exact Hans|]. intros c (e & He & Ha). by eapply answers_cqe_ok; [apply I6|].
  - split; [done|]. intros fd Hfd. split; [|apply N3; by left].
    destruct (conns_ g !! fd) as [s|] eqn:Es; [|done]. destruct (I1 fd s Es). by destruct (N2 fd Hfd).
Qed.

(** ** Sending reports *)

(** The report [m] is in flight: a send of its length from its buffer. *)
Definition queued (g : UringGateway) (flight : list Z) (m : OutboundMsg) (e : Sqe) : Prop :=
  exists fd slot, slot ∈ flight /\ sid_to_fd_ g !! hdr_session_id (out_hdr m) = Some fd /\ send_pool_ g !! slot = Some m /\
    e = mkSqe (prep_send fd slot (hdr_len (out_hdr m))) (tag OP_SEND slot).

(** The reports whose client is connected. *)
Definition routed (g : UringGateway) (ms : list OutboundMsg) : list OutboundMsg :=
  filter (fun m => is_Some (sid_to_fd_ g !! hdr_session_id (out_hdr m))) ms.

(** A slot was taken from the stack and holds [m]. *)
Lemma send_slot_inv g u u' flight ins outs fd slot m :
  uring_inv g u [] flight ins outs -> free_slots_ g !! (free_top_ g - 1) = Some slot -> 0 < free_top_ g ->
  arms u (mkSqe (prep_send fd slot (hdr_len (out_hdr m))) (tag OP_SEND slot)) u' ->
  let g' := set_slots g (<[slot := m]> (send_pool_ g)) (free_slots_ g) (free_top_ g - 1) in
  uring_inv g' u' [] (slot :: flight) ins outs /\ (slot ∉ flight) /\ 0 <= slot < 512.
Proof.
  intros HI Hslot Htop Harm g'. pose proof HI as [I1 I2 I3 I4 I5 I6 [A1 A2] [P1 P2 P3] I9 [I10 I11]].
  pose proof Harm as [C1 C2].
  assert (Htake : take (Z.to_nat (free_top_ g)) (free_slots_ g) = take (Z.to_nat (free_top_ g - 1)) (free_slots_ g) ++ [slot]).
  { replace (Z.to_nat (free_top_ g)) with (S (Z.to_nat (free_top_ g - 1))) by lia.
    apply take_S_r. by rewrite <- lookupZ_nat by lia. }
  assert (HP : slot :: flight ++ take (Z.to_nat (free_top_ g - 1)) (free_slots_ g) ≡ₚ seqZ 0 512).
  { rewrite <- A2, Htake, app_assoc. apply Permutation_cons_append. }
  assert (Hnd : NoDup (slot :: flight)).
  { assert (Hn : NoDup (slot :: flight ++ take (Z.to_nat (free_top_ g - 1)) (free_slots_ g)))
      by (rewrite HP; apply NoDup_seqZ). rewrite app_comm_cons in Hn. by apply NoDup_app in Hn as (? & _). }
  apply NoDup_cons in Hnd as [Hnin _].
  assert (Rs : 0 <= slot < 512).
  { assert (slot ∈ seqZ 0 512) as Hs by (rewrite <- HP; by left). apply elem_of_seqZ in Hs. lia. }
  split; [|done]. split; try done.
  - intros f s Hs. destruct (I1 f s Hs). split; try done. by apply C2.
  - rewrite C1. constructor.
    + right. right. exists fd, slot, m. split; [done|]. split; [|done]. cbn. apply lookupZ_insertZ_eq. lia.
    + rewrite Forall_forall in I6 |- *. intros e He. destruct (I6 e He) as [He1|[He1|(f & t & m' & Rt & Hm & He1)]];
        [by left|by right; left|]. right. right. exists f, t, m'. split; [done|]. split; [|done]. cbn.
      rewrite lookupZ_insertZ_ne; [done|]. intros <-. apply Hnin.
      apply (send_tag_flight g u [] flight slot (inv_fds _ _ _ _ _ _ HI) (conj A1 A2) Rs).
      unfold outstanding. cbn. rewrite app_nil_r. apply list_elem_of_fmap. by exists e; subst.
  - split; [|exact HP]. rewrite (outstanding_arms _ _ _ _ Harm), A1. cbn [sq_data]. rewrite fmap_cons. cbn [conns_ set_slots g'].
    rewrite <- (Permutation_middle (tag OP_RECV <$> keys (conns_ g))). apply perm_swap.
  - split; cbn; [by rewrite zlen_insertZ|done|lia].
  - split; [done|]. intros f Hf. rewrite C2. by apply I11.
Qed.

(** What one report, or a sequence of reports, does to the pool and the
    requests: buffers in flight are kept, [sends] are the new requests. *)
Record queues (g : UringGateway) (u : U) (flight : list Z) (ms : list OutboundMsg)
    (g' : UringGateway) (u' : U) (flight' : list Z) (sends : list Sqe) : Prop := {
  qu_flight : forall s, s ∈ flight -> s ∈ flight' /\ send_pool_ g' !! s = send_pool_ g !! s;
  qu_armed : armed u' ≡ₚ sends ++ armed u;
  qu_sends : Forall2 (queued g' flight') ms sends;
  qu_conns : conns_ g' = conns_ g /\ sid_to_fd_ g' = sid_to_fd_ g /\ next_session_id_ g' = next_session_id_ g
}.

Lemma send_report_ok g u flight ins outs fd m :
  uring_inv g u [] flight ins outs -> out_wf m ->
  sid_to_fd_ g !! hdr_session_id (out_hdr m) = Some fd ->
  exists g' u' flight' sends, send_report g fd m u = Ok (g', u') /\ uring_inv g' u' [] flight' ins outs /\
    queues g u flight (if free_top_ g =? 0 then [] else [m]) g' u' flight' sends /\
    free_top_ g' = (if free_top_ g =? 0 then 0 else free_top_ g - 1) /\ shard_ g' = shard_ g /\
    (forall s, s ∈ flight' -> s ∈ flight \/ sends <> []).
Proof.
  intros HI Hwf Hr. pose proof (ui_pool _ _ _ _ _ _ HI) as [P1 P2 P3]. unfold send_report, alloc_send_slot.
  destruct (Z.eqb_spec (free_top_ g) 0) as [E0|Hne].
  - cbn [mbind res_bind]. change (INVALID_SLOT =? INVALID_SLOT) with true. cbv iota.
    rewrite Hwf, bytes_at_Ok by (pose proof (zlen_nonneg (out_enc m)); lia). cbn [mbind res_bind].
    destruct (k_send u fd _) as [r u1] eqn:Es. pose proof (send_calm V armed _ _ _ _ _ Es) as Hc.
    exists g, u1, flight, []. split; [done|]. split; [by eapply calm_inv|]. destruct Hc as [C1 C2].
    split; [|split_and!; [lia|done|by left]]. split; try done.
  - assert (Htop : 0 < free_top_ g) by lia. rewrite wrapU_small by lia.
    destruct (lookupZ_is_Some (free_slots_ g) (free_top_ g - 1) ltac:(lia)) as [slot Hslot].
    rewrite (aget_Ok _ _ _ Hslot). cbn [mbind res_bind].
    destruct (prepare_ok u (mkSqe (prep_send fd slot (hdr_len (out_hdr m))) (tag OP_SEND slot))) as (u1 & Hget & Harm).
    destruct (send_slot_inv g u _ flight ins outs fd slot m HI Hslot Htop Harm) as (HI' & Hnin & Rs).
    rewrite (proj2 (Z.eqb_neq slot INVALID_SLOT)) by (unfold INVALID_SLOT, UINT32_MAX; lia).
    cbn [send_pool_ set_slots]. rewrite aset_Ok by lia. cbn [mbind res_bind]. rewrite Hget. cbn [mbind res_bind].
    eexists _, _, (slot :: flight), [_]. split; [reflexivity|]. split; [exact HI'|].
    split; [|split_and!; [done|done|intros s Hs; by right]]. destruct Harm as [C1 C2]. split; try done.
    + intros s Hs. split; [by right|]. cbn. apply lookupZ_insertZ_ne. by intros ->.
    + constructor; [|done]. exists fd, slot. split; [by left|]. split; [done|]. split; [|done]. cbn.
      apply lookupZ_insertZ_eq. lia.
Qed.

(** The invariant with one report taken off the ring. *)
Lemma pop_inv g u flight ins m outs q :
  uring_inv g u [] flight ins (m :: outs) -> Spsc.queue_repr (queue_depth CFG) q outs ->
  uring_inv (set_shard g (set_outbound (shard_ g) q)) u [] flight ins outs.
Proof.
  intros [I1 I2 I3 I4 [I5 I5'] I6 I7 [P1 P2 P3] I9 I10] Hq. apply Forall_cons in I5' as [_ I5']. split; try done.
  intros fd s Hs. by destruct (I1 fd s Hs).
Qed.

Lemma queues_trans g1 u1 f1 ms1 g2 u2 f2 sends1 ms2 g3 u3 f3 sends2 :
  queues g1 u1 f1 ms1 g2 u2 f2 sends1 -> queues g2 u2 f2 ms2 g3 u3 f3 sends2 ->
  queues g1 u1 f1 (ms1 ++ ms2) g3 u3 f3 (sends1 ++ sends2).
Proof.
  intros [Q1 Q2 Q3 (Q4 & Q5 & Q6)] [R1 R2 R3 (R4 & R5 & R6)]. split.
  - intros s Hs. destruct (Q1 s Hs) as [Hs2 E1]. destruct (R1 s Hs2) as [Hs3 E2]. split; [done|congruence].
  - rewrite R2, Q2, app_assoc. apply Permutation_app_tail, Permutation_app_comm.
  - apply Forall2_app; [|done]. eapply Forall2_impl; [exact Q3|].
    intros m e (fd & slot & Hin & Hr & Hp & ->). destruct (R1 slot Hin) as [Hs3 E2].
    exists fd, slot. rewrite E2, R5. done.
  - split_and!; congruence.
Qed.

Lemma drain_loop_ok fuel g u flight ins outs :
  uring_inv g u [] flight ins outs -> (length outs < fuel)%nat ->
  exists g' u' flight' sends, drain_loop CFG fuel g u = Ok (g', u') /\ uring_inv g' u' [] flight' ins [] /\
    queues g u flight (take (Z.to_nat (free_top_ g)) (routed g outs)) g' u' flight' sends /\
    shard_ g' = set_outbound (shard_ g) (outbound_ (shard_ g')).
Proof.
  revert g u flight outs. induction fuel as [|fuel IH]; intros g u flight outs HI Hfuel; [lia|]. cbn [drain_loop].
  pose proof (ui_out _ _ _ _ _ _ HI) as [Hq Hwf].
  destruct (Spsc.pop_spec _ HQ _ _ Hq) as (q & Hpop & Hq'). rewrite Hpop. cbn [mbind res_bind].
  destruct outs as [|m outs]; cbn [head tail] in *.
  { exists g, u, flight, []. split; [done|]. split; [done|].
    change (routed g []) with (@nil OutboundMsg). rewrite take_nil. split; [by split|]. by destruct (shard_ g). }
  simpl in Hfuel. pose proof (pop_inv g u flight ins m outs q HI Hq') as HI1.
  set (g1 := set_shard g (set_outbound (shard_ g) q)) in *. apply Forall_cons in Hwf as [Hm _].
  change (sid_to_fd_ g1) with (sid_to_fd_ g). unfold routed. rewrite filter_cons.
  destruct (sid_to_fd_ g !! hdr_session_id (out_hdr m)) as [fd|] eqn:Hr.
  - destruct (send_report_ok g1 u flight ins outs fd m HI1 Hm Hr)
      as (g2 & u2 & f2 & sends1 & -> & HI2 & HQ2 & Htop & Hsh & _). cbn [mbind res_bind].
    destruct (IH g2 u2 f2 outs HI2 ltac:(lia)) as (g' & u' & f' & sends2 & Hrun & HI' & HQ' & Hsh').
    exists g', u', f', (sends1 ++ sends2). split; [done|]. split; [done|]. split; [|by rewrite Hsh', Hsh].
    pose proof (queues_trans _ _ _ _ _ _ _ _ _ _ _ _ _ HQ2 HQ') as HT. rewrite decide_True by done.
    unfold routed in HT. replace (sid_to_fd_ g2) with (sid_to_fd_ g) in HT by (symmetry; apply HQ2).
    change (free_top_ g1) with (free_top_ g) in *. rewrite Htop in HT.
    pose proof (po_top _ (ui_pool _ _ _ _ _ _ HI)) as Rt. destruct (Z.eqb_spec (free_top_ g) 0) as [E0|Hne].
    + rewrite E0. destruct HT. by split.
    + replace (Z.to_nat (free_top_ g)) with (S (Z.to_nat (free_top_ g - 1))) by lia. cbn [take]. destruct HT. by split.
  - destruct (IH g1 u flight outs HI1 ltac:(lia)) as (g' & u' & f' & sends & Hrun & HI' & HQ' & Hsh').
    exists g', u', f', sends. split; [done|]. split; [done|]. split; [|by rewrite Hsh']. rewrite decide_False by (by intros []).
    destruct HQ'. by split.
Qed.

Lemma uring_drain_ok g u flight ins outs :
  uring_inv g u [] flight ins outs ->
  exists g' u' flight' sends, drain_outbound CFG g u = Ok (g', u') /\ uring_inv g' u' [] flight' ins [] /\
    queues g u flight (take (Z.to_nat (free_top_ g)) (routed g outs)) g' u' flight' sends /\
    shard_ g' = set_outbound (shard_ g) (outbound_ (shard_ g')).
Proof.
  intros HI. apply drain_loop_ok; [done|]. pose proof (proj1 (ui_out _ _ _ _ _ _ HI)) as Hq.
  apply Spsc.queue_repr_len in Hq. unfold zlen in Hq. lia.
Qed.

End invariant.

End UringInv.
