(* ===== verification/UringProps.v ===== *)
(** * What the io_uring gateway guarantees

    For every liburing that keeps [UringLaws]: construction and polls keep the
    accounting of requests, buffers in flight are not written to, and reports
    become sends of whole frames.  [SimRing] is a small ring over [Sim] that
    satisfies the laws; concrete runs use it. *)

From stdpp Require Import gmap.
From S2P Require Import Prelude Messages Codec Spsc Sink Session OrderBook Shard ShardRouter Kernel Gateway GatewayInv UringGateway UringInv.

Module UringProps.
Import Shard UringGateway UringInv.

Section guarantees.
Context (CFG : ShardConfig) {U : Type} `{Kernel U} `{Uring U} (V : KernelView U) (armed : U -> list Sqe).
Context `{!UringLaws V armed} (HQ : Spsc.pow2 (queue_depth CFG)).

Lemma uring_init_ok sh port sqpoll cpu u ins outs :
  Spsc.queue_repr (queue_depth CFG) (inbound_ sh) ins -> Spsc.queue_repr (queue_depth CFG) (outbound_ sh) outs ->
  Forall out_wf outs ->
  exists r u', uring_init sh port sqpoll cpu u = Ok (r, u') /\
    match r with inl _ => True | inr g => uring_inv CFG V armed g u' [] [] ins outs end.
Proof.
  intros Hin Hout Hwf. unfold uring_init.
  destruct (k_socket u) as [lfd u1]. destruct (lfd <? 0); [by eexists _, _|].
  destruct (k_bind _ lfd port) as [r2 u2]. destruct (negb (r2 =? 0)); [by eexists _, _|].
  destruct (k_listen u2 lfd 128) as [r3 u3]. destruct (negb (r3 =? 0)); [by eexists _, _|].
  destruct (k_getsockname u3 lfd) as [b u4]. destruct (u_queue_init u4 RING_DEPTH sqpoll cpu) as [r5 u5] eqn:E5.
  destruct (Z.eqb_spec r5 0) as [->|]; cbn [negb]; [|by eexists _, _].
  apply (queue_init_empty V armed) in E5. set (g := mkUring _ _ _ _ _ _ _ _ _ _). unfold arm_accept.
  destruct (prepare_ok V armed u5 (mkSqe (prep_multishot_accept (listen_fd_ g)) (tag OP_ACCEPT 0))) as (u6 & -> & [A O]).
  cbn [mbind res_bind]. eexists _, _. split; [reflexivity|].
  refine (calm_inv CFG V armed _ _ _ _ _ _ _ (submit_calm V armed _) _). rewrite E5 in A. split; try done.
  - rewrite A. constructor; [by left|done].
  - split; [|done]. unfold outstanding. by rewrite A.
  - split; [constructor|]. intros fd Hfd. by apply not_elem_of_nil in Hfd.
Qed.

(** Exactly the connections have a receive outstanding. *)
Lemma recv_per_conn g u flight ins outs fd : uring_inv CFG V armed g u [] flight ins outs ->
  is_Some (conns_ g !! fd) <-> exists e, e ∈ armed u /\ sq_op e = prep_recv fd BUF_SIZE.
Proof.
  intros HI. pose proof (ui_sqe _ _ _ _ _ _ _ _ _ HI) as Hsq. rewrite Forall_forall in Hsq.
  pose proof (inv_fds _ _ _ _ _ _ _ _ _ HI) as Hfds. split.
  - intros [s Hs]. pose proof (Hfds fd s Hs) as Rf. assert (Hin : tag OP_RECV fd ∈ sq_data <$> armed u).
    { rewrite <- (app_nil_r (sq_data <$> armed u)). change (tag OP_RECV fd ∈ outstanding armed u []).
      rewrite (proj1 (ui_acc _ _ _ _ _ _ _ _ _ HI)), elem_of_cons, elem_of_app. right. left.
      apply list_elem_of_fmap. exists fd. split; [done|]. apply elem_of_keys. by exists s. }
    apply list_elem_of_fmap in Hin as (e & Hd & He). exists e. split; [done|]. unfold is_fd in Rf.
    destruct (Hsq e He) as [->|[(f & Hf & ->)|(f & slot & m & Hs' & _ & ->)]]; cbn [sq_data sq_op] in *.
    + rewrite tag_recv, tag_accept in Hd by done. lia.
    + unfold is_fd in Hf. rewrite !tag_recv in Hd by done. f_equal. lia.
    + rewrite tag_recv, tag_send in Hd by done. lia.
  - intros (e & He & Hop). destruct (Hsq e He) as [->|[(f & Hf & ->)|(f & slot & m & _ & _ & ->)]]; [done| |done].
    cbn in Hop. injection Hop as ->.
    apply (recv_tag_conn armed g u [] flight fd Hfds (ui_acc _ _ _ _ _ _ _ _ _ HI) Hf).
    unfold outstanding. apply elem_of_app. left. apply list_elem_of_fmap.
    eexists. split; [|exact He]. done.
Qed.

Lemma poll_inv g t u flight ins outs :
  uring_inv CFG V armed g u [] flight ins outs ->
  (forall u1 cs u2, u_cqes u1 = (cs, u2) -> next_session_id_ g + zlen cs < 2 ^ 32) ->
  exists g' u' flight' ins', poll_once CFG g t u = Ok (g', u') /\
    uring_inv CFG V armed g' u' [] flight' ins' [] /\
    (forall fd, is_Some (conns_ g' !! fd) <-> exists e, e ∈ armed u' /\ sq_op e = prep_recv fd BUF_SIZE) /\
    (forall slot, slot ∈ flight -> send_pool_ g' !! slot = send_pool_ g !! slot) /\
    takes (set_outbound (shard_ g) (outbound_ (shard_ g'))) ins (shard_ g') ins'.
Proof.
  intros HI Hbound. unfold poll_once.
  destruct (uring_drain_ok CFG V armed HQ g u flight ins outs HI) as (g1 & u1 & f1 & sends & -> & HI1 & [Q1 _ _ (_ & _ & Q4)] & Hsh1).
  cbn [mbind res_bind]. set (u2 := if 0 <? t then _ else _).
  assert (HI2 : uring_inv CFG V armed g1 u2 [] f1 ins []).
  { eapply calm_inv; [|exact HI1]. unfold u2. destruct (0 <? t); [|apply (submit_calm V armed)].
    transitivity (u_submit u1); [apply (submit_calm V armed)|apply (wait_calm V armed)]. }
  destruct (u_cqes u2) as [cs u3] eqn:Ecs. specialize (Hbound _ _ _ Ecs). rewrite <- Q4 in Hbound.
  pose proof (begin_batch CFG V armed g1 u2 cs u3 f1 ins [] HI2 Ecs Hbound) as HI3.
  destruct (handle_cqes_ok CFG V armed HQ cs g1 u3 f1 ins [] HI3) as (g' & u' & f' & ins' & -> & HI' & _ & Hp & Ht).
  cbn [mbind res_bind].
  assert (HI4 : uring_inv CFG V armed g' (u_cq_advance u' (zlen cs)) [] f' ins' [])
    by (eapply calm_inv; [apply (advance_calm V armed)|exact HI']).
  eexists g', _, f', ins'. split; [reflexivity|]. split; [done|]. split; [intros fd; by eapply recv_per_conn|].
  split; [intros slot Hs; rewrite Hp; by apply Q1|].
  assert (Eo : outbound_ (shard_ g') = outbound_ (shard_ g1)) by (by destruct Ht as [-> _]). by rewrite Eo, <- Hsh1.
Qed.

(** C21: The io_uring gateway never loses track of the kernel's requests: for every
    liburing that keeps its laws, a poll returns without undefined behaviour,
    takes all reports off the outbound ring, and keeps its accounting: one
    accept and exactly one receive per connection are outstanding (so a
    completion never names a connection that is gone, and the kernel never
    writes into a freed buffer), the slots of outstanding sends and the free
    stack make up the send pool, and a buffer that was in flight is not written
    to; what it adds to the inbound ring are whole messages, and it touches
    nothing else of the shard; as long as fewer than [2^32] sessions were
    numbered. *)
Theorem uring_poll_ok g t u flight ins outs :
  uring_inv CFG V armed g u [] flight ins outs ->
  (forall u1 cs u2, u_cqes u1 = (cs, u2) -> next_session_id_ g + zlen cs < 2 ^ 32) ->
  exists g' u' flight' ins', poll_once CFG g t u = Ok (g', u') /\
    uring_inv CFG V armed g' u' [] flight' ins' [] /\
    (forall fd, is_Some (conns_ g' !! fd) <-> exists e, e ∈ armed u' /\ sq_op e = prep_recv fd BUF_SIZE) /\
    (forall slot, slot ∈ flight -> send_pool_ g' !! slot = send_pool_ g !! slot) /\
    takes (set_outbound (shard_ g) (outbound_ (shard_ g'))) ins (shard_ g') ins'.
Proof. apply poll_inv. Qed.

(** C22: Reports become sends: [drain_outbound] empties the outbound ring, and the
    reports whose client is connected, up to the number of free slots, are each
    queued as one send to that client's descriptor, of the whole frame, from a
    slot that holds the report; the requests and buffers in flight stay as they
    are, and with enough free slots no report is left out. *)
Theorem uring_reports_queued g u flight ins outs :
  uring_inv CFG V armed g u [] flight ins outs ->
  exists g' u' flight' sends, drain_outbound CFG g u = Ok (g', u') /\ uring_inv CFG V armed g' u' [] flight' ins [] /\
    armed u' ≡ₚ sends ++ armed u /\
    Forall2 (queued g' flight') (take (Z.to_nat (free_top_ g)) (routed g outs)) sends /\
    (forall slot, slot ∈ flight -> send_pool_ g' !! slot = send_pool_ g !! slot) /\
    (zlen outs <= free_top_ g -> length sends = length (routed g outs)).
Proof.
  intros HI. destruct (uring_drain_ok CFG V armed HQ g u flight ins outs HI)
    as (g' & u' & f' & sends & Hrun & HI' & [Q1 Q2 Q3 _] & _).
  exists g', u', f', sends. split_and!; try done; [intros slot Hs; by apply Q1|]. intros Hle.
  apply Forall2_length in Q3. rewrite <- Q3, length_take.
  pose proof (length_filter (fun m => is_Some (sid_to_fd_ g !! hdr_session_id (out_hdr m))) outs) as Hf.
  unfold routed, zlen in *. lia.
Qed.

End guarantees.

(** ** A ring over the simulated kernel *)

Import Sim.

Record SimRing : Type := mkRing { sr_k : SimKernel; sr_armed : list Sqe }.

Definition lift {A} (r : SimRing) (x : A * SimKernel) : A * SimRing := (x.1, mkRing x.2 (sr_armed r)).
Definition lift_ (r : SimRing) (k : SimKernel) : SimRing := mkRing k (sr_armed r).

#[export] Instance ring_kernel : Kernel SimRing := {
  k_socket r := lift r (k_socket (sr_k r));
  k_bind r fd p := lift r (k_bind (sr_k r) fd p);
  k_listen r fd n := lift r (k_listen (sr_k r) fd n);
  k_getsockname r fd := lift r (k_getsockname (sr_k r) fd);
  k_setsockopt r fd := lift_ r (k_setsockopt (sr_k r) fd);
  k_fcntl_getfl r fd := lift r (k_fcntl_getfl (sr_k r) fd);
  k_fcntl_setfl r fd f := lift_ r (k_fcntl_setfl (sr_k r) fd f);
  k_accept r fd := lift r (k_accept (sr_k r) fd);
  k_recv r fd n := lift r (k_recv (sr_k r) fd n);
  k_send r fd bs := lift r (k_send (sr_k r) fd bs);
  k_close r fd := lift_ r (k_close (sr_k r) fd);
  k_epoll_create r := lift r (k_epoll_create (sr_k r));
  k_epoll_add r e fd := lift_ r (k_epoll_add (sr_k r) e fd);
  k_epoll_del r e fd := lift_ r (k_epoll_del (sr_k r) e fd);
  k_epoll_wait r e n t := lift r (k_epoll_wait (sr_k r) e n t)
}.

(** The completion of one request, if it can complete. *)
Definition complete_one (e : Sqe) (k : SimKernel) : option (Cqe * SimKernel) :=
  match sq_op e with
  | prep_multishot_accept _ =>
      match sk_waiting k with
      | c :: cs =>
          if fresh_fd (sk_live k) <? 2 ^ 31 then
            let '(fd, k) := sim_new k cs c in Some (mkCqe (sq_data e) fd true [], k)
          else None
      | [] => None
      end
  | prep_recv fd len =>
      if len <? 0 then None
      else
        '(b, rx) ← take_block fd len (sk_rx k);
        Some (mkCqe (sq_data e) (zlen b) false (u8 <$> b),
              mkSim (sk_waiting k) rx (sk_tx k) (sk_live k) (sk_listen k) (sk_room k))
  | prep_send _ _ len => Some (mkCqe (sq_data e) len false [], k)
  end.

(** The first request that can complete. *)
Fixpoint complete_first (es : list Sqe) (k : SimKernel) : option (Cqe * list Sqe * SimKernel) :=
  match es with
  | [] => None
  | e :: es =>
      match complete_one e k with
      | Some (c, k') => Some (c, (if cq_more c then [e] else []) ++ es, k')
      | None => '(c, es', k') ← complete_first es k; Some (c, e :: es', k')
      end
  end.

#[export] Instance sim_ring : Uring SimRing := {
  u_queue_init r _ _ _ := (0, mkRing (sr_k r) []);
  u_get_sqe r := (true, r);
  u_prep r e := mkRing (sr_k r) (sr_armed r ++ [e]);
  u_submit r := r;
  u_wait r _ := r;
  u_cqes r := match complete_first (sr_armed r) (sr_k r) with
              | Some (c, es, k) => ([c], mkRing k es)
              | None => ([], r)
              end;
  u_cq_advance r _ := r;
  u_queue_exit r := mkRing (sr_k r) []
}.

Definition ring_view : KernelView SimRing := {|
  k_open r fd := k_open sim_view (sr_k r) fd;
  k_out r fd := k_out sim_view (sr_k r) fd;
  k_backlog r := k_backlog sim_view (sr_k r);
  k_unread r := k_unread sim_view (sr_k r)
|}.

Lemma complete_first_spec es k c es' k' : complete_first es k = Some (c, es', k') ->
  exists e a b, es = a ++ e :: b /\ es' = a ++ (if cq_more c then [e] else []) ++ b /\ complete_one e k = Some (c, k').
Proof.
  revert es'. induction es as [|e es IH]; intros es'; [done|]. cbn [complete_first].
  destruct (complete_one e k) as [[c1 k1]|] eqn:E.
  - intros [= <- <- <-]. by exists e, [], es.
  - destruct (complete_first es k) as [[[c1 es1] k1]|]; [|done]. intros [= <- <- <-].
    destruct (IH es1 eq_refl) as (e' & a & b & -> & -> & ?). by exists e', (e :: a), b.
Qed.

(** What a completion does to the descriptors. *)
Lemma complete_one_spec e k c k' : complete_one e k = Some (c, k') ->
  answers e c /\ (is_accept e = false -> cq_more c = false /\ sk_live k' = sk_live k) /\
  (is_accept e = true -> cq_more c = true /\ 0 <= cq_res c /\ (cq_res c ∉ sk_live k) /\
     sk_live k' = {[cq_res c]} ∪ sk_live k).
Proof.
  unfold complete_one, answers, is_accept. destruct (sq_op e) as [fd|fd len|fd slot len].
  - destruct (sk_waiting k) as [|w ws]; [done|]. destruct (Z.ltb_spec (fresh_fd (sk_live k)) (2 ^ 31)); [|done].
    intros [= <- <-]. cbn. split; [done|]. split; [done|]. intros _. split; [done|].
    pose proof (fresh_fd_pos (sk_live k)). split; [lia|]. split; [|done]. intros Hin%fresh_fd_bound. lia.
  - destruct (Z.ltb_spec len 0); [done|]. destruct (take_block fd len (sk_rx k)) as [[b rx]|] eqn:E; [|done].
    intros [= <- <-]. assert (Hlen : 0 <= len) by done. destruct (take_block_size _ _ _ _ _ Hlen E) as (Hb & _). cbn.
    split; [|done]. split; [done|]. split; [done|]. split; [done|]. intros _. split; [unfold zlen; by rewrite length_fmap|].
    apply Forall_fmap, Forall_true. intros x. apply wrapU_bound. lia.
  - intros [= <- <-]. done.
Qed.

Lemma ring_completes r cs r' : NoDup (sq_data <$> sr_armed r) -> u_cqes r = (cs, r') ->
  completes ring_view sr_armed r cs r'.
Proof.
  intros Hnd. cbn. destruct (complete_first (sr_armed r) (sr_k r)) as [[[c es] k]|] eqn:E.
  2: { intros [= <- <-]. split; [by exists []|done|]. cbn. split; [constructor|].
       split; [intros fd Hf; by apply not_elem_of_nil in Hf|]. intros fd. pose proof (not_elem_of_nil fd). tauto. }
  intros [= <- <-]. destruct (complete_first_spec _ _ _ _ _ E) as (e & a & b & Ha & -> & Hone).
  destruct (complete_one_spec _ _ _ _ Hone) as (Hans & Hoth & Hacc).
  assert (He : e ∈ sr_armed r) by (rewrite Ha; apply elem_of_app; right; by left).
  assert (Htag : cq_data c ∈ sq_data <$> filter is_accept (sr_armed r) <-> is_accept e = true).
  { rewrite <- (proj1 Hans). rewrite list_elem_of_fmap. split.
    - intros (e' & Hd & [Hi He']%list_elem_of_filter). destruct (decide (e = e')) as [->|Hne]; [by apply Is_true_eq_true|].
      exfalso. rewrite Ha in Hnd, He'. rewrite fmap_app, fmap_cons in Hnd.
      apply NoDup_app in Hnd as (_ & Hd1 & [Hd2 _]%NoDup_cons). rewrite elem_of_app, elem_of_cons in He'.
      destruct He' as [He'|[->|He']]; [|done|].
      + apply (Hd1 (sq_data e)); [rewrite Hd; by apply list_elem_of_fmap_2|by left].
      + apply Hd2. rewrite Hd. by apply list_elem_of_fmap_2.
    - intros Hi. exists e. split; [done|]. apply list_elem_of_filter. split; [by apply Is_true_eq_left|done]. }
  assert (Hnew : accepted_by (sq_data <$> filter is_accept (sr_armed r)) [c] = if is_accept e then [cq_res c] else []).
  { unfold accepted_by. rewrite filter_cons. destruct (is_accept e) eqn:Hi.
    - rewrite decide_True; [done|]. split; [by apply Htag|]. by apply Hacc.
    - rewrite decide_False; [done|]. intros [Hin _]. by apply Htag in Hin. }
  split.
  - cbn [sr_armed]. rewrite Ha. unfold finals. rewrite filter_cons. destruct (cq_more c) eqn:Hm.
    + exists []. by rewrite decide_False.
    + exists [e]. rewrite decide_True by done. split; [cbn [app]; symmetry; apply Permutation_middle|].
      cbn. by rewrite (proj1 Hans).
  - constructor; [|done]. by exists e.
  - cbn zeta. rewrite Hnew. destruct (is_accept e) eqn:Hi.
    + destruct (Hacc eq_refl) as (_ & _ & Hno & Hlive). split; [apply NoDup_singleton|].
      split; [by intros fd ->%list_elem_of_singleton|]. intros fd. cbn. rewrite Hlive, list_elem_of_singleton, elem_of_union, elem_of_singleton. tauto.
    + destruct (Hoth eq_refl) as [_ Hlive]. split; [constructor|].
      split; [intros fd Hf; by apply not_elem_of_nil in Hf|]. intros fd. cbn. rewrite Hlive.
      pose proof (not_elem_of_nil fd). tauto.
Qed.

#[export] Instance sim_ring_laws : UringLaws ring_view sr_armed.
Proof.
  split.
  - intros r b r' [= <- <-]. done.
  - intros r e. split; [|done]. cbn. symmetry. apply Permutation_cons_append.
  - done.
  - done.
  - done.
  - intros r fd. by split.
  - intros r fd bs n r' [= _ <-]. by split.
  - intros r fd. split; [done|]. intros f. cbn. rewrite elem_of_difference, elem_of_singleton. tauto.
  - by intros r d b n r' [= <-].
  - apply ring_completes.
Qed.

Lemma ring_cqes_short r cs r' : u_cqes r = (cs, r') -> zlen cs <= 1.
Proof. cbn. destruct (complete_first _ _) as [[[c es] k]|]; by intros [= <- _]. Qed.

(** ** One client *)

Definition demo_bytes : list Z :=
  cenc c_NewOrder (mkNewOrder (mkHeader 32 NEW_ORDER 0 99) 1 1050 10 1 SELL GTC).
Definition demo_u : SimRing := mkRing (mkSim [[demo_bytes]] [] ∅ {[0; 1; 2]} 0 4096) [].

Definition demo_started : res (UringGateway * SimRing) :=
  match uring_init ShardRouter.demo_shard0 9000 false UINT32_MAX demo_u with
  | Ok (inr g, u) => Ok (g, u)
  | _ => Err AssertFail
  end.

Lemma demo_shard_ring (A : Type) (zero : A) : Spsc.queue_repr 4 (Spsc.queue_init 4 zero) [].
Proof. apply (Spsc.queue_init_repr 4 Spsc.pow2_4). Qed.

Lemma demo_started_inv : exists g u, demo_started = Ok (g, u) /\ next_session_id_ g = 1 /\
  uring_inv ShardRouter.demo_cfg2 ring_view sr_armed g u [] [] [] [].
Proof.
  destruct (uring_init_ok ShardRouter.demo_cfg2 ring_view sr_armed ShardRouter.demo_shard0 9000 false UINT32_MAX demo_u [] []
    (demo_shard_ring _ _) (demo_shard_ring _ _) ltac:(done)) as (r & u & Hinit & HI).
  unfold demo_started. rewrite Hinit. destruct r as [e|g]; [vm_compute in Hinit; discriminate Hinit|].
  exists g, u. split; [done|]. split; [|done]. vm_compute in Hinit. by injection Hinit as <- _.
Qed.

(** The first poll accepts the client, the second receives its order. *)
Lemma uring_poll_ok_witness :
  exists g u g' u' flight' ins', demo_started = Ok (g, u) /\ poll_once ShardRouter.demo_cfg2 g 10 u = Ok (g', u') /\
    uring_inv ShardRouter.demo_cfg2 ring_view sr_armed g' u' [] flight' ins' [].
Proof.
  destruct demo_started_inv as (g & u & Hs & Hn & HI).
  destruct (uring_poll_ok ShardRouter.demo_cfg2 ring_view sr_armed Spsc.pow2_4 g 10 u [] [] [] HI) as (g' & u' & f' & i' & Hrun & HI' & _).
  - intros u1 cs u2 Hcs%ring_cqes_short. lia.
  - exists g, u, g', u', f', i'. split; [exact Hs|]. split; [exact Hrun|exact HI'].
Defined.

(** The shard has acted between polls. *)
Lemma set_shard_inv CFG {U : Type} `{Kernel U} (V : KernelView U) armed g u todo flight ins outs sh' ins' outs' :
  uring_inv CFG V armed g u todo flight ins outs ->
  Spsc.queue_repr (queue_depth CFG) (inbound_ sh') ins' -> Spsc.queue_repr (queue_depth CFG) (outbound_ sh') outs' ->
  Forall out_wf outs' -> uring_inv CFG V armed (set_shard g sh') u todo flight ins' outs'.
Proof.
  intros [I1 I2 I3 I4 I5 I6 I7 [P1 P2 P3] I9 I10] Hin Hout Hwf. split; try done.
  intros fd s Hs. by destruct (I1 fd s Hs).
Qed.

(** After the client was accepted, an acknowledgement for it is in the ring. *)
Definition demo_ack (id : Z) : OutboundMsg := out_ack (mkAck (mkHeader 24 ACK 0 1) id 5).
Definition demo_acked : Shard :=
  match Spsc.push 4 (outbound_ ShardRouter.demo_shard0) (demo_ack 7) with
  | Ok (_, q) => set_outbound ShardRouter.demo_shard0 q
  | Err _ => ShardRouter.demo_shard0
  end.

Lemma demo_acked_ring : Spsc.queue_repr 4 (outbound_ demo_acked) [demo_ack 7].
Proof.
  destruct (Spsc.push_spec 4 Spsc.pow2_4 (outbound_ ShardRouter.demo_shard0) [] (demo_ack 7) (demo_shard_ring _ _))
    as (q & Hpush & Hq). unfold demo_acked. by rewrite Hpush.
Qed.

Lemma demo_connected_inv : exists g u flight ins,
  ('(g, u) ← demo_started; poll_once ShardRouter.demo_cfg2 g 10 u) = Ok (g, u) /\
  uring_inv ShardRouter.demo_cfg2 ring_view sr_armed g u [] flight ins [].
Proof.
  destruct demo_started_inv as (g & u & Hs & Hn & HI). rewrite Hs. cbn [mbind res_bind].
  destruct (poll_inv ShardRouter.demo_cfg2 ring_view sr_armed Spsc.pow2_4 g 10 u [] [] [] HI)
    as (g' & u' & f' & i' & Hrun & HI' & _).
  - intros u1 cs u2 Hcs%ring_cqes_short. lia.
  - by exists g', u', f', i'.
Qed.

Lemma uring_reports_queued_witness :
  exists g u g' u', ('(g, u) ← demo_started; poll_once ShardRouter.demo_cfg2 g 10 u) = Ok (g, u) /\
    drain_outbound ShardRouter.demo_cfg2 (set_shard g demo_acked) u = Ok (g', u') /\
    length (sr_armed u') = S (length (sr_armed u)).
Proof.
  destruct demo_connected_inv as (g & u & flight & ins & Hrun & HI).
  pose proof (set_shard_inv _ _ _ g u [] flight ins [] demo_acked [] [demo_ack 7] HI (demo_shard_ring _ _) demo_acked_ring
    ltac:(by repeat constructor)) as HI'.
  destruct (uring_reports_queued ShardRouter.demo_cfg2 ring_view sr_armed Spsc.pow2_4 _ u flight [] [demo_ack 7] HI')
    as (g' & u' & f' & sends & Hdrain & _ & Hperm & _ & _ & Hall).
  exists g, u, g', u'. split; [exact Hrun|]. split; [exact Hdrain|].
  apply Permutation_length in Hperm. rewrite Hperm, length_app, Hall;
    vm_compute in Hrun; injection Hrun as <- <-; [reflexivity|by vm_compute].
Defined.

(** ** Reports out of order *)

Definition burst_cfg : ShardConfig := mkConfig 8 16 1024 1 4.

Fixpoint push_acks (n : nat) (id : Z) (q : Spsc.SpscQueue OutboundMsg) : res (Spsc.SpscQueue OutboundMsg) :=
  match n with
  | O => Ok q
  | S n => '(_, q) ← Spsc.push 1024 q (demo_ack id); push_acks n (id + 1) q
  end.

(** A connected client, then 513 reports for it at once. *)
Definition burst : res (UringGateway * SimRing) :=
  sh ← shard_init burst_cfg 1000 5 0 [];
  match uring_init sh 9000 false UINT32_MAX (mkRing (mkSim [[]] [] ∅ {[0; 1; 2]} 0 4096) []) with
  | Ok (inr g, u) =>
      '(g, u) ← poll_once burst_cfg g 10 u;
      q ← push_acks 513 1 (outbound_ (shard_ g));
      drain_outbound burst_cfg (set_shard g (set_outbound (shard_ g) q)) u
  | _ => Err AssertFail
  end.

(** A full send pool reorders reports: of 513 reports for one client, the last
    is written to the socket at once, while the 512 before it are still waiting
    to be submitted. *)
Theorem full_pool_overtakes :
  exists g u, burst = Ok (g, u) /\ k_out ring_view u 4 = out_enc (demo_ack 513) /\
    zlen (filter (fun e => Z.shiftr (sq_data e) 56 = Op_to_u8 OP_SEND) (sr_armed u)) = 512.
Proof.
  assert (H : match burst with
              | Ok (g, u) => Some (k_out ring_view u 4,
                  zlen (filter (fun e => Z.shiftr (sq_data e) 56 = Op_to_u8 OP_SEND) (sr_armed u)))
              | Err _ => None
              end = Some (out_enc (demo_ack 513), 512)) by (vm_compute; reflexivity).
  destruct burst as [[g u]|]; [|discriminate H]. exists g, u. split; [done|]. injection H as H1 H2. split; [exact H1|exact H2].
Qed.

End UringProps.
