(* ===== verification/UringSystem.v ===== *)
(** * The running exchange over io_uring

    [UringGateway] and its shard as one transition system, polls and turns of
    the shard's thread in any order, with the same clients as in [System]: prices do not overflow
    against the base price and cancels carry tokens that some client was sent. *)

From stdpp Require Import gmap relations.
From S2P Require Import Prelude Messages Order LevelBitmap Pool PriceLevel OrderHandle OrderBook Spsc Sink Codec Session.
From S2P Require Import BookSpec BookInv BookMatch BookRefine BookLaws BookAbs BookProps BookSession.
From S2P Require Import Shard ShardWork ShardInv ShardProps ShardTokens ShardRouter Kernel Gateway GatewayInv GatewayProps Exchange System.
From S2P Require Import UringGateway UringInv UringProps.

Module UringSystem.
Import OrderHandle OrderBook Shard ShardInv ShardProps ShardTokens UringGateway UringInv UringProps.

Section system.
Context (CFG : ShardConfig) (base tick_size : Z) (HC : config_ok CFG).
Context {U : Type} `{Kernel U} `{Uring U} (V : KernelView U) (armed : U -> list Sqe) `{!UringLaws V armed}.

Record World : Type := mkWorld {
  w_gateway : UringGateway;
  w_ring : U;
  w_box : list OutboundMsg;            (* reports the thread has still to push *)
  w_sent : list Z;       (* tokens sent to clients *)
  w_taken : Z            (* requests the shard took *)
}.

Abbreviation shard_wf := (shard_wf CFG base tick_size).
Abbreviation waiting q := (Spsc.contents (queue_depth CFG) q).
Abbreviation fair := (System.fair base).

Inductive exchange_step : World -> World -> Prop :=
| exchange_poll g u box sent n t g' u' :
    (forall u1 cs u2, u_cqes u1 = (cs, u2) -> next_session_id_ g + zlen cs < 2 ^ 32) ->
    poll_once CFG g t u = Ok (g', u') -> Forall (fair sent) (waiting (inbound_ (shard_ g'))) ->
    exchange_step (mkWorld g u box sent n)
      (mkWorld g' u' box (sent ++ acked_tokens (waiting (outbound_ (shard_ g)))) n)
| exchange_turn g u box sent n th' :
    thread_turn CFG (mkThread (shard_ g) box) = Ok th' ->
    exchange_step (mkWorld g u box sent n)
      (mkWorld (set_shard g (th_shard th')) u (th_outbox th') sent (n + taking CFG (mkThread (shard_ g) box))).

(** The accounting of the gateway and the tokens of the shard. *)
Record world_inv (w : World) (flight : list Z) (ins : list InboundMsg) (outs : list OutboundMsg) : Prop := {
  wi_uring : uring_inv CFG V armed (w_gateway w) (w_ring w) [] flight ins outs;
  wi_serving : serving_inv CFG base tick_size 
    (mkServing (mkThread (shard_ (w_gateway w)) (w_box w)) (w_sent w) (w_taken w)) ins outs
}.

Lemma world_waiting w flight ins outs : world_inv w flight ins outs ->
  waiting (inbound_ (shard_ (w_gateway w))) = ins /\ waiting (outbound_ (shard_ (w_gateway w))) = outs.
Proof.
  intros [_ [_ Hi Ho _ _ _ _]]. split; by apply (Spsc.contents_repr _ (cf_ring _ HC)).
Qed.

(** A poll: the reports leave, whole requests arrive, the books stay. *)
Lemma uring_world_poll g u box sent n t flight ins outs :
  world_inv (mkWorld g u box sent n) flight ins outs ->
  (forall u1 cs u2, u_cqes u1 = (cs, u2) -> next_session_id_ g + zlen cs < 2 ^ 32) ->
  exists g' u' flight' ins', poll_once CFG g t u = Ok (g', u') /\
    books_ (shard_ g') = books_ (shard_ g) /\ arena_ (shard_ g') = arena_ (shard_ g) /\ waiting (outbound_ (shard_ g')) = [] /\
    (Forall (fair sent) (waiting (inbound_ (shard_ g'))) -> world_inv (mkWorld g' u' box (sent ++ acked_tokens outs) n) flight' ins' []).
Proof.
  intros [HU HS] Hb. cbn [w_gateway w_ring w_box w_sent w_taken] in *.
  destruct (poll_inv CFG V armed (cf_ring _ HC) g t u flight ins outs HU Hb)
    as (g' & u' & flight' & ins' & Hrun & HU' & _ & _ & Esh & ms & Hms & ->).
  exists g', u', flight', (ins ++ ms). split; [done|]. split; [by rewrite Esh|]. split; [by rewrite Esh|].
  pose proof (ui_in _ _ _ _ _ _ _ _ _ HU') as Hi. pose proof (ui_out _ _ _ _ _ _ _ _ _ HU') as [Ho _].
  split; [by apply (Spsc.contents_repr _ (cf_ring _ HC))|].
  rewrite (Spsc.contents_repr _ (cf_ring _ HC) _ _ Hi). intros Hfair.
  split; [done|]. destruct HS as [S1 S2 S3 S7 S4 S5 S6]. cbn [sv_thread sv_sent sv_taken th_shard th_outbox w_gateway w_box w_sent w_taken] in *.
  split; cbn [sv_thread sv_sent sv_taken th_shard th_outbox]; try done.
  - rewrite Esh. by apply shard_wf_inbound, shard_wf_outbound.
  - by apply Forall_app in S7 as [_ S7].
  - apply Forall_app in Hfair as [_ Hfair]. apply Forall_app. split.
    + eapply Forall_impl; [exact S5|]. intros m. apply request_ok_more.
    + apply Forall_forall. intros m Hm. rewrite Forall_forall in Hms, Hfair. destruct (Hms m Hm) as [? ?].
      destruct (Hfair m Hm) as [? Htok]. split; try done. intros Ht. apply elem_of_app. left. by apply Htok.
  - intros t'. rewrite <- app_assoc, <- acked_app, app_nil_l. intros Ht. rewrite Esh. by apply S6.
Qed.

Lemma uring_world_turn g u box sent n flight ins outs :
  world_inv (mkWorld g u box sent n) flight ins outs -> n < 2 ^ 32 ->
  exists th' ins' outs', thread_turn CFG (mkThread (shard_ g) box) = Ok th' /\
    world_inv (mkWorld (set_shard g (th_shard th')) u (th_outbox th') sent (n + taking CFG (mkThread (shard_ g) box))) flight ins' outs'.
Proof.
  intros [HU HS] Hn. cbn [w_gateway w_ring w_box w_sent w_taken] in *.
  destruct (turn_spec CFG HC base tick_size _ _ _ _ _ HS Hn) as (th' & ins' & outs' & Hturn & Ht).
  pose proof (turned_inv CFG HC base tick_size _ _ _ _ _ _ _ _ HS Ht) as HS'. exists th', ins', outs'. split; [done|].
  split; cbn [w_gateway w_ring w_box w_sent w_taken shard_ set_shard]; [|by destruct th'].
  eapply (set_shard_inv CFG V armed); [exact HU|apply HS'|apply HS'|].
  pose proof (si_wire _ _ _ _ _ _ HS') as Hw. by apply Forall_app in Hw as [? _].
Qed.

Lemma uring_world_step w w' flight ins outs : exchange_step w w' -> w_taken w < 2 ^ 32 -> world_inv w flight ins outs ->
  exists flight' ins' outs', world_inv w' flight' ins' outs'.
Proof.
  intros Hstep Hn HI. pose proof (world_waiting _ _ _ _ HI) as [_ Eo].
  destruct Hstep as [g u box sent n t g' u' Hb Hrun Hfair|g u box sent n th' Hrun]; cbn [w_gateway w_taken] in *; rewrite ?Eo in *.
  - destruct (uring_world_poll _ _ _ _ _ t _ _ _ HI Hb) as (g1 & u1 & f1 & i1 & Hrun1 & _ & _ & _ & HI1).
    rewrite Hrun in Hrun1. injection Hrun1 as <- <-. eexists _, _, _. by apply HI1.
  - destruct (uring_world_turn _ _ _ _ _ _ _ _ HI Hn) as (th1 & i1 & o1 & Hrun1 & HI1).
    rewrite Hrun in Hrun1. injection Hrun1 as <-. by exists flight, i1, o1.
Qed.

Lemma uring_taken_mono w w' : rtc exchange_step w w' -> w_taken w <= w_taken w'.
Proof.
  induction 1 as [|w1 w2 w3 Hstep _ IH]; [done|].
  destruct Hstep as [|g ? box]; cbn [w_taken] in *; [lia|]. pose proof (taking_range CFG (mkThread (shard_ g) box)). lia.
Qed.

Lemma uring_world_reachable w w' : rtc exchange_step w w' -> w_taken w' < 2 ^ 32 ->
  (exists flight ins outs, world_inv w flight ins outs) -> exists flight ins outs, world_inv w' flight ins outs.
Proof.
  induction 1 as [|w1 w2 w3 Hstep Hrest IH]; [done|]. intros Hlt (flight & ins & outs & HI). apply IH; [done|].
  pose proof (uring_taken_mono _ _ Hrest). pose proof (uring_taken_mono _ _ (rtc_once _ _ Hstep)).
  eapply uring_world_step; [exact Hstep|lia|exact HI].
Qed.

Lemma uring_init_shard sh port sqpoll cpu (u0 : U) g0 u1 : uring_init sh port sqpoll cpu u0 = Ok (inr g0, u1) -> shard_ g0 = sh.
Proof.
  unfold uring_init. repeat (case_match; try done). unfold mbind at 1, res_bind at 1. case_match; [|done]. by intros [= <- _].
Qed.

Lemma uring_world_init shard_id symbols sh port sqpoll cpu u0 g0 u1 :
  0 < tick_size -> is_u 8 shard_id -> zlen symbols <= max_symbols CFG -> Forall (fun s => 0 <= s < SYMBOL_SPACE CFG) symbols ->
  shard_init CFG base tick_size shard_id symbols = Ok sh -> uring_init sh port sqpoll cpu u0 = Ok (inr g0, u1) ->
  world_inv (mkWorld g0 u1 [] [] 0) [] [] [].
Proof.
  intros Ht Hid Hlen Hsym Hinit Hg.
  destruct (shard_init_spec CFG HC base tick_size shard_id symbols Ht Hid Hlen Hsym) as (sh' & Hrun & HS & Hi & Ho & _).
  rewrite Hinit in Hrun. injection Hrun as <-.
  destruct (uring_init_ok CFG V armed sh port sqpoll cpu u0 [] [] Hi Ho ltac:(constructor)) as (r & u' & Hrun & HI).
  rewrite Hg in Hrun. injection Hrun as <- <-. split; [done|].
  cbn [w_gateway w_box w_sent w_taken]. rewrite (uring_init_shard _ _ _ _ _ _ _ Hg). split; try done. by intros t ?%not_elem_of_nil.
Qed.

(** C19: The exchange over io_uring never comes down: from a freshly constructed
    shard and gateway, after any interleaving of polls with turns of the shard's
    thread (one request or one report each), fewer than [2^32] requests in all,
    whatever clients connect, send in whatever pieces, or close, as long as their
    prices do not overflow and their cancels carry tokens some client was sent,
    the shard is well formed and the next turn of its thread returns without
    undefined behaviour, however full its rings are; and the next poll returns,
    leaves the books alone and empties the outbound ring, so that a thread that
    waits for room can go on. *)
Theorem uring_exchange_safe shard_id symbols sh port sqpoll cpu u0 g0 u1 w :
  0 < tick_size -> is_u 8 shard_id -> zlen symbols <= max_symbols CFG -> Forall (fun s => 0 <= s < SYMBOL_SPACE CFG) symbols ->
  shard_init CFG base tick_size shard_id symbols = Ok sh -> uring_init sh port sqpoll cpu u0 = Ok (inr g0, u1) ->
  rtc exchange_step (mkWorld g0 u1 [] [] 0) w -> w_taken w < 2 ^ 32 ->
  let g := w_gateway w in
  shard_wf (shard_ g) /\
  (exists th', thread_turn CFG (mkThread (shard_ g) (w_box w)) = Ok th' /\ shard_wf (th_shard th')) /\
  (forall t, (forall u1 cs u2, u_cqes u1 = (cs, u2) -> next_session_id_ g + zlen cs < 2 ^ 32) ->
   exists g' u', poll_once CFG g t (w_ring w) = Ok (g', u') /\
     books_ (shard_ g') = books_ (shard_ g) /\ arena_ (shard_ g') = arena_ (shard_ g) /\ waiting (outbound_ (shard_ g')) = []).
Proof.
  intros Ht Hid Hlen Hsym Hinit Hg Hrun Hn g. destruct (uring_world_reachable _ _ Hrun Hn) as (flight & ins & outs & HI).
  { eexists _, _, _. by eapply uring_world_init. }
  unfold g. destruct w as [g' u' box sent n]. cbn [w_gateway w_ring w_box w_taken] in *.
  split; [apply (wi_serving _ _ _ _ HI)|]. split.
  - destruct (uring_world_turn _ _ _ _ _ _ _ _ HI Hn) as (th' & i' & o' & Hok & HI'). exists th'. split; [done|].
    apply (wi_serving _ _ _ _ HI').
  - intros t Hb. destruct (uring_world_poll _ _ _ _ _ t _ _ _ HI Hb) as (g1 & u2 & f1 & i1 & ? & ? & ? & ? & _). by exists g1, u2.
Qed.

End system.

(** ** One client

    The client connects, its order arrives in two blocks, the shard serves it. *)

Import Sim.

Definition ring_u0 : SimRing := mkRing (mkSim [Exchange.trade_blocks] [] ∅ {[0; 1; 2]} 0 4096) [].
Definition ring_g0 : UringGateway * SimRing :=
  match uring_init demo_shard 9000 false UINT32_MAX ring_u0 with
  | Ok (inr g, u) => (g, u)
  | _ => (mkUring demo_shard 0 0 0 ∅ ∅ false [] [] 0, ring_u0)
  end.
Definition ring_polled (gu : UringGateway * SimRing) : UringGateway * SimRing :=
  match poll_once demo_cfg gu.1 10 gu.2 with Ok gu' => gu' | Err _ => gu end.
Definition ring1 : UringGateway * SimRing := ring_polled ring_g0.
Definition ring2 : UringGateway * SimRing := ring_polled ring1.
Definition ring3 : UringGateway * SimRing := ring_polled ring2.
Definition ring_th : Thread := turns 1 (mkThread (shard_ ring3.1) []).
Definition ring4 : World := mkWorld (set_shard ring3.1 (th_shard ring_th)) ring3.2 (th_outbox ring_th) [] 1.

Lemma ring_requests : Spsc.contents 512 (inbound_ (shard_ ring1.1)) = [] /\ Spsc.contents 512 (inbound_ (shard_ ring2.1)) = [] /\
  Spsc.contents 512 (inbound_ (shard_ ring3.1)) = [Session.request_msg 1 (Session.RNew Exchange.trade_buy)].
Proof. by vm_compute. Qed.

Lemma ring_bound g n : next_session_id_ g = n -> n < 2 ^ 31 ->
  forall (u1 : SimRing) cs u2, u_cqes u1 = (cs, u2) -> next_session_id_ g + zlen cs < 2 ^ 32.
Proof. intros <- Hn u1 cs u2 Hcs%ring_cqes_short. lia. Qed.

Lemma ring_reachable : rtc (exchange_step demo_cfg 1000) (mkWorld ring_g0.1 ring_g0.2 [] [] 0) ring4.
Proof.
  destruct ring_requests as (R1 & R2 & R3). eapply rtc_l; [|eapply rtc_l; [|eapply rtc_l; [|apply rtc_once]]].
  - apply (exchange_poll demo_cfg 1000 ring_g0.1 ring_g0.2 [] [] 0 10 ring1.1 ring1.2); [by apply (ring_bound _ 1)|by vm_compute|].
    change (queue_depth demo_cfg) with 512. rewrite R1. constructor.
  - apply (exchange_poll demo_cfg 1000 ring1.1 ring1.2 [] _ 0 10 ring2.1 ring2.2); [apply (ring_bound _ 2); by vm_compute|by vm_compute|].
    change (queue_depth demo_cfg) with 512. rewrite R2. constructor.
  - apply (exchange_poll demo_cfg 1000 ring2.1 ring2.2 [] _ 0 10 ring3.1 ring3.2); [apply (ring_bound _ 2); by vm_compute|by vm_compute|].
    change (queue_depth demo_cfg) with 512. rewrite R3. repeat constructor; by vm_compute.
  - apply (exchange_turn demo_cfg 1000 ring3.1 ring3.2 [] [] 0 ring_th). by vm_compute.
Qed.

Lemma uring_exchange_safe_witness :
  exists g' u', poll_once demo_cfg (w_gateway ring4) 10 (w_ring ring4) = Ok (g', u') /\
    Spsc.contents 512 (outbound_ (shard_ g')) = [].
Proof.
  destruct (uring_exchange_safe demo_cfg 1000 5 demo_cfg_ok ring_view sr_armed 1 [3; 7] demo_shard 9000 false UINT32_MAX ring_u0
    ring_g0.1 ring_g0.2 ring4) as (_ & _ & Hpoll).
  - lia.
  - by vm_compute.
  - by vm_compute.
  - exact demo_symbols_ok.
  - by vm_compute.
  - by vm_compute.
  - exact ring_reachable.
  - by vm_compute.
  - destruct (Hpoll 10) as (g' & u' & H1 & _ & _ & H2); [apply (ring_bound _ 2); by vm_compute|].
    exists g', u'. split; [exact H1|exact H2].
Defined.

End UringSystem.
