(* ===== verification/UringMarket.v ===== *)
(** * The running exchange over io_uring implements a market

    The trace refinement of [ShardMarket] for [UringGateway] and its shard, with
    a log of the requests the gateway handed to the shard and of the reports it
    drained, as in [SystemMarket]. *)

From stdpp Require Import gmap relations.
From S2P Require Import Prelude Messages Order LevelBitmap Pool PriceLevel OrderHandle OrderBook Spsc Sink Codec Session.
From S2P Require Import BookSpec BookInv BookMatch BookRefine BookLaws BookAbs BookProps BookSession.
From S2P Require Import Shard ShardWork ShardInv ReportTypes ShardProps ShardTokens Market ShardMarket.
From S2P Require Import ShardRouter Kernel Gateway GatewayInv GatewayProps Exchange System SystemMarket.
From S2P Require Import UringGateway UringInv UringProps UringSystem.

Module UringMarket.
Import BookSpec BookInv Shard ShardInv ReportTypes ShardProps ShardTokens Market ShardMarket UringGateway UringInv UringProps UringSystem.

Section system.
Context (CFG : ShardConfig) (base tick_size : Z) (HC : config_ok CFG).
Context {U : Type} `{Kernel U} `{Uring U} (V : KernelView U) (armed : U -> list Sqe) `{!UringLaws V armed}.

Abbreviation World := (@World U).
Abbreviation exchange_step := (exchange_step CFG base).
Abbreviation world_inv := (world_inv CFG base tick_size V armed).
Abbreviation waiting q := (Spsc.contents (queue_depth CFG) q).

(** What was handed to the shard and what was drained from it. *)
Definition Log : Type := list InboundMsg * list OutboundMsg.

Definition log (w w' : World) (lg : Log) : Log :=
  (lg.1 ++ came (waiting (inbound_ (shard_ (w_gateway w)))) (waiting (inbound_ (shard_ (w_gateway w')))),
   lg.2 ++ gone (waiting (outbound_ (shard_ (w_gateway w)))) (waiting (outbound_ (shard_ (w_gateway w'))))).

Inductive logged_step : World * Log -> World * Log -> Prop :=
| logged w w' lg : exchange_step w w' -> logged_step (w, lg) (w', log w w' lg).

Definition market_inv (table : list Z) (w : World) (lg : Log) (ins : list InboundMsg) (outs : list OutboundMsg) : Prop :=
  exists taken mk all, refines CFG base tick_size table
    (mkLife (mkServing (mkThread (shard_ (w_gateway w)) (w_box w)) (w_sent w) (w_taken w)) lg.1 lg.2) ins outs taken mk all.

(** What a poll does to the rings, and that it leaves the books alone. *)
Lemma uring_poll_rings g u box sent n t g' u' flight ins outs :
  world_inv (mkWorld g u box sent n) flight ins outs ->
  (forall u1 cs u2, u_cqes u1 = (cs, u2) -> next_session_id_ g + zlen cs < 2 ^ 32) -> poll_once CFG g t u = Ok (g', u') ->
  exists ms, Forall in_formed ms /\ waiting (inbound_ (shard_ g')) = ins ++ ms /\ waiting (outbound_ (shard_ g')) = [] /\
    same_books (shard_ g) (shard_ g').
Proof.
  intros [HU _] Hb Hrun. cbn [w_gateway w_ring] in HU.
  destruct (poll_inv CFG V armed (cf_ring _ HC) g t u flight ins outs HU Hb) as (g1 & u1 & flight' & ins' & Hrun1 & HU' & _ & _ & Esh & ms & Hms & ->).
  rewrite Hrun in Hrun1. injection Hrun1 as <- <-. pose proof (ui_in _ _ _ _ _ _ _ _ _ HU') as Hi. pose proof (ui_out _ _ _ _ _ _ _ _ _ HU') as [Ho _].
  exists ms. split; [done|]. split; [by apply (Spsc.contents_repr _ (cf_ring _ HC))|]. split; [by apply (Spsc.contents_repr _ (cf_ring _ HC))|].
  rewrite Esh. done.
Qed.

Lemma uring_market_step table w w' lg flight ins outs : exchange_step w w' -> w_taken w < 2 ^ 32 -> world_inv w flight ins outs -> market_inv table w lg ins outs ->
  exists flight' ins' outs', world_inv w' flight' ins' outs' /\ market_inv table w' (log w w' lg) ins' outs'.
Proof.
  intros Hstep Hn HI (taken & mk & all & HR). pose proof (world_waiting CFG base tick_size HC V armed _ _ _ _ HI) as [Ei Eo].
  destruct (uring_world_step CFG base tick_size HC V armed _ _ _ _ _ Hstep Hn HI) as (flight' & ins' & outs' & HI').
  pose proof (world_waiting CFG base tick_size HC V armed _ _ _ _ HI') as [Ei' Eo']. pose proof (wi_serving _ _ _ _ _ _ _ _ _ HI') as HV'.
  exists flight', ins', outs'. split; [done|]. unfold market_inv, log. rewrite Ei, Eo, Ei', Eo'. cbn [fst snd].
  destruct Hstep as [g u box sent n t g' u' Hb Hrun Hfair|g u box sent n th' Hrun]; cbn [w_gateway w_box w_sent w_taken w_ring shard_ set_shard] in *.
  - destruct (uring_poll_rings _ _ _ _ _ t _ _ _ _ _ HI Hb Hrun) as (ms & Hms & E1 & E2 & Hsame). rewrite E1 in Ei'. rewrite E2 in Eo'. subst ins' outs'.
    rewrite came_app, gone_all, Eo in *. exists taken, mk, all.
    eapply (refines_move CFG base tick_size); [exact HR|exact HV'|done|apply Z.le_refl|done|by rewrite app_nil_r|done].
  - destruct (refines_turn CFG HC base tick_size _ _ _ _ _ _ _ _ _ _ _ _ Hn Hrun HR) as (li' & l' & taken' & mk' & all' & Ht & HR').
    assert (li' = ins') as -> by exact (holds_inj CFG HC _ _ _ (si_in _ _ _ _ _ _ (rf_inv _ _ _ _ _ _ _ _ _ _ HR')) (si_in _ _ _ _ _ _ HV')).
    assert (l' = outs') as -> by exact (holds_inj CFG HC _ _ _ (si_out _ _ _ _ _ _ (rf_inv _ _ _ _ _ _ _ _ _ _ HR')) (si_out _ _ _ _ _ _ HV')).
    destruct (turned_queues CFG base tick_size _ _ _ _ _ _ Ht) as [-> ->]. rewrite !app_nil_r. exists taken', mk', all'. by destruct th'.
Qed.

Lemma uring_logged_mono a b : rtc logged_step a b -> w_taken a.1 <= w_taken b.1.
Proof.
  induction 1 as [|a b c Hstep _ IH]; [done|]. destruct Hstep as [w w' lg Hstep]. pose proof (uring_taken_mono CFG base _ _ (rtc_once _ _ Hstep)). cbn [fst] in *. lia.
Qed.

Lemma uring_market_steps table a b : rtc logged_step a b -> w_taken b.1 < 2 ^ 32 ->
  (exists flight ins outs, world_inv a.1 flight ins outs /\ market_inv table a.1 a.2 ins outs) ->
  exists flight ins outs, world_inv b.1 flight ins outs /\ market_inv table b.1 b.2 ins outs.
Proof.
  induction 1 as [|a b c Hstep Hrest IH]; [done|]. intros Hlt (flight & ins & outs & HI & HM). apply IH; [done|].
  pose proof (uring_logged_mono _ _ Hrest). pose proof (uring_logged_mono _ _ (rtc_once _ _ Hstep)). destruct Hstep as [w w' lg Hstep]. cbn [fst snd] in *.
  apply (uring_market_step table w w' lg flight ins outs Hstep); [lia|done..].
Qed.

(** C20: The exchange over io_uring is a market.  From a freshly constructed shard
    and gateway, after any interleaving of polls with turns of the shard's
    thread, fewer than [2^32] requests in all, whatever clients connect, send in
    whatever pieces, or close, as long as their prices do not overflow and their
    cancels carry tokens some client was sent, there is a run of the abstract market
    that took the requests the gateway handed to the shard, in order, up to
    those still waiting, and whose reports are those drained, those in the ring
    and those still to be pushed; and no session was told of more trades under
    an order id, with what rests under it, than new orders with it asked for. *)
Theorem uring_exchange_refines shard_id symbols sh0 port sqpoll cpu u0 g0 u1 w lg :
  0 < tick_size -> is_u 8 shard_id -> zlen symbols <= max_symbols CFG -> Forall (fun s => 0 <= s < SYMBOL_SPACE CFG) symbols ->
  shard_init CFG base tick_size shard_id symbols = Ok sh0 -> uring_init sh0 port sqpoll cpu u0 = Ok (inr g0, u1) ->
  rtc logged_step (mkWorld g0 u1 [] [] 0, ([], [])) (w, lg) -> w_taken w < 2 ^ 32 ->
  let sh := shard_ (w_gateway w) in
  (exists taken mk outs,
     market_run (ladder_idx base tick_size) (ladder_size CFG) (max_orders CFG) (hosted (local_of_ sh0))
       (empty_market (max_symbols CFG)) taken mk outs /\
     lg.1 = taken ++ waiting (inbound_ sh) /\ outs = lg.2 ++ waiting (outbound_ sh) ++ w_box w /\ mk_books mk = market_books sh) /\
  forall sid id, told sid id lg.2 + shard_rested id sh <= placed id lg.1.
Proof.
  intros Ht Hid Hlen Hsym Hinit Hg Hrun Hn sh.
  destruct (uring_market_steps (local_of_ sh0) _ _ Hrun Hn) as (flight & ins & outs & HI & taken & mk & all & HR).
  { eexists _, _, _. split; [by eapply uring_world_init|]. eexists _, _, _. cbn [fst snd w_gateway w_box w_sent w_taken].
    assert (shard_ g0 = sh0) as -> by (by eapply uring_init_shard). by apply (refines_born CFG HC base tick_size shard_id symbols sh0). }
  cbn [fst snd] in *. pose proof (world_waiting CFG base tick_size HC V armed _ _ _ _ HI) as [Ei Eo]. split.
  - destruct HR as [_ _ _ HR Ein Eout _ HM]. exists taken, mk, all. unfold sh. rewrite Ei, Eo. do 3 (split; [done|]). apply HM.
  - intros sid id. exact (refines_told CFG base tick_size _ _ _ _ _ _ _ sid id HR).
Qed.

End system.

(** ** One client trades with itself *)

Import Sim.

Abbreviation RingWorld := (@World SimRing).

Definition both_u0 : SimRing := mkRing (mkSim [[concat (Session.request_bytes <$> SystemMarket.both)]] [] ∅ {[0; 1; 2]} 0 4096) [].
Definition both_g0 : UringGateway * SimRing :=
  match uring_init demo_shard 9000 false UINT32_MAX both_u0 with Ok (inr g, u) => (g, u) | _ => ring_g0 end.

Definition poll_ring (w : RingWorld) : RingWorld :=
  match poll_once demo_cfg (w_gateway w) 10 (w_ring w) with
  | Ok (g', u') => mkWorld g' u' (w_box w) (w_sent w ++ acked_tokens (Spsc.contents (queue_depth demo_cfg) (outbound_ (shard_ (w_gateway w))))) (w_taken w)
  | Err _ => w
  end.
Definition turn_ring (w : RingWorld) : RingWorld :=
  let th := mkThread (shard_ (w_gateway w)) (w_box w) in
  match thread_turn demo_cfg th with
  | Ok th' => mkWorld (set_shard (w_gateway w) (th_shard th')) (w_ring w) (th_outbox th') (w_sent w) (w_taken w + taking demo_cfg th)
  | Err _ => w
  end.

Definition rw0 : RingWorld := mkWorld both_g0.1 both_g0.2 [] [] 0.
Definition rw2 : RingWorld := poll_ring (poll_ring rw0).
Definition rw6 : RingWorld := turn_ring (turn_ring (turn_ring (turn_ring rw2))).
Definition rw7 : RingWorld := poll_ring rw6.

Abbreviation demo_step := (logged_step demo_cfg 1000).
Abbreviation noted := (log demo_cfg).

Definition rlog2 : Log := noted (poll_ring rw0) rw2 (noted rw0 (poll_ring rw0) ([], [])).
Definition rlog6 : Log :=
  let w3 := turn_ring rw2 in let w4 := turn_ring w3 in let w5 := turn_ring w4 in
  noted w5 rw6 (noted w4 w5 (noted w3 w4 (noted rw2 w3 rlog2))).
Definition rlog7 : Log := noted rw6 rw7 rlog6.

Lemma poll_ring_step w lg reqs : next_session_id_ (w_gateway w) < 2 ^ 31 ->
  SystemMarket.went (poll_once demo_cfg (w_gateway w) 10 (w_ring w)) = true ->
  Spsc.contents (queue_depth demo_cfg) (inbound_ (shard_ (w_gateway (poll_ring w)))) = reqs -> Forall (System.fair 1000 (w_sent w)) reqs ->
  demo_step (w, lg) (poll_ring w, noted w (poll_ring w) lg).
Proof.
  intros B Hok Hreq HF. constructor. rewrite <- Hreq in HF. unfold poll_ring in *.
  destruct (poll_once demo_cfg (w_gateway w) 10 (w_ring w)) as [[g' u']|] eqn:E; [|done].
  destruct w as [g u box sent n]. cbn [w_gateway w_ring w_box w_sent w_taken] in *. eapply exchange_poll; [|exact E|exact HF]. by eapply ring_bound.
Qed.

Lemma turn_ring_step w lg : SystemMarket.went (thread_turn demo_cfg (mkThread (shard_ (w_gateway w)) (w_box w))) = true ->
  demo_step (w, lg) (turn_ring w, noted w (turn_ring w) lg).
Proof.
  intros Hok. constructor. unfold turn_ring. destruct (thread_turn demo_cfg _) as [th'|] eqn:E; [|done]. destruct w as [g u box sent n]. by apply exchange_turn.
Qed.

Lemma rw2_reachable : rtc demo_step (rw0, ([], [])) (rw2, rlog2).
Proof.
  eapply rtc_l; [apply (poll_ring_step rw0 ([], []) [])|]; [by vm_compute|by vm_compute|by vm_compute|constructor|].
  apply rtc_once. apply (poll_ring_step (poll_ring rw0) _ (Session.request_msg 1 <$> SystemMarket.both));
    [by vm_compute|by vm_compute|by vm_compute|]. repeat constructor; by vm_compute.
Qed.

Lemma rw6_reachable : rtc demo_step (rw2, rlog2) (rw6, rlog6).
Proof. do 3 (eapply rtc_l; [apply turn_ring_step; by vm_compute|]). apply rtc_once. apply turn_ring_step. by vm_compute. Qed.

Lemma rw7_reachable : rtc demo_step (rw0, ([], [])) (rw7, rlog7).
Proof.
  etrans; [exact rw2_reachable|]. etrans; [exact rw6_reachable|]. apply rtc_once.
  apply (poll_ring_step rw6 rlog6 []); [vm_compute; reflexivity|vm_compute; reflexivity|vm_compute; reflexivity|constructor].
Qed.

Example rw7_told : told 1 2 rlog7.2 = 10 /\ shard_rested 2 (shard_ (w_gateway rw7)) = 4 /\ placed 2 rlog7.1 = 14.
Proof. by vm_compute. Qed.

Lemma uring_exchange_refines_witness : told 1 2 rlog7.2 + shard_rested 2 (shard_ (w_gateway rw7)) <= placed 2 rlog7.1.
Proof.
  refine (proj2 (uring_exchange_refines demo_cfg 1000 5 demo_cfg_ok ring_view sr_armed 1 [3; 7] demo_shard 9000 false UINT32_MAX both_u0
    both_g0.1 both_g0.2 rw7 rlog7 _ _ _ _ _ _ _ _) 1 2).
  - lia.
  - by vm_compute.
  - by vm_compute.
  - exact demo_symbols_ok.
  - by vm_compute.
  - by vm_compute.
  - exact rw7_reachable.
  - by vm_compute.
Defined.

End UringMarket.
