(* ===== verification/BenchServer.v ===== *)
(** * The server side of the gateway programs ([bench/gateway_latency.cc],
    [gateway_latency_uring.cc], [gateway_throughput.cc])

    What these programs start before their clients: a shard whose thread is in
    [run], and a gateway that another thread polls.  [Server] is what the
    programs use of the two, [ServerLaws] what they may rely on; the exchange
    over epoll ([System], [SystemMarket]) and the one over io_uring
    ([UringSystem], [UringMarket]) are servers.  [Threads] are the gateway's and
    the shard's thread with the flags that stop them, as a transition system
    that the programs of [BenchLoad] and [BenchClient] run beside their clients. *)

From stdpp Require Import gmap relations.
From S2P Require Import Prelude Messages Order LevelBitmap Pool PriceLevel OrderHandle OrderBook Spsc Sink Codec Session.
From S2P Require Import BookSpec BookInv BookMatch BookRefine BookLaws BookAbs BookProps BookSession.
From S2P Require Import Shard ShardWork ShardInv ReportTypes ShardProps ShardTokens Market ShardMarket Util Harness BenchGateway.
From S2P Require Import ShardRouter Kernel Gateway GatewayInv GatewayProps Exchange System SystemMarket Clients.
From S2P Require Import UringGateway UringInv UringProps UringSystem UringMarket.

Module BenchServer.
Import PriceLevel BookSpec BookInv BookAbs Shard ShardInv ShardProps ShardTokens Market ShardMarket Harness BenchGateway.

(** ** The interface *)

Class Server (W : Type) : Type := {
  srv_poll : nat -> W -> res W;            (* gw.poll_once(0) *)
  srv_ready : nat -> W -> Prop;            (* fuel and session numbers for what waits *)
  srv_turn : W -> res W;                   (* one round of the shard's thread *)
  srv_stop : W -> W;                       (* shard.stop() *)
  srv_running : W -> bool;                 (* running_ of the shard *)
  srv_box : W -> list OutboundMsg;         (* reports its thread has still to push *)
  srv_waiting : W -> list InboundMsg;      (* in the inbound ring *)
  srv_undrained : W -> list OutboundMsg;   (* in the outbound ring *)
  srv_handed : W -> list InboundMsg;       (* all requests the gateway put into the ring *)
  srv_drained : W -> list OutboundMsg      (* all reports it took out *)
}.

(** A new order whose price does not overflow against the base price. *)
Definition order_only (m : InboundMsg) : Prop :=
  hdr_type (in_hdr m) = NEW_ORDER /\ is_i64 (no_price (in_new_order m) - 900).

(** The rest of the state is as it was. *)
Record same_threads {W} `{Server W} (w w' : W) : Prop := {
  st_handed : srv_handed w' = srv_handed w;
  st_drained : srv_drained w' = srv_drained w
}.

Class ServerLaws {W} `{Server W} (CFG : ShardConfig) (inv : W -> Prop) : Prop := {
  srv_poll_law : forall fuel w, inv w -> srv_ready fuel w -> exists w', srv_poll fuel w = Ok w' /\
    srv_running w' = srv_running w /\ srv_box w' = srv_box w /\
    (exists more, srv_drained w' = srv_drained w ++ more) /\
    (Forall order_only (srv_handed w') -> inv w');
  srv_turn_law : forall w, inv w -> zlen (srv_handed w) < 2 ^ 32 -> exists w', srv_turn w = Ok w' /\
    srv_running w' = srv_running w /\ same_threads w w' /\ inv w';
  srv_stop_law : forall w, inv w ->
    srv_running (srv_stop w) = false /\ srv_box (srv_stop w) = srv_box w /\ same_threads w (srv_stop w) /\ inv (srv_stop w);
  srv_market_law : forall w, inv w -> exists taken mk,
    market_run (ladder_idx 900 1) (ladder_size CFG) (max_orders CFG) (hosted [0]) (empty_market 1) taken mk
      (srv_drained w ++ srv_undrained w ++ srv_box w) /\
    srv_handed w = taken ++ srv_waiting w
}.

(** A server that was just constructed. *)
Record fresh {W} `{Server W} (inv : W -> Prop) (w : W) : Prop := {
  fr_inv : inv w;
  fr_running : srv_running w = true;
  fr_box : srv_box w = [];
  fr_handed : srv_handed w = [];
  fr_drained : srv_drained w = []
}.

(** ** The shard of the programs *)

(** Every order is hosted: the map is the identity on the one symbol there is. *)
Lemma load_shard_table CFG sh : CFG = LATENCY_CFG \/ CFG = THROUGHPUT_CFG -> shard_init CFG 900 1 0 [] = Ok sh -> local_of_ sh = [0] /\ max_symbols CFG = 1.
Proof.
  intros Hcfg Hinit. split; [|by destruct Hcfg as [-> | ->]].
  assert (Em : identity_map CFG (S (Z.to_nat (SYMBOL_SPACE CFG))) 0 (replicate (Z.to_nat (SYMBOL_SPACE CFG)) NO_BOOK) = Ok [0])
    by (by destruct Hcfg as [-> | ->]).
  unfold shard_init in Hinit. rewrite Em in Hinit. cbn [mbind res_bind] in Hinit. by injection Hinit as <-.
Qed.

Lemma fair_order sent m : order_only m -> System.fair 900 sent m.
Proof. intros [Ht Hp]. split; [done|]. rewrite Ht. done. Qed.

Lemma turned_running CFG base tick_size th li l th' li' l' : turned CFG base tick_size th li l th' li' l' ->
  running_ (ShardWork.th_shard th') = running_ (ShardWork.th_shard th).
Proof. destruct 1 as [| ? ? ? ? ? ? -> [_ _ _ _ Hr _]|]; [done|exact Hr|done]. Qed.

Lemma born_running CFG sh : shard_init CFG 900 1 0 [] = Ok sh -> running_ sh = true.
Proof. unfold shard_init. destruct (identity_map _ _ _ _); [|done]. cbn [mbind res_bind]. by intros [= <-]. Qed.

(** [stop] leaves the books and the rings alone. *)
Lemma refines_stop CFG table sh box sent n ins outs li l taken mk all :
  refines CFG 900 1 table (mkLife (mkServing (ShardWork.mkThread sh box) sent n) ins outs) li l taken mk all ->
  refines CFG 900 1 table (mkLife (mkServing (ShardWork.mkThread (stop sh) box) sent n) ins outs) li l taken mk all.
Proof.
  intros HR. pose proof (refines_move CFG 900 1 table _ _ _ _ _ _ _ _ _ _ _ (stop sh) sent n [] [] l HR) as Hmove.
  rewrite !app_nil_r in Hmove. apply Hmove; [apply stopped_inv, (rf_inv _ _ _ _ _ _ _ _ _ _ HR)|done|done|constructor|done|done].
Qed.

Lemma one_shard : 0 < 1 <= 256.
Proof. done. Qed.

(** ** The exchange over epoll *)

Section epoll.
Context (CFG : ShardConfig) (Hcfg : CFG = LATENCY_CFG \/ CFG = THROUGHPUT_CFG) (HC : config_ok CFG).
Context {K : Type} `{Kernel K} (V : KernelView K) `{!KernelLaws V}.
Context (sh0 : Shard) (Hinit : shard_init CFG 900 1 0 [] = Ok sh0).
Import Gateway GatewayInv.

Definition Epoll : Type := @System.World K * SystemMarket.Log.

Definition epoll_poll (fuel : nat) (x : Epoll) : res Epoll :=
  let w := x.1 in
  '(g', k') ← poll_once CFG 1 fuel (System.w_gateway w) 0 (System.w_kernel w);
  let w' := System.mkWorld g' k' (System.w_boxes w)
    (System.w_sent w ++ acked_tokens (concat (System.reports_of CFG (shards_ (System.w_gateway w))))) (System.w_taken w) in
  Ok (w', SystemMarket.log CFG 1 w w' x.2).

Definition epoll_ready (fuel : nat) (x : Epoll) : Prop :=
  let g := System.w_gateway x.1 in
  let k1 := (k_epoll_wait (System.w_kernel x.1) (epoll_fd_ g) MAX_EVENTS 0).2 in
  next_session_id_ g + Z.of_nat (k_backlog V k1) < 2 ^ 32 /\ (k_backlog V k1 < fuel)%nat /\ (k_unread V k1 < fuel)%nat.

Definition epoll_turn (x : Epoll) : res Epoll :=
  let '(System.mkWorld g k boxes sent n) := x.1 in
  sh ← aget (shards_ g) 0;
  box ← aget boxes 0;
  th ← ShardWork.thread_turn CFG (ShardWork.mkThread sh box);
  let w' := System.mkWorld (set_shards g (<[0 := ShardWork.th_shard th]> (shards_ g))) k (<[0 := ShardWork.th_outbox th]> boxes) sent
    (n + taking CFG (ShardWork.mkThread sh box)) in
  Ok (w', SystemMarket.log CFG 1 x.1 w' x.2).

(** [shard.stop()] stores into the shard, not into the gateway. *)
Definition epoll_stop (x : Epoll) : Epoll :=
  let '(System.mkWorld g k boxes sent n) := x.1 in
  (System.mkWorld (set_shards g (Shard.stop <$> shards_ g)) k boxes sent n, x.2).

#[export] Instance epoll_server : Server Epoll := {|
  srv_poll := epoll_poll;
  srv_ready := epoll_ready;
  srv_turn := epoll_turn;
  srv_stop := epoll_stop;
  srv_running x := match shards_ (System.w_gateway x.1) !! 0 with Some sh => Shard.running_ sh | None => false end;
  srv_box x := default [] (System.w_boxes x.1 !! 0);
  srv_waiting x := SystemMarket.queued_in CFG x.1 0;
  srv_undrained x := SystemMarket.queued_out CFG x.1 0;
  srv_handed x := SystemMarket.lg_in x.2 0;
  srv_drained x := SystemMarket.lg_out x.2 0
|}.

(** The exchange is in order, implements its market, and every request handed
    to the shard was taken or waits. *)
Definition epoll_inv (x : Epoll) : Prop :=
  (exists ins outs, System.world_inv CFG 1 900 1 V x.1 ins outs /\ SystemMarket.markets_inv CFG 900 1 [sh0] x.1 x.2 ins outs) /\
  System.w_taken x.1 + zlen (SystemMarket.queued_in CFG x.1 0) = zlen (SystemMarket.lg_in x.2 0).

Lemma epoll_parts x : epoll_inv x -> exists ins outs sh li l box,
  System.world_inv CFG 1 900 1 V x.1 ins outs /\ SystemMarket.markets_inv CFG 900 1 [sh0] x.1 x.2 ins outs /\
  shards_ (System.w_gateway x.1) = [sh] /\ ins = [li] /\ outs = [l] /\ System.w_boxes x.1 = [box] /\
  SystemMarket.queued_in CFG x.1 0 = li /\ SystemMarket.queued_out CFG x.1 0 = l.
Proof.
  intros [(ins & outs & HI & HM) _]. destruct x as [[g k boxes sent n] lg]. cbn [fst snd System.w_gateway System.w_boxes] in *.
  pose proof (gw_rings _ _ _ _ _ _ _ (System.wi_gateway _ _ _ _ _ _ _ _ HI)) as [[R1 R2 _] [O1 _ _]]. cbn [System.w_gateway] in *.
  pose proof (proj1 (System.wi_boxes _ _ _ _ _ _ _ _ HI)) as B1. cbn [System.w_boxes] in B1.
  assert (Hone : forall {A} (l : list A), zlen l = 1 -> exists a, l = [a]) by (intros A [|a [|? ?]]; [done|by exists a|unfold zlen; simpl; lia]).
  destruct (Hone _ _ R1) as [sh E1], (Hone _ _ R2) as [li ->], (Hone _ _ O1) as [l ->], (Hone _ _ B1) as [box ->].
  exists [li], [l], sh, li, l, box. do 6 (split; [done|]).
  exact (SystemMarket.world_queues CFG 1 900 1 HC V _ [li] [l] 0 li l HI eq_refl eq_refl).
Qed.

(** What was handed to the shard was taken or waits. *)
Lemma epoll_market x ins outs sh li l box : System.world_inv CFG 1 900 1 V x.1 ins outs -> SystemMarket.markets_inv CFG 900 1 [sh0] x.1 x.2 ins outs ->
  shards_ (System.w_gateway x.1) = [sh] -> ins = [li] -> outs = [l] -> System.w_boxes x.1 = [box] ->
  exists taken mk all, refines CFG 900 1 [0]
    (mkLife (mkServing (ShardWork.mkThread sh box) (System.sent_by 0 (System.w_sent x.1)) (System.w_taken x.1)) (SystemMarket.lg_in x.2 0) (SystemMarket.lg_out x.2 0))
    li l taken mk all.
Proof.
  intros HI HM Es -> -> Eb. rewrite <- (proj1 (load_shard_table CFG sh0 Hcfg Hinit)).
  apply (HM 0 sh0 sh li l box); [done| | | |]; by rewrite ?Es, ?Eb.
Qed.

Lemma epoll_poll_law fuel (x : Epoll) : epoll_inv x -> srv_ready fuel x -> exists x', srv_poll fuel x = Ok x' /\
  srv_running x' = srv_running x /\ srv_box x' = srv_box x /\ (exists more, srv_drained x' = srv_drained x ++ more) /\
  (Forall order_only (srv_handed x') -> epoll_inv x').
Proof.
  intros Hx (B & F1 & F2). destruct (epoll_parts x Hx) as (ins & outs & sh & li & l & box & HI & HM & Es & -> & -> & Eb & Q1 & Q2).
  destruct (epoll_market x [li] [l] sh li l box HI HM Es eq_refl eq_refl Eb) as (taken & mk & all & HR). pose proof (rf_in _ _ _ _ _ _ _ _ _ _ HR) as Ein. cbn [lf_in] in Ein.
  destruct Hx as [_ Hcnt]. rewrite Q1 in Hcnt. destruct x as [[g k boxes sent n] lg]. cbn [fst snd System.w_gateway System.w_boxes System.w_kernel System.w_taken System.w_sent] in *. subst boxes.
  destruct (System.world_poll CFG 1 900 1 HC one_shard V g k [box] sent n fuel 0 [li] [l] HI B F1 F2) as (g' & k' & Hrun & Er & HG & Hfed & He & _).
  set (w := System.mkWorld g k [box] sent n) in *. set (w' := System.mkWorld g' k' [box] (sent ++ acked_tokens (concat [l])) n).
  exists (w', SystemMarket.log CFG 1 w w' lg). assert (Eo : System.reports_of CFG (shards_ g) = [l]).
  { destruct (System.rings_contents CFG 1 HC _ _ _ (gw_rings _ _ _ _ _ _ _ (System.wi_gateway _ _ _ _ _ _ _ _ HI))) as [_ E]. by rewrite E. }
  split; [cbn [srv_poll epoll_server]; unfold epoll_poll; cbn [fst snd System.w_gateway System.w_boxes System.w_kernel System.w_taken System.w_sent w]; rewrite Hrun; cbn [mbind res_bind]; by rewrite Eo|].
  destruct Hfed as (ms & _ & HL & Hpush). pose proof (Hpush 0 li eq_refl) as Hin'. set (new := ShardRouter.routed_to 1 0 ms) in *.
  assert (Q3 : SystemMarket.queued_in CFG w' 0 = li ++ new) by (unfold SystemMarket.queued_in; cbn [System.w_gateway w']; by rewrite Hin').
  assert (Hh : SystemMarket.lg_in (SystemMarket.log CFG 1 w w' lg) 0 = SystemMarket.lg_in lg 0 ++ new)
    by (cbn [SystemMarket.log SystemMarket.lg_in]; by rewrite Q1, Q3, came_app).
  split; [|split; [done|split; [eexists; cbn [srv_drained epoll_server snd]; by apply (SystemMarket.lg_out_log CFG 1)|]]].
  { cbn [srv_running epoll_server fst System.w_gateway w w']. rewrite Es in He |- *. destruct (Exchange.same_engines_lookup _ _ 0 sh He eq_refl) as (sh' & -> & Hsh'). by rewrite Hsh'. }
  cbn [srv_handed epoll_server snd]. intros Hord. rewrite Hh in Hord.
  assert (Hreq : System.requests_of CFG (shards_ g') = [li ++ new]).
  { apply listZ_eq; [by rewrite HL|]. intros i Hi. rewrite HL in Hi. change (zlen [li]) with 1 in Hi. assert (i = 0) as -> by lia. by rewrite Hin'. }
  assert (Hfair : Forall (Forall (System.fair 900 sent)) (System.requests_of CFG (shards_ g'))).
  { rewrite Hreq. constructor; [|constructor]. apply Forall_app in Hord as [H1 H2]. rewrite Ein in H1. apply Forall_app in H1 as [_ H1].
    apply Forall_app. split; eapply Forall_impl; [exact H1|apply fair_order|exact H2|apply fair_order]. }
  assert (Hfed : ShardRouter.fed 1 (next_session_id_ g') [li] (System.requests_of CFG (shards_ g'))).
  { destruct (System.world_poll CFG 1 900 1 HC one_shard V g k [box] sent n fuel 0 [li] [l] HI B F1 F2) as (g2 & k2 & Hrun2 & _ & _ & Hfed & _).
    rewrite Hrun in Hrun2. by injection Hrun2 as <- <-. }
  assert (HI' : System.world_inv CFG 1 900 1 V w' (System.requests_of CFG (shards_ g')) (replicate (Z.to_nat 1) []))
    by (by apply (System.world_after_poll CFG 1 900 1 V g k [box] sent n g' k' [li] [l])).
  split; cbn [fst snd].
  - eexists _, _. split; [exact HI'|]. by apply (SystemMarket.markets_poll CFG 1 900 1 HC V [sh0] g k [box] sent n g' k' lg [li] [l]).
  - rewrite Q3, Hh, !zlen_app. cbn [System.w_taken w']. lia.
Qed.

Lemma epoll_turn_law (x : Epoll) : epoll_inv x -> zlen (srv_handed x) < 2 ^ 32 -> exists x', srv_turn x = Ok x' /\
  srv_running x' = srv_running x /\ same_threads x x' /\ epoll_inv x'.
Proof.
  intros Hx Hlt. destruct (epoll_parts x Hx) as (ins & outs & sh & li & l & box & HI & HM & Es & -> & -> & Eb & Q1 & Q2).
  destruct Hx as [_ Hcnt]. rewrite Q1 in Hcnt. pose proof (zlen_nonneg li). cbn [srv_handed epoll_server] in Hlt.
  destruct x as [[g k boxes sent n] lg]. cbn [fst snd System.w_gateway System.w_boxes System.w_kernel System.w_taken System.w_sent] in *. subst boxes.
  assert (Hsh : shards_ g !! 0 = Some sh) by (by rewrite Es). assert (Hn : n < 2 ^ 32) by lia.
  destruct (System.shard_serving CFG 1 900 1 V _ _ _ _ _ _ _ _ _ HI Hsh) as (li1 & l1 & box1 & [= <-] & [= <-] & [= <-] & HV).
  destruct (turn_spec CFG HC 900 1 _ _ _ _ _ HV Hn) as (th' & li' & l' & Hturn & Ht).
  destruct (System.world_turn CFG 1 900 1 HC V _ _ _ _ _ _ _ _ _ HI Hn Hsh) as (box1 & th1 & ins' & outs' & [= <-] & Hturn1 & HI').
  rewrite Hturn in Hturn1. injection Hturn1 as <-.
  set (w := System.mkWorld g k [box] sent n) in *.
  set (w' := System.mkWorld (set_shards g (<[0 := ShardWork.th_shard th']> (shards_ g))) k (<[0 := ShardWork.th_outbox th']> [box]) sent
    (n + taking CFG (ShardWork.mkThread sh box))) in *.
  exists (w', SystemMarket.log CFG 1 w w' lg). destruct (Clients.turn_log CFG 1 900 1 HC V g k [box] sent n 0 sh box th' lg [li] [l] ins' outs' Hn Hsh eq_refl Hturn HI HI') as [Hin Hdr]. fold w w' in Hin, Hdr.
  assert (Hq : SystemMarket.queued_in CFG w' 0 = li').
  { unfold SystemMarket.queued_in, System.requests_of. cbn [w' System.w_gateway shards_ set_shards]. rewrite Es.
    change (Spsc.contents (queue_depth CFG) (inbound_ (ShardWork.th_shard th')) = li'). apply (Spsc.contents_repr _ (cf_ring _ HC)).
    apply (si_in _ _ _ _ _ _ (turned_inv CFG HC 900 1 _ _ _ _ _ _ _ _ HV Ht)). }
  split; [|split; [|split]].
  - cbn [srv_turn epoll_server]. unfold epoll_turn. cbn [fst snd w]. rewrite (aget_Ok _ _ _ Hsh). cbn [mbind res_bind].
    rewrite (aget_Ok [box] 0 box eq_refl). cbn [mbind res_bind]. rewrite Hturn. done.
  - cbn [srv_running epoll_server fst w w' System.w_gateway shards_ set_shards]. rewrite Es. change (Shard.running_ (ShardWork.th_shard th') = Shard.running_ sh).
    by apply (turned_running CFG 900 1 _ _ _ _ _ _ Ht).
  - split; cbn [srv_handed srv_drained epoll_server snd]; [apply Hin|]. unfold SystemMarket.lg_out. by rewrite Hdr.
  - split; cbn [fst snd].
    + exists ins', outs'. split; [exact HI'|]. by apply (SystemMarket.markets_turn CFG 1 900 1 HC V [sh0] g k [box] sent n 0 sh box th' lg [li] [l]).
    + rewrite Hq, (Hin 0). cbn [System.w_taken w']. pose proof (si_in _ _ _ _ _ _ HV) as Hi. cbn [sv_thread] in Hi.
      rewrite (taking_turn CFG HC 900 1 _ _ _ _ _ _ Hi Ht). lia.
Qed.

Lemma epoll_stop_law (x : Epoll) : epoll_inv x ->
  srv_running (srv_stop x) = false /\ srv_box (srv_stop x) = srv_box x /\ same_threads x (srv_stop x) /\ epoll_inv (srv_stop x).
Proof.
  intros Hx. destruct (epoll_parts x Hx) as (ins & outs & sh & li & l & box & HI & HM & Es & -> & -> & Eb & Q1 & Q2).
  destruct Hx as [_ Hcnt]. destruct x as [[g k boxes sent n] lg]. cbn [fst snd System.w_gateway System.w_boxes System.w_kernel System.w_taken System.w_sent] in *. subst boxes.
  assert (Hsh : shards_ g !! 0 = Some sh) by (by rewrite Es).
  destruct (System.shard_serving CFG 1 900 1 V _ _ _ _ _ _ _ _ _ HI Hsh) as (li1 & l1 & box1 & [= <-] & [= <-] & [= <-] & HV).
  pose proof (stopped_inv CFG 900 1 _ _ _ _ _ _ HV) as HV'.
  assert (E : srv_stop ((System.mkWorld g k [box] sent n, lg) : Epoll) = (System.mkWorld (set_shards g [Shard.stop sh]) k [box] sent n, lg))
    by (cbn [srv_stop epoll_server]; unfold epoll_stop; cbn [fst snd]; by rewrite Es).
  rewrite E. split; [done|]. split; [done|]. split; [done|]. pose proof HI as [W1 W2 W3 W4 W5 W6 W7].
  cbn [System.w_gateway System.w_boxes System.w_kernel System.w_taken System.w_sent] in *.
  assert (HI' : System.world_inv CFG 1 900 1 V (System.mkWorld (set_shards g [Shard.stop sh]) k [box] sent n) [li] [l]).
  { split; cbn [System.w_gateway System.w_boxes System.w_kernel System.w_taken System.w_sent shards_ set_shards]; try done.
    - apply (set_shards_wf CFG 1 V g k k _ [li] [l]); [done|done|]. 
      pose proof (replace_shard_rings CFG 1 [sh] [li] [l] 0 sh (Shard.stop sh) li l) as Hr. cbn in Hr. apply Hr; try done; [|apply HV'|apply HV'|].
      + rewrite <- Es. by destruct W1.
      + pose proof (si_wire _ _ _ _ _ _ HV) as Hw. by apply Forall_app in Hw as [? _].
    - intros s sh' Hs. pose proof (lookupZ_range _ _ _ Hs) as R. change (zlen [Shard.stop sh]) with 1 in R. assert (s = 0) as -> by lia.
      injection Hs as <-. split; [apply HV'|]. exact (proj2 (W2 0 sh Hsh)).
    - intros t Htok. destruct (W7 t Htok) as (sh' & Hs & Hk). rewrite Es in Hs. pose proof (lookupZ_range _ _ _ Hs) as R. change (zlen [sh]) with 1 in R.
      assert (OrderHandle.token_shard t = 0) as Et by lia. rewrite Et in Hs |- *. injection Hs as <-. exists (Shard.stop sh). split; [done|]. exact Hk. }
  split.
  2:{ unfold SystemMarket.queued_in in *. cbn [fst snd System.w_gateway System.w_taken shards_ set_shards] in *. rewrite Es in Hcnt. exact Hcnt. }
  exists [li], [l]. split; [done|].
  intros s sh1 sh' li' l' box' Hs0 Hs Hli Hl Hbox. cbn [fst snd System.w_gateway System.w_boxes System.w_sent System.w_taken shards_ set_shards] in *.
  pose proof (lookupZ_range _ _ _ Hs) as R. change (zlen [Shard.stop sh]) with 1 in R. assert (s = 0) as -> by lia.
  injection Hs0 as <-. injection Hs as <-. injection Hli as <-. injection Hl as <-. injection Hbox as <-.
  destruct (HM 0 sh0 sh li l box eq_refl Hsh eq_refl eq_refl eq_refl) as (taken & mk & all & HR). exists taken, mk, all.
  by apply refines_stop.
Qed.

#[export] Instance epoll_server_laws : ServerLaws CFG epoll_inv.
Proof.
  split; [apply epoll_poll_law|apply epoll_turn_law|apply epoll_stop_law|].
  intros x Hx. destruct (epoll_parts x Hx) as (ins & outs & sh & li & l & box & HI & HM & Es & -> & -> & Eb & Q1 & Q2).
  destruct (epoll_market x [li] [l] sh li l box HI HM Es eq_refl eq_refl Eb) as (taken & mk & all & [_ _ _ HR Ein Eout _ _]).
  exists taken, mk. cbn [srv_handed srv_drained srv_undrained srv_waiting srv_box epoll_server lf_in lf_out lf_serving sv_thread] in *.
  rewrite (proj2 (load_shard_table CFG sh0 Hcfg Hinit)) in HR. rewrite Q1, Q2, Eb. split; [|done]. rewrite Eout in HR. exact HR.
Qed.

Lemma epoll_fresh port k0 g0 k1 : gateway_init [sh0] port k0 = (inr g0, k1) ->
  fresh epoll_inv (System.mkWorld g0 k1 (System.no_boxes 1) [] 0, SystemMarket.no_log).
Proof.
  intros Hg. assert (Hb : System.built CFG 1 900 1 [sh0]).
  { split; [done|]. intros s sh Hs. pose proof (lookupZ_range _ _ _ Hs) as R. change (zlen [sh0]) with 1 in R. assert (s = 0) as -> by lia.
    injection Hs as <-. exists []. split; [pose proof (cf_symbols _ HC); unfold zlen; simpl; lia|]. by split. }
  pose proof (System.world_init CFG 1 900 1 HC one_shard V [sh0] port k0 g0 k1 ltac:(lia) Hb Hg) as HI.
  assert (Hs : shards_ g0 = [sh0]) by (by eapply GatewayProps.gateway_init_shards).
  assert (Hq : SystemMarket.queued_in CFG (System.mkWorld g0 k1 (System.no_boxes 1) [] 0) 0 = [])
    by (by destruct (SystemMarket.world_queues CFG 1 900 1 HC V _ _ _ 0 [] [] HI eq_refl eq_refl)).
  split; [|by cbn; rewrite Hs; apply (born_running CFG sh0)|done|done|done].
  split; cbn [fst snd]; [|by rewrite Hq]. eexists _, _. split; [exact HI|].
  by apply (SystemMarket.markets_init CFG 1 900 1 HC one_shard [sh0] port k0).
Qed.

End epoll.

(** ** The exchange over io_uring *)

Section uring.
Import UringGateway UringInv.
Context (CFG : ShardConfig) (Hcfg : CFG = LATENCY_CFG \/ CFG = THROUGHPUT_CFG) (HC : config_ok CFG).
Context {U : Type} `{Kernel U} `{Uring U} (V : KernelView U) (armed : U -> list Sqe) `{!UringLaws V armed}.
Context (sh0 : Shard) (Hinit : shard_init CFG 900 1 0 [] = Ok sh0).

Abbreviation ring q := (Spsc.contents (queue_depth CFG) q).

Definition OverUring : Type := @UringSystem.World U * UringMarket.Log.

Definition uring_poll (x : OverUring) : res OverUring :=
  let w := x.1 in
  '(g', u') ← poll_once CFG (UringSystem.w_gateway w) 0 (UringSystem.w_ring w);
  let w' := UringSystem.mkWorld g' u' (UringSystem.w_box w)
    (UringSystem.w_sent w ++ acked_tokens (ring (outbound_ (shard_ (UringSystem.w_gateway w))))) (UringSystem.w_taken w) in
  Ok (w', UringMarket.log CFG w w' x.2).

Definition uring_turn (x : OverUring) : res OverUring :=
  let '(UringSystem.mkWorld g u box sent n) := x.1 in
  th ← ShardWork.thread_turn CFG (ShardWork.mkThread (shard_ g) box);
  let w' := UringSystem.mkWorld (set_shard g (ShardWork.th_shard th)) u (ShardWork.th_outbox th) sent
    (n + taking CFG (ShardWork.mkThread (shard_ g) box)) in
  Ok (w', UringMarket.log CFG x.1 w' x.2).

Definition uring_stop (x : OverUring) : OverUring :=
  let '(UringSystem.mkWorld g u box sent n) := x.1 in
  (UringSystem.mkWorld (set_shard g (Shard.stop (shard_ g))) u box sent n, x.2).

#[export] Instance uring_server : Server OverUring := {|
  srv_poll _ := uring_poll;
  srv_ready _ x := forall u1 cs u2, u_cqes u1 = (cs, u2) -> next_session_id_ (UringSystem.w_gateway x.1) + zlen cs < 2 ^ 32;
  srv_turn := uring_turn;
  srv_stop := uring_stop;
  srv_running x := Shard.running_ (shard_ (UringSystem.w_gateway x.1));
  srv_box x := UringSystem.w_box x.1;
  srv_waiting x := ring (inbound_ (shard_ (UringSystem.w_gateway x.1)));
  srv_undrained x := ring (outbound_ (shard_ (UringSystem.w_gateway x.1)));
  srv_handed x := x.2.1;
  srv_drained x := x.2.2
|}.

Definition over_uring_inv (x : OverUring) : Prop :=
  (exists flight ins outs, UringSystem.world_inv CFG 900 1 V armed x.1 flight ins outs /\ UringMarket.market_inv CFG 900 1 [0] x.1 x.2 ins outs) /\
  UringSystem.w_taken x.1 + zlen (srv_waiting x) = zlen (srv_handed x).

Lemma uring_poll_law (fuel : nat) (x : OverUring) : over_uring_inv x -> srv_ready fuel x -> exists x', srv_poll fuel x = Ok x' /\
  srv_running x' = srv_running x /\ srv_box x' = srv_box x /\ (exists more, srv_drained x' = srv_drained x ++ more) /\
  (Forall order_only (srv_handed x') -> over_uring_inv x').
Proof.
  intros [(flight & ins & outs & HI & HM) Hcnt] B. destruct x as [[g u box sent n] lg].
  cbn [srv_ready srv_waiting srv_handed uring_server fst snd UringSystem.w_gateway UringSystem.w_taken] in *.
  pose proof (UringSystem.world_waiting CFG 900 1 HC V armed _ _ _ _ HI) as [Ei Eo]. cbn [UringSystem.w_gateway] in Ei, Eo.
  destruct (UringSystem.uring_world_poll CFG 900 1 HC V armed g u box sent n 0 flight ins outs HI B) as (g' & u' & fl' & ins' & Hrun & Eb & Ea & Ew & HI').
  destruct (UringMarket.uring_poll_rings CFG 900 1 HC V armed g u box sent n 0 g' u' flight ins outs HI B Hrun) as (ms & Hms & Ein & Eout & Hsame).
  set (w := UringSystem.mkWorld g u box sent n) in *. set (w' := UringSystem.mkWorld g' u' box (sent ++ acked_tokens (ring (outbound_ (shard_ g)))) n).
  exists (w', UringMarket.log CFG w w' lg).
  split; [cbn [srv_poll uring_server]; unfold uring_poll; cbn [fst snd w UringSystem.w_gateway UringSystem.w_ring]; by rewrite Hrun|].
  assert (Hh : (UringMarket.log CFG w w' lg).1 = lg.1 ++ ms).
  { unfold UringMarket.log. cbn [fst w w' UringSystem.w_gateway]. by rewrite Ei, Ein, came_app. }
  split; [|split; [done|split; [by eexists|]]].
  { destruct (UringProps.poll_inv CFG V armed (cf_ring _ HC) g 0 u flight ins outs (UringSystem.wi_uring _ _ _ _ _ _ _ _ _ HI) B)
      as (g1 & u1 & f1 & i1 & Hrun1 & _ & _ & _ & Esh & _). rewrite Hrun in Hrun1. injection Hrun1 as <- <-.
    cbn [srv_running uring_server fst w w' UringSystem.w_gateway]. by rewrite Esh. }
  cbn [srv_handed uring_server snd]. rewrite Hh. intros Hord. destruct HM as (taken & mk & all & HR).
  pose proof (rf_in _ _ _ _ _ _ _ _ _ _ HR) as Etk. cbn [lf_in snd] in Etk.
  assert (Hfair : Forall (System.fair 900 sent) (ring (inbound_ (shard_ g')))).
  { rewrite Ein. rewrite Etk, <- app_assoc in Hord. apply Forall_app in Hord as [_ Hord]. eapply Forall_impl; [exact Hord|apply fair_order]. }
  specialize (HI' Hfair). pose proof (UringSystem.world_waiting CFG 900 1 HC V armed _ _ _ _ HI') as [Ei' _]. cbn [UringSystem.w_gateway] in Ei'.
  rewrite Ein in Ei'. subst ins'. split.
  - exists fl', (ins ++ ms), []. split; [unfold w'; by rewrite Eo|]. exists taken, mk, all. cbn [fst snd w' UringSystem.w_gateway UringSystem.w_box UringSystem.w_sent UringSystem.w_taken].
    rewrite Hh. unfold UringMarket.log. cbn [snd w w' UringSystem.w_gateway]. rewrite Eo, Eout, gone_all.
    eapply (refines_move CFG 900 1); [exact HR|exact (UringSystem.wi_serving _ _ _ _ _ _ _ _ _ HI')|done|apply Z.le_refl|done|by rewrite app_nil_r|done].
  - cbn [srv_waiting srv_handed uring_server fst snd w' UringSystem.w_gateway UringSystem.w_taken]. rewrite Ein, Hh, !zlen_app. rewrite Ei in Hcnt. lia.
Qed.

Lemma uring_turn_law (x : OverUring) : over_uring_inv x -> zlen (srv_handed x) < 2 ^ 32 -> exists x', srv_turn x = Ok x' /\
  srv_running x' = srv_running x /\ same_threads x x' /\ over_uring_inv x'.
Proof.
  intros [(flight & ins & outs & HI & HM) Hcnt] Hlt. destruct x as [[g u box sent n] lg].
  cbn [srv_waiting srv_handed uring_server fst snd UringSystem.w_gateway UringSystem.w_taken] in *.
  pose proof (UringSystem.world_waiting CFG 900 1 HC V armed _ _ _ _ HI) as [Ei Eo]. cbn [UringSystem.w_gateway] in Ei, Eo.
  pose proof (zlen_nonneg ins). rewrite Ei in Hcnt. assert (Hn : n < 2 ^ 32) by lia.
  pose proof (UringSystem.wi_serving _ _ _ _ _ _ _ _ _ HI) as HV. cbn [UringSystem.w_gateway UringSystem.w_box UringSystem.w_sent UringSystem.w_taken] in HV.
  destruct (turn_spec CFG HC 900 1 _ _ _ _ _ HV Hn) as (th' & li' & l' & Hturn & Ht).
  set (w := UringSystem.mkWorld g u box sent n) in *.
  set (w' := UringSystem.mkWorld (set_shard g (ShardWork.th_shard th')) u (ShardWork.th_outbox th') sent (n + taking CFG (ShardWork.mkThread (shard_ g) box))).
  exists (w', UringMarket.log CFG w w' lg).
  assert (Hstep : UringSystem.exchange_step CFG 900 w w') by (by apply (UringSystem.exchange_turn CFG 900 g u box sent n th')).
  destruct (UringMarket.uring_market_step CFG 900 1 HC V armed [0] w w' lg flight ins outs Hstep Hn HI HM) as (f2 & i2 & o2 & HI2 & HM2).
  pose proof (turned_inv CFG HC 900 1 _ _ _ _ _ _ _ _ HV Ht) as HV'.
  assert (Ei' : ring (inbound_ (shard_ (UringSystem.w_gateway w'))) = li') by (apply (Spsc.contents_repr _ (cf_ring _ HC)), (si_in _ _ _ _ _ _ HV')).
  assert (Eo' : ring (outbound_ (shard_ (UringSystem.w_gateway w'))) = l') by (apply (Spsc.contents_repr _ (cf_ring _ HC)), (si_out _ _ _ _ _ _ HV')).
  destruct (turned_queues CFG 900 1 _ _ _ _ _ _ Ht) as [Hc Hg].
  assert (Elog : UringMarket.log CFG w w' lg = lg).
  { unfold UringMarket.log. cbn [w UringSystem.w_gateway]. rewrite Ei, Eo, Ei', Eo', Hc, Hg, !app_nil_r. by destruct lg. }
  split; [cbn [srv_turn uring_server]; unfold uring_turn; cbn [fst snd w]; by rewrite Hturn|].
  split; [exact (turned_running CFG 900 1 _ _ _ _ _ _ Ht)|]. rewrite Elog in *. split; [done|].
  split; cbn [fst snd]; [by exists f2, i2, o2|]. cbn [srv_waiting srv_handed uring_server fst snd]. rewrite Ei'. cbn [w' UringSystem.w_taken].
  pose proof (si_in _ _ _ _ _ _ HV) as Hi. cbn [sv_thread] in Hi. rewrite (taking_turn CFG HC 900 1 _ _ _ _ _ _ Hi Ht). lia.
Qed.

Lemma uring_stop_law (x : OverUring) : over_uring_inv x ->
  srv_running (srv_stop x) = false /\ srv_box (srv_stop x) = srv_box x /\ same_threads x (srv_stop x) /\ over_uring_inv (srv_stop x).
Proof.
  intros [(flight & ins & outs & HI & taken & mk & all & HR) Hcnt]. destruct x as [[g u box sent n] lg].
  do 3 (split; [done|]). split; [|exact Hcnt]. exists flight, ins, outs. cbn [fst snd] in *. pose proof HI as [HU HV].
  cbn [UringSystem.w_gateway UringSystem.w_ring UringSystem.w_box UringSystem.w_sent UringSystem.w_taken] in *. pose proof (stopped_inv CFG 900 1 _ _ _ _ _ _ HV) as HV'.
  pose proof (si_wire _ _ _ _ _ _ HV) as Hw. apply Forall_app in Hw as [Hw _]. split; [split|].
  - apply (UringProps.set_shard_inv CFG V armed g u [] flight ins outs (Shard.stop (shard_ g))); [exact HU|apply HV'|apply HV'|exact Hw].
  - exact HV'.
  - exists taken, mk, all. by apply refines_stop.
Qed.

#[export] Instance uring_server_laws : ServerLaws CFG over_uring_inv.
Proof.
  split; [apply uring_poll_law|apply uring_turn_law|apply uring_stop_law|].
  intros x [(flight & ins & outs & HI & taken & mk & all & [_ _ _ HR Ein Eout _ _]) _].
  pose proof (UringSystem.world_waiting CFG 900 1 HC V armed _ _ _ _ HI) as [Ei Eo]. exists taken, mk.
  cbn [srv_handed srv_drained srv_undrained srv_waiting srv_box uring_server lf_in lf_out lf_serving sv_thread ShardWork.th_outbox] in *.
  rewrite (proj2 (load_shard_table CFG sh0 Hcfg Hinit)) in HR. rewrite Ei, Eo. split; [|done]. rewrite Eout in HR. exact HR.
Qed.

Lemma uring_fresh port sqpoll cpu u0 g0 u1 : uring_init sh0 port sqpoll cpu u0 = Ok (inr g0, u1) ->
  fresh over_uring_inv (UringSystem.mkWorld g0 u1 [] [] 0, ([], [])).
Proof.
  intros Hg. assert (Hs : shard_ g0 = sh0) by (by eapply UringSystem.uring_init_shard).
  assert (Hsym : zlen (@nil Z) <= max_symbols CFG) by (pose proof (cf_symbols _ HC); unfold zlen; simpl; lia).
  pose proof (UringSystem.uring_world_init CFG 900 1 HC V armed 0 [] sh0 port sqpoll cpu u0 g0 u1 ltac:(lia) ltac:(done) Hsym ltac:(constructor) Hinit Hg) as HI.
  split; [|cbn; rewrite Hs; by apply (born_running CFG sh0)|done|done|done].
  pose proof (UringSystem.world_waiting CFG 900 1 HC V armed _ _ _ _ HI) as [Ei _]. split.
  - eexists _, _, _. split; [exact HI|]. eexists _, _, _. cbn [fst snd UringSystem.w_gateway UringSystem.w_box UringSystem.w_sent UringSystem.w_taken].
    rewrite Hs, <- (proj1 (load_shard_table CFG sh0 Hcfg Hinit)). by apply (refines_born CFG HC 900 1 0 [] sh0).
  - cbn [srv_waiting srv_handed uring_server fst snd UringSystem.w_taken] in *. by rewrite Ei.
Qed.

End uring.

(** ** Orders of the benchmarks *)

(** An order of one of the clients, as it is sent, and the request that the
    gateway makes of it for session [sid]. *)
Definition bench_order (o : NewOrder) : Prop :=
  (exists i, 0 <= i < LATENCY_TOTAL /\ o = latency_order i) \/ (exists oid, is_u 64 oid /\ o = make_order oid).
Definition request_of (sid : Z) (o : NewOrder) : InboundMsg := Session.request_msg sid (Session.RNew o).
Definition from_client (m : InboundMsg) : Prop := exists sid o, is_u 32 sid /\ bench_order o /\ m = request_of sid o.

Lemma bench_order_streams o sid : is_u 32 sid -> bench_order o -> bids_one (with_session o sid) /\ Session.request_ok (Session.RNew o).
Proof.
  intros Hsid Ho. split; [apply streamed_bids; exists sid; split; [done|]; destruct Ho as [(i & ? & ->)|(oid & ? & ->)]; eauto 6|].
  assert (Hb : bids_one (with_session o 0)).
  { apply streamed_bids. exists 0. split; [done|]. destruct Ho as [(i & ? & ->)|(oid & ? & ->)]; eauto 6. }
  destruct Hb as [Hok _ _]. by destruct Ho as [(i & ? & ->)|(oid & ? & ->)].
Qed.

Lemma request_reads sid o : is_u 32 sid -> bench_order o ->
  hdr_type (in_hdr (request_of sid o)) = NEW_ORDER /\ in_new_order (request_of sid o) = with_session o sid.
Proof. intros Hsid Ho. destruct (bench_order_streams o sid Hsid Ho) as [_ Hok]. by destruct (Session.request_delivers sid _ Hsid Hok) as (? & _ & ?). Qed.

(** The order as it is in the request. *)
Definition stamp (sid : Z) (o : NewOrder) : NewOrder := with_session o sid.

Lemma requests_read sid os : is_u 32 sid -> Forall bench_order os -> in_new_order <$> (request_of sid <$> os) = stamp sid <$> os.
Proof.
  intros Hsid HF. rewrite <- list_fmap_compose. apply list_fmap_ext. intros i o Ho. rewrite Forall_lookup in HF. by apply request_reads, (HF i).
Qed.

Lemma from_client_bids m : from_client m -> hdr_type (in_hdr m) = NEW_ORDER /\ bids_one (in_new_order m).
Proof. intros (sid & o & Hsid & Ho & ->). destruct (request_reads sid o Hsid Ho) as [? ->]. split; [done|]. by apply bench_order_streams. Qed.

Lemma from_client_order_only m : from_client m -> order_only m.
Proof. intros [Ht [_ _ Hp]]%from_client_bids. split; [done|]. unfold is_i64, INT64_MIN, INT64_MAX. lia. Qed.

Lemma request_session m : hdr_session_id (no_hdr (in_new_order m)) = hdr_session_id (in_hdr m).
Proof. done. Qed.

(** A market that takes such orders, no more than it has room for, makes one
    acknowledgement of each, in their order. *)
Lemma bids_acked room ms mk outs :
  market_run (ladder_idx 900 1) 2048 room (hosted [0]) (empty_market 1) ms mk outs ->
  Forall (fun m => hdr_type (in_hdr m) = NEW_ORDER /\ bids_one (in_new_order m)) ms -> zlen ms <= room ->
  Forall2 acks (in_new_order <$> ms) outs /\ exists ab, mk_books mk = [ab] /\ asks ab = [] /\ length (bids ab) = length ms.
Proof.
  intros Hrun. induction Hrun as [|ms mk outs m mk' more _ IH Hs]; intros HF Hroom; [split; [constructor|by exists (mkABook [] [])]|].
  apply Forall_app in HF as [HF Hm]. apply Forall_cons in Hm as [[Ht HB] _]. rewrite zlen_app in Hroom. change (zlen [m]) with 1 in Hroom.
  destruct (IH HF ltac:(lia)) as (HA & ab & Eb & Ha & Hl). pose proof HB as [_ (_ & Esym & _) Hp].
  assert (Hlad : 0 <= ladder_idx 900 1 (no_price (in_new_order m)) < 2048)
    by (unfold ladder_idx; rewrite Z.quot_1_r, wrapS_small by lia; lia).
  assert (Htok : zlen (resting_tokens mk) < room).
  { unfold resting_tokens. rewrite Eb. unfold aslots. cbn [fmap list_fmap concat]. rewrite Ha, !app_nil_r. unfold slots_of, zlen in *. rewrite length_fmap. lia. }
  destruct Hs as [o b ab1 token rests fs ab' _ Eo Hh Hb _ _ _ Hadd|o b _ Eo _ Hno|o _ Eo Hh|b ab1 bid r Hc|Hc|Hc _]; try congruence.
  - subst o. rewrite Esym in Hh. injection Hh as <-. rewrite Eb in Hb. injection Hb as <-. rewrite (bid_rests ab _ token HB Ha) in Hadd. injection Hadd as <- <- <-.
    split.
    + rewrite fmap_app. apply Forall2_app; [done|]. repeat constructor. exists token. by rewrite request_session.
    + eexists. cbn [mk_books]. rewrite Eb. split; [done|]. split; [done|]. cbn [bids]. rewrite spec_insert_perm, length_app. simpl. lia.
  - subst o. destruct Hno as [Hno|]; [by destruct Hno|lia].
  - subst o. by rewrite Esym in Hh.
Qed.

Section load.
Context {W : Type} `{HS : Server W} (CFG : ShardConfig) (inv : W -> Prop) `{!ServerLaws CFG inv} (Hcfg : CFG = LATENCY_CFG \/ CFG = THROUGHPUT_CFG).

(** What the gateway has drained acknowledges what it handed over first. *)
Lemma server_acks w : inv w -> Forall from_client (srv_handed w) -> zlen (srv_handed w) <= max_orders CFG ->
  (length (srv_drained w ++ srv_undrained w ++ srv_box w) <= length (srv_handed w))%nat /\
  Forall2 acks (in_new_order <$> take (length (srv_drained w)) (srv_handed w)) (srv_drained w).
Proof.
  intros HI HF Hroom. destruct (srv_market_law w HI) as (taken & mk & Hrun & Eh). rewrite Eh in HF, Hroom |- *. apply Forall_app in HF as [HF _].
  rewrite (proj2 (load_cfg_ok CFG Hcfg)) in Hrun. rewrite zlen_app in Hroom. pose proof (zlen_nonneg (srv_waiting w)).
  destruct (bids_acked _ _ _ _ Hrun) as [HA _]; [eapply Forall_impl; [exact HF|apply from_client_bids]|lia|].
  pose proof (Forall2_length _ _ _ HA) as HL. rewrite length_fmap in HL. split; [rewrite (length_app taken); lia|].
  apply Forall2_app_inv_r in HA as (l1 & l2 & HA & _ & E). pose proof (Forall2_length _ _ _ HA) as HL1.
  rewrite length_app in HL. rewrite take_app_le by lia. rewrite fmap_take, E, <- HL1. by rewrite take_app_length.
Qed.

End load.

Lemma ack_frame o m : acks o m -> length (out_enc m) = Z.to_nat sizeof_Ack.
Proof. intros [token ->]. unfold ack_of. cbn [out_enc]. by rewrite length_enc. Qed.

(** The bytes of the reports that were drained. *)
Definition answered {W} `{Server W} (w : W) : Z := zlen (concat (out_enc <$> srv_drained w)).

Lemma answered_acks {W} `{Server W} (w : W) os : Forall2 acks os (srv_drained w) -> answered w = zlen (srv_drained w) * sizeof_Ack.
Proof.
  unfold answered. induction 1 as [|o m os ms Ha _ IH]; [done|]. rewrite fmap_cons, concat_cons, zlen_app, zlen_cons, IH.
  apply ack_frame in Ha. unfold zlen at 1. rewrite Ha. unfold sizeof_Ack. lia.
Qed.

(** ** System calls of the clients *)

(** What the kernel does with the call a client makes: [socket] and [connect]
    return [fd] and [rc]; a [send] whose result is ignored ends the process
    when it raises [SIGPIPE]; [recv] returns [r]. *)
Inductive Input : Type := Connects (fd rc : Z) | Sends (killed : bool) | Receives (r : Z).

(** ** The threads *)

(** [while (running.load()) gw.poll_once(0);] *)
Inductive GwPc : Type := GwCheck | GwPoll | GwDone.

Record Threads (W : Type) : Type := mkThreads {
  t_server : W;
  t_running : bool;        (* running, of the gateway's loop *)
  t_gw : GwPc;
  t_shard_done : bool      (* shard.run() has returned *)
}.
Arguments mkThreads {W}.
Arguments t_server {W}.
Arguments t_running {W}.
Arguments t_gw {W}.
Arguments t_shard_done {W}.

Definition start {W} (w : W) : Threads W := mkThreads w true GwCheck false.

Section threads.
Context {W : Type} `{HS : Server W}.

Definition gw_check (th : Threads W) : Threads W :=
  mkThreads (t_server th) (t_running th) (if t_running th then GwPoll else GwDone) (t_shard_done th).
Definition gw_poll (fuel : nat) (th : Threads W) : res (Threads W) :=
  w ← srv_poll fuel (t_server th); Ok (mkThreads w (t_running th) GwCheck (t_shard_done th)).

(** [shard.run()]: it returns at the head of its loop. *)
Definition run_returns (w : W) : bool := negb (srv_running w) && match srv_box w with [] => true | _ => false end.
Definition shard_round (th : Threads W) : res (Threads W) :=
  if run_returns (t_server th) then Ok (mkThreads (t_server th) (t_running th) (t_gw th) true)
  else w ← srv_turn (t_server th); Ok (mkThreads w (t_running th) (t_gw th) (t_shard_done th)).

(** What other threads do to them. *)
Definition stop_gateway (th : Threads W) : Threads W := mkThreads (t_server th) false (t_gw th) (t_shard_done th).
Definition stop_shard (th : Threads W) : Threads W := mkThreads (srv_stop (t_server th)) (t_running th) (t_gw th) (t_shard_done th).

(** One step of one of the two; [arrives] says which requests can have been
    handed to the shard after a poll. *)
Inductive threads_step (arrives : list InboundMsg -> Prop) (th : Threads W) : Threads W -> Prop :=
| step_check : t_gw th = GwCheck -> threads_step arrives th (gw_check th)
| step_poll fuel th' : t_gw th = GwPoll -> srv_ready fuel (t_server th) -> gw_poll fuel th = Ok th' ->
    arrives (srv_handed (t_server th')) -> threads_step arrives th th'
| step_shard th' : t_shard_done th = false -> shard_round th = Ok th' -> threads_step arrives th th'.

Context (CFG : ShardConfig) (inv : W -> Prop) `{!ServerLaws CFG inv}.

Record threads_inv (arrives : list InboundMsg -> Prop) (th : Threads W) : Prop := {
  ti_server : inv (t_server th);
  ti_arrives : arrives (srv_handed (t_server th));
  ti_gw : t_gw th = GwDone -> t_running th = false;
  ti_shard : t_shard_done th = true -> srv_running (t_server th) = false
}.

(** What a step of the threads leaves alone, and that reports only leave. *)
Record threads_go (th th' : Threads W) : Prop := {
  tg_running : t_running th' = t_running th;
  tg_shard : srv_running (t_server th') = srv_running (t_server th);
  tg_drained : exists more, srv_drained (t_server th') = srv_drained (t_server th) ++ more;
  tg_gw : t_gw th = GwDone -> t_gw th' = GwDone;
  tg_done : t_shard_done th = true -> t_shard_done th' = true
}.

Context (arrives : list InboundMsg -> Prop).
Context (Harr : forall ms, arrives ms -> Forall order_only ms /\ zlen ms < 2 ^ 32).

Lemma shard_round_ok th : threads_inv arrives th -> exists th', shard_round th = Ok th' /\ threads_inv arrives th' /\ threads_go th th'.
Proof.
  intros [T1 T2 T3 T4]. unfold shard_round. destruct (run_returns (t_server th)) eqn:Er.
  - apply andb_true_iff in Er as [Er _]. apply negb_true_iff in Er. eexists. split; [done|]. split; [by split|]. split; try done. exists []. by rewrite app_nil_r.
  - destruct (srv_turn_law _ T1) as (w & -> & E1 & [E2 E3] & HI); [by apply Harr|]. cbn [mbind res_bind]. eexists. split; [done|].
    split; [split; cbn [t_server t_gw t_running t_shard_done]; rewrite ?E1, ?E2; done|]. split; cbn [t_server t_gw t_running t_shard_done]; try done. exists []. by rewrite E3, app_nil_r.
Qed.

Lemma gw_poll_ok fuel th : inv (t_server th) -> srv_ready fuel (t_server th) -> exists th', gw_poll fuel th = Ok th'.
Proof. intros HI Hr. unfold gw_poll. destruct (srv_poll_law fuel _ HI Hr) as (w & -> & _). by eexists. Qed.

Lemma threads_step_inv th th' : threads_inv arrives th -> threads_step arrives th th' -> threads_inv arrives th' /\ threads_go th th'.
Proof.
  intros HI Hs. pose proof HI as [T1 T2 T3 T4]. destruct Hs as [Eg|fuel th' Eg Hr Hp Ha|th' Ed Hp].
  - split; [|split; try done; [exists []; by rewrite app_nil_r|by rewrite Eg]]. split; try done. unfold gw_check. cbn [t_gw t_running]. by destruct (t_running th).
  - unfold gw_poll in Hp. destruct (srv_poll_law fuel _ T1 Hr) as (w & Hrun & E1 & _ & Hd & HI'). rewrite Hrun in Hp. injection Hp as <-. cbn [t_server] in Ha.
    split; [|split; cbn [t_server t_gw t_running t_shard_done]; try done; by rewrite Eg].
    split; cbn [t_server t_gw t_running t_shard_done]; try done; [by apply HI', Harr|by rewrite E1].
  - destruct (shard_round_ok th HI) as (th1 & Hp1 & ?). rewrite Hp in Hp1. by injection Hp1 as <-.
Qed.

Lemma stop_gateway_inv th : threads_inv arrives th -> threads_inv arrives (stop_gateway th).
Proof. intros [T1 T2 T3 T4]. by split. Qed.

Lemma stop_shard_inv th : threads_inv arrives th ->
  threads_inv arrives (stop_shard th) /\ srv_running (t_server (stop_shard th)) = false /\
  srv_drained (t_server (stop_shard th)) = srv_drained (t_server th) /\ srv_box (t_server (stop_shard th)) = srv_box (t_server th).
Proof.
  intros [T1 T2 T3 T4]. destruct (srv_stop_law _ T1) as (E1 & E2 & [E3 E4] & HI). split; [|done]. split; cbn [stop_shard t_server t_gw t_running t_shard_done]; try done.
  by rewrite E3.
Qed.

(** The gateway is between two polls, the shard's thread between two requests. *)
Definition idle (th : Threads W) : Prop := t_gw th <> GwPoll /\ (t_shard_done th = true \/ srv_box (t_server th) = []).

Lemma idle_stop th : threads_inv arrives th -> idle th -> idle (stop_shard th).
Proof. intros HI [I1 I2]. destruct (stop_shard_inv th HI) as (_ & _ & _ & E). split; [done|]. cbn [stop_shard t_shard_done]. by rewrite E. Qed.

(** A thread that is to end and is not in the middle of its work ends. *)
Lemma gw_check_ends th : t_gw th = GwCheck -> t_running th = false -> t_gw (gw_check th) = GwDone.
Proof. intros _ Er. unfold gw_check. cbn [t_gw]. by rewrite Er. Qed.
Lemma shard_round_ends th : srv_running (t_server th) = false -> srv_box (t_server th) = [] ->
  shard_round th = Ok (mkThreads (t_server th) (t_running th) (t_gw th) true).
Proof. intros Er Eb. unfold shard_round, run_returns. by rewrite Er, Eb. Qed.

End threads.

(** More requests may arrive than before. *)
Lemma threads_inv_more {W} `{HS : Server W} (inv : W -> Prop) (arr arr' : list InboundMsg -> Prop) th :
  (forall ms, arr ms -> arr' ms) -> threads_inv inv arr th -> threads_inv inv arr' th.
Proof. intros Hm [T1 T2 T3 T4]. split; auto. Qed.

Lemma threads_start {W} `{HS : Server W} (inv : W -> Prop) (arr : list InboundMsg -> Prop) w : fresh inv w -> arr [] -> threads_inv inv arr (start w).
Proof. intros [F1 F2 F3 F4 F5] Ha. split; try done. cbn [start t_server]. by rewrite F4. Qed.

(** ** A server over a simulated ring *)

Import Sim UringProps.

Definition program_shard (CFG : ShardConfig) : Shard :=
  match shard_init CFG 900 1 0 [] with Ok sh => sh | Err _ => load_shard end.
Definition simulated_gateway (sh : Shard) : UringGateway.UringGateway * SimRing :=
  let u0 := mkRing (mkSim [] [] ∅ {[0; 1; 2]} 0 4096) [] in
  match UringGateway.uring_init sh 9000 false 7 u0 with
  | Ok (inr g, u) => (g, u)
  | _ => (UringGateway.mkUring sh 0 0 0 ∅ ∅ false [] [] 0, u0)
  end.
Definition simulated (CFG : ShardConfig) : @OverUring SimRing :=
  (UringSystem.mkWorld (simulated_gateway (program_shard CFG)).1 (simulated_gateway (program_shard CFG)).2 [] [] 0, ([], [])).

Lemma simulated_gateway_init sh : UringGateway.uring_init sh 9000 false 7 (mkRing (mkSim [] [] ∅ {[0; 1; 2]} 0 4096) []) =
  Ok (inr (simulated_gateway sh).1, (simulated_gateway sh).2).
Proof. by vm_compute. Qed.

Section simulated.
Context (CFG : ShardConfig) (Hcfg : CFG = LATENCY_CFG \/ CFG = THROUGHPUT_CFG).

Lemma program_shard_init : shard_init CFG 900 1 0 [] = Ok (program_shard CFG).
Proof.
  destruct (load_cfg_ok CFG Hcfg) as [HC _]. destruct (shard_init_spec CFG HC 900 1 0 []) as (sh & Hrun & _); [lia|done| |constructor|].
  - pose proof (cf_symbols _ HC). unfold zlen. simpl. lia.
  - unfold program_shard. by rewrite Hrun.
Qed.

Lemma simulated_laws : @ServerLaws _ (uring_server CFG) CFG (over_uring_inv CFG ring_view sr_armed).
Proof. apply (uring_server_laws CFG Hcfg (proj1 (load_cfg_ok CFG Hcfg)) ring_view sr_armed (program_shard CFG) program_shard_init). Qed.

Lemma simulated_fresh : fresh (H := uring_server CFG) (over_uring_inv CFG ring_view sr_armed) (simulated CFG).
Proof.
  eapply (uring_fresh CFG Hcfg (proj1 (load_cfg_ok CFG Hcfg)) ring_view sr_armed (program_shard CFG) program_shard_init 9000 false 7).
  apply simulated_gateway_init.
Qed.

End simulated.

End BenchServer.
