(* ===== verification/BenchLoad.v ===== *)
(** * The threads of the throughput benchmark ([bench/gateway_throughput.cc])

    [run_load], [measure] and the end of [main] as one transition system: the
    main thread, the loaders, and the gateway's and the shard's threads, which
    are those of [BenchServer] and run the gateway and the shard.  What
    [connect], [send] and [recv] return to the loaders is up to the kernel,
    failures and closed connections included. *)

From stdpp Require Import relations.
From S2P Require Import Prelude Messages Order OrderBook Sink Session Shard ShardInv Harness BenchGateway.
From S2P Require Import Kernel Gateway System SystemMarket UringGateway UringInv UringProps UringSystem UringMarket BenchServer.

Module BenchLoad.
Import Shard Harness BenchGateway BenchServer.

(** ** A loader *)

(** What [connect_client] returns when [socket] returns [fd] and [connect] [rc]. *)
Definition connect_client (fd rc : Z) : Z := if negb (rc =? 0) then -1 else fd.

(** [PIPELINE * sizeof(Ack)] *)
Definition WANT : Z := PIPELINE * sizeof_Ack.

Inductive LoaderPc : Type :=
| LConnect (c : Z)                     (* for (c ...) fds[c] = connect_client(port); ready.fetch_add *)
| LWait                                (* while (!go.load()) *)
| LLoop (sent oid : Z)                 (* while (sent < per_loader_orders) *)
| LSend (c k sent oid : Z)             (* the two loops around send *)
| LRecv (c got sent oid : Z)           (* the two loops around recv *)
| LClose (c : Z)                       (* for (c ...) close(fds[c]) *)
| LDone.

(** [l_ids], [l_closed], [l_got] and [l_whole] are kept for the statements: the
    ids of the orders handed to [send], the descriptors handed to [close], the
    bytes that were read, and whether every [recv] returned some. *)
Record Loader : Type := mkLoader {
  l_pc : LoaderPc;
  l_fds : list Z;
  l_ids : list Z;
  l_closed : list Z;
  l_got : Z;
  l_whole : bool
}.

Definition at_pc (ld : Loader) (pc : LoaderPc) : Loader :=
  mkLoader pc (l_fds ld) (l_ids ld) (l_closed ld) (l_got ld) (l_whole ld).

(** One round of a loader, and what it adds to [ready]; while it waits in a
    call nothing changes.  The result of [send] is ignored, and [MSG_NOSIGNAL]
    keeps it from ending the process. *)
Definition loader_turn (L : Z) (go : bool) (inp : Input) (ld : Loader) : res (Loader * Z) :=
  match l_pc ld with
  | LConnect c =>
      if c <? per_loader_conns then
        match inp with
        | Connects fd rc =>
            Ok (mkLoader (LConnect (c + 1)) (l_fds ld ++ [connect_client fd rc]) (l_ids ld) (l_closed ld) (l_got ld) (l_whole ld), 0)
        | _ => Ok (ld, 0)
        end
      else Ok (at_pc ld LWait, 1)
  | LWait => Ok (if go then at_pc ld (LLoop 0 (first_oid L)) else ld, 0)
  | LLoop sent oid => Ok (at_pc ld (if sent <? per_loader_orders then LSend 0 0 sent oid else LClose 0), 0)
  | LSend c k sent oid =>
      if c <? per_loader_conns then
        if k <? PIPELINE then
          _ ← aget (l_fds ld) c;
          match inp with
          | Sends _ => Ok (mkLoader (LSend c (k + 1) sent (u64 (oid + 1))) (l_fds ld) (l_ids ld ++ [oid]) (l_closed ld) (l_got ld) (l_whole ld), 0)
          | _ => Ok (ld, 0)
          end
        else Ok (at_pc ld (LSend (c + 1) 0 sent oid), 0)
      else Ok (at_pc ld (LRecv 0 0 sent oid), 0)
  | LRecv c got sent oid =>
      if c <? per_loader_conns then
        if got <? WANT then
          _ ← aget (l_fds ld) c;
          match inp with
          | Receives r =>
              Ok (if r <=? 0 then mkLoader (LRecv (c + 1) 0 sent oid) (l_fds ld) (l_ids ld) (l_closed ld) (l_got ld) false
                  else mkLoader (LRecv c (u64 (got + r)) sent oid) (l_fds ld) (l_ids ld) (l_closed ld) (l_got ld + r) (l_whole ld), 0)
          | _ => Ok (ld, 0)
          end
        else Ok (at_pc ld (LRecv (c + 1) 0 sent oid), 0)
      else Ok (at_pc ld (LLoop (u64 (sent + u64 (per_loader_conns * PIPELINE))) oid), 0)
  | LClose c =>
      if c <? per_loader_conns then
        fd ← aget (l_fds ld) c;
        Ok (mkLoader (LClose (c + 1)) (l_fds ld) (l_ids ld) (l_closed ld ++ [fd]) (l_got ld) (l_whole ld), 0)
      else Ok (at_pc ld LDone, 0)
  | LDone => Ok (ld, 0)
  end.

(** ** The program *)

Inductive MainPc : Type :=
| MReady            (* while (ready.load() < LOADERS) *)
| MClock0           (* t0 = now() *)
| MGo               (* go.store(true) *)
| MJoin (i : Z)     (* for (auto& t : loaders) t.join() *)
| MClock1           (* t1 = now() *)
| MStop             (* running.store(false) *)
| MJoinGw           (* gw_thread.join() *)
| MStopShard        (* shard.stop() *)
| MJoinShard        (* shard_thread.join() *)
| MDone.

Section program.
Context {W : Type} `{HS : Server W}.

(** The clock readings are recorded as the orders that were sent by then. *)
Record World : Type := mkWorld {
  w_loaders : list Loader;
  w_ready : Z;
  w_go : bool;
  w_main : MainPc;
  w_t0 : Z;
  w_t1 : Z;
  w_threads : Threads W
}.

(** Ids of all orders that were sent, and bytes that were read. *)
Definition all_ids (w : World) : list Z := concat (l_ids <$> w_loaders w).
Definition total_got (w : World) : Z := sumZ (l_got <$> w_loaders w).

Definition set_main (w : World) (pc : MainPc) : World :=
  mkWorld (w_loaders w) (w_ready w) (w_go w) pc (w_t0 w) (w_t1 w) (w_threads w).
Definition set_loaders (w : World) (lds : list Loader) (d : Z) : World :=
  mkWorld lds (w_ready w + d) (w_go w) (w_main w) (w_t0 w) (w_t1 w) (w_threads w).
Definition set_threads (w : World) (th : Threads W) : World :=
  mkWorld (w_loaders w) (w_ready w) (w_go w) (w_main w) (w_t0 w) (w_t1 w) th.

Definition main_turn (w : World) : res World :=
  match w_main w with
  | MReady => Ok (if w_ready w <? LOADERS then w else set_main w MClock0)
  | MClock0 => Ok (mkWorld (w_loaders w) (w_ready w) (w_go w) MGo (zlen (all_ids w)) (w_t1 w) (w_threads w))
  | MGo => Ok (mkWorld (w_loaders w) (w_ready w) true (MJoin 0) (w_t0 w) (w_t1 w) (w_threads w))
  | MJoin i =>
      if i <? LOADERS then
        ld ← aget (w_loaders w) i;
        Ok (match l_pc ld with LDone => set_main w (MJoin (i + 1)) | _ => w end)
      else Ok (set_main w MClock1)
  | MClock1 => Ok (mkWorld (w_loaders w) (w_ready w) (w_go w) MStop (w_t0 w) (zlen (all_ids w)) (w_threads w))
  | MStop => Ok (set_threads (set_main w MJoinGw) (stop_gateway (w_threads w)))
  | MJoinGw => Ok (match t_gw (w_threads w) with GwDone => set_main w MStopShard | _ => w end)
  | MStopShard => Ok (set_threads (set_main w MJoinShard) (stop_shard (w_threads w)))
  | MJoinShard => Ok (if t_shard_done (w_threads w) then set_main w MDone else w)
  | MDone => Ok w
  end.

(** What the kernel returns to a loader: a connection is made on an open
    descriptor; [recv] stores at most what was asked for, fails on a descriptor
    that is not open, and no more bytes come over all connections than the
    reports hold that the gateway has drained. *)
Definition input_ok (w : World) (ld : Loader) (inp : Input) : Prop :=
  match inp with
  | Connects fd rc => rc = 0 -> 0 <= fd
  | Sends _ => True
  | Receives r =>
      match l_pc ld with
      | LRecv c got _ _ => r <= WANT - got /\ (forall fd, l_fds ld !! c = Some fd -> fd < 0 -> r <= 0)
      | _ => True
      end /\
      (0 < r -> total_got w + r <= answered (t_server (w_threads w)))
  end.

(** Each request the gateway has handed to the shard is one of the orders that
    were sent, and no order is handed over twice.  Each entry of [l] is the
    session and the id of one of them. *)
Definition arrives (w : World) (ms : list InboundMsg) : Prop :=
  exists l : list (Z * Z), ms = (fun x => request_of x.1 (make_order x.2)) <$> l /\ Forall (is_u 32) l.*1 /\ l.*2 ⊆+ all_ids w.

Inductive run_step (w : World) : World -> Prop :=
| step_loader L ld inp ld' d :
    w_loaders w !! L = Some ld -> input_ok w ld inp -> loader_turn L (w_go w) inp ld = Ok (ld', d) ->
    run_step w (set_loaders w (<[L := ld']> (w_loaders w)) d)
| step_main w' : main_turn w = Ok w' -> run_step w w'
| step_threads th : threads_step (arrives w) (w_threads w) th -> run_step w (set_threads w th).

Definition loader_init : Loader := mkLoader (LConnect 0) [] [] [] 0 true.
Definition run_init (s : W) : World := mkWorld (replicate (Z.to_nat LOADERS) loader_init) 0 false MReady 0 0 (start s).

End program.
Arguments World : clear implicits.

(** ** A round of a loader *)

Ltac consts :=
  change per_loader_conns with 32 in *; change PIPELINE with 8 in *; change WANT with 192 in *;
  change sizeof_Ack with 24 in *; change per_loader_orders with 100000 in *; change LOADERS with 4 in *;
  change (BURSTS * burst) with 100096 in *.

Definition pc_ok (first : Z) (pc : LoaderPc) (ids : list Z) : Prop :=
  match pc with
  | LConnect c => 0 <= c <= 32 /\ ids = []
  | LWait => ids = []
  | LLoop sent oid => (exists b, 0 <= b <= 391 /\ sent = 256 * b) /\ oid = first + sent /\ ids = seqZ first sent
  | LSend c k sent oid =>
      (exists b, 0 <= b < 391 /\ sent = 256 * b) /\ 0 <= c <= 32 /\ 0 <= k <= 8 /\ (c = 32 -> k = 0) /\
      oid = first + (sent + 8 * c + k) /\ ids = seqZ first (sent + 8 * c + k)
  | LRecv c got sent oid =>
      (exists b, 0 <= b < 391 /\ sent = 256 * b) /\ 0 <= c <= 32 /\ 0 <= got <= 192 /\ (c = 32 -> got = 0) /\
      oid = first + (sent + 256) /\ ids = seqZ first (sent + 256)
  | LClose c => 0 <= c <= 32 /\ ids = seqZ first (BURSTS * burst)
  | LDone => ids = seqZ first (BURSTS * burst)
  end.

(** Descriptors there are, descriptors closed, and bytes read if no [recv] failed. *)
Definition fds_at (pc : LoaderPc) : Z := match pc with LConnect c => c | _ => 32 end.
Definition closed_at (pc : LoaderPc) (fds : list Z) : list Z :=
  match pc with LClose c => take (Z.to_nat c) fds | LDone => fds | _ => [] end.
Definition read_at (pc : LoaderPc) : Z :=
  match pc with
  | LConnect _ | LWait => 0
  | LLoop sent _ | LSend _ _ sent _ => sent * 24
  | LRecv c got sent _ => sent * 24 + 192 * c + got
  | LClose _ | LDone => BURSTS * burst * 24
  end.

Record loader_inv (L : Z) (ld : Loader) : Prop := {
  lv_pc : pc_ok (first_oid L) (l_pc ld) (l_ids ld);
  lv_fds : zlen (l_fds ld) = fds_at (l_pc ld);
  lv_closed : l_closed ld = closed_at (l_pc ld) (l_fds ld);
  lv_got : l_whole ld = true -> l_got ld = read_at (l_pc ld)
}.

Definition waits_for_go (pc : LoaderPc) : bool := match pc with LConnect _ | LWait => true | _ => false end.
Definition connected (pc : LoaderPc) : Z := match pc with LConnect _ => 0 | _ => 1 end.

(** Rounds that are left. *)
Definition BURST_ROUNDS : Z := 6500.
Definition pc_work (pc : LoaderPc) : Z :=
  match pc with
  | LConnect c => BURSTS * BURST_ROUNDS + 42 + (32 - c)
  | LWait => BURSTS * BURST_ROUNDS + 41
  | LLoop sent _ => (BURSTS - sent / 256) * BURST_ROUNDS + 40
  | LSend c k sent _ => (BURSTS - sent / 256) * BURST_ROUNDS + 39 - (9 * c + k)
  | LRecv c got sent _ => (BURSTS - sent / 256) * BURST_ROUNDS + 39 - (289 + 193 * c + got)
  | LClose c => 35 - c
  | LDone => 0
  end.

(** A round of a loader keeps it in order and is work, or changes nothing. *)
Record loader_goes (L : Z) (go : bool) (inp : Input) (ld ld' : Loader) (d : Z) : Prop := {
  lg_inv : loader_inv L ld';
  lg_ready : 0 <= d /\ connected (l_pc ld') = connected (l_pc ld) + d;
  lg_waits : go = false -> waits_for_go (l_pc ld) = true -> waits_for_go (l_pc ld') = true;
  lg_ids : exists more, l_ids ld' = l_ids ld ++ more;
  lg_got : l_got ld' = l_got ld \/ exists r, inp = Receives r /\ 0 < r /\ l_got ld' = l_got ld + r;
  lg_work : (ld' = ld /\ d = 0) \/ (pc_work (l_pc ld') < pc_work (l_pc ld) /\ l_pc ld <> LDone)
}.

Lemma first_oid_eq L : 0 <= L < 4 -> first_oid L = L * 100000000 + 1.
Proof. intros HL. unfold first_oid. by rewrite (wrapU_small 64 L), (wrapU_small 64 (L * _)), wrapU_small by lia. Qed.

Lemma div256 b : 256 * b / 256 = b.
Proof. rewrite Z.mul_comm. by apply Z.div_mul. Qed.

Lemma goes_nowhere L go inp ld : loader_inv L ld -> loader_goes L go inp ld ld 0.
Proof. intros HI. split; [done|lia|done|exists []; by rewrite app_nil_r|by left|by left]. Qed.

(** A round that moves on without a call. *)
Lemma goes_to L go inp ld pc d : loader_inv L ld -> pc_ok (first_oid L) pc (l_ids ld) -> fds_at pc = fds_at (l_pc ld) ->
  closed_at pc (l_fds ld) = closed_at (l_pc ld) (l_fds ld) -> read_at pc = read_at (l_pc ld) ->
  0 <= d /\ connected pc = connected (l_pc ld) + d -> (go = false -> waits_for_go (l_pc ld) = true -> waits_for_go pc = true) ->
  pc_work pc < pc_work (l_pc ld) -> l_pc ld <> LDone -> loader_goes L go inp ld (at_pc ld pc) d.
Proof.
  intros [V1 V2 V3 V4] H1 H2 H3 H4 H5 H6 H7 H8. split; [|done|done|exists []; by rewrite app_nil_r|by left|by right].
  split; cbn [at_pc l_pc l_fds l_ids l_closed l_got l_whole]; congruence || (rewrite H4; done).
Qed.

Ltac works := change (BURSTS * BURST_ROUNDS) with 2541500; change BURSTS with 391; change BURST_ROUNDS with 6500.
Ltac fields := cbn [at_pc l_pc l_fds l_ids l_closed l_got l_whole fds_at closed_at read_at connected waits_for_go pc_work pc_ok] in *.
Ltac there Epc := rewrite Epc; fields; works; rewrite ?div256; done || lia.

Lemma fds_lookup L ld c : loader_inv L ld -> fds_at (l_pc ld) = 32 -> 0 <= c < 32 -> exists fd, l_fds ld !! c = Some fd /\ aget (l_fds ld) c = Ok fd.
Proof. intros HI E Hc. pose proof (lv_fds _ _ HI). destruct (lookupZ_is_Some (l_fds ld) c ltac:(lia)) as [fd Hfd]. exists fd. split; [done|by apply aget_Ok]. Qed.

Lemma send_goes L go inp ld c k sent oid : 0 <= L < 4 -> loader_inv L ld -> l_pc ld = LSend c k sent oid ->
  exists ld' d, loader_turn L go inp ld = Ok (ld', d) /\ loader_goes L go inp ld ld' d.
Proof.
  intros HL HI Epc. pose proof (first_oid_eq L HL) as E0. pose proof HI as [V1 V2 V3 V4]. unfold loader_turn. rewrite Epc in *. fields.
  destruct V1 as ((b & Hb & ->) & Hc & Hk & Hc32 & -> & Hids). consts. destruct (Z.ltb_spec c 32); [destruct (Z.ltb_spec k 8)|].
  - destruct (fds_lookup L ld c HI) as (fd & _ & ->); [by rewrite Epc|lia|]. cbn [mbind res_bind].
    destruct inp as [| |]; [by eexists _, _; split; [|apply goes_nowhere]| |by eexists _, _; split; [|apply goes_nowhere]].
    eexists _, _. split; [done|]. rewrite wrapU_small by lia. split; [|there Epc|there Epc|by eexists|by left|right; split; there Epc].
    split; fields; try done. split; [by exists b|]. do 3 (split; [lia|]). split; [lia|]. rewrite Hids.
    replace (256 * b + 8 * c + (k + 1)) with ((256 * b + 8 * c + k) + 1) by lia. by rewrite (seqZ_app _ (256 * b + 8 * c + k) 1) by lia.
  - assert (k = 8) as -> by lia. eexists _, _. split; [done|]. apply goes_to; try there Epc; [done|].
    split; [by exists b|]. do 3 (split; [lia|]). split; [lia|]. rewrite Hids. f_equal. lia.
  - assert (c = 32) as -> by lia. rewrite (Hc32 eq_refl) in *. eexists _, _. split; [done|]. apply goes_to; try there Epc; [done|].
    split; [by exists b|]. do 3 (split; [lia|]). split; [lia|]. rewrite Hids. f_equal. lia.
Qed.

Lemma recv_goes L go inp ld c got sent oid : 0 <= L < 4 -> loader_inv L ld -> l_pc ld = LRecv c got sent oid ->
  (forall r, inp = Receives r -> r <= WANT - got) ->
  exists ld' d, loader_turn L go inp ld = Ok (ld', d) /\ loader_goes L go inp ld ld' d.
Proof.
  intros HL HI Epc Hin. pose proof (first_oid_eq L HL) as E0. pose proof HI as [V1 V2 V3 V4]. unfold loader_turn. rewrite Epc in *. fields.
  destruct V1 as ((b & Hb & ->) & Hc & Hg & Hc32 & -> & Hids). consts. destruct (Z.ltb_spec c 32); [destruct (Z.ltb_spec got 192)|].
  - destruct (fds_lookup L ld c HI) as (fd & _ & ->); [by rewrite Epc|lia|]. cbn [mbind res_bind].
    destruct inp as [| |r]; [by eexists _, _; split; [|apply goes_nowhere]..|]. eexists _, _. split; [done|]. specialize (Hin r eq_refl).
    destruct (Z.leb_spec r 0).
    + split; [|there Epc|there Epc|exists []; by rewrite app_nil_r|by left|right; split; there Epc].
      split; fields; try done. split; [by exists b|]. by do 3 (split; [lia|]).
    + rewrite wrapU_small by lia. split; [|there Epc|there Epc|exists []; by rewrite app_nil_r|right; by exists r|right; split; there Epc].
      split; fields; try done; [|intros Hw; rewrite (V4 Hw); lia]. split; [by exists b|]. by do 3 (split; [lia|]).
  - assert (got = 192) as -> by lia. eexists _, _. split; [done|]. apply goes_to; try there Epc; [done|].
    split; [by exists b|]. by do 3 (split; [lia|]).
  - assert (c = 32) as -> by lia. rewrite (Hc32 eq_refl) in *. change (u64 (32 * 8)) with 256. rewrite wrapU_small by lia.
    replace (256 * b + 256) with (256 * (b + 1)) in * by lia. eexists _, _. split; [done|]. apply goes_to; try there Epc; [done|].
    split; [exists (b + 1); lia|]. done.
Qed.

Lemma loader_turn_goes L go inp ld : 0 <= L < 4 -> loader_inv L ld ->
  (forall r c got sent oid, inp = Receives r -> l_pc ld = LRecv c got sent oid -> r <= WANT - got) ->
  exists ld' d, loader_turn L go inp ld = Ok (ld', d) /\ loader_goes L go inp ld ld' d.
Proof.
  intros HL HI Hin. pose proof HI as [V1 V2 V3 V4].
  destruct (l_pc ld) as [c| |sent oid|c k sent oid|c got sent oid|c|] eqn:Epc; fields.
  - unfold loader_turn. rewrite Epc. destruct V1 as [Hc Hids]. consts. destruct (Z.ltb_spec c 32).
    + destruct inp as [fd rc| |]; [|by eexists _, _; split; [|apply goes_nowhere]..]. eexists _, _. split; [done|].
      split; [|there Epc|there Epc|exists []; by rewrite app_nil_r|by left|right; split; there Epc].
      split; fields; try done; [split; [lia|done]|]. rewrite zlen_app, V2. done.
    + assert (c = 32) as -> by lia. eexists _, _. split; [done|]. apply goes_to; try there Epc; done.
  - unfold loader_turn. rewrite Epc. eexists _, _. split; [done|]. destruct go; [|by apply goes_nowhere]. apply goes_to; try there Epc; try done.
    fields. split; [by exists 0|]. by rewrite V1, Z.add_0_r.
  - unfold loader_turn. rewrite Epc. destruct V1 as ((b & Hb & ->) & -> & Hids). consts. eexists _, _. split; [done|]. destruct (Z.ltb_spec (256 * b) 100000).
    + apply goes_to; try there Epc; [done|]. split; [exists b; lia|]. do 3 (split; [lia|]). rewrite Hids. split; [lia|]. f_equal. lia.
    + assert (b = 391) as -> by lia. apply goes_to; try there Epc; [done|]. by split; [lia|].
  - by eapply send_goes.
  - eapply recv_goes; [done..|]. intros r E. by eapply Hin.
  - unfold loader_turn. rewrite Epc. destruct V1 as [Hc Hids]. consts. destruct (Z.ltb_spec c 32).
    + destruct (fds_lookup L ld c HI) as (fd & Hfd & ->); [by rewrite Epc|lia|]. cbn [mbind res_bind]. eexists _, _. split; [done|].
      split; [|there Epc|there Epc|exists []; by rewrite app_nil_r|by left|right; split; there Epc].
      split; fields; try done; [split; [lia|done]|]. rewrite V3, lookupZ_nat in * by lia.
      replace (Z.to_nat (c + 1)) with (S (Z.to_nat c)) by lia. by rewrite (take_S_r _ _ fd).
    + assert (c = 32) as -> by lia. eexists _, _. split; [done|]. apply goes_to; try there Epc; try done.
      rewrite Epc. cbn [closed_at]. rewrite take_ge; [done|]. unfold zlen in V2. lia.
  - unfold loader_turn. rewrite Epc. by eexists _, _; split; [|apply goes_nowhere].
Qed.

(** ** The whole program *)

(** How far the main thread has come. *)
Definition rank (pc : MainPc) : Z :=
  match pc with
  | MReady => 0 | MClock0 => 1 | MGo => 2 | MJoin _ => 3 | MClock1 => 4 | MStop => 5 | MJoinGw => 6 | MStopShard => 7 | MJoinShard => 8 | MDone => 9
  end.
Definition joined (pc : MainPc) : Z := match pc with MReady | MClock0 | MGo => 0 | MJoin i => i | _ => LOADERS end.
Definition measured (pc : MainPc) : bool := 5 <=? rank pc.

Definition main_work (pc : MainPc) : Z := match pc with MReady | MClock0 | MGo => 20 - rank pc | MJoin i => 15 - i | _ => 9 - rank pc end.

Section run.
Context {W : Type} `{HS : Server W} (inv : W -> Prop) `{!ServerLaws THROUGHPUT_CFG inv}.

Record world_inv (w : World W) : Prop := {
  wv_len : zlen (w_loaders w) = LOADERS;
  wv_loaders : forall L ld, w_loaders w !! L = Some ld -> loader_inv L ld;
  wv_ready : w_ready w = sumZ ((fun ld => connected (l_pc ld)) <$> w_loaders w);
  wv_start : w_main w <> MReady -> LOADERS <= w_ready w;
  wv_go : w_go w = (3 <=? rank (w_main w));
  wv_waits : w_go w = false -> forall L ld, w_loaders w !! L = Some ld -> waits_for_go (l_pc ld) = true;
  wv_joined : 0 <= joined (w_main w) <= LOADERS;
  wv_done : forall L ld, w_loaders w !! L = Some ld -> L < joined (w_main w) -> l_pc ld = LDone;
  wv_threads : threads_inv inv (arrives w) (w_threads w);
  wv_got : total_got w <= answered (t_server (w_threads w));
  wv_running : t_running (w_threads w) = (rank (w_main w) <? 6);
  wv_shard : srv_running (t_server (w_threads w)) = (rank (w_main w) <? 8);
  wv_gw : 7 <= rank (w_main w) -> t_gw (w_threads w) = GwDone;
  wv_end : w_main w = MDone -> t_shard_done (w_threads w) = true;
  wv_t0 : w_t0 w = 0;
  wv_t1 : measured (w_main w) = true -> w_t1 w = LOADERS * (BURSTS * burst)
}.

(** *** What arrives *)

Lemma ids_consecutive L ld : loader_inv L ld -> l_ids ld = seqZ (first_oid L) (zlen (l_ids ld)) /\ zlen (l_ids ld) <= BURSTS * burst.
Proof.
  intros [V1 _ _ _]. assert (H : exists n, 0 <= n <= BURSTS * burst /\ l_ids ld = seqZ (first_oid L) n).
  { consts. destruct (l_pc ld); cbn [pc_ok] in V1; try destruct V1 as ((b & Hb & ->) & V1).
    - exists 0. destruct V1 as [_ ->]. done.
    - exists 0. by rewrite V1.
    - exists (256 * b). split; [lia|]. apply V1.
    - exists (256 * b + 8 * c + k). split; [lia|]. apply V1.
    - exists (256 * b + 256). split; [lia|]. apply V1.
    - exists 100096. split; [done|]. apply V1.
    - exists 100096. done. }
  destruct H as (n & Hn & ->). assert (zlen (seqZ (first_oid L) n) = n) as -> by (unfold zlen; rewrite length_seqZ; lia). split; [done|lia].
Qed.

Lemma zlen_all_ids (w : World W) : zlen (all_ids w) = sumZ ((fun ld => zlen (l_ids ld)) <$> w_loaders w).
Proof. unfold all_ids, sumZ. induction (w_loaders w) as [|ld lds IH]; [done|]. rewrite !fmap_cons, concat_cons, zlen_app, IH. done. Qed.

Lemma all_ids_range w : world_inv w -> zlen (all_ids w) <= LOADERS * (BURSTS * burst) /\ Forall (is_u 64) (all_ids w).
Proof.
  intros HI. split.
  - rewrite zlen_all_ids, <- (wv_len _ HI). apply sum_le, Forall_forall. intros ld [L Hld]%list_elem_of_lookup. rewrite <- lookupZ_of_nat in Hld.
    by eapply ids_consecutive, (wv_loaders _ HI).
  - apply Forall_concat, Forall_fmap, Forall_forall. intros ld [i Hld]%list_elem_of_lookup. rewrite <- lookupZ_of_nat in Hld.
    pose proof (lookupZ_range _ _ _ Hld) as R. rewrite (wv_len _ HI) in R. change LOADERS with 4 in R.
    destruct (ids_consecutive _ _ (wv_loaders _ HI _ _ Hld)) as [E Hle]. cbn [compose]. rewrite E, (first_oid_eq _ R). consts.
    apply Forall_forall. intros x Hx%elem_of_seqZ. unfold is_u. lia.
Qed.

Lemma arrives_from_client w ms : world_inv w -> arrives w ms -> Forall from_client ms /\ zlen ms <= LOADERS * (BURSTS * burst).
Proof.
  intros HI (l & -> & Hsid & Hsub). destruct (all_ids_range w HI) as [Hz Hu]. split.
  - apply Forall_fmap, Forall_forall. intros [sid oid] Hx. exists sid, (make_order oid). cbn [fst snd compose].
    split; [rewrite Forall_forall in Hsid; by apply Hsid, (list_elem_of_fmap_2 fst l (sid, oid))|]. split; [|done]. right. exists oid. split; [|done].
    rewrite Forall_forall in Hu. apply Hu. apply (elem_of_submseteq l.*2 _ oid); [by apply (list_elem_of_fmap_2 snd l (sid, oid))|done].
  - apply submseteq_length in Hsub. rewrite length_fmap in Hsub. rewrite zlen_fmap. unfold zlen in *. lia.
Qed.

Lemma world_harr w : world_inv w -> forall ms, arrives w ms -> Forall order_only ms /\ zlen ms < 2 ^ 32.
Proof.
  intros HI ms Ha. destruct (arrives_from_client w ms HI Ha) as [HF Hz]. split; [eapply Forall_impl; [exact HF|apply from_client_order_only]|].
  consts. lia.
Qed.

(** Only orders are added. *)
Lemma ids_grow (w : World W) L ld ld' d : w_loaders w !! L = Some ld -> (exists more, l_ids ld' = l_ids ld ++ more) ->
  all_ids w ⊆+ all_ids (set_loaders w (<[L := ld']> (w_loaders w)) d).
Proof.
  intros Hld (more & E). destruct (lookupZ_split _ _ _ Hld) as (l1 & l2 & El & _ & Hins). unfold all_ids. cbn [set_loaders w_loaders].
  rewrite Hins, El, !fmap_app, !fmap_cons, !concat_app, !concat_cons, E, <- !app_assoc. apply submseteq_app; [done|]. apply submseteq_app; [done|].
  by apply submseteq_inserts_l.
Qed.

Lemma arrives_grow (w w' : World W) ms : all_ids w ⊆+ all_ids w' -> arrives w ms -> arrives w' ms.
Proof. intros Hsub (l & ? & ? & ?). exists l. do 2 (split; [done|]). by etrans. Qed.

(** *** Steps *)

Definition work (w : World W) : Z :=
  sumZ ((fun ld => pc_work (l_pc ld)) <$> w_loaders w) + main_work (w_main w) +
  (match t_gw (w_threads w) with GwDone => 0 | _ => 1 end) + (if t_shard_done (w_threads w) then 0 else 1).

Ltac w_fields := cbn [set_loaders set_main set_threads w_loaders w_ready w_go w_main w_t0 w_t1 w_threads] in *.

Lemma loader_init_inv L : loader_inv L loader_init.
Proof. by split. Qed.

Lemma world_inv_init s : fresh inv s -> world_inv (run_init s).
Proof.
  intros Hf. pose proof Hf as [_ Hr _ _ Hd].
  assert (Hld : forall L ld, w_loaders (run_init s) !! L = Some ld -> 0 <= L < 4 /\ ld = loader_init).
  { intros L ld Hl. pose proof (lookupZ_range _ _ _ Hl) as R. split; [exact R|]. apply elem_of_lookupZ in Hl. by apply elem_of_replicate in Hl as [-> _]. }
  split; try done; try (by cbn).
  - intros L ld [_ ->]%Hld. apply loader_init_inv.
  - by intros _ L ld [_ ->]%Hld.
  - cbn. intros L ld [HL _]%Hld. lia.
  - apply threads_start; [done|]. by exists [].
  - unfold answered. cbn [run_init w_threads start t_server]. by rewrite Hd.
Qed.

Lemma loader_step_goes w L ld inp : world_inv w -> w_loaders w !! L = Some ld -> input_ok w ld inp ->
  exists ld' d, loader_turn L (w_go w) inp ld = Ok (ld', d) /\ loader_goes L (w_go w) inp ld ld' d.
Proof.
  intros HI Hld Hin. pose proof (lookupZ_range _ _ _ Hld) as R. rewrite (wv_len _ HI) in R. apply loader_turn_goes; [done|by apply HI|].
  intros r c got sent oid -> Epc. cbn in Hin. rewrite Epc in Hin. lia.
Qed.

Lemma loader_step_inv w L ld inp ld' d : world_inv w -> w_loaders w !! L = Some ld -> input_ok w ld inp ->
  loader_goes L (w_go w) inp ld ld' d ->
  let w' := set_loaders w (<[L := ld']> (w_loaders w)) d in
  world_inv w' /\ (w' = w \/ work w' < work w).
Proof.
  intros HI Hld Hin [G1 [Gd G2] G3 G4 G5 G6] w'. pose proof HI as [W1 W2 W3 W4 W5 W6 W7 W8 W9 W10 W11 W12 W13 W14 W15 W16].
  pose proof (lookupZ_range _ _ _ Hld) as R. destruct G6 as [[-> ->]|[Hlt Hnd]].
  { assert (w' = w) as -> by (unfold w', set_loaders; rewrite insertZ_id, Z.add_0_r by done; by destruct w). auto. }
  split; [|right; unfold work, w'; w_fields; rewrite (sum_insert _ _ _ _ _ Hld); cbn beta; lia].
  split; unfold w'; w_fields; try done.
  - by rewrite zlen_insertZ.
  - intros j x. rewrite lookupZ_insertZ by done. destruct (decide (L = j)) as [<-|]; [by intros [= <-]|apply W2].
  - rewrite (sum_insert _ _ _ _ _ Hld). cbn beta. lia.
  - intros Hne. specialize (W4 Hne). lia.
  - intros Hg j x. rewrite lookupZ_insertZ by done. destruct (decide (L = j)) as [<-|]; [intros [= <-]; by apply G3, (W6 Hg L)|by apply W6].
  - intros j x. rewrite lookupZ_insertZ by done. destruct (decide (L = j)) as [<-|]; [|apply W8]. intros [= <-] Hj. destruct Hnd. by apply (W8 L).
  - eapply threads_inv_more; [|exact W9]. intros ms. apply arrives_grow. by apply ids_grow with (ld := ld).
  - unfold total_got in *. w_fields. rewrite (sum_insert _ _ _ _ _ Hld). destruct G5 as [->|(r & -> & Hr & ->)]; [lia|].
    destruct Hin as [_ Hin]. specialize (Hin Hr). unfold total_got in Hin. lia.
Qed.

(** With every loader done, all their orders were sent. *)
Lemma all_done_sent w : world_inv w -> (forall L ld, w_loaders w !! L = Some ld -> l_pc ld = LDone) -> zlen (all_ids w) = LOADERS * (BURSTS * burst).
Proof.
  intros HI Hd. rewrite zlen_all_ids, (sum_const _ _ (BURSTS * burst)); [by rewrite (wv_len _ HI)|].
  intros L ld Hld. pose proof (lv_pc _ _ (wv_loaders _ HI _ _ Hld)) as Hpc. rewrite (Hd _ _ Hld) in Hpc. cbn in Hpc. rewrite Hpc.
  consts. unfold zlen. rewrite length_seqZ. lia.
Qed.

Lemma waiting_sent w L ld : world_inv w -> w_go w = false -> w_loaders w !! L = Some ld -> l_ids ld = [].
Proof.
  intros HI Hg Hld. pose proof (lv_pc _ _ (wv_loaders _ HI _ _ Hld)) as Hpc. pose proof (wv_waits _ HI Hg L ld Hld) as Hw.
  destruct (l_pc ld); cbn in *; try done. by destruct Hpc.
Qed.

Lemma none_sent w : world_inv w -> w_go w = false -> all_ids w = [].
Proof.
  intros HI Hg. apply nil_of_zlen. rewrite zlen_all_ids, (sum_const _ _ 0); [lia|]. intros L ld Hld. by rewrite (waiting_sent w L ld HI Hg Hld).
Qed.

Ltac less Em := right; unfold work; w_fields; rewrite Em; cbn [stop_gateway stop_shard t_gw t_shard_done]; cbn [main_work rank]; lia.
Ltac stays w Em := unfold measured in *; (split; w_fields; cbn [rank joined] in *; try done; try (intros _; by apply (wv_start w); [|rewrite Em])).

(** A round of the main thread is defined, and work or waiting. *)
Lemma main_goes w : world_inv w -> exists w', main_turn w = Ok w' /\ world_inv w' /\ (w' = w \/ work w' < work w).
Proof.
  intros HI. pose proof HI as [W1 W2 W3 W4 W5 W6 W7 W8 W9 W10 W11 W12 W13 W14 W15 W16]. unfold main_turn. consts.
  assert (Hwait : exists w', Ok w = Ok w' /\ world_inv w' /\ (w' = w \/ work w' < work w)) by (exists w; auto).
  destruct (w_main w) as [| | |i| | | | | |] eqn:Em; cbn [rank joined] in *.
  - destruct (Z.ltb_spec (w_ready w) 4); [done|]. eexists. split; [done|]. split; [|less Em]. stays w Em.
  - eexists. split; [done|]. split; [|less Em]. stays w Em. by rewrite (none_sent w HI W5).
  - eexists. split; [done|]. split; [|less Em]. stays w Em.
  - destruct (Z.ltb_spec i 4).
    + destruct (lookupZ_is_Some (w_loaders w) i ltac:(lia)) as [ld Hld]. rewrite (aget_Ok _ _ _ Hld). cbn [mbind res_bind].
      destruct (l_pc ld) eqn:El; try done. eexists. split; [done|]. split; [|less Em]. stays w Em; [consts; lia|].
      intros L x Hx Hlt. destruct (decide (L = i)) as [->|]; [congruence|]. apply (W8 L); [done|lia].
    + eexists. split; [done|]. split; [|less Em]. stays w Em. intros L x Hx Hlt. apply (W8 L); [done|consts; lia].
  - eexists. split; [done|]. split; [|less Em]. stays w Em.
    intros _. apply all_done_sent; [done|]. intros L x Hx. apply (W8 L); [done|]. pose proof (lookupZ_range _ _ _ Hx). consts. lia.
  - eexists. split; [done|]. split; [|less Em]. stays w Em. by apply stop_gateway_inv.
  - destruct (t_gw (w_threads w)) eqn:Eg; [done..|]. eexists. split; [done|]. split; [|less Em]. stays w Em.
  - destruct (stop_shard_inv THROUGHPUT_CFG inv _ _ W9) as (W9' & E1 & E2 & E3). eexists. split; [done|]. split; [|less Em]. stays w Em.
    + unfold answered in *. by rewrite E2.
    + by intros _; apply W13.
  - destruct (t_shard_done (w_threads w)) eqn:Eg; [|done]. eexists. split; [done|]. split; [|less Em]. stays w Em.
  - done.
Qed.

Lemma threads_keep w th : world_inv w -> threads_step (arrives w) (w_threads w) th -> world_inv (set_threads w th).
Proof.
  intros HI Hs. destruct (threads_step_inv THROUGHPUT_CFG inv _ (world_harr w HI) _ _ (wv_threads _ HI) Hs) as [HT [G1 G2 (more & G3) G4 G5]].
  destruct HI as [W1 W2 W3 W4 W5 W6 W7 W8 W9 W10 W11 W12 W13 W14 W15 W16]. split; w_fields; try done.
  - unfold answered, total_got in *. w_fields. rewrite G3, fmap_app, concat_app, zlen_app. pose proof (zlen_nonneg (concat (out_enc <$> more))). lia.
  - by rewrite G1.
  - by rewrite G2.
  - intros H7. by apply G4, W13.
  - intros He. by apply G5, W14.
Qed.

Lemma run_step_inv w w' : world_inv w -> run_step w w' -> world_inv w'.
Proof.
  intros HI [L ld inp ld' d Hld Hin Ht|w1 Ht|th Hth]; [| |by apply threads_keep].
  - destruct (loader_step_goes w L ld inp HI Hld Hin) as (ld1 & d1 & E & HG). rewrite Ht in E. injection E as <- <-. by eapply loader_step_inv.
  - destruct (main_goes w HI) as (w2 & E & HI' & _). rewrite Ht in E. by injection E as ->.
Qed.

Lemma run_reachable s w : fresh inv s -> rtc run_step (run_init s) w -> world_inv w.
Proof. intros Hf. revert w. apply rtc_ind_r; [by apply world_inv_init|]. intros y z _ Hyz HI. by apply (run_step_inv y z). Qed.

(** *** What was answered *)

(** No [recv] failed or saw the end of its connection. *)
Definition whole (w : World W) : Prop := forall L ld, w_loaders w !! L = Some ld -> l_whole ld = true.

(** The orders of [l], stamped with their sessions. *)
Definition orders_of (l : list (Z * Z)) : list NewOrder := (fun x => stamp x.1 (make_order x.2)) <$> l.

Lemma orders_read (l : list (Z * Z)) : Forall (is_u 32) l.*1 -> Forall (is_u 64) l.*2 ->
  in_new_order <$> ((fun x => request_of x.1 (make_order x.2)) <$> l) = orders_of l.
Proof.
  intros H1 H2. rewrite Forall_forall in H1. rewrite Forall_forall in H2. rewrite <- list_fmap_compose. apply list_fmap_ext. intros i [sid oid] Hx%list_elem_of_lookup_2.
  apply request_reads; [by apply H1, (list_elem_of_fmap_2 fst l (sid, oid))|right; exists oid; split; [|done]; by apply H2, (list_elem_of_fmap_2 snd l (sid, oid))].
Qed.

Lemma drained_acks w : world_inv w -> exists l : list (Z * Z), l.*2 ⊆+ all_ids w /\
  srv_handed (t_server (w_threads w)) = (fun x => request_of x.1 (make_order x.2)) <$> l /\
  (length (srv_drained (t_server (w_threads w))) <= length l)%nat /\
  Forall2 acks (orders_of (take (length (srv_drained (t_server (w_threads w)))) l)) (srv_drained (t_server (w_threads w))).
Proof.
  intros HI. pose proof (ti_arrives _ _ _ (wv_threads _ HI)) as Ha. destruct (arrives_from_client w _ HI Ha) as [HF Hz].
  destruct Ha as (l & Eh & Hsid & Hsub). exists l. do 2 (split; [done|]).
  destruct (server_acks THROUGHPUT_CFG inv (or_intror eq_refl) _ (ti_server _ _ _ (wv_threads _ HI)) HF) as [HL HA];
    [change (max_orders THROUGHPUT_CFG) with 1048576; consts; lia|].
  rewrite Eh, length_fmap, length_app in HL. split; [lia|]. rewrite Eh, <- fmap_take, orders_read in HA; [done|rewrite fmap_take; by apply Forall_take|].
  rewrite fmap_take. apply Forall_take, Forall_forall. intros x Hx. pose proof (proj2 (all_ids_range w HI)) as Hu. rewrite Forall_forall in Hu.
  apply Hu. by apply (elem_of_submseteq l.*2 _ x).
Qed.

(** A loader is at most one burst ahead of what it has read. *)
Lemma loader_owed L ld : loader_inv L ld -> l_whole ld = true -> zlen (l_ids ld) * 24 - 256 * 24 <= l_got ld.
Proof.
  intros [V1 _ _ V4] Hw. rewrite (V4 Hw). assert (Hs : forall n, 0 <= n -> zlen (seqZ (first_oid L) n) = n) by (intros n Hn; unfold zlen; rewrite length_seqZ; lia).
  consts. destruct (l_pc ld); cbn [pc_ok read_at] in *; try destruct V1 as ((b & Hb & ->) & V1).
  - by destruct V1 as [_ ->].
  - by rewrite V1.
  - destruct V1 as [_ ->]. rewrite Hs; lia.
  - destruct V1 as (? & ? & ? & _ & ->). rewrite Hs; lia.
  - destruct V1 as (? & ? & ? & _ & ->). rewrite Hs; lia.
  - destruct V1 as [_ ->]. consts. rewrite Hs; lia.
  - rewrite V1. consts. rewrite Hs; lia.
Qed.

Lemma drained_bytes w : world_inv w -> answered (t_server (w_threads w)) = zlen (srv_drained (t_server (w_threads w))) * sizeof_Ack.
Proof. intros HI. destruct (drained_acks w HI) as (l & _ & _ & _ & HA). by eapply answered_acks. Qed.

Lemma in_flight w : world_inv w -> whole w -> zlen (all_ids w) - zlen (srv_drained (t_server (w_threads w))) <= CONNS * PIPELINE.
Proof.
  intros HI Hw. pose proof (wv_got _ HI) as Hg. rewrite drained_bytes in Hg by done. unfold total_got in Hg. rewrite zlen_all_ids.
  pose proof (wv_len _ HI) as HL. assert (H : Forall (fun ld => zlen (l_ids ld) * 24 - 256 * 24 <= l_got ld) (w_loaders w)).
  { apply Forall_forall. intros ld [i Hld]%list_elem_of_lookup. rewrite <- lookupZ_of_nat in Hld. eapply loader_owed; [by eapply (wv_loaders _ HI)|by eapply Hw]. }
  assert (Hs : forall lds : list Loader, Forall (fun ld => zlen (l_ids ld) * 24 - 256 * 24 <= l_got ld) lds ->
    sumZ ((fun ld => zlen (l_ids ld)) <$> lds) * 24 - zlen lds * 6144 <= sumZ (l_got <$> lds)).
  { unfold sumZ. induction 1 as [|x lds Hx _ IH]; [done|]. rewrite !fmap_cons, zlen_cons. cbn [foldr]. lia. }
  specialize (Hs _ H). change (CONNS * PIPELINE) with 1024. consts. lia.
Qed.

(** All that was sent was acknowledged. *)
Lemma all_acked w : world_inv w -> whole w -> (forall L ld, w_loaders w !! L = Some ld -> l_pc ld = LDone) ->
  exists l : list (Z * Z), l.*2 ≡ₚ all_ids w /\ Forall2 acks (orders_of l) (srv_drained (t_server (w_threads w))).
Proof.
  intros HI Hw Hd. destruct (drained_acks w HI) as (l & Hsub & _ & HL & HA). exists l. pose proof (all_done_sent w HI Hd) as Hz.
  assert (Hg : total_got w = LOADERS * (BURSTS * burst * 24)).
  { unfold total_got. rewrite (sum_const _ _ (BURSTS * burst * 24)); [by rewrite (wv_len _ HI)|]. intros L ld Hld.
    rewrite (lv_got _ _ (wv_loaders _ HI _ _ Hld) (Hw L ld Hld)). by rewrite (Hd L ld Hld). }
  pose proof (wv_got _ HI) as Hans. rewrite drained_bytes, Hg in Hans by done. pose proof (submseteq_length _ _ Hsub) as Hle. rewrite length_fmap in Hle.
  unfold zlen in *. consts. split.
  - apply submseteq_length_Permutation; [done|]. rewrite length_fmap. lia.
  - by rewrite take_ge in HA by lia.
Qed.

(** *** It can be finished *)

(** No connection was made. *)
Definition down (w : World W) : Prop := forall L ld, w_loaders w !! L = Some ld -> Forall (fun fd => fd = -1) (l_fds ld).

Definition goes_on (w : World W) : Prop :=
  exists w', run_step w w' /\ (world_inv w' /\ idle (w_threads w')) /\ work w' < work w /\
    srv_handed (t_server (w_threads w')) = srv_handed (t_server (w_threads w)) /\ (down w -> down w').

(** Calls that return at once: [connect] and [recv] fail. *)
Definition failing (pc : LoaderPc) : Input := match pc with LConnect _ => Connects (-1) (-1) | LSend _ _ _ _ => Sends false | _ => Receives (-1) end.

Lemma failing_moves L go ld ld' d : loader_turn L go (failing (l_pc ld)) ld = Ok (ld', d) -> l_pc ld <> LDone -> l_pc ld <> LWait \/ go = true ->
  ld' <> ld /\ (l_fds ld' = l_fds ld \/ l_fds ld' = l_fds ld ++ [-1]).
Proof.
  unfold loader_turn. intros Ht Hnd Hgo.
  assert (Hne : forall pc, l_pc ld' = pc -> pc <> l_pc ld -> ld' <> ld) by (intros pc <- Hpc E; by rewrite E in Hpc).
  destruct (l_pc ld) as [c| |sent oid|c k sent oid|c got sent oid|c|] eqn:Epc; cbn [failing] in *.
  - destruct (c <? per_loader_conns); injection Ht as <- <-; (split; [eapply Hne; [done|]|by auto]); [intros [= E]; lia|done].
  - destruct Hgo as [|Hgo]; [done|]. subst go. injection Ht as <- <-. split; [by eapply Hne|by left].
  - injection Ht as <- <-. split; [eapply Hne; [done|]; by destruct (_ <? _)|by left].
  - destruct (c <? per_loader_conns); [destruct (k <? PIPELINE); [destruct (aget (l_fds ld) c); [|done]; cbn [mbind res_bind] in Ht|]|]; injection Ht as <- <-;
      (split; [eapply Hne; [done|]|by left]); [intros [= E _]; lia|intros [= E _]; lia|done].
  - destruct (c <? per_loader_conns); [destruct (got <? WANT); [destruct (aget (l_fds ld) c); [|done]; cbn [mbind res_bind] in Ht|]|]; injection Ht as <- <-;
      (split; [eapply Hne; [done|]|by left]); [intros [= E _]; lia|intros [= E _]; lia|done].
  - destruct (c <? per_loader_conns); [destruct (aget (l_fds ld) c); [|done]; cbn [mbind res_bind] in Ht|]; injection Ht as <- <-;
      (split; [eapply Hne; [done|]|by left]); [intros [= E]; lia|done].
  - done.
Qed.

Lemma loader_progress w L ld : world_inv w -> idle (w_threads w) -> w_loaders w !! L = Some ld -> l_pc ld <> LDone -> l_pc ld <> LWait \/ w_go w = true -> goes_on w.
Proof.
  intros HI Hid Hld Hnd Hgo. assert (Hin : input_ok w ld (failing (l_pc ld))).
  { pose proof (lv_pc _ _ (wv_loaders _ HI _ _ Hld)) as Hpc. unfold failing. destruct (l_pc ld) eqn:Epc; cbn [input_ok]; rewrite ?Epc; try done; (split; [|done]); try done.
    destruct Hpc as (_ & _ & Hg & _). consts. split; [lia|done]. }
  destruct (loader_step_goes w L ld _ HI Hld Hin) as (ld' & d & Ht & HG). destruct (loader_step_inv w L ld _ ld' d HI Hld Hin HG) as [HI' Hw].
  destruct (failing_moves _ _ _ _ _ Ht Hnd Hgo) as [Hne Hfds]. eexists. split; [by eapply step_loader|]. split; [by split|].
  assert (Hdown : down w -> down (set_loaders w (<[L := ld']> (w_loaders w)) d)).
  { intros Hd j x. cbn [set_loaders w_loaders]. rewrite lookupZ_insertZ by (by eapply lookupZ_range). destruct (decide (L = j)) as [<-|]; [|apply Hd].
    intros [= <-]. specialize (Hd L ld Hld). destruct Hfds as [-> | ->]; [done|]. apply Forall_app. split; [done|by constructor]. }
  split; [|done]. destruct Hw as [E|Hlt]; [|done]. destruct Hne. apply (f_equal w_loaders) in E. cbn [set_loaders w_loaders] in E.
  assert (H : <[L := ld']> (w_loaders w) !! L = Some ld) by (by rewrite E). rewrite lookupZ_insertZ_eq in H by (by eapply lookupZ_range). by injection H.
Qed.

Lemma main_progress w w' : world_inv w -> idle (w_threads w) -> main_turn w = Ok w' -> w_main w' <> w_main w -> goes_on w.
Proof.
  intros HI Hid Ht Hne. exists w'. destruct (main_goes w HI) as (w1 & E & HI' & Hw). rewrite Ht in E. injection E as <-.
  destruct Hw as [->|Hlt]; [done|]. split; [by apply step_main|]. pose proof (wv_threads _ HI) as HT.
  assert (w_loaders w' = w_loaders w /\ idle (w_threads w') /\ srv_handed (t_server (w_threads w')) = srv_handed (t_server (w_threads w))) as (El & ? & ?).
  { unfold main_turn in Ht. destruct (w_main w); try (injection Ht as <-; repeat case_match; done).
    - destruct (i <? LOADERS); [|by injection Ht as <-]. destruct (aget (w_loaders w) i); cbn [mbind res_bind] in Ht; [|done]. injection Ht as <-. by destruct (l_pc _).
    - injection Ht as <-. split; [done|]. split; [by eapply (idle_stop THROUGHPUT_CFG inv)|]. apply (srv_stop_law _ (ti_server _ _ _ HT)). }
  split; [done|]. split; [done|]. split; [done|]. unfold down. by rewrite El.
Qed.

Lemma join_progress w th : world_inv w -> threads_step (arrives w) (w_threads w) th -> idle th -> work (set_threads w th) < work w ->
  srv_handed (t_server th) = srv_handed (t_server (w_threads w)) -> goes_on w.
Proof. intros HI Hs Hid Hw He. eexists. split; [by apply step_threads|]. split; [|done]. split; [by apply threads_keep|done]. Qed.

Lemma find_loader (P : LoaderPc -> bool) (lds : list Loader) :
  (forall L ld, lds !! (L : Z) = Some ld -> P (l_pc ld) = true) \/ exists L ld, lds !! (L : Z) = Some ld /\ P (l_pc ld) = false.
Proof.
  destruct (decide (Exists (fun ld => P (l_pc ld) = false) lds)) as [[ld [Hld ?]]%Exists_exists|Hno].
  - right. apply list_elem_of_lookup in Hld as [i Hi]. exists (Z.of_nat i), ld. by rewrite lookupZ_of_nat.
  - left. intros L ld Hld%elem_of_lookupZ. destruct (P (l_pc ld)) eqn:Ep; [done|]. destruct Hno. apply Exists_exists. by exists ld.
Qed.

(** With every loader done the main thread and the other two finish. *)
Lemma end_progress w : world_inv w -> idle (w_threads w) -> w_main w <> MDone -> w_go w = true ->
  (forall L ld, w_loaders w !! L = Some ld -> l_pc ld = LDone) -> goes_on w.
Proof.
  intros HI Hid Hnd Eg Hd. pose proof (wv_go _ HI) as Hgo. pose proof (wv_len _ HI) as HL. pose proof (wv_running _ HI) as Hr. pose proof (wv_shard _ HI) as Hs. rewrite Eg in Hgo.
  destruct (w_main w) as [| | |i| | | | | |] eqn:Em; cbn [rank] in *; try done; try (eapply (main_progress w); [done|done|unfold main_turn; by rewrite Em|by rewrite Em]).
  - destruct (Z.ltb_spec i LOADERS) as [Hi|Hi].
    + pose proof (wv_joined _ HI) as Hj. rewrite Em in Hj. cbn in Hj. destruct (lookupZ_is_Some (w_loaders w) i ltac:(lia)) as [ld Hld].
      apply (main_progress w (set_main w (MJoin (i + 1)))); [done|done| |rewrite Em; intros [= E]; lia].
      unfold main_turn. rewrite Em, (proj2 (Z.ltb_lt _ _)), (aget_Ok _ _ _ Hld) by done. cbn [mbind res_bind]. by rewrite (Hd i ld Hld).
    + apply (main_progress w (set_main w MClock1)); [done|done| |by rewrite Em]. unfold main_turn. by rewrite Em, (proj2 (Z.ltb_ge _ _)).
  - destruct (t_gw (w_threads w)) eqn:Et.
    + apply (join_progress w (gw_check (w_threads w))); [done|by apply step_check| | |done].
      * destruct Hid as [_ Hid]. split; [by rewrite (gw_check_ends _ Et Hr)|done].
      * unfold work. cbn [set_threads w_loaders w_main w_threads]. rewrite (gw_check_ends _ Et Hr), Et. cbn [gw_check t_shard_done]. lia.
    + by destruct Hid.
    + eapply (main_progress w); [done|done|unfold main_turn; by rewrite Em, Et|by rewrite Em].
  - destruct (t_shard_done (w_threads w)) eqn:Et.
    + eapply (main_progress w); [done|done|unfold main_turn; by rewrite Em, Et|by rewrite Em].
    + destruct Hid as [I1 [I2|I2]]; [congruence|]. pose proof (shard_round_ends (w_threads w) Hs I2) as He.
      eapply (join_progress w); [done|by eapply step_shard|by split; [|left]| |done]. unfold work. cbn [set_threads w_loaders w_main w_threads t_gw t_shard_done]. rewrite Et. lia.
Qed.

Lemma run_progress w : world_inv w -> idle (w_threads w) -> w_main w <> MDone -> goes_on w.
Proof.
  intros HI Hid Hnd. pose proof (wv_len _ HI) as HL.
  destruct (find_loader (fun pc => match pc with LConnect _ => false | _ => true end) (w_loaders w)) as [Hconn|(L & ld & Hld & Hp)].
  2:{ apply (loader_progress w L ld); [done|done|done|intros E; by rewrite E in Hp|left; intros E; by rewrite E in Hp]. }
  assert (Hready : w_ready w = 4).
  { rewrite (wv_ready _ HI), (sum_const _ _ 1); [rewrite HL; done|]. intros L ld Hld. specialize (Hconn L ld Hld). by destruct (l_pc ld). }
  destruct (w_go w) eqn:Eg.
  - destruct (find_loader (fun pc => match pc with LDone => true | _ => false end) (w_loaders w)) as [Hdone|(L & ld & Hld & Hp)].
    + apply end_progress; [done..|]. intros L ld Hld. specialize (Hdone L ld Hld). by destruct (l_pc ld).
    + apply (loader_progress w L ld); [done|done|done|intros E; by rewrite E in Hp|by right].
  - pose proof (wv_go _ HI) as Hgo. rewrite Eg in Hgo. destruct (w_main w) eqn:Em; try done;
      (eapply (main_progress w); [done|done|unfold main_turn; rewrite Em, ?Hready; reflexivity|by rewrite Em]).
Qed.

Lemma pc_work_nonneg L ld : loader_inv L ld -> 0 <= pc_work (l_pc ld).
Proof.
  intros [V1 _ _ _]. destruct (l_pc ld); cbn [pc_ok pc_work] in *; works; try lia; destruct V1 as ((b & Hb & ->) & V1); rewrite div256; lia.
Qed.

Lemma run_work_nonneg w : world_inv w -> 0 <= work w.
Proof.
  intros HI. unfold work. assert (0 <= sumZ ((fun ld => pc_work (l_pc ld)) <$> w_loaders w)).
  { apply sum_nonneg. intros L ld Hld. by eapply pc_work_nonneg, HI. }
  pose proof (wv_joined _ HI) as Hj. assert (0 <= main_work (w_main w)); [|destruct (t_gw _), (t_shard_done _); lia].
  destruct (w_main w); cbn [joined main_work rank] in *; consts; lia.
Qed.

(** The run can be finished. *)
Lemma run_finishes w : world_inv w -> idle (w_threads w) -> exists w', rtc run_step w w' /\ world_inv w' /\ w_main w' = MDone /\
  srv_handed (t_server (w_threads w')) = srv_handed (t_server (w_threads w)) /\ (down w -> down w').
Proof.
  intros HI Hid. set (P := fun v => (world_inv v /\ idle (w_threads v)) /\ srv_handed (t_server (w_threads v)) = srv_handed (t_server (w_threads w)) /\ (down w -> down v)).
  destruct (reaches_end run_step P (fun v => match w_main v with MDone => 0 | _ => 1 + work v end)) with (st := w) as (w' & Hrun & ((HI' & _) & Hh & Hd) & Hz).
  - intros v [[HV _] _]. pose proof (run_work_nonneg v HV). destruct (w_main v); lia.
  - intros v ((HV & Hv) & Hh & Hd) Hw. destruct (run_progress v HV Hv) as (v' & Hs & [HV' Hv'] & Hlt & Hh' & Hd'); [intros E; rewrite E in Hw; lia|]. exists v'.
    split; [done|]. split; [|pose proof (run_work_nonneg v' HV'); destruct (w_main v), (w_main v'); lia]. split; [done|]. split; [by rewrite Hh'|by auto].
  - by split.
  - exists w'. do 2 (split; [done|]). split; [|done]. pose proof (run_work_nonneg w' HI'). destruct (w_main w'); done || lia.
Qed.

End run.

(** ** Guarantees *)

Section guarantees.
Context {W : Type} `{HS : Server W} (inv : W -> Prop) `{!ServerLaws THROUGHPUT_CFG inv}.

(** C39: What the throughput benchmark measures, over a gateway and a shard that
    behave as those of [System] and [UringSystem] do (the laws [ServerLaws],
    which both fulfil), freshly constructed.  The kernel is free to fail any
    [connect], [send] or [recv]; assumed is that what reaches the shard are orders
    that were sent, each whole and at most once ([arrives]), and that [recv]
    returns no more bytes than it was asked for, none on a descriptor that is not
    open, and over all connections no more than the drained reports hold
    ([input_ok]).  In every state the threads can reach: the next call of every
    loader and of the main thread is defined, and so is the next round of the
    shard's thread, and every poll that has fuel and session numbers for what
    waits.  No order is sent before the main thread has read the clock, which it
    does only when all loaders have tried all their connections.  The ids a loader
    sent are consecutive from its own first one, and the drained reports are
    acknowledgements of different orders of these.  As long as no [recv] failed or
    saw the end of a connection, at most [CONNS * PIPELINE] orders have no drained
    acknowledgement, which fit in the shard's ring.  When the clock is read again
    every loader has sent all its orders and closed each of its descriptors once;
    and if no [recv] failed, the drained reports are one acknowledgement of each
    order that was sent.  At the end of [main] both other threads have ended. *)
Theorem load_measured s w : fresh inv s -> rtc run_step (run_init s) w ->
  ((forall L ld inp, w_loaders w !! L = Some ld -> input_ok w ld inp -> exists ld' d, loader_turn L (w_go w) inp ld = Ok (ld', d)) /\
   (exists w', main_turn w = Ok w') /\ (exists th', shard_round (w_threads w) = Ok th') /\
   (forall fuel, srv_ready fuel (t_server (w_threads w)) -> exists th', gw_poll fuel (w_threads w) = Ok th')) /\
  (w_go w = false -> all_ids w = []) /\
  (w_main w <> MReady -> w_t0 w = 0 /\ forall L ld, w_loaders w !! L = Some ld -> zlen (l_fds ld) = per_loader_conns) /\
  (forall L ld, w_loaders w !! L = Some ld -> l_ids ld = seqZ (first_oid L) (zlen (l_ids ld))) /\
  (exists l : list (Z * Z), l.*2 ⊆+ all_ids w /\
     srv_handed (t_server (w_threads w)) = (fun x => request_of x.1 (make_order x.2)) <$> l /\
     (length (srv_drained (t_server (w_threads w))) <= length l)%nat /\
     Forall2 acks (orders_of (take (length (srv_drained (t_server (w_threads w)))) l)) (srv_drained (t_server (w_threads w)))) /\
  (whole w -> zlen (all_ids w) - zlen (srv_drained (t_server (w_threads w))) <= CONNS * PIPELINE) /\
  CONNS * PIPELINE <= queue_depth THROUGHPUT_CFG /\
  (measured (w_main w) = true -> w_t1 w = LOADERS * (BURSTS * burst) /\
     (forall L ld, w_loaders w !! L = Some ld -> l_ids ld = seqZ (first_oid L) (BURSTS * burst) /\ l_closed ld = l_fds ld) /\
     (whole w -> exists l : list (Z * Z), l.*2 ≡ₚ all_ids w /\ Forall2 acks (orders_of l) (srv_drained (t_server (w_threads w))))) /\
  (w_main w = MDone -> t_gw (w_threads w) = GwDone /\ t_shard_done (w_threads w) = true).
Proof.
  intros Hf HI%(run_reachable inv); [|done]. split; [|split; [|split; [|split; [|split; [|split; [|split; [done|split]]]]]]].
  - split; [|split; [|split]].
    + intros L ld inp Hld Hin. destruct (loader_step_goes inv w L ld inp HI Hld Hin) as (ld' & d & E & _). by exists ld', d.
    + destruct (main_goes inv w HI) as (w' & E & _). by exists w'.
    + destruct (shard_round_ok THROUGHPUT_CFG inv _ (world_harr inv w HI) _ (wv_threads _ _ HI)) as (th' & E & _). by exists th'.
    + intros fuel Hr. apply (gw_poll_ok THROUGHPUT_CFG inv); [apply (wv_threads _ _ HI)|exact Hr].
  - by apply (none_sent inv).
  - intros Hne. split; [apply (wv_t0 _ _ HI)|]. pose proof (wv_start _ _ HI Hne) as Hr. rewrite (wv_ready _ _ HI) in Hr.
    intros L ld Hld. rewrite (lv_fds _ _ (wv_loaders _ _ HI _ _ Hld)). rewrite <- (Z.mul_1_r LOADERS), <- (wv_len _ _ HI) in Hr.
    apply sum_full in Hr; [|apply Forall_forall; intros x _; by destruct (l_pc x)].
    rewrite Forall_forall in Hr. specialize (Hr ld (elem_of_lookupZ _ _ _ Hld)). by destruct (l_pc ld).
  - intros L ld Hld. by eapply ids_consecutive, (wv_loaders _ _ HI).
  - by apply (drained_acks inv).
  - by apply (in_flight inv).
  - intros Hm. assert (Hd : forall L ld, w_loaders w !! L = Some ld -> l_pc ld = LDone).
    { intros L ld Hld. apply (wv_done _ _ HI L); [done|]. pose proof (lookupZ_range _ _ _ Hld) as R. rewrite (wv_len _ _ HI) in R.
      unfold measured in Hm. destruct (w_main w); try done; apply R. }
    split; [by apply (wv_t1 _ _ HI)|]. split; [|intros Hw; by apply (all_acked inv)].
    intros L ld Hld. pose proof (wv_loaders _ _ HI _ _ Hld) as [V1 _ V3 _]. rewrite (Hd L ld Hld) in V1, V3. done.
  - intros Em. split; [apply (wv_gw _ _ HI); by rewrite Em|by apply (wv_end _ _ HI)].
Qed.

(** The throughput benchmark ends: a call of a loader or of the main thread
    waits or leaves less work, whatever the kernel returns; and from every state
    the threads can reach in which the gateway is between two polls and the
    shard's thread between two requests the run can be finished. *)
Theorem load_ends s w : fresh inv s -> rtc run_step (run_init s) w ->
  (forall L ld inp ld' d, w_loaders w !! L = Some ld -> input_ok w ld inp -> loader_turn L (w_go w) inp ld = Ok (ld', d) ->
     ld' = ld \/ 0 <= pc_work (l_pc ld') < pc_work (l_pc ld)) /\
  (forall w', main_turn w = Ok w' -> w' = w \/ 0 <= work w' < work w) /\
  (idle (w_threads w) -> exists w', rtc run_step w w' /\ w_main w' = MDone).
Proof.
  intros Hf HI%(run_reachable inv); [|done]. split; [|split].
  - intros L ld inp ld' d Hld Hin Ht. destruct (loader_step_goes inv w L ld inp HI Hld Hin) as (ld1 & d1 & E & HG). rewrite Ht in E. injection E as <- <-.
    destruct (lg_work _ _ _ _ _ _ HG) as [[-> _]|[Hlt _]]; [by left|right]. split; [|done]. eapply pc_work_nonneg, lg_inv, HG.
  - intros w' Ht. destruct (main_goes inv w HI) as (w1 & E & HI' & Hw). rewrite Ht in E. injection E as <-.
    destruct Hw as [->|Hlt]; [by left|right]. split; [by apply (run_work_nonneg inv)|done].
  - intros Hid. destruct (run_finishes inv w HI Hid) as (w' & ? & _ & ? & _). by exists w'.
Qed.

(** A benchmark that could not connect goes unnoticed: when every [connect]
    fails the loaders still go through all their rounds, and a rate is computed
    from [done_orders] orders although the shard has seen none. *)
Theorem unconnected_run_counts s : fresh inv s -> exists w, rtc run_step (run_init s) w /\ w_main w = MDone /\
  w_t1 w - w_t0 w = LOADERS * (BURSTS * burst) /\ done_orders < w_t1 w - w_t0 w /\
  srv_handed (t_server (w_threads w)) = [] /\
  forall L ld, w_loaders w !! L = Some ld -> l_fds ld = replicate (Z.to_nat per_loader_conns) (-1).
Proof.
  intros Hf. destruct (run_finishes inv (run_init s) (world_inv_init inv s Hf)) as (w & Hrun & HI & Hend & Hh & Hd).
  { split; [done|right]. apply (fr_box _ _ Hf). }
  exists w. split; [done|]. split; [done|]. rewrite (wv_t0 _ _ HI), (wv_t1 _ _ HI) by (by rewrite Hend). rewrite Z.sub_0_r. do 2 (split; [done|]).
  split; [rewrite Hh; apply (fr_handed _ _ Hf)|]. assert (Hdown : down w).
  { apply Hd. intros L ld Hld. apply elem_of_lookupZ in Hld. by apply elem_of_replicate in Hld as [-> _]. }
  intros L ld Hld. specialize (Hdown L ld Hld). assert (Hz : zlen (l_fds ld) = per_loader_conns).
  { rewrite (lv_fds _ _ (wv_loaders _ _ HI _ _ Hld)), (wv_done _ _ HI L ld Hld); [done|]. rewrite Hend. cbn [joined]. apply lookupZ_range in Hld. rewrite (wv_len _ _ HI) in Hld. lia. }
  rewrite <- Hz. unfold zlen. rewrite Nat2Z.id. symmetry. apply replicate_as_Forall_2; [done|]. eapply Forall_impl; [exact Hdown|]. by intros x ->.
Qed.

End guarantees.

(** ** The benchmark over io_uring, on a simulated ring *)

Import Sim UringProps.

#[local] Instance sim_server : Server OverUring := uring_server THROUGHPUT_CFG.
#[local] Instance sim_laws : ServerLaws THROUGHPUT_CFG (over_uring_inv THROUGHPUT_CFG ring_view sr_armed) :=
  simulated_laws THROUGHPUT_CFG (or_intror eq_refl).
Definition sim_world : OverUring := simulated THROUGHPUT_CFG.
Definition sim_fresh : fresh (over_uring_inv THROUGHPUT_CFG ring_view sr_armed) sim_world := simulated_fresh THROUGHPUT_CFG (or_intror eq_refl).

(** Loader 1 after its first connection was made. *)
Definition first_conn : Loader := mkLoader (LConnect 1) [7] [] [] 0 true.
Definition one_connected : World OverUring := set_loaders (run_init sim_world) (<[1 := first_conn]> (w_loaders (run_init sim_world))) 0.

Lemma one_connected_reached : rtc run_step (run_init sim_world) one_connected.
Proof. apply rtc_once, (step_loader (run_init sim_world) 1 loader_init (Connects 7 0) first_conn 0); [done|intros _; lia|done]. Qed.

(** Also when [connect] fails the next call is defined. *)
Lemma load_measured_witness :
  (exists ld' d, loader_turn 1 (w_go one_connected) (Connects 8 (-1)) first_conn = Ok (ld', d)) /\ all_ids one_connected = [] /\
  exists th', shard_round (w_threads one_connected) = Ok th'.
Proof.
  destruct (load_measured (over_uring_inv THROUGHPUT_CFG ring_view sr_armed) sim_world one_connected) as ((H1 & _ & H2 & _) & H3 & _).
  - exact sim_fresh.
  - exact one_connected_reached.
  - split; [apply H1; [reflexivity|intros E; discriminate E]|]. split; [apply H3; reflexivity|exact H2].
Defined.

Lemma load_ends_witness : exists w, rtc run_step one_connected w /\ w_main w = MDone.
Proof.
  destruct (load_ends (over_uring_inv THROUGHPUT_CFG ring_view sr_armed) sim_world one_connected) as (_ & _ & H).
  - exact sim_fresh.
  - exact one_connected_reached.
  - apply H. split; [discriminate|right; reflexivity].
Defined.

Lemma unconnected_run_counts_witness : exists w, rtc run_step (run_init sim_world) w /\ w_main w = MDone.
Proof.
  destruct (unconnected_run_counts (over_uring_inv THROUGHPUT_CFG ring_view sr_armed) sim_world sim_fresh) as (w & H1 & H2 & _).
  exists w. split; [exact H1|exact H2].
Defined.

End BenchLoad.
