(* ===== verification/BenchClient.v ===== *)
(** * The programs around the gateways ([bench/gateway_latency.cc],
    [gateway_latency_uring.cc], [main] of [gateway_throughput.cc])

    Which gateway a program builds from its arguments, and the latency programs
    as a transition system of three threads: the client that is timed, and the
    gateway's and the shard's, which are those of [BenchServer] and run the
    gateway and the shard.  What [connect], [send] and [recv] return to the
    client is up to the kernel, failures and closed connections included.  The
    two latency programs differ in the gateway only. *)

From stdpp Require Import relations strings.
From S2P Require Import Prelude Messages Order OrderBook Sink Session Shard ShardInv Util Harness BenchGateway.
From S2P Require Import Kernel Gateway System SystemMarket UringGateway UringInv UringProps UringSystem UringMarket BenchServer.

Module BenchClient.
Import Shard Harness BenchGateway BenchServer.
Local Open Scope string_scope.

(** ** Arguments *)

(** The gateway of a program, with the arguments of its constructor. *)
Inductive GatewayKind : Type := Epoll | Uring (sqpoll : bool) (sq_cpu : Z).

(** [argv] holds the name of the program first. *)
Definition arg1 (argv : list string) : option string := argv !! 1.

(** [main] of [gateway_throughput.cc]: the gateway that is measured and its
    label; [None] after the message about an unknown mode. *)
Definition throughput_mode (argv : list string) : option (GatewayKind * string) :=
  let mode := default "epoll" (arg1 argv) in
  if String.eqb mode "epoll" then Some (Epoll, "epoll")
  else if String.eqb mode "uring" then Some (Uring false UINT32_MAX, "io_uring")
  else if String.eqb mode "sqpoll" then Some (Uring true 7, "io_uring+SQPOLL")
  else None.

(** [argc > 1 && strcmp(argv[1], "sqpoll") == 0] *)
Definition sqpoll_arg (argv : list string) : bool :=
  match arg1 argv with Some a => String.eqb a "sqpoll" | None => false end.

Local Close Scope string_scope.

(** ** The latency programs *)

Inductive Pc : Type :=
| Connect                 (* connect(fd, ...) *)
| Round (i : Z)           (* for (int i = 0; i < TOTAL; ++i) *)
| Recv (i got : Z)        (* while (got < sizeof(ack)) *)
| StopGateway             (* running.store(false) *)
| CloseFd                 (* close(fd) *)
| StopShard               (* shard.stop() *)
| JoinGateway             (* gw_thread.join() *)
| JoinShard               (* shard_thread.join() *)
| Returned                (* return 0 *)
| Terminated.             (* the process was ended *)

(** The variables of [main]; [c_got] and [c_whole] are kept for the statements:
    the bytes that were read, and whether every [recv] returned some. *)
Record Client : Type := mkClient {
  c_fd : Z;
  c_open : bool;
  c_orders : list NewOrder;  (* the orders handed to send() *)
  c_t0 : Z;
  c_reads : Z;               (* rdtscp() calls so far *)
  c_hist : list Z;           (* the values handed to hdr_record_value *)
  c_got : Z;
  c_whole : bool
}.

Definition connected (fd : Z) : Client := mkClient fd true [] 0 0 [] 0 true.
Definition sends_order (c : Client) (o : NewOrder) (t0 : Z) : Client :=
  mkClient (c_fd c) (c_open c) (c_orders c ++ [o]) t0 (c_reads c + 1) (c_hist c) (c_got c) (c_whole c).
Definition reads_bytes (c : Client) (r : Z) : Client :=
  mkClient (c_fd c) (c_open c) (c_orders c) (c_t0 c) (c_reads c) (c_hist c) (c_got c + r) (c_whole c).
Definition records (c : Client) (hist : list Z) (whole : bool) : Client :=
  mkClient (c_fd c) (c_open c) (c_orders c) (c_t0 c) (c_reads c + 1) hist (c_got c) whole.
Definition closes (c : Client) : Client :=
  mkClient (c_fd c) false (c_orders c) (c_t0 c) (c_reads c) (c_hist c) (c_got c) (c_whole c).

Section program.
Context {W : Type} `{HS : Server W}.

Record Main : Type := mkMain {
  m_pc : Pc;
  m_client : Client;
  m_threads : Threads W
}.

Definition at_ (st : Main) (pc : Pc) : Main := mkMain pc (m_client st) (m_threads st).

Section turn.
(** The readings of the time stamp counter, in order, and its frequency. *)
Context (tsc : Z -> Z) (hz : Z).

(** One call of the client; while it waits nothing changes.  A failed
    [connect] returns from [main] with both threads joinable, and the destructor
    of a joinable [std::thread] calls [std::terminate]. *)
Definition main_turn (inp : Input) (st : Main) : res Main :=
  let c := m_client st in
  let th := m_threads st in
  match m_pc st with
  | Connect =>
      match inp with
      | Connects fd rc => Ok (if negb (rc =? 0) then at_ st Terminated else mkMain (Round 0) (connected fd) th)
      | _ => Ok st
      end
  | Round i =>
      if i <? LATENCY_TOTAL then
        match inp with
        | Sends killed => Ok (mkMain (if killed then Terminated else Recv i 0) (sends_order c (latency_order i) (tsc (c_reads c))) th)
        | _ => Ok st
        end
      else Ok (at_ st StopGateway)
  | Recv i got =>
      let next whole :=
        let t1 := tsc (c_reads c) in
        hist ← (if WARMUP <=? i then ns ← Util.tsc_to_ns (u64 (t1 - c_t0 c)) hz; Ok (c_hist c ++ [i64 ns]) else Ok (c_hist c));
        Ok (mkMain (Round (i + 1)) (records c hist whole) th) in
      if got <? sizeof_Ack then
        match inp with
        | Receives r => if r <=? 0 then next false else Ok (mkMain (Recv i (u64 (got + r))) (reads_bytes c r) th)
        | _ => Ok st
        end
      else next (c_whole c)
  | StopGateway => Ok (mkMain CloseFd c (stop_gateway th))
  | CloseFd => Ok (mkMain StopShard (closes c) th)
  | StopShard => Ok (mkMain JoinGateway c (stop_shard th))
  | JoinGateway => Ok (match t_gw th with GwDone => at_ st JoinShard | _ => st end)
  | JoinShard => Ok (if t_shard_done th then at_ st Returned else st)
  | Returned | Terminated => Ok st
  end.

End turn.

Definition main_init (w : W) : Main := mkMain Connect (mkClient (-1) false [] 0 0 [] 0 true) (start w).

(** What the kernel returns: a connection is made on an open descriptor; [recv]
    stores at most what was asked for, and no more bytes come over a connection
    than the reports hold that the gateway has drained. *)
Definition input_ok (st : Main) (inp : Input) : Prop :=
  match inp with
  | Connects fd rc => rc = 0 -> 0 <= fd
  | Sends _ => True
  | Receives r =>
      match m_pc st with Recv _ got => r <= sizeof_Ack - got | _ => True end /\
      (0 < r -> c_got (m_client st) + r <= answered (t_server (m_threads st)))
  end.

(** The connection is a stream and the gateway makes one request of each frame:
    orders arrive whole, in their order and once, under the session of the
    connection; those of a [send] that failed do not. *)
Definition arrives (orders : list NewOrder) (ms : list InboundMsg) : Prop :=
  exists sid os, is_u 32 sid /\ ms = request_of sid <$> os /\ os `sublist_of` orders.

End program.
Arguments Main : clear implicits.

(** A latency program: its shard and the gateway it builds. *)
Record Program : Type := mkProgram {
  p_cfg : ShardConfig;
  p_base : Z;
  p_tick : Z;
  p_gateway : list string -> GatewayKind
}.

(** From the threads on the two sources are the same text but for the heading
    they print. *)
Definition gateway_latency : Program := mkProgram LATENCY_CFG 900 1 (fun _ => Epoll).
Definition gateway_latency_uring : Program := mkProgram LATENCY_CFG 900 1 (fun argv => Uring (sqpoll_arg argv) 7).
Definition latency_programs : list Program := [gateway_latency; gateway_latency_uring].

Section run.
Context {W : Type} `{HS : Server W} (tsc : Z -> Z) (hz : Z).

Inductive step (st : Main W) : Main W -> Prop :=
| step_main inp st' : input_ok st inp -> main_turn tsc hz inp st = Ok st' -> step st st'
| step_threads th : m_pc st <> Terminated -> threads_step (arrives (c_orders (m_client st))) (m_threads st) th ->
    step st (mkMain (m_pc st) (m_client st) th).

(** ** The invariant *)

(** Rounds that are over, orders sent and bytes read at a program point. *)
Definition over (pc : Pc) : Z := match pc with Connect => 0 | Round i | Recv i _ => i | _ => LATENCY_TOTAL end.
Definition sent_at (pc : Pc) : Z := match pc with Recv i _ => i + 1 | _ => over pc end.
Definition read_at (pc : Pc) : Z := match pc with Recv i got => i * sizeof_Ack + got | _ => over pc * sizeof_Ack end.
Definition timing (pc : Pc) : bool := match pc with Recv _ _ => true | _ => false end.

Definition pc_range (pc : Pc) : Prop :=
  match pc with
  | Round i => 0 <= i <= LATENCY_TOTAL
  | Recv i got => 0 <= i < LATENCY_TOTAL /\ 0 <= got <= sizeof_Ack
  | Terminated => False
  | _ => True
  end.

(** How far the end of [main] has come. *)
Definition stage (pc : Pc) : Z :=
  match pc with
  | StopGateway => 1 | CloseFd => 2 | StopShard => 3 | JoinGateway => 4 | JoinShard => 5 | Returned => 6 | _ => 0
  end.

Record client_inv (pc : Pc) (c : Client) : Prop := {
  ci_range : pc_range pc;
  ci_orders : c_orders c = latency_order <$> seqZ 0 (sent_at pc);
  ci_reads : c_reads c = 2 * over pc + (if timing pc then 1 else 0);
  ci_t0 : timing pc = true -> c_t0 c = tsc (2 * over pc);
  ci_hist : c_hist c = latency_sample tsc hz <$> seqZ WARMUP (over pc - WARMUP);
  ci_open : c_open c = match pc with Connect => false | _ => stage pc <? 3 end;
  ci_got : c_whole c = true -> c_got c = read_at pc
}.

Context (inv : W -> Prop) `{!ServerLaws LATENCY_CFG inv}.

Record main_inv (st : Main W) : Prop := {
  mi_client : client_inv (m_pc st) (m_client st);
  mi_threads : threads_inv inv (arrives (c_orders (m_client st))) (m_threads st);
  mi_answered : c_got (m_client st) <= answered (t_server (m_threads st));
  mi_running : t_running (m_threads st) = (stage (m_pc st) <? 2);
  mi_stopped : srv_running (t_server (m_threads st)) = (stage (m_pc st) <? 4);
  mi_gw : 5 <= stage (m_pc st) -> t_gw (m_threads st) = GwDone;
  mi_shard : 6 <= stage (m_pc st) -> t_shard_done (m_threads st) = true
}.

(** ** What arrives *)

Lemma orders_bench n : n <= LATENCY_TOTAL -> Forall bench_order (latency_order <$> seqZ 0 n).
Proof. intros Hn. apply Forall_fmap, Forall_forall. intros i Hi%elem_of_seqZ. left. exists i. split; [lia|done]. Qed.

Lemma zlen_orders n : 0 <= n -> zlen (latency_order <$> seqZ 0 n) = n.
Proof. intros Hn. rewrite zlen_fmap. unfold zlen. rewrite length_seqZ. lia. Qed.

Lemma arrives_ok n ms : 0 <= n <= LATENCY_TOTAL -> arrives (latency_order <$> seqZ 0 n) ms -> Forall from_client ms /\ zlen ms <= n.
Proof.
  intros Hn (sid & os & Hsid & -> & Hos). split.
  - apply Forall_fmap. pose proof (orders_bench n (proj2 Hn)) as HF. rewrite Forall_forall in HF. apply Forall_forall. intros o Ho. exists sid, o.
    split; [done|]. split; [|done]. apply HF. apply sublist_submseteq in Hos. by apply (elem_of_submseteq os _ o).
  - pose proof (sublist_length _ _ Hos) as HL. pose proof (zlen_orders n (proj1 Hn)) as Hz. rewrite zlen_fmap. unfold zlen in *. lia.
Qed.

Lemma arrives_more orders o ms : arrives orders ms -> arrives (orders ++ o) ms.
Proof. intros (sid & os & ? & ? & ?). exists sid, os. do 2 (split; [done|]). by apply sublist_inserts_r. Qed.

Lemma sent_range pc : pc_range pc -> 0 <= over pc <= LATENCY_TOTAL /\ 0 <= sent_at pc <= LATENCY_TOTAL.
Proof. destruct pc; cbn [pc_range over sent_at]; change LATENCY_TOTAL with 42000; lia. Qed.

Lemma main_arrives st ms : main_inv st -> arrives (c_orders (m_client st)) ms -> Forall from_client ms /\ zlen ms <= sent_at (m_pc st).
Proof.
  intros [[C1 C2 _ _ _ _ _] _ _ _ _ _ _]. rewrite C2. apply arrives_ok. by apply sent_range.
Qed.

Lemma main_harr st ms : main_inv st -> arrives (c_orders (m_client st)) ms -> Forall order_only ms /\ zlen ms < 2 ^ 32.
Proof.
  intros HI Ha. destruct (main_arrives st ms HI Ha) as [HF Hz]. split; [eapply Forall_impl; [exact HF|apply from_client_order_only]|].
  pose proof (sent_range _ (ci_range _ _ (mi_client _ HI))) as [_ Hr]. change LATENCY_TOTAL with 42000 in Hr. lia.
Qed.

Lemma main_init_inv w : fresh inv w -> main_inv (main_init w).
Proof.
  intros Hf. pose proof Hf as [_ Hr _ _ Hd]. split; cbn [main_init m_pc m_client m_threads c_orders c_got start t_server t_running t_gw t_shard_done stage]; try done.
  - apply threads_start; [done|]. exists 0, []. by split_and!.
  - unfold answered. by rewrite Hd.
Qed.

(** ** Steps *)

Ltac latency_consts := change sizeof_Ack with 24 in *; change LATENCY_TOTAL with 42000 in *.
Ltac inv_fields := cbn [at_ m_pc m_client m_threads c_fd c_open c_orders c_t0 c_reads c_hist c_got c_whole connected sends_order reads_bytes records closes
  over sent_at read_at timing pc_range stage stop_gateway t_server t_running t_gw t_shard_done] in *.

(** Calls of the client that are left, waiting not counted. *)
Definition pc_left (pc : Pc) : Z :=
  match pc with
  | Connect => 26 * LATENCY_TOTAL + 8
  | Round i => 26 * (LATENCY_TOTAL - i) + 7
  | Recv i got => 26 * (LATENCY_TOTAL - i) + 6 - got
  | Terminated => 0
  | pc => 6 - stage pc
  end.

(** The client's call waits, ends the process, or leaves fewer calls. *)
Definition advances (st st' : Main W) : Prop :=
  st' = st \/ m_pc st' = Terminated \/ (main_inv st' /\ pc_left (m_pc st') < pc_left (m_pc st)).

Lemma record_sample i h t : 0 <= i -> h = latency_sample tsc hz <$> seqZ WARMUP (i - WARMUP) -> t = tsc (2 * i) -> 0 < hz ->
  (if WARMUP <=? i then ns ← Util.tsc_to_ns (u64 (tsc (2 * i + 1) - t)) hz; Ok (h ++ [i64 ns]) else Ok h) =
  Ok (latency_sample tsc hz <$> seqZ WARMUP (i + 1 - WARMUP)).
Proof.
  intros Hi -> -> Hhz. unfold Util.tsc_to_ns. rewrite (proj2 (Z.eqb_neq hz 0)) by lia. cbn [mbind res_bind]. destruct (Z.leb_spec WARMUP i).
  - replace (i + 1 - WARMUP) with (i - WARMUP + 1) by lia. rewrite seqZ_app by lia. rewrite fmap_app.
    replace (WARMUP + (i - WARMUP)) with i by lia. done.
  - by rewrite !seqZ_nil by lia.
Qed.

Context (Hhz : 0 < hz).

Lemma send_advances st i killed : main_inv st -> m_pc st = Round i -> i < LATENCY_TOTAL ->
  exists st', main_turn tsc hz (Sends killed) st = Ok st' /\ advances st st'.
Proof.
  intros [[C1 C2 C3 C4 C5 C6 C7] M2 M3 M4 M5 M6 M7] Epc Hi. unfold main_turn. rewrite Epc, (proj2 (Z.ltb_lt _ _)) in * by done. eexists. split; [done|]. inv_fields.
  right. destruct killed; [by left|right]. rewrite Epc. cbn [m_pc pc_left]. split; [|latency_consts; lia].
  assert (Hord : c_orders (m_client st) ++ [latency_order i] = latency_order <$> seqZ 0 (i + 1)) by (rewrite C2, seqZ_app by lia; by rewrite fmap_app).
  split; inv_fields; try done.
  - split; inv_fields; try done; try lia; [by destruct C1|intros _; rewrite C3; f_equal; lia|intros Hw; rewrite (C7 Hw); lia].
  - eapply threads_inv_more; [|exact M2]. intros ms. apply arrives_more.
Qed.

Lemma round_over st i whole : main_inv st -> (exists got, m_pc st = Recv i got /\ (whole = true -> c_whole (m_client st) = true /\ got = sizeof_Ack)) ->
  exists st', (hist ← (if WARMUP <=? i then ns ← Util.tsc_to_ns (u64 (tsc (c_reads (m_client st)) - c_t0 (m_client st))) hz; Ok (c_hist (m_client st) ++ [i64 ns])
      else Ok (c_hist (m_client st)));
    Ok (mkMain (Round (i + 1)) (records (m_client st) hist whole) (m_threads st))) = Ok st' /\ advances st st'.
Proof.
  intros [[C1 C2 C3 C4 C5 C6 C7] M2 M3 M4 M5 M6 M7] (got & Epc & Hw). rewrite Epc in *. inv_fields. destruct C1 as [Hi Hg]. rewrite C3.
  rewrite record_sample by (try apply C4; done || lia). cbn [mbind res_bind]. eexists. split; [done|]. right. right. rewrite Epc. cbn [m_pc pc_left].
  split; [|latency_consts; lia]. split; inv_fields; try done.
  split; inv_fields; try done; try lia. intros Ht. destruct (Hw Ht) as [Hw' ->]. rewrite (C7 Hw'). lia.
Qed.

Lemma recv_advances st i got r : main_inv st -> m_pc st = Recv i got -> input_ok st (Receives r) ->
  exists st', main_turn tsc hz (Receives r) st = Ok st' /\ advances st st'.
Proof.
  intros HI Epc Hin. unfold main_turn. rewrite Epc. unfold input_ok in Hin. rewrite Epc in Hin. destruct Hin as [Hle Hav].
  pose proof (ci_range _ _ (mi_client _ HI)) as Hr. rewrite Epc in Hr. destruct Hr as [Hi Hg].
  destruct (Z.ltb_spec got sizeof_Ack) as [Hlt|Hge].
  2:{ apply round_over; [done|]. exists got. split; [done|]. intros Hw. split; [done|lia]. }
  destruct (Z.leb_spec r 0) as [Hneg|Hpos]; [apply round_over; [done|by exists got]|].
  destruct HI as [[C1 C2 C3 C4 C5 C6 C7] M2 M3 M4 M5 M6 M7]. rewrite Epc in *. inv_fields.
  latency_consts. rewrite wrapU_small by lia. eexists. split; [done|]. right. right. rewrite Epc. cbn [m_pc pc_left]. split; [|lia].
  split; inv_fields; try done; [|by apply Hav]. split; inv_fields; latency_consts; try done; try lia. intros Hw. rewrite (C7 Hw). lia.
Qed.

(** The end of [main]. *)
Lemma end_advances st inp : main_inv st -> 1 <= stage (m_pc st) \/ m_pc st = Round LATENCY_TOTAL ->
  exists st', main_turn tsc hz inp st = Ok st' /\ advances st st'.
Proof.
  intros HI Hs. pose proof HI as [[C1 C2 C3 C4 C5 C6 C7] M2 M3 M4 M5 M6 M7]. unfold main_turn.
  destruct (m_pc st) as [|i|i got| | | | | | |] eqn:Epc; inv_fields; try (destruct Hs; [lia|done]).
  - assert (i = LATENCY_TOTAL) as -> by (destruct Hs as [|E]; [lia|by injection E]). rewrite Z.ltb_irrefl. eexists. split; [done|].
    right. right. rewrite Epc. cbn [at_ m_pc pc_left stage]. split; [|latency_consts; lia]. split; inv_fields; try done; by split.
  - eexists. split; [done|]. right. right. rewrite Epc. cbn [m_pc pc_left stage]. split; [|lia]. split; inv_fields; try done; try (by split); by apply stop_gateway_inv.
  - eexists. split; [done|]. right. right. rewrite Epc. cbn [m_pc pc_left stage]. split; [|lia]. split; inv_fields; try done; by split.
  - destruct (stop_shard_inv LATENCY_CFG inv _ _ M2) as (M2' & E1 & E2 & E3). eexists. split; [done|]. right. right. rewrite Epc. cbn [m_pc pc_left stage].
    split; [|lia]. split; inv_fields; try done; try (by split). unfold answered in *. by rewrite E2.
  - destruct (t_gw (m_threads st)) eqn:Eg; [by exists st; split; [|left]..|]. eexists. split; [done|]. right. right. rewrite Epc. cbn [at_ m_pc pc_left stage].
    split; [|lia]. split; inv_fields; try done; by split.
  - destruct (t_shard_done (m_threads st)) eqn:Eg; [|by exists st; split; [|left]]. eexists. split; [done|]. right. right. rewrite Epc. cbn [at_ m_pc pc_left stage].
    split; [|lia]. split; inv_fields; try done; try (by split). intros _. by apply M6.
  - exists st. split; [done|by left].
Qed.

Lemma main_advances st inp : main_inv st -> input_ok st inp -> exists st', main_turn tsc hz inp st = Ok st' /\ advances st st'.
Proof.
  intros HI Hin. pose proof (ci_range _ _ (mi_client _ HI)) as Hr.
  assert (Hwait : main_turn tsc hz inp st = Ok st -> exists st', main_turn tsc hz inp st = Ok st' /\ advances st st') by (intros E; exists st; split; [done|by left]).
  destruct (m_pc st) as [|i|i got| | | | | | |] eqn:Epc; try (apply end_advances; [done|left; by rewrite Epc]).
  - destruct inp as [fd rc|killed|r]; try (apply Hwait; unfold main_turn; by rewrite Epc). unfold main_turn. rewrite Epc. eexists. split; [done|]. right.
    destruct (negb (rc =? 0)); [by left|right]. rewrite Epc. cbn [m_pc pc_left]. split; [|latency_consts; lia].
    destruct HI as [[C1 C2 C3 C4 C5 C6 C7] M2 M3 M4 M5 M6 M7]. rewrite Epc in *. inv_fields. rewrite C2 in M2. split; inv_fields; try done.
    apply zlen_nonneg.
  - destruct (Z.ltb_spec i LATENCY_TOTAL) as [Hlt|Hge].
    + destruct inp as [fd rc|killed|r]; [|by apply (send_advances st i killed)|]; apply Hwait; unfold main_turn; by rewrite Epc, (proj2 (Z.ltb_lt _ _)).
    + apply end_advances; [done|right]. rewrite Epc. f_equal. cbn [pc_range] in Hr. lia.
  - destruct inp as [fd rc|killed|r]; [| |by apply (recv_advances st i got r)].
    1,2: destruct (Z.ltb_spec got sizeof_Ack) as [Hlt|Hge]; [apply Hwait; unfold main_turn; by rewrite Epc, (proj2 (Z.ltb_lt _ _))|].
    1,2: unfold main_turn; rewrite Epc, (proj2 (Z.ltb_ge _ _)) by done; apply round_over; [done|]; exists got; (split; [done|]); intros Hw;
      (split; [done|]); cbn [pc_range] in Hr; lia.
Qed.

(** A step of the gateway's or the shard's thread. *)
Lemma client_threads_keep st th : main_inv st -> threads_step (arrives (c_orders (m_client st))) (m_threads st) th ->
  main_inv (mkMain (m_pc st) (m_client st) th).
Proof.
  intros HI Hs. destruct (threads_step_inv LATENCY_CFG inv _ (fun ms => main_harr st ms HI) _ _ (mi_threads _ HI) Hs) as [HT [G1 G2 (more & G3) G4 G5]].
  destruct HI as [M1 M2 M3 M4 M5 M6 M7]. split; inv_fields; try done.
  - unfold answered in *. rewrite G3, fmap_app, concat_app, zlen_app. pose proof (zlen_nonneg (concat (out_enc <$> more))). lia.
  - by rewrite G1.
  - by rewrite G2.
  - intros Hs5. by apply G4, M6.
  - intros Hs6. by apply G5, M7.
Qed.

Lemma terminated_stays st st' : m_pc st = Terminated -> step st st' -> st' = st.
Proof. intros Epc [inp st1 _ Hc|th Hn _]; [|done]. unfold main_turn in Hc. rewrite Epc in Hc. by injection Hc as <-. Qed.

Lemma main_reachable w st : fresh inv w -> rtc step (main_init w) st -> m_pc st = Terminated \/ main_inv st.
Proof.
  intros Hf. revert st. apply rtc_ind_r; [right; by apply main_init_inv|]. intros s s' _ Hs [Ht|HI]; [left; by rewrite (terminated_stays s s' Ht Hs)|].
  destruct Hs as [inp s' Hin Hc|th _ Hth]; [|right; by apply client_threads_keep].
  destruct (main_advances s inp HI Hin) as (s1 & Hc1 & [->|[Ht|[HI' _]]]); rewrite Hc in Hc1; injection Hc1 as ->; auto.
Qed.

(** ** Progress *)

Definition work (st : Main W) : Z :=
  pc_left (m_pc st) + (match t_gw (m_threads st) with GwDone => 0 | _ => 1 end) + (if t_shard_done (m_threads st) then 0 else 1).

Lemma turn_threads inp st st' : main_turn tsc hz inp st = Ok st' ->
  m_threads st' = m_threads st \/ m_threads st' = stop_gateway (m_threads st) \/ m_threads st' = stop_shard (m_threads st).
Proof.
  unfold main_turn. destruct (m_pc st); try (intros [= <-]; by auto); try (repeat case_match; intros [= <-]; by auto).
  set (hist := if WARMUP <=? i then _ else _). destruct hist as [h|]; cbn [mbind res_bind]; repeat case_match; try done; intros [= <-]; by auto.
Qed.

Lemma idle_turn inp st st' : main_inv st -> main_turn tsc hz inp st = Ok st' -> idle (m_threads st) -> idle (m_threads st').
Proof.
  intros HI Hc Hid. destruct (turn_threads inp st st' Hc) as [-> |[-> | ->] ]; [done|done|].
  by apply (idle_stop LATENCY_CFG inv _ _ (mi_threads _ HI)).
Qed.

Lemma turn_work inp st st' : main_turn tsc hz inp st = Ok st' -> work st' - pc_left (m_pc st') = work st - pc_left (m_pc st).
Proof. intros Hc. unfold work. destruct (turn_threads inp st st' Hc) as [-> |[-> | ->] ]; cbn [stop_gateway stop_shard t_gw t_shard_done]; lia. Qed.

Definition goes_on (st : Main W) : Prop := exists st', step st st' /\ (main_inv st' /\ idle (m_threads st')) /\ work st' < work st.

Lemma call_progress inp st st' : main_inv st -> idle (m_threads st) -> input_ok st inp -> main_turn tsc hz inp st = Ok st' ->
  m_pc st' <> m_pc st -> m_pc st' <> Terminated -> goes_on st.
Proof.
  intros HI Hid Hin Hc Hne Hnt. exists st'. split; [by eapply step_main|]. pose proof (idle_turn _ _ _ HI Hc Hid) as Hid'.
  pose proof (turn_work _ _ _ Hc). destruct (main_advances st inp HI Hin) as (st1 & E & H1). rewrite Hc in E. injection E as <-.
  destruct H1 as [->|[?|[HI' Hlt]]]; [done|done|]. split; [done|lia].
Qed.

Lemma client_join_progress st th : main_inv st -> m_pc st <> Terminated -> threads_step (arrives (c_orders (m_client st))) (m_threads st) th -> idle th ->
  work (mkMain (m_pc st) (m_client st) th) < work st -> goes_on st.
Proof. intros HI Hnt Hs Hid Hw. eexists. split; [by apply step_threads|]. split; [|done]. split; [by apply client_threads_keep|done]. Qed.

Lemma client_end_progress st : main_inv st -> idle (m_threads st) -> 0 < work st -> 1 <= stage (m_pc st) -> goes_on st.
Proof.
  intros HI Hid Hw Hs. pose proof HI as [_ _ _ M4 M5 M6 M7]. destruct (m_pc st) as [|i|i got| | | | | | |] eqn:Epc; cbn [stage] in *; try lia.
  - eapply (call_progress (Receives 0)); [done|done|unfold input_ok; by rewrite Epc|unfold main_turn; by rewrite Epc|by rewrite Epc|done].
  - eapply (call_progress (Receives 0)); [done|done|unfold input_ok; by rewrite Epc|unfold main_turn; by rewrite Epc|by rewrite Epc|done].
  - eapply (call_progress (Receives 0)); [done|done|unfold input_ok; by rewrite Epc|unfold main_turn; by rewrite Epc|by rewrite Epc|done].
  - destruct (t_gw (m_threads st)) eqn:Eg.
    + apply (client_join_progress st (gw_check (m_threads st))); [done|by rewrite Epc|by apply step_check| |].
      * destruct Hid as [_ Hid]. split; [by rewrite (gw_check_ends _ Eg M4)|done].
      * unfold work. cbn [m_pc m_threads]. rewrite (gw_check_ends _ Eg M4), Eg. cbn [gw_check t_shard_done]. lia.
    + by destruct Hid.
    + eapply (call_progress (Receives 0)); [done|done|unfold input_ok; by rewrite Epc|unfold main_turn; by rewrite Epc, Eg|by rewrite Epc|done].
  - destruct (t_shard_done (m_threads st)) eqn:Ed.
    + eapply (call_progress (Receives 0)); [done|done|unfold input_ok; by rewrite Epc|unfold main_turn; by rewrite Epc, Ed|by rewrite Epc|done].
    + destruct Hid as [I1 [I2|I2]]; [congruence|]. pose proof (shard_round_ends (m_threads st) M5 I2) as Hr.
      eapply (client_join_progress st); [done|by rewrite Epc|by eapply step_shard|by split; [|left]|]. unfold work. cbn [m_pc m_threads t_gw t_shard_done]. rewrite Ed. lia.
  - exfalso. unfold work in Hw. rewrite Epc, M6, M7 in Hw by lia. cbn in Hw. lia.
Qed.

Lemma main_goes_on st : main_inv st /\ idle (m_threads st) -> 0 < work st -> goes_on st.
Proof.
  intros [HI Hid] Hw. pose proof (ci_range _ _ (mi_client _ HI)) as Hr.
  destruct (m_pc st) as [|i|i got| | | | | | |] eqn:Epc; try (apply client_end_progress; [done..|by rewrite Epc]).
  - eapply (call_progress (Connects 3 0)); [done|done|by intros _|unfold main_turn; by rewrite Epc|by rewrite Epc|done].
  - destruct (Z.ltb_spec i LATENCY_TOTAL) as [Hi|Hi].
    + eapply (call_progress (Sends false)); [done|done|done|unfold main_turn; by rewrite Epc, (proj2 (Z.ltb_lt _ _))|by rewrite Epc|done].
    + eapply (call_progress (Sends false)); [done|done|done|unfold main_turn; by rewrite Epc, (proj2 (Z.ltb_ge _ _))|by rewrite Epc|done].
  - assert (Hin : input_ok st (Receives 0)) by (unfold input_ok; rewrite Epc; cbn [pc_range] in Hr; split; lia).
    destruct (main_advances st (Receives 0) HI Hin) as (st' & Hc & _). assert (m_pc st' = Round (i + 1)) as Epc'.
    { unfold main_turn in Hc. rewrite Epc in Hc. change (0 <=? 0) with true in Hc. cbv iota in Hc.
      destruct (if WARMUP <=? i then _ else _); cbn [mbind res_bind] in Hc; destruct (got <? sizeof_Ack); try done; by injection Hc as <-. }
    eapply (call_progress (Receives 0)); [done..|by rewrite Epc, Epc'|by rewrite Epc'].
Qed.

Lemma work_nonneg st : main_inv st -> 0 <= work st.
Proof.
  intros HI. pose proof (ci_range _ _ (mi_client _ HI)) as Hr. unfold work.
  destruct (m_pc st); cbn [pc_range pc_left stage] in *; latency_consts; destruct (t_gw _), (t_shard_done _); lia.
Qed.

Lemma main_finishes st : main_inv st -> idle (m_threads st) -> exists st', rtc step st st' /\ main_inv st' /\ m_pc st' = Returned.
Proof.
  intros HI Hid. destruct (reaches_end step (fun st => main_inv st /\ idle (m_threads st)) work) with (st := st) as (st' & Hrun & [HI' _] & Hz); [|apply main_goes_on|done|].
  - intros s [? _]. by apply work_nonneg.
  - exists st'. do 2 (split; [done|]). pose proof (ci_range _ _ (mi_client _ HI')) as Hr. unfold work in Hz.
    destruct (m_pc st'); cbn [pc_range pc_left stage] in *; latency_consts; destruct (t_gw _), (t_shard_done _); done || lia.
Qed.

(** ** What was answered *)

Lemma client_drained_acks st : main_inv st -> exists sid os, os `sublist_of` c_orders (m_client st) /\
  srv_handed (t_server (m_threads st)) = request_of sid <$> os /\
  (length (srv_drained (t_server (m_threads st))) <= length os)%nat /\
  Forall2 acks (stamp sid <$> take (length (srv_drained (t_server (m_threads st)))) os) (srv_drained (t_server (m_threads st))).
Proof.
  intros HI. destruct (ti_arrives _ _ _ (mi_threads _ HI)) as (sid & os & Hsid & Eh & Hos). destruct (main_arrives st _ HI (ti_arrives _ _ _ (mi_threads _ HI))) as [HF Hz].
  pose proof (sent_range _ (ci_range _ _ (mi_client _ HI))) as [_ Hs].
  destruct (server_acks LATENCY_CFG inv (or_introl eq_refl) _ (ti_server _ _ _ (mi_threads _ HI)) HF) as [HL HA];
    [change (max_orders LATENCY_CFG) with 65536; latency_consts; lia|]. exists sid, os. do 2 (split; [done|]).
  rewrite Eh, length_fmap, length_app in HL. split; [lia|]. rewrite Eh, <- fmap_take, requests_read in HA; [done|done|].
  apply Forall_take. pose proof (ci_orders _ _ (mi_client _ HI)) as Eo. pose proof (orders_bench _ (proj2 Hs)) as HB. rewrite <- Eo in HB.
  rewrite Forall_forall in HB. apply Forall_forall. intros o Ho. apply HB. apply sublist_submseteq in Hos. by apply (elem_of_submseteq os _ o).
Qed.

(** As many bytes as all orders have acknowledgements were read: they are the
    acknowledgements of all orders. *)
Lemma client_all_acked st : main_inv st -> zlen (c_orders (m_client st)) * sizeof_Ack <= c_got (m_client st) ->
  exists sid, Forall2 acks (stamp sid <$> c_orders (m_client st)) (srv_drained (t_server (m_threads st))).
Proof.
  intros HI Hgot. destruct (client_drained_acks st HI) as (sid & os & Hos & _ & HL & HA). exists sid. pose proof (mi_answered _ HI) as Hans.
  rewrite (answered_acks _ _ HA) in Hans. pose proof (sublist_length _ _ Hos) as Hle. unfold zlen in *. change sizeof_Ack with 24 in *.
  assert (os = c_orders (m_client st)) as E by (apply sublist_full; [done|lia]). rewrite E in *. by rewrite take_ge in HA by lia.
Qed.

End run.

(** Only an unknown mode is turned away. *)
Lemma throughput_mode_unknown argv :
  throughput_mode argv = None <-> exists m, arg1 argv = Some m /\ m ∉ ["epoll"; "uring"; "sqpoll"]%string.
Proof.
  unfold throughput_mode. destruct (arg1 argv) as [m|]; cbn [default from_option id]; [|split; [done|by intros (m & ? & _)]].
  destruct (String.eqb_spec m "epoll"); [|destruct (String.eqb_spec m "uring"); [|destruct (String.eqb_spec m "sqpoll")]].
  all: split; [intros Hn; first [discriminate Hn|exists m; rewrite !elem_of_cons, elem_of_nil; tauto]|].
  all: intros (m' & [= <-] & Hm); first [reflexivity|destruct Hm; rewrite !elem_of_cons; tauto].
Qed.

(** A gateway of this kind over the shard, constructed at port 0, is a fresh
    server for every kernel and every liburing that keep their laws. *)
Definition serves (CFG : ShardConfig) (sh0 : Shard) (kind : GatewayKind) : Prop :=
  match kind with
  | Epoll => forall (K : Type) (HK : Kernel.Kernel K) (V : KernelView K), KernelLaws V -> forall k0 g0 k1,
      Gateway.gateway_init [sh0] 0 k0 = (inr g0, k1) ->
      fresh (H := epoll_server CFG V) (epoll_inv CFG V sh0) (System.mkWorld g0 k1 (System.no_boxes 1) [] 0, SystemMarket.no_log)
  | Uring sqpoll sq_cpu => forall (U : Type) (HK : Kernel.Kernel U) (HU : UringGateway.Uring U) (V : KernelView U) (armed : U -> list UringGateway.Sqe),
      UringInv.UringLaws V armed -> forall u0 g0 u1, UringGateway.uring_init sh0 0 sqpoll sq_cpu u0 = Ok (inr g0, u1) ->
      fresh (H := uring_server CFG) (over_uring_inv CFG V armed) (UringSystem.mkWorld g0 u1 [] [] 0, ([], []))
  end.

Lemma kind_serves CFG sh0 kind : CFG = LATENCY_CFG \/ CFG = THROUGHPUT_CFG -> shard_init CFG 900 1 0 [] = Ok sh0 -> serves CFG sh0 kind.
Proof.
  intros Hcfg Hinit. pose proof (proj1 (load_cfg_ok CFG Hcfg)) as HC. destruct kind as [|sqpoll sq_cpu].
  - intros K HK V HV k0 g0 k1. by apply epoll_fresh.
  - intros U HK HU V armed HV u0 g0 u1. by apply (uring_fresh CFG Hcfg HC V armed sh0 Hinit).
Qed.

(** Whatever the arguments of a program are, the gateway it builds is one that
    [client_measures] or [BenchLoad.load_measured] is about. *)
Lemma programs_serve p argv sh0 : p ∈ latency_programs -> shard_init (p_cfg p) (p_base p) (p_tick p) 0 [] = Ok sh0 ->
  p_cfg p = LATENCY_CFG /\ serves (p_cfg p) sh0 (p_gateway p argv).
Proof. intros Hp Hinit. apply list_elem_of_In in Hp as [<-|[<-|[]]]; (split; [done|]); by apply kind_serves; [left|]. Qed.

Lemma throughput_serves argv kind label sh0 : throughput_mode argv = Some (kind, label) -> shard_init THROUGHPUT_CFG 900 1 0 [] = Ok sh0 ->
  serves THROUGHPUT_CFG sh0 kind.
Proof. intros _ Hinit. by apply kind_serves; [right|]. Qed.

Section guarantees.
Context {W : Type} `{HS : Server W} (tsc : Z -> Z) (hz : Z) (inv : W -> Prop) `{!ServerLaws LATENCY_CFG inv}.

(** C40: What the two latency benchmarks measure, over a gateway and a shard
    that behave as those of [System] and [UringSystem] do (the laws [ServerLaws],
    which both fulfil), freshly constructed.  The kernel is free to fail any
    [connect], [send] or [recv]; assumed is that orders reach the shard whole, in
    their order and at most once ([arrives]), that [recv] returns no more bytes
    than it was asked for and the drained reports hold ([input_ok]), and that the
    counter's frequency is positive.  In every state the three threads can reach:
    the client's next call is defined, and so is the next round of the shard's
    thread, and every poll that has fuel and session numbers for what waits; the
    orders handed to [send] are those of the first rounds, and the reports the
    gateway has drained are acknowledgements, one for each of the first orders
    that reached the shard.  At the start of round [i], [i] orders were sent and
    one time was recorded for each of these rounds after the warm-up; and if
    [recv] never returned 0 or an error, the drained reports are exactly the
    acknowledgements of the [i] orders, so that every recorded time spans the
    acknowledgement of its own order.  When [main] returns, exactly [MEASURE]
    times were recorded, the socket is closed and both threads have ended; and
    if [recv] never failed, all orders were acknowledged. *)
Theorem client_measures w st : 0 < hz -> fresh inv w -> rtc (step tsc hz) (main_init w) st ->
  (forall inp, input_ok st inp -> exists st', main_turn tsc hz inp st = Ok st') /\
  (m_pc st <> Terminated ->
     (exists th', shard_round (m_threads st) = Ok th') /\
     (forall fuel, srv_ready fuel (t_server (m_threads st)) -> exists th', gw_poll fuel (m_threads st) = Ok th') /\
     c_orders (m_client st) = latency_order <$> seqZ 0 (zlen (c_orders (m_client st))) /\
     exists sid os, os `sublist_of` c_orders (m_client st) /\ srv_handed (t_server (m_threads st)) = request_of sid <$> os /\
       (length (srv_drained (t_server (m_threads st))) <= length os)%nat /\
       Forall2 acks (stamp sid <$> take (length (srv_drained (t_server (m_threads st)))) os) (srv_drained (t_server (m_threads st)))) /\
  (forall i, m_pc st = Round i -> zlen (c_orders (m_client st)) = i /\
     c_hist (m_client st) = latency_sample tsc hz <$> seqZ WARMUP (i - WARMUP) /\
     (c_whole (m_client st) = true ->
        exists sid, Forall2 acks (stamp sid <$> c_orders (m_client st)) (srv_drained (t_server (m_threads st))))) /\
  (m_pc st = Returned ->
     zlen (c_orders (m_client st)) = LATENCY_TOTAL /\
     c_hist (m_client st) = latency_sample tsc hz <$> seqZ WARMUP MEASURE /\ zlen (c_hist (m_client st)) = MEASURE /\
     c_open (m_client st) = false /\ t_gw (m_threads st) = GwDone /\ t_shard_done (m_threads st) = true /\
     (c_whole (m_client st) = true ->
        exists sid, Forall2 acks (stamp sid <$> c_orders (m_client st)) (srv_drained (t_server (m_threads st))))).
Proof.
  intros Hhz Hf Hrun. destruct (main_reachable tsc hz inv Hhz w st Hf Hrun) as [Ht|HI].
  { rewrite Ht. split; [|done]. intros inp _. exists st. unfold main_turn. by rewrite Ht. }
  pose proof (mi_client _ _ _ _ HI) as [C1 C2 _ _ C5 C6 C7]. destruct (sent_range _ C1) as [_ Hs].
  split; [|split; [|split]].
  - intros inp Hin. destruct (main_advances tsc hz inv Hhz st inp HI Hin) as (st' & E & _). by exists st'.
  - intros _. split; [|split; [|split]].
    + destruct (shard_round_ok LATENCY_CFG inv _ (fun ms => main_harr tsc hz inv st ms HI) _ (mi_threads _ _ _ _ HI)) as (th' & E & _). by exists th'.
    + intros fuel Hr. apply (gw_poll_ok LATENCY_CFG inv); [apply (mi_threads _ _ _ _ HI)|exact Hr].
    + by rewrite C2, zlen_orders by lia.
    + by apply (client_drained_acks tsc hz inv).
  - intros i Epc. rewrite Epc in *. cbn [sent_at read_at over] in *. assert (Hz : zlen (c_orders (m_client st)) = i) by (by rewrite C2, zlen_orders by lia).
    do 2 (split; [done|]). intros Hw. apply (client_all_acked tsc hz inv st HI). rewrite Hz, (C7 Hw). lia.
  - intros Epc. pose proof (mi_gw _ _ _ _ HI) as Hg. pose proof (mi_shard _ _ _ _ HI) as Hd. rewrite Epc in *. cbn [sent_at read_at over stage] in *.
    assert (Hz : zlen (c_orders (m_client st)) = LATENCY_TOTAL) by (by rewrite C2, zlen_orders by lia). change (LATENCY_TOTAL - WARMUP) with MEASURE in *.
    do 2 (split; [done|]). split; [rewrite C5, zlen_fmap; unfold zlen; by rewrite length_seqZ|]. split; [done|]. split; [by apply Hg|]. split; [by apply Hd|].
    intros Hw. apply (client_all_acked tsc hz inv st HI). rewrite Hz, (C7 Hw). lia.
Qed.

(** The two latency benchmarks end: a call of the client waits, ends the
    process or leaves fewer calls, whatever the kernel returns; and from every
    state the threads can reach in which the gateway is between two polls and the
    shard's thread between two requests the run can be finished. *)
Theorem client_ends w st : 0 < hz -> fresh inv w -> rtc (step tsc hz) (main_init w) st ->
  (forall inp st', input_ok st inp -> main_turn tsc hz inp st = Ok st' ->
     st' = st \/ m_pc st' = Terminated \/ 0 <= pc_left (m_pc st') < pc_left (m_pc st)) /\
  (m_pc st <> Terminated -> idle (m_threads st) -> exists st', rtc (step tsc hz) st st' /\ m_pc st' = Returned).
Proof.
  intros Hhz Hf Hrun. destruct (main_reachable tsc hz inv Hhz w st Hf Hrun) as [Ht|HI].
  { split; [|done]. intros inp st' _ Hc. left. unfold main_turn in Hc. rewrite Ht in Hc. by injection Hc. }
  split.
  - intros inp st' Hin Hc. destruct (main_advances tsc hz inv Hhz st inp HI Hin) as (st1 & E & H1). rewrite Hc in E. injection E as <-.
    destruct H1 as [->|[?|[HI' Hlt]]]; [by left|right; by left|right; right]. split; [|done].
    pose proof (ci_range _ _ _ _ (mi_client _ _ _ _ HI')) as Hr. destruct (m_pc st'); cbn [pc_range pc_left stage] in *;
      change LATENCY_TOTAL with 42000 in *; change sizeof_Ack with 24 in *; lia.
  - intros _ Hid. destruct (main_finishes tsc hz inv Hhz st HI Hid) as (st' & ? & _ & ?). by exists st'.
Qed.

(** A client that cannot connect ends the program with [std::terminate]: [main]
    returns while both threads are still running and were not joined. *)
Theorem failed_connect_terminates w :
  exists st, step tsc hz (main_init w) st /\ m_pc st = Terminated /\ t_gw (m_threads st) = GwCheck /\ t_shard_done (m_threads st) = false.
Proof.
  exists (at_ (main_init w) Terminated). split; [|done]. by apply (step_main tsc hz (main_init w) (Connects 3 (-1))).
Qed.

End guarantees.

(** ** The benchmark over io_uring, on a simulated ring *)

Import Sim UringProps.

#[local] Instance bench_server : Server OverUring := uring_server LATENCY_CFG.
#[local] Instance bench_laws : ServerLaws LATENCY_CFG (over_uring_inv LATENCY_CFG ring_view sr_armed) :=
  simulated_laws LATENCY_CFG (or_introl eq_refl).
Definition bench_world : OverUring := simulated LATENCY_CFG.
Definition bench_fresh : fresh (over_uring_inv LATENCY_CFG ring_view sr_armed) bench_world := simulated_fresh LATENCY_CFG (or_introl eq_refl).

(** The client after its connection was made, with one order sent. *)
Definition bench_tsc (n : Z) : Z := 100 * (n + 1).
Definition first_sent : Main OverUring :=
  mkMain (Recv 0 0) (sends_order (connected 5) (latency_order 0) 100) (start bench_world).

Lemma first_sent_reached : rtc (step bench_tsc 1000) (main_init bench_world) first_sent.
Proof.
  eapply rtc_l; [by apply (step_main bench_tsc 1000 _ (Connects 5 0) (mkMain (Round 0) (connected 5) (start bench_world)))|].
  by apply rtc_once, (step_main bench_tsc 1000 _ (Sends false)).
Qed.

(** Also when [recv] fails the next call is defined. *)
Lemma client_measures_witness :
  (exists st', main_turn bench_tsc 1000 (Receives (-1)) first_sent = Ok st') /\ exists th', shard_round (m_threads first_sent) = Ok th'.
Proof.
  destruct (client_measures bench_tsc 1000 (over_uring_inv LATENCY_CFG ring_view sr_armed) bench_world first_sent) as (H1 & H2 & _).
  - reflexivity.
  - exact bench_fresh.
  - exact first_sent_reached.
  - split; [apply H1; split; [discriminate|intros E; discriminate E]|apply H2; discriminate].
Defined.

Lemma client_ends_witness : exists st', rtc (step bench_tsc 1000) first_sent st' /\ m_pc st' = Returned.
Proof.
  destruct (client_ends bench_tsc 1000 (over_uring_inv LATENCY_CFG ring_view sr_armed) bench_world first_sent) as (_ & H2).
  - reflexivity.
  - exact bench_fresh.
  - exact first_sent_reached.
  - apply H2; [discriminate|]. split; [discriminate|right; reflexivity].
Defined.

End BenchClient.
